(** * AWS Console Time Keeper: the URL time-range codec

    A shallow embedding of the JSURL codec ([jsurl.js]) and of the content
    script ([content.js], in its two revisions) into Rocq, followed by the
    properties of the specification that were checked against them.

    Conventions of the embedding.
    - A JavaScript string is the list of its UTF-16 code units ([jsstring]);
      [js "..."] turns an ASCII literal into such a list.
    - A JavaScript number is modelled on the integer fragment of the doubles
      ([Int z]) together with [NaN].  Epoch milliseconds and second offsets,
      the only numbers the codec is used for, are integers far below 2^53,
      where doubles are exact.
    - A JavaScript object is the list of its own enumerable properties in the
      order [Object.keys] reports them.
    - The mutable cursor [pos.i] of the parser and the page address
      [window.location] are threaded explicitly; [Date.now()] is an argument.
    - A loop that may run forever takes a [fuel]; [Timeout] then means that no
      result was produced within that fuel. *)

From Stdlib Require Import Ascii String.
From Stdlib Require Import List NArith ZArith Bool Lia Arith DecimalPos Permutation.
Import ListNotations.

Set Warnings "-register-all".

Set Implicit Arguments.
Local Open Scope N_scope.

(** ** JavaScript strings and numbers *)

Module JS.

Definition char := N.
Definition jsstring := list char.

Definition js (s : string) : jsstring :=
  map N_of_ascii (list_ascii_of_string s).

Definition c_tilde  : char := Eval cbv in N_of_ascii "~".
Definition c_lparen : char := Eval cbv in N_of_ascii "(".
Definition c_rparen : char := Eval cbv in N_of_ascii ")".
Definition c_quote  : char := Eval cbv in N_of_ascii "'".
Definition c_bang   : char := Eval cbv in N_of_ascii "!".
Definition c_star   : char := Eval cbv in N_of_ascii "*".
Definition c_pct    : char := Eval cbv in N_of_ascii "%".
Definition c_dollar : char := Eval cbv in N_of_ascii "$".
Definition c_minus  : char := Eval cbv in N_of_ascii "-".
Definition c_plus   : char := Eval cbv in N_of_ascii "+".
Definition c_amp    : char := Eval cbv in N_of_ascii "&".
Definition c_semi   : char := Eval cbv in N_of_ascii ";".
Definition c_quest  : char := Eval cbv in N_of_ascii "?".
Definition c_eq     : char := Eval cbv in N_of_ascii "=".
Definition c_hash   : char := Eval cbv in N_of_ascii "#".
Definition c_n      : char := Eval cbv in N_of_ascii "n".
Definition c_t      : char := Eval cbv in N_of_ascii "t".
Definition c_f      : char := Eval cbv in N_of_ascii "f".
Definition c_0      : char := Eval cbv in N_of_ascii "0".
Definition c_2      : char := Eval cbv in N_of_ascii "2".
Definition c_5      : char := Eval cbv in N_of_ascii "5".

Fixpoint str_eqb (a b : jsstring) : bool :=
  match a, b with
  | [], [] => true
  | x :: a', y :: b' => (x =? y) && str_eqb a' b'
  | _, _ => false
  end.

(** [s.charAt(i)]: [None] stands for the empty string returned out of range. *)
Definition charAt (s : jsstring) (i : nat) : option char := nth_error s i.

(** [c === "x"] for the result of [charAt]. *)
Definition is_char (c : option char) (x : char) : bool :=
  match c with
  | Some y => y =? x
  | None => false
  end.

(** [s.substring(a, b)] for [a <= b]; both ends are clamped to the length. *)
Definition substring (s : jsstring) (a b : nat) : jsstring :=
  firstn (b - a) (skipn a s).

Fixpoint startsWith (s p : jsstring) : bool :=
  match p, s with
  | [], _ => true
  | x :: p', y :: s' => (x =? y) && startsWith s' p'
  | _ :: _, [] => false
  end.

(** [s.includes(p)]. *)
Fixpoint includes (s p : jsstring) : bool :=
  startsWith s p ||
  match s with
  | [] => false
  | _ :: s' => includes s' p
  end.

(** [s.indexOf(p)]; [None] stands for -1. *)
Fixpoint indexOf (s p : jsstring) : option nat :=
  if startsWith s p then Some O
  else match s with
       | [] => None
       | _ :: s' => option_map S (indexOf s' p)
       end.

(** [a.join(sep)]. *)
Fixpoint join (sep : jsstring) (l : list jsstring) : jsstring :=
  match l with
  | [] => []
  | [x] => x
  | x :: l' => x ++ sep ++ join sep l'
  end.

(** ASCII case folding, as the [i] flag of a regular expression without
    the [u] flag compares an ASCII pattern character: a code unit above
    0x7F never matches an ASCII one. *)
Definition upper (c : char) : char :=
  if (97 <=? c) && (c <=? 122) then c - 32 else c.

Fixpoint startsWith_ci (s p : jsstring) : bool :=
  match p, s with
  | [], _ => true
  | x :: p', y :: s' => (upper x =? upper y) && startsWith_ci s' p'
  | _ :: _, [] => false
  end.

(** *** Numbers *)

Inductive number :=
| Int (z : Z)
| NaN.

Definition isFinite (n : number) : bool :=
  match n with Int _ => true | NaN => false end.

Definition isNaN (n : number) : bool :=
  match n with Int _ => false | NaN => true end.

Definition add (a b : number) : number :=
  match a, b with
  | Int x, Int y => Int (x + y)
  | _, _ => NaN
  end.

Definition sub (a b : number) : number :=
  match a, b with
  | Int x, Int y => Int (x - y)
  | _, _ => NaN
  end.

Definition mul (a b : number) : number :=
  match a, b with
  | Int x, Int y => Int (x * y)
  | _, _ => NaN
  end.

(** [a < b]: every comparison with [NaN] is false. *)
Definition lt (a b : number) : bool :=
  match a, b with
  | Int x, Int y => Z.ltb x y
  | _, _ => false
  end.

Definition is_digit (c : char) : bool := (48 <=? c) && (c <=? 57).

Fixpoint chars_of_uint (u : Decimal.uint) : jsstring :=
  match u with
  | Decimal.Nil => []
  | Decimal.D0 u' => 48 :: chars_of_uint u'
  | Decimal.D1 u' => 49 :: chars_of_uint u'
  | Decimal.D2 u' => 50 :: chars_of_uint u'
  | Decimal.D3 u' => 51 :: chars_of_uint u'
  | Decimal.D4 u' => 52 :: chars_of_uint u'
  | Decimal.D5 u' => 53 :: chars_of_uint u'
  | Decimal.D6 u' => 54 :: chars_of_uint u'
  | Decimal.D7 u' => 55 :: chars_of_uint u'
  | Decimal.D8 u' => 56 :: chars_of_uint u'
  | Decimal.D9 u' => 57 :: chars_of_uint u'
  end.

(** [String(z)] for an integer: decimal digits, with a minus sign below zero
    (integers of magnitude 10^21 and more, which JavaScript prints with an
    exponent, are outside the use of the codec). *)
Definition string_of_Z (z : Z) : jsstring :=
  match z with
  | Z0 => [48]
  | Zpos p => chars_of_uint (Pos.to_uint p)
  | Zneg p => c_minus :: chars_of_uint (Pos.to_uint p)
  end.

Definition number_to_string (n : number) : jsstring :=
  match n with
  | Int z => string_of_Z z
  | NaN => js "NaN"
  end.

(** White space and line terminators, as [parseInt] and [Number] trim them. *)
Definition is_space (c : char) : bool :=
  ((9 <=? c) && (c <=? 13)) || (c =? 32) || (c =? 160) || (c =? 5760) ||
  ((8192 <=? c) && (c <=? 8202)) || (c =? 8232) || (c =? 8233) ||
  (c =? 8239) || (c =? 8287) || (c =? 12288) || (c =? 65279).

Fixpoint trim_start (s : jsstring) : jsstring :=
  match s with
  | c :: s' => if is_space c then trim_start s' else s
  | [] => []
  end.

Definition trim (s : jsstring) : jsstring :=
  rev (trim_start (rev (trim_start s))).

(** The value of a digit in the given radix, if it is one. *)
Definition digit_value (radix : N) (c : char) : option N :=
  let v :=
    if is_digit c then Some (c - 48)
    else if (97 <=? c) && (c <=? 122) then Some (c - 87)
    else if (65 <=? c) && (c <=? 90) then Some (c - 55)
    else None in
  match v with
  | Some d => if d <? radix then Some d else None
  | None => None
  end.

(** The longest prefix of digits, read in the given radix; [None] when the
    text does not start with a digit. *)
Fixpoint read_digits (radix : N) (s : jsstring) (acc : option N) : option N :=
  match s with
  | [] => acc
  | c :: s' =>
    match digit_value radix c with
    | Some d =>
      read_digits radix s'
        (Some (match acc with Some a => a * radix + d | None => d end))
    | None => acc
    end
  end.

(** [parseInt(s, radix)] for radix 10 and 16: leading white space, a sign,
    for radix 16 an optional [0x], then the longest prefix of digits. *)
Definition parseInt (s : jsstring) (radix : N) : number :=
  let s := trim_start s in
  let '(neg, s) :=
    match s with
    | c :: s' =>
      if c =? c_minus then (true, s')
      else if c =? c_plus then (false, s') else (false, s)
    | [] => (false, s)
    end in
  let s :=
    if radix =? 16 then
      match s with
      | a :: b :: s' =>
        if (a =? 48) && ((b =? 120) || (b =? 88)) then s' else s
      | _ => s
      end
    else s in
  match read_digits radix s None with
  | Some n => Int (if neg then - Z.of_N n else Z.of_N n)
  | None => NaN
  end.

(** [Number(s)] on the integer fragment: white space is trimmed, the empty
    text is 0, a signed run of decimal digits is that integer.  Every other
    text is sent to [NaN]; this is exact for text that is no numeral, while
    numerals with a fraction, an exponent or a radix prefix, and [Infinity],
    denote doubles that this model of numbers does not represent. *)
Definition Number (s : jsstring) : number :=
  let s := trim s in
  match s with
  | [] => Int 0
  | c :: s' =>
    let '(neg, ds) :=
      if c =? c_minus then (true, s')
      else if c =? c_plus then (false, s') else (false, s) in
    if forallb is_digit ds then
      match read_digits 10 ds None with
      | Some n => Int (if neg then - Z.of_N n else Z.of_N n)
      | None => NaN
      end
    else NaN
  end.

(** [String.fromCharCode(n)]: the argument is taken modulo 2^16, [NaN] as 0. *)
Definition fromCharCode (n : number) : char :=
  match n with
  | Int z => Z.to_N (z mod 65536)
  | NaN => 0
  end.

Definition hex_digit_upper (d : N) : char :=
  if d <? 10 then 48 + d else 55 + d.

Fixpoint hex_upper_pos (p : positive) (fuel : nat) (acc : jsstring) : jsstring :=
  match fuel with
  | O => acc
  | S fuel' =>
    let n := Npos p in
    let acc' := hex_digit_upper (n mod 16) :: acc in
    match n / 16 with
    | N0 => acc'
    | Npos q => hex_upper_pos q fuel' acc'
    end
  end.

(** [code.toString(16).toUpperCase()] for a code unit. *)
Definition toString16Upper (code : N) : jsstring :=
  match code with
  | N0 => [48]
  | Npos p => hex_upper_pos p (N.to_nat (N.size code)) []
  end.

(** *** Regular expressions

    The patterns of the content script are a literal followed by a greedy
    character class or by a signed integer.  Each is written as a matcher
    anchored at the start of a text: it returns the matched text, the
    captured groups and the rest.  [search] finds the leftmost match. *)

Definition matcher := jsstring -> option (jsstring * list jsstring * jsstring).

(** The longest prefix of characters of the class, and the rest. *)
Fixpoint span (cls : char -> bool) (s : jsstring) : jsstring * jsstring :=
  match s with
  | [] => ([], [])
  | c :: s' =>
    if cls c then let '(a, b) := span cls s' in (c :: a, b) else ([], s)
  end.

(** A literal, compared case-insensitively under the [i] flag. *)
Definition match_lit (ci : bool) (lit s : jsstring)
  : option (jsstring * jsstring) :=
  if (if ci then startsWith_ci s lit else startsWith s lit)
  then Some (firstn (length lit) s, skipn (length lit) s)
  else None.

(** A signed integer: an optional minus sign and at least one digit. *)
Definition match_int (s : jsstring) : option (jsstring * jsstring) :=
  let '(sign, r) :=
    match s with
    | c :: r => if c =? c_minus then ([c], r) else ([], s)
    | [] => ([], s)
    end in
  match span is_digit r with
  | ([], _) => None
  | (ds, rest) => Some (sign ++ ds, rest)
  end.

(** One character of a class. *)
Definition match_one (cls : char -> bool) (s : jsstring)
  : option (jsstring * jsstring) :=
  match s with
  | c :: r => if cls c then Some ([c], r) else None
  | [] => None
  end.

(** A literal followed by a greedy run of a class; the run is the one
    captured group when [capture] is set. *)
Definition re_param (ci : bool) (lit : jsstring) (cls : char -> bool)
    (capture : bool) : matcher :=
  fun s =>
    match match_lit ci lit s with
    | Some (l, r) =>
      let '(v, rest) := span cls r in
      Some (l ++ v, if capture then [v] else [], rest)
    | None => None
    end.

(** A literal followed by a signed integer; the whole match is the one
    captured group when [capture] is set. *)
Definition re_lit_int (ci : bool) (lit : jsstring) (capture : bool)
  : matcher :=
  fun s =>
    match match_lit ci lit s with
    | Some (l, r) =>
      match match_int r with
      | Some (n, rest) => Some (l ++ n, if capture then [l ++ n] else [], rest)
      | None => None
      end
    | None => None
    end.

(** One character of a class, a literal and a signed integer, with one
    captured group: the integer when [capture_int] is set, the leading
    character otherwise. *)
Definition re_sep_lit_int (cls : char -> bool) (lit : jsstring)
    (capture_int : bool) : matcher :=
  fun s =>
    match match_one cls s with
    | Some (c, r) =>
      match match_lit false lit r with
      | Some (l, r') =>
        match match_int r' with
        | Some (n, rest) =>
          Some (c ++ l ++ n, [if capture_int then n else c], rest)
        | None => None
        end
      | None => None
      end
    | None => None
    end.

(** The leftmost match: the text before it, the match, its captures and
    the text after it. *)
Fixpoint search (m : matcher) (s : jsstring)
  : option (jsstring * jsstring * list jsstring * jsstring) :=
  match m s with
  | Some (matched, caps, rest) => Some ([], matched, caps, rest)
  | None =>
    match s with
    | [] => None
    | c :: s' =>
      match search m s' with
      | Some (pre, matched, caps, post) => Some (c :: pre, matched, caps, post)
      | None => None
      end
    end
  end.

(** The replacement patterns of [String.prototype.replace] with a string as
    second argument: a dollar sign followed by a dollar sign, an ampersand,
    a backquote, a quote, or the number of an existing group; any other
    dollar sign stands for itself. *)
Fixpoint expand (template matched pre post : jsstring)
    (caps : list jsstring) : jsstring :=
  match template with
  | [] => []
  | c :: t1 =>
    if c =? c_dollar then
      match t1 with
      | [] => [c]
      | d :: t2 =>
        if d =? c_dollar then c_dollar :: expand t2 matched pre post caps
        else if d =? c_amp then matched ++ expand t2 matched pre post caps
        else if d =? 96 then pre ++ expand t2 matched pre post caps
        else if d =? c_quote then post ++ expand t2 matched pre post caps
        else if is_digit d then
          let one := N.to_nat (d - 48) in
          let single :=
            if (1 <=? one)%nat && (one <=? length caps)%nat
            then nth (one - 1) caps [] ++ expand t2 matched pre post caps
            else c :: expand t1 matched pre post caps in
          match t2 with
          | e :: t3 =>
            let two := (one * 10 + N.to_nat (e - 48))%nat in
            if is_digit e && (1 <=? two)%nat && (two <=? length caps)%nat
            then nth (two - 1) caps [] ++ expand t3 matched pre post caps
            else single
          | [] => single
          end
        else c :: expand t1 matched pre post caps
      end
    else c :: expand t1 matched pre post caps
  end.

(** [s.replace(re, template)] for a pattern without the [g] flag. *)
Definition replace (m : matcher) (template s : jsstring) : jsstring :=
  match search m s with
  | Some (pre, matched, caps, post) =>
    pre ++ expand template matched pre post caps ++ post
  | None => s
  end.

(** [s.replace(/lit/gi, by)] for a replacement without dollar signs; the
    counter [n] is initialised to the length of the text. *)
Fixpoint replace_all_ci (n : nat) (lit by_ s : jsstring) : jsstring :=
  match n with
  | O => s
  | S n' =>
    match s with
    | [] => []
    | c :: s' =>
      if startsWith_ci s lit
      then by_ ++ replace_all_ci n' lit by_ (skipn (length lit) s)
      else c :: replace_all_ci n' lit by_ s'
    end
  end.

(** [s.replace(/^#/, "")]. *)
Definition strip_hash (s : jsstring) : jsstring :=
  match s with
  | c :: s' => if c =? c_hash then s' else s
  | [] => []
  end.

(** *** Exceptions and outcomes of a call *)

Inductive exn := TypeError | URIError | RangeError.

(** What a call does: it returns, it throws, or it is still running when
    the fuel is spent. *)
Inductive outcome (A : Type) :=
| Return (a : A)
| Throw (e : exn)
| Timeout.

Arguments Return {A} a.
Arguments Throw {A} e.
Arguments Timeout {A}.

Definition bind {A B} (m : outcome A) (k : A -> outcome B) : outcome B :=
  match m with
  | Return a => k a
  | Throw e => Throw e
  | Timeout => Timeout
  end.

(** [try { body } catch (e) { handler }]. *)
Definition try_catch {A} (body : outcome A) (handler : exn -> outcome A)
  : outcome A :=
  match body with
  | Throw e => handler e
  | other => other
  end.

End JS.

Notation "x <- m ;; k" := (JS.bind m (fun x => k))
  (at level 61, m at next level, right associativity).

(** ** jsurl.js: the compact value codec *)

Module JSURL.
Import JS.

(** The values the codec handles.  [Obj] lists the own properties in the
    order of [Object.keys]. *)
Inductive value :=
| Undefined
| Null
| Bool (b : bool)
| Num (n : number)
| Str (s : jsstring)
| Arr (items : list value)
| Obj (props : list (jsstring * value)).

(** Truthiness, as [!v], [v || d] and [if (v)] test it. *)
Definition truthy (v : value) : bool :=
  match v with
  | Undefined | Null => false
  | Bool b => b
  | Num (Int z) => negb (Z.eqb z 0)
  | Num NaN => false
  | Str s => match s with [] => false | _ => true end
  | Arr _ | Obj _ => true
  end.

(** [v || d]. *)
Definition or_else (v d : value) : value := if truthy v then v else d.

(** *** Own properties of an object *)

(** A key is an array index when it is the canonical decimal spelling of an
    integer below 2^32 - 1; [Object.keys] lists such keys first, in
    ascending order, and the other keys after them in insertion order. *)
Definition array_index (k : jsstring) : option N :=
  match k with
  | [] => None
  | c :: rest =>
    if forallb is_digit k && (negb (c =? 48) || match rest with [] => true | _ => false end)
    then match read_digits 10 k None with
         | Some n => if n <? 4294967295 then Some n else None
         | None => None
         end
    else None
  end.

Definition proto_key : jsstring := Eval cbv in js "__proto__".

Fixpoint has_key (props : list (jsstring * value)) (k : jsstring) : bool :=
  match props with
  | [] => false
  | (k', _) :: rest => str_eqb k' k || has_key rest k
  end.

Fixpoint update (props : list (jsstring * value)) (k : jsstring) (v : value)
  : list (jsstring * value) :=
  match props with
  | [] => []
  | (k', v') :: rest =>
    if str_eqb k' k then (k', v) :: rest else (k', v') :: update rest k v
  end.

(** Insert the new array index [n] (spelled [k]) before the first key that
    is not a smaller array index. *)
Fixpoint insert_index (props : list (jsstring * value)) (n : N)
    (k : jsstring) (v : value) : list (jsstring * value) :=
  match props with
  | [] => [(k, v)]
  | (k', v') :: rest =>
    match array_index k' with
    | Some m => if m <? n then (k', v') :: insert_index rest n k v
                else (k, v) :: props
    | None => (k, v) :: props
    end
  end.

(** [obj[k] = v] on an object that was created by [{}].  Assigning to
    [__proto__] goes to the prototype setter and creates no own property.
    The prototype that the setter installs for an object or [null] is not
    part of the model, which keeps the own properties only. *)
Definition obj_set (props : list (jsstring * value)) (k : jsstring)
    (v : value) : list (jsstring * value) :=
  if str_eqb k proto_key then props
  else if has_key props k then update props k v
  else match array_index k with
       | Some n => insert_index props n k v
       | None => props ++ [(k, v)]
       end.

Fixpoint lookup (props : list (jsstring * value)) (k : jsstring) : value :=
  match props with
  | [] => Undefined
  | (k', v) :: rest => if str_eqb k' k then v else lookup rest k
  end.

(** [v.name] for the property names the content script reads ([start],
    [end], [timeType], [unit], [value], [period], [timeRange]): none of them
    is inherited from [Object.prototype], [Array.prototype] or the
    prototype of a primitive, so the primitives and arrays answer
    [undefined] and an object answers with its own property. *)
Definition get (v : value) (k : jsstring) : value :=
  match v with
  | Obj props => lookup props k
  | _ => Undefined
  end.

(** *** Encoding *)

(** [_encode(ch)], with [_encodeMap = { "'": "!", "!": "'" }]. *)
Definition _encode (ch : char) : jsstring :=
  if ch =? c_quote then [c_bang]
  else if ch =? c_bang then [c_quote]
  else if ch <=? 127 then c_star :: toString16Upper ch
  else c_star :: c_star :: toString16Upper ch.

(** [s.replace(/[...]/g, f)]: every character of the class is replaced by
    what the function returns for it. *)
Definition replace_class (cls : char -> bool) (f : char -> jsstring)
    (s : jsstring) : jsstring :=
  flat_map (fun c => if cls c then f c else [c]) s.

(** The class [[!'*]]. *)
Definition cls_value (c : char) : bool :=
  (c =? c_bang) || (c =? c_quote) || (c =? c_star).

(** The class [[!'*%]]. *)
Definition cls_key (c : char) : bool :=
  (c =? c_bang) || (c =? c_quote) || (c =? c_star) || (c =? c_pct).

Definition lit_null : jsstring := Eval cbv in js "~null".
Definition word_null : jsstring := Eval cbv in js "null".
Definition lit_true : jsstring := Eval cbv in js "true".
Definition lit_false : jsstring := Eval cbv in js "false".
Definition lit_pct : jsstring := Eval cbv in js "*25".

(** [x || "~null"] on strings: the empty string is falsy. *)
Definition or_null (x : jsstring) : jsstring :=
  match x with [] => lit_null | _ => x end.

(** [_stringify(v)]. *)
Fixpoint _stringify (v : value) : jsstring :=
  match v with
  | Undefined => []
  | Null => lit_null
  | Num n => if isFinite n then c_tilde :: number_to_string n else lit_null
  | Bool b => c_tilde :: (if b then lit_true else lit_false)
  | Str s =>
    c_tilde :: c_quote ::
      replace_class (fun c => c =? c_pct) (fun _ => lit_pct)
        (replace_class cls_value _encode s)
  | Arr items =>
    c_tilde :: c_lparen ::
      concat (map (fun item => or_null (_stringify item)) items) ++ [c_rparen]
  | Obj props =>
    c_tilde :: c_lparen ::
      join [c_tilde]
        (flat_map (fun kv =>
           let val := _stringify (snd kv) in
           match val with
           | [] => []
           | _ => [replace_class cls_key _encode (fst kv) ++ val]
           end) props) ++ [c_rparen]
  end.

Definition stringify (v : value) : jsstring := _stringify v.

(** *** Decoding *)

(** The cursor [pos.i] is threaded through: every function takes the
    position and returns the new one with its result.  The three scanning
    loops below advance by at least one character per turn, so they are
    written by recursion on a counter [n] that is initialised to the number
    of characters left; their guard [pos.i < str.length] is the case
    [charAt str i = Some ch]. *)

(** The key loop of the object branch. *)
Fixpoint parse_key (n : nat) (str : jsstring) (i : nat) (key : jsstring)
  : jsstring * nat :=
  match n with
  | O => (key, i)
  | S n' =>
    match charAt str i with
    | None => (key, i)
    | Some ch =>
      if (ch =? c_tilde) || (ch =? c_rparen) || (ch =? c_lparen) then (key, i)
      else if ch =? c_bang then parse_key n' str (i + 1) (key ++ [c_quote])
      else if ch =? c_star then
        let i := (i + 1)%nat in
        if is_char (charAt str i) c_star then
          let i := (i + 1)%nat in
          let code := substring str i (i + 4) in
          parse_key n' str (i + 4) (key ++ [fromCharCode (parseInt code 16)])
        else
          let code2 := substring str i (i + 2) in
          parse_key n' str (i + 2) (key ++ [fromCharCode (parseInt code2 16)])
      else parse_key n' str (i + 1) (key ++ [ch])
    end
  end.

(** The loop of the string branch. *)
Fixpoint parse_string (n : nat) (str : jsstring) (i : nat) (s : jsstring)
  : jsstring * nat :=
  match n with
  | O => (s, i)
  | S n' =>
    match charAt str i with
    | None => (s, i)
    | Some ch =>
      if (ch =? c_tilde) || (ch =? c_rparen) then (s, i)
      else if ch =? c_bang then parse_string n' str (i + 1) (s ++ [c_quote])
      else if ch =? c_star then
        let i := (i + 1)%nat in
        if is_char (charAt str i) c_star then
          let i := (i + 1)%nat in
          let hexCode := substring str i (i + 4) in
          parse_string n' str (i + 4)
            (s ++ [fromCharCode (parseInt hexCode 16)])
        else if is_char (charAt str i) c_2 && is_char (charAt str (i + 1)) c_5
        then parse_string n' str (i + 2) (s ++ [c_pct])
        else
          let hexCode2 := substring str i (i + 2) in
          parse_string n' str (i + 2)
            (s ++ [fromCharCode (parseInt hexCode2 16)])
      else parse_string n' str (i + 1) (s ++ [ch])
    end
  end.

(** The loop of the number branch. *)
Fixpoint parse_number (n : nat) (str : jsstring) (i : nat) (numStr : jsstring)
  : jsstring * nat :=
  match n with
  | O => (numStr, i)
  | S n' =>
    match charAt str i with
    | None => (numStr, i)
    | Some ch =>
      if (ch =? c_tilde) || (ch =? c_rparen) then (numStr, i)
      else parse_number n' str (i + 1) (numStr ++ [ch])
    end
  end.

(** The test that guards the skip of a separator [~] after a value of an
    object: the character after the [~] must not look like the start of a
    value. *)
Definition starts_value (c : option char) : bool :=
  match c with
  | None => false
  | Some c =>
    (c =? c_lparen) || (c =? c_quote) || (c =? c_n) || (c =? c_t) ||
    (c =? c_f) || is_digit c || (c =? c_minus)
  end.

(** [_parse(str, pos)], with the two do-while loops of the array and of the
    object branch: what the call returns, with the new cursor.  [Timeout]:
    the fuel is spent.

    [arr.push] throws a [RangeError] (invalid array length) when the array
    cannot grow any more.  In the array loop this is how a turn that
    leaves the cursor where it was ends, and no other: [_parse] reads
    nothing but the text and the cursor, so such a turn is repeated
    unchanged, pushing [undefined] each time, until the push throws,
    whereas the turns that move the cursor are fewer than the characters
    of the text, which are fewer than the elements an array has room for.
    The loop is modelled by the exception it ends with.  The object loop
    assigns to the empty key in a turn that does not move: nothing grows,
    and it runs for ever. *)
Fixpoint _parse (fuel : nat) (str : jsstring) (i : nat) {struct fuel}
  : outcome (value * nat) :=
  match fuel with
  | O => Timeout
  | S fuel' =>
    match charAt str i with
    | None => Return (Undefined, i)
    | Some ch =>
      if ch =? c_tilde then
        let i := (i + 1)%nat in
        let ch := charAt str i in
        if is_char ch c_lparen then
          let i := (i + 1)%nat in
          if is_char (charAt str i) c_rparen then Return (Arr [], (i + 1)%nat)
          else if is_char (charAt str i) c_tilde
          then array_loop fuel' str i []
          else object_loop fuel' str i []
        else if is_char ch c_quote then
          let '(s, j) := parse_string (length str - (i + 1)) str (i + 1) [] in
          Return (Str s, j)
        else if is_char ch c_n then
          if str_eqb (substring str i (i + 4)) word_null
          then Return (Null, (i + 4)%nat) else Return (Undefined, i)
        else if is_char ch c_t then
          if str_eqb (substring str i (i + 4)) lit_true
          then Return (Bool true, (i + 4)%nat) else Return (Undefined, i)
        else if is_char ch c_f then
          if str_eqb (substring str i (i + 5)) lit_false
          then Return (Bool false, (i + 5)%nat) else Return (Undefined, i)
        else
          let '(numStr, j) := parse_number (length str - i) str i [] in
          Return (Num (Number numStr), j)
      else Return (Undefined, i)
    end
  end

with array_loop (fuel : nat) (str : jsstring) (i : nat) (arr : list value)
    {struct fuel} : outcome (value * nat) :=
  match fuel with
  | O => Timeout
  | S fuel' =>
    match _parse fuel' str i with
    | Return (v, j) =>
      let arr := arr ++ [v] in
      if negb (is_char (charAt str j) c_rparen) && (j <? length str)%nat
      then if (j =? i)%nat then Throw RangeError
           else array_loop fuel' str j arr
      else Return (Arr arr, (j + 1)%nat)
    | Throw e => Throw e
    | Timeout => Timeout
    end
  end

with object_loop (fuel : nat) (str : jsstring) (i : nat)
    (obj : list (jsstring * value)) {struct fuel} : outcome (value * nat) :=
  match fuel with
  | O => Timeout
  | S fuel' =>
    let '(key, i) := parse_key (length str - i) str i [] in
    match _parse fuel' str i with
    | Return (v, j) =>
      let obj := obj_set obj key v in
      let j :=
        if is_char (charAt str j) c_tilde
           && negb (starts_value (charAt str (j + 1)))
        then (j + 1)%nat else j in
      if negb (is_char (charAt str j) c_rparen) && (j <? length str)%nat
      then object_loop fuel' str j obj
      else Return (Obj obj, (j + 1)%nat)
    | Throw e => Throw e
    | Timeout => Timeout
    end
  end.

(** [JSURL.parse(str)]. *)
Definition parse (fuel : nat) (str : jsstring) : outcome value :=
  match str with
  | [] => Return Undefined
  | _ =>
    match _parse fuel str 0 with
    | Return (v, _) => Return v
    | Throw e => Throw e
    | Timeout => Timeout
    end
  end.

(** [JSURL.tryParse(str, defaultValue)]. *)
Definition tryParse (fuel : nat) (str : jsstring) (defaultValue : value)
  : outcome value :=
  try_catch
    (v <- parse fuel str ;; Return (or_else v defaultValue))
    (fun _ => Return defaultValue).

End JSURL.

(** ** The platform functions the content script calls *)

Module Platform.
Import JS.

(** The byte written [%XY] at the start of a text, and the rest. *)
Definition read_escape (s : jsstring) : option (N * jsstring) :=
  match s with
  | p :: a :: b :: rest =>
    if p =? c_pct then
      match digit_value 16 a, digit_value 16 b with
      | Some x, Some y => Some (x * 16 + y, rest)
      | _, _ => None
      end
    else None
  | _ => None
  end.

(** [k] continuation bytes, each written as an escape, folded into [acc]. *)
Fixpoint read_continuation (k : nat) (s : jsstring) (acc : N)
  : option (N * jsstring) :=
  match k with
  | O => Some (acc, s)
  | S k' =>
    match read_escape s with
    | Some (b, rest) =>
      if (128 <=? b) && (b <=? 191)
      then read_continuation k' rest (acc * 64 + (b - 128))
      else None
    | None => None
    end
  end.

(** The UTF-16 code units of a code point. *)
Definition utf16 (cp : N) : jsstring :=
  if cp <? 65536 then [cp]
  else let v := cp - 65536 in [55296 + v / 1024; 56320 + v mod 1024].

Definition is_surrogate (cp : N) : bool := (55296 <=? cp) && (cp <=? 57343).

(** [decodeURIComponent(s)]: every escape is decoded; the escapes of a
    multi-byte character must spell well-formed UTF-8, else and for a
    truncated escape a [URIError] is thrown. *)
Fixpoint decodeURIComponent_from (n : nat) (s : jsstring)
  : outcome jsstring :=
  match n with
  | O => Return s
  | S n' =>
    match s with
    | [] => Return []
    | c :: s' =>
      if c =? c_pct then
        match read_escape s with
        | None => Throw URIError
        | Some (b, rest) =>
          if b <? 128 then
            r <- decodeURIComponent_from n' rest ;; Return (b :: r)
          else
            let multi (k : nat) (lead low : N) :=
              match read_continuation k rest lead with
              | Some (cp, rest') =>
                if (low <=? cp) && (cp <=? 1114111) && negb (is_surrogate cp)
                then r <- decodeURIComponent_from n' rest' ;;
                     Return (utf16 cp ++ r)
                else Throw URIError
              | None => Throw URIError
              end in
            if (192 <=? b) && (b <=? 223) then multi 1%nat (b - 192) 128
            else if (224 <=? b) && (b <=? 239) then multi 2%nat (b - 224) 2048
            else if (240 <=? b) && (b <=? 247) then multi 3%nat (b - 240) 65536
            else Throw URIError
        end
      else r <- decodeURIComponent_from n' s' ;; Return (c :: r)
    end
  end.

Definition decodeURIComponent (s : jsstring) : outcome jsstring :=
  decodeURIComponent_from (length s) s.

(** The characters [encodeURIComponent] leaves alone. *)
Definition unescaped (c : char) : bool :=
  is_digit c || ((65 <=? c) && (c <=? 90)) || ((97 <=? c) && (c <=? 122)) ||
  (c =? 45) || (c =? 95) || (c =? 46) || (c =? 33) || (c =? 126) ||
  (c =? 42) || (c =? 39) || (c =? 40) || (c =? 41).

Definition escape_byte (b : N) : jsstring :=
  [c_pct; hex_digit_upper (b / 16); hex_digit_upper (b mod 16)].

Definition utf8 (cp : N) : list N :=
  if cp <? 128 then [cp]
  else if cp <? 2048 then [192 + cp / 64; 128 + cp mod 64]
  else if cp <? 65536
  then [224 + cp / 4096; 128 + (cp / 64) mod 64; 128 + cp mod 64]
  else [240 + cp / 262144; 128 + (cp / 4096) mod 64;
        128 + (cp / 64) mod 64; 128 + cp mod 64].

(** [encodeURIComponent(s)]; a lone surrogate throws a [URIError]. *)
Fixpoint encodeURIComponent_from (n : nat) (s : jsstring)
  : outcome jsstring :=
  match n with
  | O => Return []
  | S n' =>
    match s with
    | [] => Return []
    | c :: s' =>
      if unescaped c then
        r <- encodeURIComponent_from n' s' ;; Return (c :: r)
      else if (56320 <=? c) && (c <=? 57343) then Throw URIError
      else if (55296 <=? c) && (c <=? 56319) then
        match s' with
        | d :: s'' =>
          if (56320 <=? d) && (d <=? 57343) then
            let cp := (c - 55296) * 1024 + (d - 56320) + 65536 in
            r <- encodeURIComponent_from n' s'' ;;
            Return (flat_map escape_byte (utf8 cp) ++ r)
          else Throw URIError
        | [] => Throw URIError
        end
      else
        r <- encodeURIComponent_from n' s' ;;
        Return (flat_map escape_byte (utf8 c) ++ r)
    end
  end.

Definition encodeURIComponent (s : jsstring) : outcome jsstring :=
  encodeURIComponent_from (length s) s.

(** [Math.floor(x / 1000)]. *)
Definition floor_div_1000 (x : number) : number :=
  match x with
  | Int z => Int (z / 1000)
  | NaN => NaN
  end.

(** *** The query of a URL

    [URLSearchParams] reads the query of a URL with the parser of the
    [application/x-www-form-urlencoded] format and, whenever the list of
    pairs is changed, writes the whole query anew with the serializer of
    that format. *)

Definition is_high (c : char) : bool := (55296 <=? c) && (c <=? 56319).

Definition is_low (c : char) : bool := (56320 <=? c) && (c <=? 57343).

(** The scalar values of a string; a lone surrogate reads as U+FFFD. *)
Fixpoint scalar_values (s : jsstring) : list N :=
  match s with
  | [] => []
  | c :: s' =>
    if is_high c then
      match s' with
      | d :: s'' =>
        if is_low d
        then ((c - 55296) * 1024 + (d - 56320) + 65536) :: scalar_values s''
        else 65533 :: scalar_values s'
      | [] => [65533]
      end
    else if is_low c then 65533 :: scalar_values s'
    else c :: scalar_values s'
  end.

(** The UTF-8 bytes of a string. *)
Definition utf8_encode (s : jsstring) : list N :=
  flat_map utf8 (scalar_values s).

(** The decoder of UTF-8 that puts U+FFFD for every ill-formed sequence:
    [cp] collects the code point, [needed] counts the continuation bytes
    still awaited, [lower] and [upper] bound the next one. *)
Fixpoint utf8_decode (bytes : list N) (cp : N) (needed : nat)
    (lower upper : N) : jsstring :=
  match bytes with
  | [] => match needed with O => [] | S _ => [65533] end
  | b :: rest =>
    let lead :=
      if b <? 128 then b :: utf8_decode rest 0 O 128 191
      else if (194 <=? b) && (b <=? 223)
      then utf8_decode rest (b - 192) 1%nat 128 191
      else if (224 <=? b) && (b <=? 239)
      then utf8_decode rest (b - 224) 2%nat
             (if b =? 224 then 160 else 128) (if b =? 237 then 159 else 191)
      else if (240 <=? b) && (b <=? 244)
      then utf8_decode rest (b - 240) 3%nat
             (if b =? 240 then 144 else 128) (if b =? 244 then 143 else 191)
      else 65533 :: utf8_decode rest 0 O 128 191 in
    match needed with
    | O => lead
    | S k =>
      if (lower <=? b) && (b <=? upper) then
        let cp' := cp * 64 + (b - 128) in
        match k with
        | O => utf16 cp' ++ utf8_decode rest 0 O 128 191
        | S _ => utf8_decode rest cp' k 128 191
        end
      else 65533 :: lead
    end
  end.

(** Percent-decoding of bytes: an escape that is not followed by two
    hexadecimal digits stands for itself. *)
Fixpoint percent_decode (bytes : list N) : list N :=
  match bytes with
  | [] => []
  | c :: s' =>
    if c =? c_pct then
      match s' with
      | a :: b :: rest =>
        match digit_value 16 a, digit_value 16 b with
        | Some x, Some y => (x * 16 + y) :: percent_decode rest
        | _, _ => c :: percent_decode s'
        end
      | _ => c :: percent_decode s'
      end
    else c :: percent_decode s'
  end.

(** The pieces of a text between the occurrences of a separator. *)
Fixpoint split_on (sep : N) (s : list N) : list (list N) :=
  match s with
  | [] => [[]]
  | c :: s' =>
    match split_on sep s' with
    | piece :: pieces =>
      if c =? sep then [] :: piece :: pieces else (c :: piece) :: pieces
    | [] => [[c]]
    end
  end.

Definition plus_to_space (s : list N) : list N :=
  map (fun c => if c =? c_plus then 32 else c) s.

Definition decode_component (bytes : list N) : jsstring :=
  utf8_decode (percent_decode (plus_to_space bytes)) 0 O 128 191.

(** The parser: the pairs of a query. *)
Definition parse_query (query : jsstring) : list (jsstring * jsstring) :=
  flat_map
    (fun piece =>
       match piece with
       | [] => []
       | _ :: _ =>
         match split_on c_eq piece with
         | name :: value :: more =>
           [(decode_component name,
             decode_component (join [c_eq] (value :: more)))]
         | _ => [(decode_component piece, [])]
         end
       end)
    (split_on c_amp (utf8_encode query)).

(** A byte of a name or of a value, as the serializer writes it. *)
Definition urlencoded_byte (b : N) : jsstring :=
  if b =? 32 then [c_plus]
  else if is_digit b || ((65 <=? b) && (b <=? 90)) || ((97 <=? b) && (b <=? 122))
          || (b =? 42) || (b =? 45) || (b =? 46) || (b =? 95)
  then [b]
  else escape_byte b.

Definition encode_component (s : jsstring) : jsstring :=
  flat_map urlencoded_byte (utf8_encode s).

(** The serializer: the query of a list of pairs. *)
Definition serialize_query (pairs : list (jsstring * jsstring)) : jsstring :=
  join [c_amp]
    (map (fun kv => encode_component (fst kv) ++ [c_eq]
                    ++ encode_component (snd kv)) pairs).

(** *** Civil time

    The proleptic Gregorian date of a day number counted from 1970-01-01. *)
Definition civil_from_days (days : Z) : Z * Z * Z :=
  let z := (days + 719468)%Z in
  let era := (z / 146097)%Z in
  let doe := (z mod 146097)%Z in
  let yoe := ((doe - doe / 1460 + doe / 36524 - doe / 146096) / 365)%Z in
  let doy := (doe - (365 * yoe + yoe / 4 - yoe / 100))%Z in
  let mp := ((5 * doy + 2) / 153)%Z in
  let d := (doy - (153 * mp + 2) / 5 + 1)%Z in
  let m := (if mp <? 10 then mp + 3 else mp - 9)%Z in
  let y := (yoe + era * 400 + (if m <=? 2 then 1 else 0))%Z in
  (y, m, d).

(** A non-negative integer in decimal, padded with zeros to [width]. *)
Definition pad (width : nat) (z : Z) : jsstring :=
  let ds := string_of_Z z in
  repeat c_0 (width - length ds) ++ ds.

(** The date and time of day of an instant shifted by [offset]
    milliseconds, as [YYYY-MM-DD], the separator [sep] and [HH:MM:SS]. *)
Definition civil_string (sep : char) (offset ms : Z) : jsstring :=
  let t := ((ms + offset) / 1000)%Z in
  let '(y, m, d) := civil_from_days (t / 86400) in
  let sod := (t mod 86400)%Z in
  pad 4 y ++ [c_minus] ++ pad 2 m ++ [c_minus] ++ pad 2 d ++ [sep] ++
  pad 2 (sod / 3600) ++ [58] ++ pad 2 ((sod / 60) mod 60) ++ [58] ++
  pad 2 (sod mod 60).

Definition year_of (offset ms : Z) : Z :=
  let '(y, _, _) := civil_from_days (((ms + offset) / 1000) / 86400) in y.

(** A reference model of the two date formatters of the content script,
    for instants of the years 1000 to 9999: the [format] of an
    [Intl.DateTimeFormat] with the locale [sv-SE], two-digit fields and the
    time zone [Asia/Tokyo] (nine hours ahead of UTC all year), which writes
    [YYYY-MM-DD HH:MM:SS], and [Date.prototype.toISOString].  Both throw a
    [RangeError] for an invalid date; the model also gives up that way
    outside these years, where the formatters change the layout of the
    year. *)
Definition sv_SE_Tokyo_format (ms : number) : outcome jsstring :=
  match ms with
  | Int z =>
    let y := year_of 32400000 z in
    if ((1000 <=? y) && (y <=? 9999))%Z
    then Return (civil_string 32 32400000 z) else Throw RangeError
  | NaN => Throw RangeError
  end.

Definition toISOString (ms : number) : outcome jsstring :=
  match ms with
  | Int z =>
    let y := year_of 0 z in
    if ((1000 <=? y) && (y <=? 9999))%Z
    then Return (civil_string 84 0 z ++ [46] ++ pad 3 (z mod 1000) ++ [90])
    else Throw RangeError
  | NaN => Throw RangeError
  end.

End Platform.

(** ** The content script

    [Content] embeds the content script as it stands in the second source
    file of the repository, after jsurl.js; [ContentOld] below embeds the
    functions of src/content/content.js, an earlier state of the same
    script, that differ from it. *)

Module Content.
Import JS JSURL Platform.

(** *** Service detection *)

Inductive service :=
| CloudwatchMetrics
| CloudwatchLogsInsights
| CloudwatchLogs
| Xray
| CloudwatchGeneric
| CloudwatchOther
| Unknown
| NotAws.

(** The tag [detectService] returns for each service. *)
Definition service_name (s : service) : jsstring :=
  match s with
  | CloudwatchMetrics => js "cloudwatch-metrics"
  | CloudwatchLogsInsights => js "cloudwatch-logs-insights"
  | CloudwatchLogs => js "cloudwatch-logs"
  | Xray => js "xray"
  | CloudwatchGeneric => js "cloudwatch-generic"
  | CloudwatchOther => js "cloudwatch-other"
  | Unknown => js "unknown"
  | NotAws => js "not-aws"
  end.

(** [detectService()], of [window.location.href], [.pathname], [.hash]. *)
Definition detectService (url pathname hash : jsstring) : service :=
  if includes pathname (js "/cloudwatch") && includes hash (js "metricsV2")
  then CloudwatchMetrics
  else if includes pathname (js "/cloudwatch")
          && includes hash (js "logsV2:log-groups")
          && includes hash (js "logs-insights")
  then CloudwatchLogsInsights
  else if includes pathname (js "/cloudwatch")
          && (includes hash (js "logs-insights")
              || includes hash (js "logsV2")
                 && (includes hash (js "queryDetail")
                     || includes hash (js "queryDetail$3D")))
  then CloudwatchLogsInsights
  else if includes pathname (js "/cloudwatch")
          && includes hash (js "logsV2:log-groups")
          && (includes hash (js "$3Fstart$3D") || includes hash (js "?start="))
  then CloudwatchLogs
  else if includes pathname (js "/xray") || includes pathname (js "/x-ray")
  then Xray
  else if includes pathname (js "/cloudwatch") then
    if includes hash (js "?~(") then CloudwatchGeneric else CloudwatchOther
  else if includes url (js ".console.aws.amazon.com") then Unknown
  else NotAws.

(** *** Time ranges *)

(** The [raw] field of a captured range. *)
Inductive raw_info :=
| RawRelativeSeconds (seconds : number)
| RawRelativeUnit (unit value : value)
| RawRelativeMs (startMs : number) (endMs : option number)
| RawAbsolute
| RawAbsoluteArray.

Record time_range := {
  start : number;
  end_ : number;
  source : jsstring;
  raw : raw_info
}.

(** *** Helpers on values *)

(** [v != null]. *)
Definition not_nullish (v : value) : bool :=
  match v with
  | Undefined | Null => false
  | _ => true
  end.

(** [v === "text"]. *)
Definition is_str (v : value) (text : jsstring) : bool :=
  match v with
  | Str s => str_eqb s text
  | _ => false
  end.

(** [String(v)], as [parseInt] and a property access convert their
    argument.  An object that was decoded from an address has no function
    among its properties, so with a property [toString] of its own it
    cannot be converted and a [TypeError] is thrown; an array is joined
    from the strings of its elements. *)
Fixpoint to_primitive_string (v : value) : outcome jsstring :=
  match v with
  | Undefined => Return (js "undefined")
  | Null => Return (js "null")
  | Bool b => Return (if b then lit_true else lit_false)
  | Num n => Return (number_to_string n)
  | Str s => Return s
  | Arr items =>
    parts <-
      (fix elements (l : list value) : outcome (list jsstring) :=
         match l with
         | [] => Return []
         | item :: l' =>
           x <- match item with
                | Undefined | Null => Return []
                | _ => to_primitive_string item
                end ;;
           xs <- elements l' ;;
           Return (x :: xs)
         end) items ;;
    Return (join (js ",") parts)
  | Obj props =>
    if has_key props (js "toString") then Throw TypeError
    else Return (js "[object Object]")
  end.

(** [typeof v === "number" ? v : parseInt(v, 10)]. *)
Definition number_or_parseInt (v : value) : outcome number :=
  match v with
  | Num n => Return n
  | _ => s <- to_primitive_string v ;; Return (parseInt s 10)
  end.

(** [v.name = x] in strict mode: a primitive throws a [TypeError]; on an
    array the property is set beside the elements, which are all that
    [_stringify] reads. *)
Definition set_prop (v : value) (name : jsstring) (x : value)
  : outcome value :=
  match v with
  | Obj props => Return (Obj (obj_set props name x))
  | Arr items => Return (Arr items)
  | _ => Throw TypeError
  end.

(** The names every object inherits from [Object.prototype]. *)
Definition inherited_names : list jsstring :=
  map js ["constructor"; "hasOwnProperty"; "isPrototypeOf";
          "propertyIsEnumerable"; "toLocaleString"; "toString"; "valueOf";
          "__proto__"; "__defineGetter__"; "__defineSetter__";
          "__lookupGetter__"; "__lookupSetter__"]%string.

(** The factor [multipliers[unit] || 1000] contributes to a product, for
    [multipliers = { s: 1000, m: 60000, h: 3600000, d: 86400000 }]: an
    inherited member is a function or an object, and its product with a
    number is [NaN]. *)
Definition multiplier (unit : jsstring) : number :=
  if str_eqb unit (js "s") then Int 1000
  else if str_eqb unit (js "m") then Int 60000
  else if str_eqb unit (js "h") then Int 3600000
  else if str_eqb unit (js "d") then Int 86400000
  else if existsb (str_eqb unit) inherited_names then NaN
  else Int 1000.

Definition not_amp_semi (c : char) : bool :=
  negb ((c =? c_amp) || (c =? c_semi)).

Definition not_amp (c : char) : bool := negb (c =? c_amp).

Definition quest_or_amp (c : char) : bool := (c =? c_quest) || (c =? c_amp).

(** *** Parsers *)

(** The first group of a match. *)
Definition group1 (caps : list jsstring) : jsstring := nth 0 caps [].

(** [parseCloudWatchLogsInsights()], of [window.location.hash], with
    [Date.now()] as [now]. *)
Definition parseCloudWatchLogsInsights (fuel : nat) (now : Z)
    (hash : jsstring) : outcome (option time_range) :=
  try_catch
    (objA <-
       match search (re_param false (js "queryDetail=") not_amp_semi true)
               hash with
       | Some (_, _, caps, _) =>
         let encoded :=
           map (fun c => if c =? c_dollar then c_pct else c) (group1 caps) in
         try_catch
           (decoded <- decodeURIComponent encoded ;;
            tryParse fuel decoded Null)
           (fun _ => Return Null)
       | None => Return Null
       end ;;
     obj <-
       (if truthy objA then Return objA
        else
          match search (re_param true (js "queryDetail$3D") not_amp_semi true)
                  hash with
          | Some (_, _, caps, _) => tryParse fuel (group1 caps) Null
          | None => Return objA
          end) ;;
     if negb (truthy obj) then Return None
     else if not_nullish (get obj (js "start"))
             && not_nullish (get obj (js "end"))
     then
       if is_str (get obj (js "timeType")) (js "RELATIVE")
          || match get obj (js "start") with
             | Num n => lt n (Int 0)
             | _ => false
             end
       then
         startSec <- number_or_parseInt (get obj (js "start")) ;;
         Return (Some {| start := add (Int now) (mul startSec (Int 1000));
                         end_ := Int now;
                         source := js "CloudWatch Logs Insights";
                         raw := RawRelativeSeconds startSec |})
       else
         s <- number_or_parseInt (get obj (js "start")) ;;
         e <- number_or_parseInt (get obj (js "end")) ;;
         let s := if lt s (Int 1000000000000) then mul s (Int 1000) else s in
         let e := if lt e (Int 1000000000000) then mul e (Int 1000) else e in
         Return (Some {| start := s; end_ := e;
                         source := js "CloudWatch Logs Insights";
                         raw := RawAbsolute |})
     else if truthy (get obj (js "unit")) && truthy (get obj (js "value"))
     then
       unit <- to_primitive_string (get obj (js "unit")) ;;
       let mult := multiplier unit in
       value <- to_primitive_string (get obj (js "value")) ;;
       let ms := mul (parseInt value 10) mult in
       Return (Some {| start := sub (Int now) ms; end_ := Int now;
                       source := js "CloudWatch Logs Insights";
                       raw := RawRelativeUnit (get obj (js "unit"))
                                (get obj (js "value")) |})
     else Return None)
    (fun _ => Return None).

(** [hash.replace(/\$3F/gi, "?").replace(/\$3D/gi, "=")
        .replace(/\$26/gi, "&")]. *)
Definition normalize (hash : jsstring) : jsstring :=
  let a := replace_all_ci (length hash) (js "$3F") (js "?") hash in
  let b := replace_all_ci (length a) (js "$3D") (js "=") a in
  replace_all_ci (length b) (js "$26") (js "&") b.

(** [parseCloudWatchLogs()]. *)
Definition parseCloudWatchLogs (now : Z) (hash : jsstring)
  : option time_range :=
  let normalized := normalize hash in
  match search (re_sep_lit_int quest_or_amp (js "start=") true) normalized with
  | None => None
  | Some (_, _, caps, _) =>
    let startVal := parseInt (group1 caps) 10 in
    let endVal :=
      match search (re_sep_lit_int quest_or_amp (js "end=") true)
              normalized with
      | Some (_, _, caps', _) => Some (parseInt (group1 caps') 10)
      | None => None
      end in
    let result :=
      if lt startVal (Int 0) then
        {| start := add (Int now) startVal;
           end_ := match endVal with
                   | Some e => if lt e (Int 0) then add (Int now) e
                               else Int now
                   | None => Int now
                   end;
           source := js "CloudWatch Logs";
           raw := RawRelativeMs startVal endVal |}
      else
        {| start := startVal;
           end_ := match endVal with
                   | Some e => e
                   | None => Int now
                   end;
           source := js "CloudWatch Logs";
           raw := RawAbsolute |} in
    if isNaN (start result) || isNaN (end_ result) then None
    else Some result
  end.

(** *** Injectors

    An injector returns its boolean together with the text it assigns to
    [window.location.hash], if it assigns one.  (The browser removes one
    leading hash sign from an assigned text, so a text with and without it
    denote the same fragment.) *)

Section Injectors.

(** The [format] method of the [Intl.DateTimeFormat] that [toJSTString]
    builds, applied to [new Date(epochMs)]. *)
Variable format : number -> outcome jsstring.

(** [s.replace(" ", "T")]. *)
Fixpoint space_to_T (s : jsstring) : jsstring :=
  match s with
  | [] => []
  | c :: s' => if c =? 32 then 84 :: s' else c :: space_to_T s'
  end.

(** [toJSTString(epochMs)]. *)
Definition toJSTString (epochMs : number) : outcome jsstring :=
  s <- format epochMs ;;
  Return (space_to_T s ++ js ".000").

(** [injectCloudWatchMetrics(timeRange)]. *)
Definition injectCloudWatchMetrics (fuel : nat) (hash : jsstring)
    (timeRange : time_range) : outcome (bool * option jsstring) :=
  try_catch
    (match search (re_param false (js "graph=") not_amp_semi true) hash with
     | None => Return (false, None)
     | Some (_, _, caps, _) =>
       graphObj <- tryParse fuel (group1 caps) Null ;;
       if negb (truthy graphObj) then Return (false, None)
       else
         startStr <- toJSTString (start timeRange) ;;
         graphObj <- set_prop graphObj (js "start") (Str startStr) ;;
         endStr <- toJSTString (end_ timeRange) ;;
         graphObj <- set_prop graphObj (js "end") (Str endStr) ;;
         let newGraphStr := stringify graphObj in
         let newHash :=
           replace (re_param false (js "graph=") not_amp_semi false)
             (js "graph=" ++ newGraphStr) hash in
         Return (true, Some newHash)
     end)
    (fun _ => Return (false, None)).

(** [injectCloudWatchLogsInsights(timeRange)]. *)
Definition injectCloudWatchLogsInsights (fuel : nat) (hash : jsstring)
    (timeRange : time_range) : outcome (bool * option jsstring) :=
  try_catch
    (objA <-
       match search (re_param false (js "queryDetail=") not_amp_semi true)
               hash with
       | Some (_, _, caps, _) =>
         let encoded :=
           map (fun c => if c =? c_dollar then c_pct else c) (group1 caps) in
         try_catch
           (decoded <- decodeURIComponent encoded ;;
            tryParse fuel decoded Null)
           (fun _ => Return Null)
       | None => Return Null
       end ;;
     objB <-
       (if truthy objA then Return (objA, false)
        else
          match search (re_param true (js "queryDetail$3D") not_amp_semi true)
                  hash with
          | Some (_, _, caps, _) =>
            o <- tryParse fuel (group1 caps) Null ;; Return (o, true)
          | None => Return (objA, false)
          end) ;;
     let '(obj, isFormatB) := objB in
     if negb (truthy obj) then Return (false, None)
     else
       obj <- set_prop obj (js "start")
                (Num (floor_div_1000 (start timeRange))) ;;
       obj <- set_prop obj (js "end")
                (Num (floor_div_1000 (end_ timeRange))) ;;
       obj <- set_prop obj (js "timeType") (Str (js "ABSOLUTE")) ;;
       let newJsurl := stringify obj in
       if isFormatB then
         let newHash :=
           replace (re_param true (js "queryDetail$3D") not_amp_semi false)
             (js "queryDetail$3D" ++ newJsurl) hash in
         Return (true, Some newHash)
       else
         enc <- encodeURIComponent newJsurl ;;
         let newEncoded :=
           map (fun c => if c =? c_pct then c_dollar else c) enc in
         let newHash :=
           replace (re_param false (js "queryDetail=") not_amp_semi false)
             (js "queryDetail=" ++ newEncoded) hash in
         Return (true, Some newHash))
    (fun _ => Return (false, None)).

(** [s.match(re)] used as a condition. *)
Definition matches (m : matcher) (s : jsstring) : bool :=
  match search m s with
  | Some _ => true
  | None => false
  end.

(** [injectCloudWatchLogs(timeRange)]. *)
Definition injectCloudWatchLogs (hash : jsstring) (timeRange : time_range)
  : outcome (bool * option jsstring) :=
  try_catch
    (let startMs := number_to_string (start timeRange) in
     let endMs := number_to_string (end_ timeRange) in
     let usesEncoding := includes hash (js "$3F") || includes hash (js "$3D") in
     if usesEncoding then
       let newHash := hash in
       let newHash :=
         if matches (re_lit_int true (js "$3Fstart$3D") false) newHash
         then replace (re_lit_int true (js "$3Fstart$3D") false)
                (js "$3Fstart$3D" ++ startMs) newHash
         else newHash in
       let newHash :=
         if matches (re_lit_int true (js "$26end$3D") false) newHash
         then replace (re_lit_int true (js "$26end$3D") false)
                (js "$26end$3D" ++ endMs) newHash
         else if includes newHash (js "$3Fstart$3D")
         then replace (re_lit_int true (js "$3Fstart$3D") true)
                (js "$1$26end$3D" ++ endMs) newHash
         else newHash in
       Return (true, Some (strip_hash newHash))
     else
       let normalized :=
         replace (re_sep_lit_int quest_or_amp (js "start=") false)
           (js "$1start=" ++ startMs) hash in
       let normalized :=
         if matches (re_sep_lit_int quest_or_amp (js "end=") false) normalized
         then replace (re_sep_lit_int quest_or_amp (js "end=") false)
                (js "$1end=" ++ endMs) normalized
         else replace (re_lit_int false (js "?start=") true)
                (js "$1&end=" ++ endMs) normalized in
       Return (true, Some (strip_hash normalized)))
    (fun _ => Return (false, None)).

(** [injectCloudWatchGeneric(timeRange)]. *)
Definition injectCloudWatchGeneric (fuel : nat) (hash : jsstring)
    (timeRange : time_range) : outcome (bool * option jsstring) :=
  try_catch
    (match indexOf hash (js "?~(") with
     | None => Return (false, None)
     | Some qIdx =>
       let prefix := substring hash 0 (qIdx + 1) in
       let stateStr := skipn (qIdx + 1) hash in
       stateObj <- tryParse fuel stateStr Null ;;
       let stateObj := if negb (truthy stateObj) then Obj [] else stateObj in
       stateObj <- set_prop stateObj (js "timeRange")
                     (Arr [Num (start timeRange); Num (end_ timeRange)]) ;;
       let newStateStr := stringify stateObj in
       Return (true, Some (strip_hash prefix ++ newStateStr))
     end)
    (fun _ => Return (false, None)).

(** The URL object of [new URL(window.location.href)], as far as
    [injectXRay] uses it: the text of the query (without its question
    mark), the fragment [url.hash] (empty, or with its hash sign), and the
    rest of the address. *)
Record URL := {
  base : jsstring;
  query : jsstring;
  url_hash : jsstring
}.

(** [url.searchParams]: the pairs that the query holds. *)
Definition searchParams (url : URL) : list (jsstring * jsstring) :=
  parse_query (query url).

(** The URL after a change of [url.searchParams]: the query is written
    anew from the pairs. *)
Definition set_searchParams (url : URL) (params : list (jsstring * jsstring))
  : URL :=
  {| base := base url; query := serialize_query params;
     url_hash := url_hash url |}.

(** The URL after [url.hash = h]. *)
Definition set_hash (url : URL) (h : jsstring) : URL :=
  {| base := base url; query := query url; url_hash := h |}.

(** [url.searchParams.has(name)]. *)
Definition searchParams_has (params : list (jsstring * jsstring))
    (name : jsstring) : bool :=
  existsb (fun kv => str_eqb (fst kv) name) params.

Fixpoint remove_name (params : list (jsstring * jsstring)) (name : jsstring)
  : list (jsstring * jsstring) :=
  match params with
  | [] => []
  | kv :: rest =>
    if str_eqb (fst kv) name then remove_name rest name
    else kv :: remove_name rest name
  end.

(** [url.searchParams.set(name, v)]: the first pair of that name takes the
    value and the later ones are removed; without such a pair, one is
    appended. *)
Fixpoint searchParams_set (params : list (jsstring * jsstring))
    (name v : jsstring) : list (jsstring * jsstring) :=
  match params with
  | [] => [(name, v)]
  | kv :: rest =>
    if str_eqb (fst kv) name then (name, v) :: remove_name rest name
    else kv :: searchParams_set rest name v
  end.

(** [injectXRay(timeRange)]: the boolean, and the URL that is assigned to
    [window.location.href], if one is.  The fragment of a URL object reads
    back as it was assigned when the assigned text starts with a hash sign,
    as the texts below do. *)
Definition injectXRay (url : URL) (timeRange : time_range)
  : outcome (bool * option URL) :=
  try_catch
    (startISO <- toJSTString (start timeRange) ;;
     endISO <- toJSTString (end_ timeRange) ;;
     let newTimeRange := startISO ++ js "~" ++ endISO in
     if searchParams_has (searchParams url) (js "timeRange") then
       Return (true,
               Some (set_searchParams url
                       (searchParams_set (searchParams url) (js "timeRange")
                          newTimeRange)))
     else
       let hash := url_hash url in
       if includes hash (js "timeRange=") then
         Return (true,
                 Some (set_hash url
                         (replace
                            (re_param false (js "timeRange=") not_amp false)
                            (js "timeRange=" ++ newTimeRange) hash)))
       else
         match hash with
         | _ :: _ =>
           Return (true,
                   Some (set_hash url
                           (hash ++ js "&timeRange=" ++ newTimeRange)))
         | [] =>
           Return (true,
                   Some (set_searchParams url
                           (searchParams_set (searchParams url)
                              (js "timeRange") newTimeRange)))
         end)
    (fun _ => Return (false, None)).

End Injectors.

End Content.

(** ** The earlier state of the content script (src/content/content.js)

    Only the functions that differ from [Content] in what the properties
    below are about. *)

Module ContentOld.
Import JS JSURL Platform.
Import Content.

(** [detectService()]. *)
Definition detectService (url pathname hash : jsstring) : service :=
  if includes pathname (js "/cloudwatch") && includes hash (js "metricsV2")
  then CloudwatchMetrics
  else if includes pathname (js "/cloudwatch")
          && includes hash (js "logsV2:log-groups")
          && includes hash (js "logs-insights")
  then CloudwatchLogsInsights
  else if includes pathname (js "/cloudwatch")
          && (includes hash (js "logs-insights")
              || includes hash (js "logsV2")
                 && includes hash (js "queryDetail"))
  then CloudwatchLogsInsights
  else if includes pathname (js "/xray") || includes pathname (js "/x-ray")
  then Xray
  else if includes pathname (js "/cloudwatch") then
    if includes hash (js ":?~(") then CloudwatchGeneric else CloudwatchOther
  else if includes url (js ".console.aws.amazon.com") then Unknown
  else NotAws.

(** [parseCloudWatchLogsInsights()]. *)
Definition parseCloudWatchLogsInsights (fuel : nat) (now : Z)
    (hash : jsstring) : outcome (option time_range) :=
  try_catch
    (match search (re_param false (js "queryDetail=") not_amp_semi true)
             hash with
     | None => Return None
     | Some (_, _, caps, _) =>
       let encoded :=
         map (fun c => if c =? c_dollar then c_pct else c) (group1 caps) in
       decoded <- decodeURIComponent encoded ;;
       obj <- tryParse fuel decoded Null ;;
       if negb (truthy obj) then Return None
       else if truthy (get obj (js "start")) && truthy (get obj (js "end"))
       then
         if is_str (get obj (js "timeType")) (js "RELATIVE")
            || match get obj (js "start") with
               | Num n => lt n (Int 0)
               | _ => false
               end
         then
           startSec <- number_or_parseInt (get obj (js "start")) ;;
           Return (Some {| start := add (Int now) (mul startSec (Int 1000));
                           end_ := Int now;
                           source := js "CloudWatch Logs Insights";
                           raw := RawRelativeSeconds startSec |})
         else
           s <- number_or_parseInt (get obj (js "start")) ;;
           e <- number_or_parseInt (get obj (js "end")) ;;
           let s := if lt s (Int 1000000000000) then mul s (Int 1000) else s in
           let e := if lt e (Int 1000000000000) then mul e (Int 1000) else e in
           Return (Some {| start := s; end_ := e;
                           source := js "CloudWatch Logs Insights";
                           raw := RawAbsolute |})
       else if truthy (get obj (js "unit")) && truthy (get obj (js "value"))
       then
         unit <- to_primitive_string (get obj (js "unit")) ;;
         let mult := multiplier unit in
         value <- to_primitive_string (get obj (js "value")) ;;
         let ms := mul (parseInt value 10) mult in
         Return (Some {| start := sub (Int now) ms; end_ := Int now;
                         source := js "CloudWatch Logs Insights";
                         raw := RawRelativeUnit (get obj (js "unit"))
                                  (get obj (js "value")) |})
       else Return None
     end)
    (fun _ => Return None).

(** [injectXRay(timeRange)], which formats the instants with
    [new Date(ms).toISOString()]. *)
Definition injectXRay (url : URL) (timeRange : time_range)
  : outcome (bool * option URL) :=
  try_catch
    (startISO <- toISOString (start timeRange) ;;
     endISO <- toISOString (end_ timeRange) ;;
     let newTimeRange := startISO ++ js "~" ++ endISO in
     if searchParams_has (searchParams url) (js "timeRange") then
       Return (true,
               Some (set_searchParams url
                       (searchParams_set (searchParams url) (js "timeRange")
                          newTimeRange)))
     else
       let hash := url_hash url in
       if includes hash (js "timeRange=") then
         Return (true,
                 Some (set_hash url
                         (replace
                            (re_param false (js "timeRange=") not_amp false)
                            (js "timeRange=" ++ newTimeRange) hash)))
       else
         match hash with
         | _ :: _ =>
           Return (true,
                   Some (set_hash url
                           (hash ++ js "&timeRange=" ++ newTimeRange)))
         | [] =>
           Return (true,
                   Some (set_searchParams url
                           (searchParams_set (searchParams url)
                              (js "timeRange") newTimeRange)))
         end)
    (fun _ => Return (false, None)).

End ContentOld.

(** ** The other parsers of the content script

    The parsers of the Metrics, the X-Ray and the generic hash-state
    scheme, with the two functions on durations they share. *)

Module Parsers.
Import JS JSURL Platform Content.

(** [s.replace(/^-/, "")]. *)
Definition strip_minus (s : jsstring) : jsstring :=
  match s with
  | c :: s' => if c =? c_minus then s' else s
  | [] => []
  end.

(** One optional group [(?:(\d+)X)?] of the pattern of durations, for the
    capital letter [letter], which the [i] flag lets match in either case:
    the digits, if the longest run of digits is not empty and the letter
    follows it, and the text after the group. *)
Definition duration_group (letter : char) (s : jsstring)
  : option jsstring * jsstring :=
  match span is_digit s with
  | (d :: ds, c :: rest) =>
    if upper c =? letter then (Some (d :: ds), rest) else (None, s)
  | _ => (None, s)
  end.

(** [dur.match(/^-?PT?(?:(\d+)H)?(?:(\d+)M)?(?:(\d+)S)?$/i)]: the three
    groups of a match. *)
Definition match_duration (dur : jsstring)
  : option (option jsstring * option jsstring * option jsstring) :=
  match strip_minus dur with
  | p :: s =>
    if upper p =? 80 then
      let s := match s with
               | c :: r => if upper c =? 84 then r else s
               | [] => s
               end in
      let '(hours, s) := duration_group 72 s in
      let '(minutes, s) := duration_group 77 s in
      let '(seconds, s) := duration_group 83 s in
      match s with
      | [] => Some (hours, minutes, seconds)
      | _ :: _ => None
      end
    else None
  | [] => None
  end.

(** [match[k] || "0"]. *)
Definition group_or_zero (group : option jsstring) : jsstring :=
  match group with
  | Some ds => ds
  | None => js "0"
  end.

(** [parseDuration(dur)]; [None] stands for [null]. *)
Definition parseDuration (dur : jsstring) : option number :=
  match dur with
  | [] => None
  | _ :: _ =>
    match match_duration dur with
    | None => None
    | Some (h, m, s) =>
      let hours := parseInt (group_or_zero h) 10 in
      let minutes := parseInt (group_or_zero m) 10 in
      let seconds := parseInt (group_or_zero s) 10 in
      Some (mul (add (add (mul hours (Int 3600)) (mul minutes (Int 60)))
                   seconds)
              (Int 1000))
    end
  end.

(** [relativeToAbsolute(durationStr)], with [Date.now()] as [now]: the
    start and the end.  Only a string has the method [replace]; for every
    other value the call throws a [TypeError]. *)
Definition relativeToAbsolute (now : Z) (durationStr : value)
  : outcome (option (number * number)) :=
  match durationStr with
  | Str s =>
    match parseDuration (strip_minus s) with
    | Some ms =>
      if truthy (Num ms) then Return (Some (sub (Int now) ms, Int now))
      else Return None
    | None => Return None
    end
  | _ => Throw TypeError
  end.

(** *** Captured ranges *)

(** The [raw] field of the ranges of these parsers, beside those of
    [raw_info]: a relative range keeps its duration. *)
Inductive raw_more :=
| RawDuration (duration : value)
| RawDurationMs (durationMs : number).

(** A captured range.  The start and the end are what the parser has put
    there: a number, or a decoded value as it stood in the address. *)
Record capture := {
  c_start : value;
  c_end : value;
  c_source : jsstring;
  c_raw : raw_info + raw_more
}.

Definition capture_of (r : time_range) : capture :=
  {| c_start := Num (start r); c_end := Num (end_ r);
     c_source := source r; c_raw := inl (raw r) |}.

(** The number of a value, as [isNaN] makes it. *)
Definition to_number (v : value) : outcome number :=
  match v with
  | Undefined => Return NaN
  | Null => Return (Int 0)
  | Bool b => Return (Int (if b then 1 else 0))
  | Num n => Return n
  | Str s => Return (Number s)
  | Arr _ | Obj _ => s <- to_primitive_string v ;; Return (Number s)
  end.

(** [isNaN(v)]. *)
Definition isNaN_value (v : value) : outcome bool :=
  n <- to_number v ;; Return (isNaN n).

(** [isNaN(result.start) || isNaN(result.end)]. *)
Definition either_isNaN (r : capture) : outcome bool :=
  nanStart <- isNaN_value (c_start r) ;;
  if nanStart then Return true else isNaN_value (c_end r).

(** [params.get(name)]: the value of the first pair of that name. *)
Fixpoint searchParams_get (params : list (jsstring * jsstring))
    (name : jsstring) : option jsstring :=
  match params with
  | [] => None
  | kv :: rest =>
    if str_eqb (fst kv) name then Some (snd kv)
    else searchParams_get rest name
  end.

Section Dates.

(** [new Date(text).getTime()]: the reading of a date is left to the
    browser. *)
Variable date_parse : jsstring -> number.

(** [typeof v === "string" ? new Date(v).getTime() : v]. *)
Definition time_of (v : value) : value :=
  match v with
  | Str s => Num (date_parse s)
  | _ => v
  end.

(** [parseCloudWatchMetrics()], of [window.location.hash]. *)
Definition parseCloudWatchMetrics (fuel : nat) (now : Z) (hash : jsstring)
  : outcome (option capture) :=
  try_catch
    (match search (re_param false (js "graph=") not_amp_semi true) hash with
     | None => Return None
     | Some (_, _, caps, _) =>
       graphObj <- tryParse fuel (group1 caps) Null ;;
       if negb (truthy graphObj) then Return None
       else
         let startVal := get graphObj (js "start") in
         let endVal := get graphObj (js "end") in
         let absolute :=
           {| c_start := time_of startVal; c_end := time_of endVal;
              c_source := js "CloudWatch Metrics";
              c_raw := inl RawAbsolute |} in
         found <-
           (if truthy startVal && truthy endVal then
              result <-
                match startVal with
                | Str s =>
                  if startsWith s (js "-P") then
                    range <- relativeToAbsolute now startVal ;;
                    Return
                      (match range with
                       | Some (a, b) =>
                         Some {| c_start := Num a; c_end := Num b;
                                 c_source := js "CloudWatch Metrics";
                                 c_raw := inr (RawDuration startVal) |}
                       | None => None
                       end)
                  else Return (Some absolute)
                | _ => Return (Some absolute)
                end ;;
              match result with
              | Some r =>
                if truthy (c_start r) && truthy (c_end r) then
                  nan <- either_isNaN r ;;
                  Return (if nan then None else Some r)
                else Return None
              | None => Return None
              end
            else Return None) ;;
         match found with
         | Some r => Return (Some r)
         | None =>
           let period := get graphObj (js "period") in
           if truthy period then
             range2 <- relativeToAbsolute now period ;;
             Return
               (match range2 with
                | Some (a, b) =>
                  Some {| c_start := Num a; c_end := Num b;
                          c_source := js "CloudWatch Metrics";
                          c_raw := inr (RawDuration period) |}
                | None => None
                end)
           else Return None
         end
     end)
    (fun _ => Return None).

(** [parseXRay()], of the query of [window.location.search] (without its
    question mark) and of [window.location.hash]. *)
Definition parseXRay (now : Z) (query hash : jsstring)
  : outcome (option capture) :=
  try_catch
    (let timeRange :=
       match searchParams_get (parse_query query) (js "timeRange") with
       | Some (c :: v) => Some (c :: v)
       | other =>
         match hash with
         | [] => other
         | _ :: _ =>
           match search (re_param false (js "timeRange=") not_amp true)
                   hash with
           | Some (_, _, caps, _) => Some (group1 caps)
           | None => other
           end
         end
       end in
     match timeRange with
     | Some (c :: v) =>
       let timeRange := c :: v in
       if includes timeRange (js "~") then
         let parts := split_on c_tilde timeRange in
         let a := date_parse (nth 0 parts []) in
         let b := date_parse (nth 1 parts []) in
         if isNaN a || isNaN b then Return None
         else Return (Some {| c_start := Num a; c_end := Num b;
                              c_source := js "X-Ray";
                              c_raw := inl RawAbsolute |})
       else
         range <- relativeToAbsolute now (Str timeRange) ;;
         Return
           (match range with
            | Some (a, b) =>
              Some {| c_start := Num a; c_end := Num b;
                      c_source := js "X-Ray";
                      c_raw := inr (RawDuration (Str timeRange)) |}
            | None => None
            end)
     | _ => Return None
     end)
    (fun _ => Return None).

(** [parseCloudWatchGeneric()], of [window.location.hash]. *)
Definition parseCloudWatchGeneric (fuel : nat) (now : Z) (hash : jsstring)
  : outcome (option capture) :=
  try_catch
    (match indexOf hash (js "?~(") with
     | None => Return None
     | Some qIdx =>
       match skipn (qIdx + 1) hash with
       | [] => Return None
       | stateStr =>
         stateObj <- tryParse fuel stateStr Null ;;
         match (if truthy stateObj then get stateObj (js "timeRange")
                else Undefined) with
         | Undefined => Return None
         | tr =>
           result <-
             match tr with
             | Num n =>
               Return (Some {| c_start := Num (sub (Int now) n);
                               c_end := Num (Int now);
                               c_source := js "CloudWatch";
                               c_raw := inr (RawDurationMs n) |})
             | Arr [a; b] =>
               Return (Some {| c_start := a; c_end := b;
                               c_source := js "CloudWatch";
                               c_raw := inl RawAbsoluteArray |})
             | Null => Throw TypeError
             | Obj _ =>
               if truthy (get tr (js "start")) && truthy (get tr (js "end"))
               then Return (Some {| c_start := time_of (get tr (js "start"));
                                    c_end := time_of (get tr (js "end"));
                                    c_source := js "CloudWatch";
                                    c_raw := inl RawAbsolute |})
               else Return None
             | _ => Return None
             end ;;
           match result with
           | Some r =>
             nan <- either_isNaN r ;;
             Return (if nan then None else Some r)
           | None => Return None
           end
         end
       end
     end)
    (fun _ => Return None).

End Dates.

End Parsers.

(** ** The message handler of the content script *)

Module Listener.
Import JS JSURL Platform Content Parsers.

(** The address of the page: [window.location.href], [.pathname], and the
    query and the fragment as a URL object has them. *)
Record page := {
  href : jsstring;
  pathname : jsstring;
  location : URL
}.

(** [message.action], with the range of an [apply-time] message. *)
Inductive message :=
| DetectService
| CaptureTime
| ApplyTime (timeRange : time_range)
| OtherAction (action : jsstring).

(** What is passed to [sendResponse]. *)
Inductive response :=
| Service (s : service)
| Captured (timeRange : capture) (capturedAt : Z)
| Applied
| Failure (error : jsstring) (s : service)
| UnknownAction (error : jsstring).

(** What a handler assigns to the address of the page. *)
Inductive assignment :=
| AssignHash (text : jsstring)
| AssignHref (url : URL).

Definition not_supported (s : service) : bool :=
  match s with
  | Unknown | NotAws => true
  | _ => false
  end.

Section Handler.

Variable format : number -> outcome jsstring.
Variable date_parse : jsstring -> number.

(** The case [capture-time]; [capturedAt] is the later [Date.now()]. *)
Definition capture_time (fuel : nat) (now capturedAt : Z) (p : page)
  : outcome response :=
  let service := detectService (href p) (pathname p) (url_hash (location p)) in
  timeRange <-
    match service with
    | CloudwatchMetrics =>
      parseCloudWatchMetrics date_parse fuel now (url_hash (location p))
    | CloudwatchLogsInsights =>
      r <- parseCloudWatchLogsInsights fuel now (url_hash (location p)) ;;
      Return (option_map capture_of r)
    | CloudwatchLogs =>
      Return (option_map capture_of
                (parseCloudWatchLogs now (url_hash (location p))))
    | CloudwatchGeneric =>
      parseCloudWatchGeneric date_parse fuel now (url_hash (location p))
    | Xray =>
      parseXRay date_parse now (query (location p)) (url_hash (location p))
    | _ => Return None
    end ;;
  match timeRange with
  | Some r => Return (Captured r capturedAt)
  | None =>
    Return
      (Failure
         (if not_supported service
          then js ("This AWS service is not supported for automatic " ++
                   "time capture. Use manual input.")
          else js "Could not extract time range from current page URL.")
         service)
  end.

(** The case [apply-time]: the response, and what was assigned. *)
Definition apply_time (fuel : nat) (p : page) (tr : time_range)
  : outcome (response * option assignment) :=
  let svc := detectService (href p) (pathname p) (url_hash (location p)) in
  let to_hash (r : bool * option jsstring) :=
    (fst r, option_map AssignHash (snd r)) in
  applied <-
    match svc with
    | CloudwatchMetrics =>
      r <- injectCloudWatchMetrics format fuel (url_hash (location p)) tr ;;
      Return (to_hash r)
    | CloudwatchLogsInsights =>
      r <- injectCloudWatchLogsInsights fuel (url_hash (location p)) tr ;;
      Return (to_hash r)
    | CloudwatchLogs =>
      r <- injectCloudWatchLogs (url_hash (location p)) tr ;;
      Return (to_hash r)
    | CloudwatchGeneric =>
      r <- injectCloudWatchGeneric fuel (url_hash (location p)) tr ;;
      Return (to_hash r)
    | Xray =>
      r <- injectXRay format (location p) tr ;;
      Return (fst r, option_map AssignHref (snd r))
    | _ => Return (false, None)
    end ;;
  Return
    (if fst applied then Applied
     else Failure
            (if not_supported svc
             then js ("This AWS service is not supported for automatic " ++
                      "time application.")
             else js "Could not apply time range to current page URL.")
            svc,
     snd applied).

(** The listener of [chrome.runtime.onMessage]. *)
Definition onMessage (fuel : nat) (now capturedAt : Z) (p : page)
    (m : message) : outcome (response * option assignment) :=
  match m with
  | DetectService =>
    Return (Service (detectService (href p) (pathname p)
                       (url_hash (location p))), None)
  | CaptureTime =>
    r <- capture_time fuel now capturedAt p ;; Return (r, None)
  | ApplyTime tr => apply_time fuel p tr
  | OtherAction action =>
    Return (UnknownAction (js "Unknown action: " ++ action), None)
  end.

End Handler.

End Listener.

(** ** The service worker: the stored range and its history *)

Module Worker.
Import JS.

Section Storage.

(** A stored range: an object, which every test of the worker takes for
    true. *)
Variable range : Type.

(** [chrome.storage.local] as far as the worker uses it, [None] for a key
    that is not set, and the text of the badge. *)
Record storage := {
  currentTimeRange : option range;
  timeRangeHistory : option (list range);
  badgeText : jsstring
}.

Definition MAX_HISTORY : nat := 5.

(** [data.timeRangeHistory || []]. *)
Definition getHistory (st : storage) : list range :=
  match timeRangeHistory st with
  | Some history => history
  | None => []
  end.

(** [data.currentTimeRange || null]. *)
Definition getCurrentTimeRange (st : storage) : option range :=
  currentTimeRange st.

(** The step the two writers share: the current range, if there is one,
    is put in front of the history, which is cut to [MAX_HISTORY]. *)
Definition push_current (current : option range) (history : list range)
  : list range :=
  match current with
  | Some c =>
    let history := c :: history in
    if (MAX_HISTORY <? length history)%nat then firstn MAX_HISTORY history
    else history
  | None => history
  end.

(** [updateBadge(hasTimeRange)]: the text of the badge. *)
Definition updateBadge (hasTimeRange : bool) : jsstring :=
  if hasTimeRange then js " " else [].

(** What the functions of the worker answer. *)
Inductive reply :=
| Success
| Restored (timeRange : range)
| Invalid (error : jsstring).

(** [saveTimeRange(timeRange)]. *)
Definition saveTimeRange (st : storage) (timeRange : range)
  : storage * reply :=
  let history := push_current (currentTimeRange st) (getHistory st) in
  ({| currentTimeRange := Some timeRange;
      timeRangeHistory := Some history;
      badgeText := updateBadge true |}, Success).

(** [history.splice(index, 1)]: the history without the entry. *)
Fixpoint splice_out (history : list range) (index : nat) : list range :=
  match history, index with
  | [], _ => []
  | _ :: rest, O => rest
  | x :: rest, S i => x :: splice_out rest i
  end.

(** [restoreFromHistory(index)], for an integer index.  The test
    [index < 0 || index >= history.length] fails exactly when the history
    has an entry at the index. *)
Definition restoreFromHistory (st : storage) (index : Z)
  : storage * reply :=
  let history := getHistory st in
  match (if (index <? 0)%Z then None
         else nth_error history (Z.to_nat index)) with
  | None => (st, Invalid (js "Invalid history index"))
  | Some restored =>
    let history := splice_out history (Z.to_nat index) in
    let history := push_current (currentTimeRange st) history in
    ({| currentTimeRange := Some restored;
        timeRangeHistory := Some history;
        badgeText := updateBadge true |}, Restored restored)
  end.

(** [clearAll()]. *)
Definition clearAll (st : storage) : storage * reply :=
  ({| currentTimeRange := None; timeRangeHistory := None;
      badgeText := updateBadge false |}, Success).

End Storage.

End Worker.

(** ** The popup: the length of a range *)

Module Popup.
Import JS JSURL.

(** [formatDuration(startMs, endMs)]; zero and [NaN] are the numbers
    that [!startMs] and [!endMs] take for false. *)
Definition formatDuration (startMs endMs : number) : jsstring :=
  match startMs, endMs with
  | Int a, Int b =>
    if (a =? 0)%Z || (b =? 0)%Z then js "--"
    else
      let diff := Z.abs (b - a) in
      let hours := (diff / 3600000)%Z in
      let minutes := ((diff mod 3600000) / 60000)%Z in
      let seconds := ((diff mod 60000) / 1000)%Z in
      let parts :=
        if (0 <? hours)%Z then [string_of_Z hours ++ js "h"] else [] in
      let parts :=
        if (0 <? minutes)%Z then parts ++ [string_of_Z minutes ++ js "m"]
        else parts in
      let parts :=
        if (0 <? seconds)%Z || (length parts =? 0)%nat
        then parts ++ [string_of_Z seconds ++ js "s"]
        else parts in
      join (js " ") parts
  | _, _ => js "--"
  end.

End Popup.

(** * Properties *)

Import JS JSURL Platform Content.

Unset Implicit Arguments.

(** ** Vocabulary of the properties *)

(** What an array emits for one of its elements. *)
Definition element_token (item : value) : jsstring :=
  match item with
  | Undefined => lit_null
  | _ => _stringify item
  end.

Definition defined (kv : jsstring * value) : bool :=
  match snd kv with
  | Undefined => false
  | _ => true
  end.

(** The escape of one character, as the specification puts it for the
    quote and the percent sign, with the star added; every other character
    stands for itself. *)
Definition escape_spec (c : char) : jsstring :=
  if c =? c_quote then js "!"
  else if c =? c_star then js "*2A"
  else if c =? c_pct then js "*25"
  else [c].

(** What the encoder writes for one character of a string value or of a
    key: a quote for an exclamation mark, for which [escape_spec] does not
    account. *)
Definition written (c : char) : jsstring :=
  if c =? c_bang then [c_quote] else escape_spec c.

Definition truncated_null_array : jsstring := Eval cbv in js "~(~nu".

(** The markers of the schemes that [detectService] tests before the
    generic one. *)
Definition claimed_by_specific (pathname hash : jsstring) : bool :=
  includes hash (js "metricsV2")
  || includes hash (js "logs-insights")
  || includes hash (js "logsV2")
     && (includes hash (js "queryDetail")
         || includes hash (js "queryDetail$3D"))
  || includes hash (js "logsV2:log-groups")
     && (includes hash (js "$3Fstart$3D") || includes hash (js "?start="))
  || includes pathname (js "/xray")
  || includes pathname (js "/x-ray").

Ltac abstract_includes :=
  repeat match goal with
         | |- context [includes ?a ?b] =>
           let x := fresh "b" in generalize (includes a b); intros x
         end.

Definition dashboard_url : jsstring :=
  js ("https://123456789012.console.aws.amazon.com/cloudwatch/home" ++
      "?region=ap-northeast-1" ++
      "#home:dashboards/ApplicationELB?~(timeRange~43200000)").

Definition dashboard_hash : jsstring :=
  js "#home:dashboards/ApplicationELB?~(timeRange~43200000)".

(** The object the Logs Insights parser decodes from a fragment: the value
    of Format A if it decodes to something truthy, else that of Format B. *)
Definition queryDetail_object (fuel : nat) (hash : jsstring) : outcome value :=
  objA <-
    match search (re_param false (js "queryDetail=") not_amp_semi true) hash with
    | Some (_, _, caps, _) =>
      let encoded :=
        map (fun c => if c =? c_dollar then c_pct else c) (group1 caps) in
      try_catch
        (decoded <- decodeURIComponent encoded ;; tryParse fuel decoded Null)
        (fun _ => Return Null)
    | None => Return Null
    end ;;
  if truthy objA then Return objA
  else
    match search (re_param true (js "queryDetail$3D") not_amp_semi true)
            hash with
    | Some (_, _, caps, _) => tryParse fuel (group1 caps) Null
    | None => Return objA
    end.

(** Relative mode: an explicit [timeType] or a negative numeric start. *)
Definition relative_mode (obj : value) : bool :=
  is_str (get obj (js "timeType")) (js "RELATIVE")
  || match get obj (js "start") with
     | Num n => lt n (Int 0)
     | _ => false
     end.

(** The address of the notes of the repository, for the last hour. *)
Definition insights_hash : jsstring :=
  js ("#logsV2:log-groups/logs-insights" ++
      "?queryDetail=~$28end~0~start~-3600~timeType~$27RELATIVE$29").

Definition insights_object : value :=
  Obj [(js "end", Num (Int 0)); (js "start", Num (Int (-3600)));
       ([], Undefined); (js "timeType", Str (js "RELATIVE"))].

Definition log_events_hash : jsstring :=
  js ("#logsV2:log-groups/log-group/RDSOSMetrics/log-events/db-XXXXX" ++
      "$3Fstart$3D-1800000").

(** A matcher is sound when the text it is applied to is the match followed
    by the rest. *)
Definition sound (m : matcher) : Prop :=
  forall s matched caps rest,
    m s = Some (matched, caps, rest) -> s = matched ++ rest.

(** [h'] is [h] with the leftmost match of [m] replaced by some text. *)
Definition splice (m : matcher) (h h' : jsstring) : Prop :=
  exists pre old caps post new,
    search m h = Some (pre, old, caps, post)
    /\ h = pre ++ old ++ post
    /\ h' = pre ++ new ++ post.

Definition sample_range : time_range :=
  {| start := Int 1700000000000; end_ := Int 1700003600000;
     source := js "CloudWatch"; raw := RawAbsolute |}.

Definition xray_url : URL :=
  {| base := js "https://us-east-1.console.aws.amazon.com/xray/home";
     query := js "region=us-east-1";
     url_hash := js "#/traces" |}.

(** An X-Ray address whose query holds the time range after another
    parameter, and the query that the injector gives it. *)
Definition xray_query_url : URL :=
  {| base := js "https://us-east-1.console.aws.amazon.com/xray/home";
     query := js "filter=a%20b&timeRange=PT1H";
     url_hash := [] |}.

Definition xray_query_after : jsstring :=
  js ("filter=a+b&timeRange=2023-11-15T07%3A13%3A20.000" ++
      "%7E2023-11-15T08%3A13%3A20.000").

(** The patterns of the parameters of a Log Events address. *)
(** The encoding of a state object that holds the range from [s] to [e]
    and nothing else. *)
Definition fresh_state (s e : Z) : jsstring :=
  js "~(timeRange~(~" ++ string_of_Z s ++ c_tilde :: string_of_Z e
  ++ js "))".

Definition log_events_patterns : list matcher :=
  [re_lit_int true (js "$3Fstart$3D") false;
   re_lit_int true (js "$26end$3D") false;
   re_lit_int true (js "$3Fstart$3D") true;
   re_sep_lit_int quest_or_amp (js "start=") false;
   re_sep_lit_int quest_or_amp (js "end=") false;
   re_lit_int false (js "?start=") true].

Definition metrics_hash : jsstring :=
  js "#metricsV2:graph=~(start~'-PT3H~end~'P0D~region~'ap-northeast-1);query=x".

(** What may follow a value: the end of the text, or the start of the next
    token. *)
Definition value_end (post : jsstring) : Prop :=
  match post with
  | [] => True
  | c :: _ => c = c_tilde \/ c = c_rparen
  end.

Definition plain_in_string (c : char) : bool :=
  negb ((c =? c_bang) || (c =? c_tilde) || (c =? c_rparen)).

Definition plain_in_key (c : char) : bool :=
  negb ((c =? c_bang) || (c =? c_tilde) || (c =? c_rparen) || (c =? c_lparen)).

Definition in_number (c : char) : bool :=
  negb ((c =? c_tilde) || (c =? c_rparen)).

(** A key after the first one must not begin like a value: the decoder
    takes the separator before such a key for the start of a value. *)
Definition later_key_ok (k : jsstring) : bool :=
  match k with
  | [] => true
  | c :: _ =>
    negb ((c =? c_n) || (c =? c_t) || (c =? c_f) || is_digit c
          || (c =? c_minus))
  end.

Definition key_ok (k : jsstring) : bool :=
  forallb plain_in_key k && negb (str_eqb k proto_key).

Fixpoint distinct (ks : list jsstring) : bool :=
  match ks with
  | [] => true
  | k :: rest => negb (existsb (str_eqb k) rest) && distinct rest
  end.

(** The values of the round trip: [null], the booleans, the integers that
    a double holds exactly, the strings without an exclamation mark, a
    tilde or a closing parenthesis, the arrays of such values, and the
    non-empty maps of such values whose keys are distinct, are not
    [__proto__], have none of the characters [!], [~], [(] and [)], are
    not empty in the first place and do not begin like a value (with [n],
    [t], [f], a digit or a minus sign) in the later places. *)
Fixpoint round_trip_safe (v : value) : bool :=
  match v with
  | Undefined => false
  | Null => true
  | Bool _ => true
  | Num (Int z) => (Z.abs z <? 9007199254740992)%Z
  | Num NaN => false
  | Str s => forallb plain_in_string s
  | Arr items => forallb round_trip_safe items
  | Obj props =>
    match props with
    | [] => false
    | (k, _) :: rest =>
      match k with [] => false | _ :: _ => true end
      && forallb (fun kv => later_key_ok (fst kv)) rest
    end
    && forallb (fun kv => key_ok (fst kv)) props
    && distinct (map fst props)
    && forallb (fun kv => round_trip_safe (snd kv)) props
  end.

(** The fuel that decodes the encoding of a value. *)
Fixpoint weight (v : value) : nat :=
  match v with
  | Arr items => S (fold_right (fun item n => S (weight item + n)) O items)
  | Obj props => S (fold_right (fun kv n => S (weight (snd kv) + n)) O props)
  | _ => 1
  end.

Definition set_all (obj props : list (jsstring * value))
  : list (jsstring * value) :=
  fold_left (fun o kv => obj_set o (fst kv) (snd kv)) props obj.

(** The text of one entry of a map: the escaped key and the value. *)
Definition pair_text (kv : jsstring * value) : jsstring :=
  flat_map escape_spec (fst kv) ++ _stringify (snd kv).

(** A value is decoded from its encoding, wherever the encoding stands in
    a text, when the fuel covers its weight. *)
Definition decodes (v : value) : Prop :=
  round_trip_safe v = true ->
  forall fuel str i post,
    (weight v <= fuel)%nat ->
    skipn i str = _stringify v ++ post ->
    value_end post ->
    _parse fuel str i = Return (v, (i + length (_stringify v))%nat).

Definition weights (items : list value) : nat :=
  fold_right (fun item n => S (weight item + n)) O items.

Definition pair_weights (props : list (jsstring * value)) : nat :=
  fold_right (fun kv n => S (weight (snd kv) + n)) O props.

Definition sample_value : value :=
  Obj [(js "view", Str (js "it's 100% *new*" ++ [233; 12354]));
       (js "stacked", Bool false);
       (js "region", Null);
       (js "", Str []);
       (js "period", Num (Int (-300)));
       (js "metrics",
        Arr [Arr [Str (js "AWS/EC2"); Num (Int 0)];
             Obj [(js "id", Str (js "m1")); (js "yAxis", Arr [])]])].

(** *** Vocabulary of the further properties *)

(** The text of a duration: [PT], then the hours, the minutes and the
    seconds that are given, each in decimal before its letter. *)
Definition duration_part (n : option N) (letter : char) : jsstring :=
  match n with
  | Some k => string_of_Z (Z.of_N k) ++ [letter]
  | None => []
  end.

Definition duration_text (h m s : option N) : jsstring :=
  js "PT" ++ duration_part h 72 ++ duration_part m 77 ++ duration_part s 83.

Definition or_zero (n : option N) : Z :=
  match n with
  | Some k => Z.of_N k
  | None => 0
  end.

(** The milliseconds of a duration. *)
Definition duration_ms (h m s : option N) : Z :=
  ((or_zero h * 3600 + or_zero m * 60 + or_zero s) * 1000)%Z.

Definition no_percent (c : char) : bool := negb (c =? c_pct).

Definition is_container (v : value) : bool :=
  match v with
  | Arr _ | Obj _ => true
  | _ => false
  end.

(** An injector is coherent when it assigns an address exactly when it
    reports success. *)
Definition coherent {A} (o : outcome (bool * option A)) : Prop :=
  match o with
  | Return (true, Some _) | Return (false, None) => True
  | Return _ => False
  | Throw _ | Timeout => True
  end.

Definition not_supported_capture : jsstring :=
  js ("This AWS service is not supported for automatic " ++
      "time capture. Use manual input.").

Definition not_supported_apply : jsstring :=
  js "This AWS service is not supported for automatic time application.".

Definition blog_page : Listener.page :=
  {| Listener.href := js "https://example.org/blog?x=1#top";
     Listener.pathname := js "/blog";
     Listener.location :=
       {| base := js "https://example.org/blog"; query := js "x=1";
          url_hash := js "#top" |} |}.

Definition dashboard_page : Listener.page :=
  {| Listener.href := dashboard_url;
     Listener.pathname := js "/cloudwatch/home";
     Listener.location :=
       {| base := js ("https://123456789012.console.aws.amazon.com" ++
                      "/cloudwatch/home");
          query := js "region=ap-northeast-1";
          url_hash := dashboard_hash |} |}.

Definition dashboard_applied : jsstring :=
  js ("home:dashboards/ApplicationELB" ++
      "?~(timeRange~(~1700000000000~1700003600000))").

Definition no_question (c : char) : bool := negb (c =? c_quest).

(** A generic address: the hash sign, a path without a question mark, the
    question mark and the text of the state. *)
Definition generic_hash (path state : jsstring) : jsstring :=
  c_hash :: path ++ c_quest :: state.

(** A replacement text is plain when no dollar sign in it is followed by
    one of the characters that make a replacement pattern whatever the
    groups are. *)
Fixpoint plain_template (t : jsstring) : bool :=
  match t with
  | [] => true
  | c :: t1 =>
    match t1 with
    | [] => true
    | d :: _ =>
      negb ((c =? c_dollar)
            && ((d =? c_dollar) || (d =? c_amp) || (d =? 96)
                || (d =? c_quote)))
    end && plain_template t1
  end.

Definition no_dollar (c : char) : bool := negb (c =? c_dollar).

(** The path of a Log Events address: no question mark, no ampersand, and
    a dollar sign only in [$25], the spelling of a percent sign. *)
Fixpoint log_events_path (path : jsstring) : bool :=
  match path with
  | [] => true
  | c :: rest =>
    (if c =? c_dollar then startsWith rest (js "25")
     else negb (quest_or_amp c))
    && log_events_path rest
  end.

(** What may follow a number in an address: nothing, or a character that
    is no digit. *)
Definition number_end (tail : jsstring) : bool :=
  match tail with
  | [] => true
  | c :: _ => negb (is_digit c)
  end.

(** The fragment of a Log Events address, without its hash sign, in the
    spelling with dollar signs. *)
Definition log_events_fragment (path : jsstring) (a b : Z) (tail : jsstring)
  : jsstring :=
  path ++ js "$3Fstart$3D" ++ string_of_Z a ++ js "$26end$3D"
  ++ string_of_Z b ++ tail.

(** The label of a length of [h] hours, [m] minutes and [s] seconds: the
    parts that are zero are left out, but for the seconds of a length under
    a minute. *)
Definition duration_label (h m s : Z) : jsstring :=
  join (js " ")
    ((if (0 <? h)%Z then [string_of_Z h ++ js "h"] else [])
     ++ (if (0 <? m)%Z then [string_of_Z m ++ js "m"] else [])
     ++ (if (0 <? s)%Z || ((h =? 0)%Z && (m =? 0)%Z)
         then [string_of_Z s ++ js "s"] else [])).

(** A Metrics fragment: the graph parameter between what stands before it
    and what follows it. *)
Definition metrics_fragment (pre graph post : jsstring) : jsstring :=
  pre ++ js "graph=" ++ graph ++ post.

(** The graph of a Metrics address with two texts as its start and its
    end. *)
Definition graph_with (props : list (jsstring * value)) (a b : jsstring)
  : value :=
  Obj (obj_set (obj_set props (js "start") (Str a)) (js "end") (Str b)).

Definition no_g (c : char) : bool := negb (c =? 103).

(** What may follow the graph parameter: nothing, an ampersand or a
    semicolon. *)
Definition graph_end (post : jsstring) : bool :=
  match post with
  | [] => true
  | c :: _ => negb (not_amp_semi c)
  end.

(** What [new Date(text).getTime()] gives, in a browser whose time zone is
    Asia/Tokyo, for the two texts that stand for the bounds of
    [sample_range]. *)
Definition tokyo_date_parse (text : jsstring) : number :=
  if str_eqb text (js "2023-11-15T07:13:20.000") then Int 1700000000000
  else if str_eqb text (js "2023-11-15T08:13:20.000") then Int 1700003600000
  else NaN.

Definition is_ascii (c : char) : bool := c <? 128.

(** A list of pairs whose names and values are ASCII texts. *)
Definition ascii_pairs (params : list (jsstring * jsstring)) : bool :=
  forallb (fun kv => forallb is_ascii (fst kv) && forallb is_ascii (snd kv))
    params.

(** The characters of the text of an instant in an X-Ray address: ASCII,
    and none of the dollar sign, the ampersand and the tilde. *)
Definition instant_char (c : char) : bool :=
  is_ascii c && negb ((c =? c_dollar) || (c =? c_amp) || (c =? c_tilde)).

(** The characters the serializer of a query writes for an ASCII text. *)
Definition serialized_char (c : char) : bool :=
  is_ascii c && negb (c =? c_amp) && negb (c =? c_eq).

(** A key that begins like [null], [true] or [false] without going on like
    it: its second character, if it has one, is not the second of that
    word. *)
Definition word_like (k : jsstring) : bool :=
  match k with
  | c :: rest =>
    let second (x : char) :=
      match rest with
      | d :: _ => negb (d =? x)
      | [] => true
      end in
    ((c =? c_n) && second 117) || ((c =? c_t) && second 114)
    || ((c =? c_f) && second 97)
  | [] => false
  end.

(** What the decoder builds from the later entries of a map: before a key
    that begins like a word it sets the empty key to [undefined]. *)
Fixpoint loose_rest (obj rest : list (jsstring * value))
  : list (jsstring * value) :=
  match rest with
  | [] => obj
  | (k, v) :: rest' =>
    loose_rest
      (obj_set (if later_key_ok k then obj else obj_set obj [] Undefined) k v)
      rest'
  end.

Definition loose_from (obj props : list (jsstring * value))
  : list (jsstring * value) :=
  match props with
  | [] => obj
  | (k, v) :: rest => loose_rest (obj_set obj k v) rest
  end.

(** A key of a map of a Logs Insights address: not empty, no array index,
    not [__proto__] and without the characters the decoder stops at. *)
Definition named_key (k : jsstring) : bool :=
  key_ok k
  && match k with [] => false | _ :: _ => true end
  && match array_index k with None => true | Some _ => false end.

(** The keys of a map that the decoder reads back up to an empty key
    without a value: named and distinct, and a later key does not begin
    like a value unless it begins like a word. *)
Definition loose_keys (ks : list jsstring) : bool :=
  match ks with
  | [] => false
  | _ :: rest => forallb (fun k => later_key_ok k || word_like k) rest
  end
  && forallb named_key ks
  && distinct ks.

(** Such a map: its values are values of the round trip. *)
Definition loose_safe (props : list (jsstring * value)) : bool :=
  loose_keys (map fst props)
  && forallb (fun kv => round_trip_safe (snd kv)) props.

Definition has_value (v : value) : bool :=
  match v with
  | Undefined => false
  | _ => true
  end.

(** In a decoded map the empty key, and no other, has no value. *)
Definition gap_only (obj : list (jsstring * value)) : bool :=
  forallb (fun kv =>
             Bool.eqb match fst kv with [] => true | _ :: _ => false end
                      (negb (has_value (snd kv)))) obj.

(** The entries of a map that have a value. *)
Definition entries (obj : list (jsstring * value))
  : list (jsstring * value) :=
  filter (fun kv => has_value (snd kv)) obj.

(** What [encodeURIComponent] writes for an ASCII character. *)
Definition uri_chunk (c : char) : jsstring :=
  if unescaped c then [c] else escape_byte c.

Definition no_q (c : char) : bool := negb (c =? 113).

(** The map of a Logs Insights address after an injection. *)
Definition insights_with (props : list (jsstring * value)) (s e : Z)
  : list (jsstring * value) :=
  obj_set
    (obj_set (obj_set props (js "start") (Num (Int (s / 1000))))
       (js "end") (Num (Int (e / 1000))))
    (js "timeType") (Str (js "ABSOLUTE")).

(** The value of [queryDetail] that the injector writes for a text: the
    escapes of [encodeURIComponent] with a dollar sign for the percent
    sign. *)
Definition dollar_encoded (text : jsstring) : jsstring :=
  map (fun c => if c =? c_pct then c_dollar else c) (flat_map uri_chunk text).

Definition insights_fragment (pre detail post : jsstring) : jsstring :=
  pre ++ js "queryDetail=" ++ detail ++ post.

(** The map of a Logs Insights address with a relative range, and the
    fragment that holds it. *)
Definition insights_props : list (jsstring * value) :=
  [(js "end", Num (Int 0)); (js "start", Num (Int (-3600)));
   (js "timeType", Str (js "RELATIVE")); (js "tz", Str (js "UTC"));
   (js "editorString", Str (js "fields @timestamp | limit 20"))].

Definition insights_detail : jsstring :=
  js "~(end~0~start~-3600~timeType~'RELATIVE~tz~'UTC~editorString~'fields$20$40timestamp$20$7C$20limit$2020)".

(** ** Strings *)

Lemma str_eqb_eq (a b : jsstring) : str_eqb a b = true <-> a = b.
Proof.
  revert b; induction a as [|x a IH]; intros [|y b]; simpl;
    try (split; [discriminate | discriminate || reflexivity]).
  - split; reflexivity.
  - rewrite andb_true_iff, N.eqb_eq, IH. split.
    + intros [-> ->]; reflexivity.
    + intros H; injection H; auto.
Qed.

Lemma str_eqb_refl (a : jsstring) : str_eqb a a = true.
Proof. apply str_eqb_eq; reflexivity. Qed.

Lemma flat_map_filter_nil {A B} (f : A -> list B) (p : A -> bool) (l : list A) :
  (forall x, p x = false -> f x = []) ->
  flat_map f (filter p l) = flat_map f l.
Proof.
  intros H; induction l as [|x l IH]; simpl; [reflexivity|].
  destruct (p x) eqn:E; simpl; rewrite IH; [reflexivity|].
  rewrite (H x E); reflexivity.
Qed.

(** ** C10: [undefined] in arrays and in maps *)

(** An encoding is empty exactly for [undefined]. *)
Lemma stringify_empty_iff (v : value) : _stringify v = [] <-> v = Undefined.
Proof.
  destruct v as [| |b|n|s|items|props]; simpl;
    try (split; [discriminate | discriminate]).
  - split; reflexivity.
  - destruct (isFinite n); split; discriminate.
Qed.

Lemma or_null_stringify (item : value) :
  or_null (_stringify item) = element_token item.
Proof.
  destruct item as [| |b|n|s|items|props]; simpl; try reflexivity.
  destruct (isFinite n); reflexivity.
Qed.

Lemma element_token_not_empty (item : value) : element_token item <> [].
Proof.
  destruct item as [| |b|n|s|items|props]; simpl; try discriminate.
  destruct (isFinite n); discriminate.
Qed.

(** C10.  [JSURL.stringify] writes one non-empty token for every element of
    an array, [~null] for an [undefined] element, so that the number of
    tokens is the length of the array; it writes nothing for a key of a map
    whose value is [undefined], whose encoding alone is empty: the map
    encodes as the map without these keys does. *)
Theorem C10_undefined_in_arrays_and_maps :
  (forall items : list value,
     stringify (Arr items)
     = c_tilde :: c_lparen :: concat (map element_token items) ++ [c_rparen]
     /\ length (map element_token items) = length items
     /\ Forall (fun token => token <> []) (map element_token items))
  /\ element_token Undefined = js "~null"
  /\ (forall v : value, stringify v = [] <-> v = Undefined)
  /\ (forall props : list (jsstring * value),
        stringify (Obj props) = stringify (Obj (filter defined props))).
Proof.
  split; [|split; [reflexivity|split]].
  - intros items. split; [|split].
    + unfold stringify; simpl.
      rewrite (map_ext _ element_token or_null_stringify). reflexivity.
    + apply length_map.
    + apply Forall_forall. intros token Hin.
      apply in_map_iff in Hin. destruct Hin as [item [<- _]].
      apply element_token_not_empty.
  - apply stringify_empty_iff.
  - intros props. unfold stringify; simpl. do 4 f_equal.
    symmetry. apply flat_map_filter_nil.
    intros [k v] H. unfold defined in H; simpl in *.
    destruct v; try discriminate. reflexivity.
Qed.

(** ** C5: the escapes of strings and keys *)

Lemma escape_value_char (c : char) :
  c <> c_bang ->
  replace_class (fun c => c =? c_pct) (fun _ => lit_pct)
    (if cls_value c then _encode c else [c]) = escape_spec c.
Proof.
  intros Hb. unfold cls_value, escape_spec, _encode.
  destruct (N.eqb_spec c c_bang) as [->|_]; [contradiction|].
  destruct (N.eqb_spec c c_quote) as [->|_]; [reflexivity|].
  destruct (N.eqb_spec c c_star) as [->|_]; [reflexivity|].
  simpl. unfold replace_class; simpl.
  destruct (c =? c_pct); reflexivity.
Qed.

Lemma escape_key_char (c : char) :
  c <> c_bang -> (if cls_key c then _encode c else [c]) = escape_spec c.
Proof.
  intros Hb. unfold cls_key, escape_spec, _encode.
  destruct (N.eqb_spec c c_bang) as [->|_]; [contradiction|].
  destruct (N.eqb_spec c c_quote) as [->|_]; [reflexivity|].
  destruct (N.eqb_spec c c_star) as [->|_]; [reflexivity|].
  destruct (N.eqb_spec c c_pct) as [->|_]; reflexivity.
Qed.

Lemma replace_class_app cls f (a b : jsstring) :
  replace_class cls f (a ++ b) = replace_class cls f a ++ replace_class cls f b.
Proof. unfold replace_class. apply flat_map_app. Qed.

Lemma escape_value (s : jsstring) :
  ~ In c_bang s ->
  replace_class (fun c => c =? c_pct) (fun _ => lit_pct)
    (replace_class cls_value _encode s) = flat_map escape_spec s.
Proof.
  induction s as [|c s IH]; intros Hs; [reflexivity|].
  change (replace_class cls_value _encode (c :: s))
    with ((if cls_value c then _encode c else [c])
            ++ replace_class cls_value _encode s).
  rewrite replace_class_app, escape_value_char, IH; simpl; auto.
  - intros H; apply Hs; right; exact H.
  - intros ->; apply Hs; left; reflexivity.
Qed.

Lemma escape_key (k : jsstring) :
  ~ In c_bang k -> replace_class cls_key _encode k = flat_map escape_spec k.
Proof.
  induction k as [|c k IH]; intros Hk; [reflexivity|].
  change (replace_class cls_key _encode (c :: k))
    with ((if cls_key c then _encode c else [c])
            ++ replace_class cls_key _encode k).
  rewrite escape_key_char, IH; simpl; auto.
  - intros H; apply Hk; right; exact H.
  - intros ->; apply Hk; left; reflexivity.
Qed.

(** The two passes over a string value and the one pass over a key write
    the same text for a character, whatever the character is. *)
Lemma written_value_char (c : char) :
  replace_class (fun c => c =? c_pct) (fun _ => lit_pct)
    (if cls_value c then _encode c else [c]) = written c.
Proof.
  unfold written. destruct (N.eqb_spec c c_bang) as [->|Hb]; [reflexivity|].
  apply escape_value_char. exact Hb.
Qed.

Lemma written_key_char (c : char) :
  (if cls_key c then _encode c else [c]) = written c.
Proof.
  unfold written. destruct (N.eqb_spec c c_bang) as [->|Hb]; [reflexivity|].
  apply escape_key_char. exact Hb.
Qed.

Lemma written_value (s : jsstring) :
  replace_class (fun c => c =? c_pct) (fun _ => lit_pct)
    (replace_class cls_value _encode s) = flat_map written s.
Proof.
  induction s as [|c s IH]; [reflexivity|].
  change (replace_class cls_value _encode (c :: s))
    with ((if cls_value c then _encode c else [c])
            ++ replace_class cls_value _encode s).
  rewrite replace_class_app, written_value_char, IH. reflexivity.
Qed.

Lemma written_key (k : jsstring) :
  replace_class cls_key _encode k = flat_map written k.
Proof.
  induction k as [|c k IH]; [reflexivity|].
  change (replace_class cls_key _encode (c :: k))
    with ((if cls_key c then _encode c else [c])
            ++ replace_class cls_key _encode k).
  rewrite written_key_char, IH. reflexivity.
Qed.

(** The entries that a map is encoded with: those whose value is not
    [undefined], each as its key followed by its value. *)
Lemma stringify_entries_written (props : list (jsstring * value)) :
  flat_map (fun kv =>
              match _stringify (snd kv) with
              | [] => []
              | _ :: _ =>
                [replace_class cls_key _encode (fst kv) ++ _stringify (snd kv)]
              end) props
  = map (fun kv => flat_map written (fst kv) ++ stringify (snd kv))
      (filter defined props).
Proof.
  induction props as [|[k v] props IH]; [reflexivity|].
  cbn [flat_map filter fst snd]. rewrite IH. clear IH.
  assert (D : defined (k, v)
              = match _stringify v with [] => false | _ :: _ => true end).
  { unfold defined; cbn [snd]. destruct v; try reflexivity.
    cbn [_stringify]. destruct (isFinite n); reflexivity. }
  rewrite D. destruct (_stringify v) as [|x xs] eqn:E; [reflexivity|].
  cbn [map app fst snd]. unfold stringify. rewrite E, written_key.
  reflexivity.
Qed.

(** C5, as the code has it.  [JSURL.stringify] writes a string value and a
    key of a map character by character, and it writes the same for a
    character in both: [!] for a quote, [*2A] for a star, [*25] for a
    percent sign, and the character itself for every other printable
    character of ASCII except the exclamation mark.  A map is written as
    its entries with a value, each as the key followed by the value. *)
Theorem C5_escapes_of_strings_and_keys :
  exists text_of : char -> jsstring,
    (forall s : jsstring,
       stringify (Str s) = js "~'" ++ flat_map text_of s)
    /\ (forall props : list (jsstring * value),
          stringify (Obj props)
          = js "~("
            ++ join [c_tilde]
                 (map (fun kv => flat_map text_of (fst kv) ++ stringify (snd kv))
                    (filter defined props))
            ++ js ")")
    /\ text_of c_quote = js "!"
    /\ text_of c_star = js "*2A"
    /\ text_of c_pct = js "*25"
    /\ (forall c : char,
          32 <= c <= 126 ->
          c <> c_bang -> c <> c_quote -> c <> c_star -> c <> c_pct ->
          text_of c = [c]).
Proof.
  exists written. split; [|split; [|split; [|split; [|split]]]];
    try reflexivity.
  - intros s. unfold stringify; simpl. rewrite written_value. reflexivity.
  - intros props. unfold stringify at 1. cbn [_stringify].
    rewrite <- stringify_entries_written. reflexivity.
  - intros c _ H1 H2 H3 H4. unfold written, escape_spec.
    destruct (N.eqb_spec c c_bang); [contradiction|].
    destruct (N.eqb_spec c c_quote); [contradiction|].
    destruct (N.eqb_spec c c_star); [contradiction|].
    destruct (N.eqb_spec c c_pct); [contradiction|].
    reflexivity.
Qed.

Lemma C5_escapes_witness :
  stringify (Str (js "it's 100% *new*")) = js "~'it!s 100*25 *2Anew*2A"
  /\ stringify (Obj [(js "a'b%", Null); (js "c", Undefined);
                     (js "d*", Bool true)])
     = js "~(a!b*25~null~d*2A~true)".
Proof.
  destruct C5_escapes_of_strings_and_keys
    as [text_of [H1 [H2 [Hq [Hs [Hp Ho]]]]]].
  assert (Hq' : text_of 39 = [33]) by exact Hq.
  assert (Hs' : text_of 42 = [42; 50; 65]) by exact Hs.
  assert (Hp' : text_of 37 = [42; 50; 53]) by exact Hp.
  assert (Hc : forall c, (32 <=? c) && (c <=? 126) && negb (c =? 33)
                         && negb (c =? 39) && negb (c =? 42)
                         && negb (c =? 37) = true -> text_of c = [c]).
  { intros c H. repeat (apply andb_true_iff in H; destruct H as [H ?]).
    repeat match goal with
           | X : negb _ = true |- _ =>
             apply negb_true_iff in X; apply N.eqb_neq in X
           | X : (_ <=? _) = true |- _ => apply N.leb_le in X
           end.
    apply Ho; [lia|assumption..]. }
  split.
  - rewrite H1.
    change (js "it's 100% *new*")
      with [105; 116; 39; 115; 32; 49; 48; 48; 37; 32; 42; 110; 101; 119; 42].
    cbn [flat_map]. rewrite Hq', Hs', Hp'.
    rewrite !Hc by reflexivity. reflexivity.
  - rewrite H2. cbn [filter defined snd map fst].
    change (js "a'b%") with [97; 39; 98; 37].
    change (js "d*") with [100; 42].
    cbn [flat_map]. rewrite Hq', Hs', Hp'.
    rewrite !Hc by reflexivity. reflexivity.
Defined.

(** The claim of C5 fails on the code.  A star is escaped, as [*2A].  An
    exclamation mark is not doubled: a quote is written for it.  A
    character beyond ASCII is copied, not written as [*HH] or [**HHHH],
    and so is a control character. *)
Lemma C5_counterexample :
  stringify (Str (js "*")) = js "~'*2A"
  /\ stringify (Str (js "*")) <> js "~'*"
  /\ stringify (Str (js "!")) = js "~''"
  /\ stringify (Str (js "!")) <> js "~'!!"
  /\ stringify (Str [233]) = js "~'" ++ [233]
  /\ stringify (Str [233]) <> js "~'*E9"
  /\ stringify (Str [233]) <> js "~'**00E9"
  /\ stringify (Str [12354]) = js "~'" ++ [12354]
  /\ stringify (Str [12354]) <> js "~'**3042"
  /\ stringify (Str [7]) = js "~'" ++ [7]
  /\ stringify (Str [7]) <> js "~'*07".
Proof. vm_compute. repeat split; discriminate. Qed.

(** ** The equations of the decoder *)

Lemma _parse_S (fuel : nat) (str : jsstring) (i : nat) :
  _parse (S fuel) str i =
  match charAt str i with
  | None => Return (Undefined, i)
  | Some ch =>
    if ch =? c_tilde then
      let i := (i + 1)%nat in
      let ch := charAt str i in
      if is_char ch c_lparen then
        let i := (i + 1)%nat in
        if is_char (charAt str i) c_rparen then Return (Arr [], (i + 1)%nat)
        else if is_char (charAt str i) c_tilde
        then array_loop fuel str i []
        else object_loop fuel str i []
      else if is_char ch c_quote then
        let '(s, j) := parse_string (length str - (i + 1)) str (i + 1) [] in
        Return (Str s, j)
      else if is_char ch c_n then
        if str_eqb (substring str i (i + 4)) word_null
        then Return (Null, (i + 4)%nat) else Return (Undefined, i)
      else if is_char ch c_t then
        if str_eqb (substring str i (i + 4)) lit_true
        then Return (Bool true, (i + 4)%nat) else Return (Undefined, i)
      else if is_char ch c_f then
        if str_eqb (substring str i (i + 5)) lit_false
        then Return (Bool false, (i + 5)%nat) else Return (Undefined, i)
      else
        let '(numStr, j) := parse_number (length str - i) str i [] in
        Return (Num (Number numStr), j)
    else Return (Undefined, i)
  end.
Proof. reflexivity. Qed.

Lemma array_loop_S (fuel : nat) (str : jsstring) (i : nat) (arr : list value) :
  array_loop (S fuel) str i arr =
  match _parse fuel str i with
  | Return (v, j) =>
    if negb (is_char (charAt str j) c_rparen) && (j <? length str)%nat
    then if (j =? i)%nat then Throw RangeError
         else array_loop fuel str j (arr ++ [v])
    else Return (Arr (arr ++ [v]), (j + 1)%nat)
  | Throw e => Throw e
  | Timeout => Timeout
  end.
Proof. reflexivity. Qed.

Lemma object_loop_S (fuel : nat) (str : jsstring) (i : nat)
    (obj : list (jsstring * value)) :
  object_loop (S fuel) str i obj =
  let '(key, i) := parse_key (length str - i) str i [] in
  match _parse fuel str i with
  | Return (v, j) =>
    let j' :=
      if is_char (charAt str j) c_tilde
         && negb (starts_value (charAt str (j + 1)))
      then (j + 1)%nat else j in
    if negb (is_char (charAt str j') c_rparen) && (j' <? length str)%nat
    then object_loop fuel str j' (obj_set obj key v)
    else Return (Obj (obj_set obj key v), (j' + 1)%nat)
  | Throw e => Throw e
  | Timeout => Timeout
  end.
Proof. reflexivity. Qed.

(** ** Fuel *)

(** What a call has done, a value returned or an exception thrown, does
    not depend on the fuel that was left over. *)
Lemma parse_fuel_S (fuel : nat) :
  (forall str i r, r <> Timeout ->
     _parse fuel str i = r -> _parse (S fuel) str i = r)
  /\ (forall str i arr r, r <> Timeout ->
        array_loop fuel str i arr = r -> array_loop (S fuel) str i arr = r)
  /\ (forall str i obj r, r <> Timeout ->
        object_loop fuel str i obj = r -> object_loop (S fuel) str i obj = r).
Proof.
  induction fuel as [|fuel [IHp [IHa IHo]]].
  - repeat split; intros; cbn in *; congruence.
  - split; [|split].
    + intros str i r Hr. rewrite (_parse_S (S fuel)), (_parse_S fuel).
      destruct (charAt str i) as [ch|]; [|auto].
      destruct (ch =? c_tilde); [|auto]. cbv zeta.
      destruct (is_char (charAt str (i + 1)) c_lparen); [|auto].
      destruct (is_char (charAt str (i + 1 + 1)) c_rparen); [auto|].
      destruct (is_char (charAt str (i + 1 + 1)) c_tilde);
        [apply IHa|apply IHo]; exact Hr.
    + intros str i arr r Hr.
      rewrite (array_loop_S (S fuel)), (array_loop_S fuel).
      destruct (_parse fuel str i) as [[v j]|e|] eqn:E.
      * rewrite (IHp _ _ (Return (v, j)) ltac:(discriminate) E).
        destruct (negb (is_char (charAt str j) c_rparen)
                  && (j <? length str)%nat); [|auto].
        destruct (j =? i)%nat; [auto|apply IHa; exact Hr].
      * rewrite (IHp _ _ (Throw e) ltac:(discriminate) E). auto.
      * intros <-. contradiction.
    + intros str i obj r Hr.
      rewrite (object_loop_S (S fuel)), (object_loop_S fuel).
      destruct (parse_key (length str - i) str i []) as [key i'].
      destruct (_parse fuel str i') as [[v j]|e|] eqn:E.
      * rewrite (IHp _ _ (Return (v, j)) ltac:(discriminate) E). cbv zeta.
        match goal with
        | |- context [if ?c then object_loop _ _ _ _ else _] => destruct c
        end; [apply IHo; exact Hr|auto].
      * rewrite (IHp _ _ (Throw e) ltac:(discriminate) E). auto.
      * intros <-. contradiction.
Qed.

Lemma parse_fuel_done (fuel fuel' : nat) (str : jsstring) (i : nat) r :
  (fuel <= fuel')%nat -> r <> Timeout ->
  _parse fuel str i = r -> _parse fuel' str i = r.
Proof.
  induction 1 as [|fuel' _ IH]; [auto|].
  intros Hr H. apply parse_fuel_S; auto.
Qed.

Lemma parse_fuel_le (fuel fuel' : nat) (str : jsstring) (i : nat) r :
  (fuel <= fuel')%nat ->
  _parse fuel str i = Return r -> _parse fuel' str i = Return r.
Proof. intros Hle. apply parse_fuel_done; [exact Hle|discriminate]. Qed.

Lemma parse_fuel_result (fuel fuel' : nat) (t : jsstring) (r : outcome value) :
  (fuel <= fuel')%nat -> r <> Timeout ->
  parse fuel t = r -> parse fuel' t = r.
Proof.
  intros Hle Hr. unfold parse. destruct t as [|c t]; [auto|].
  destruct (_parse fuel (c :: t) 0) as [[v' j]|e|] eqn:E.
  - rewrite (parse_fuel_le _ _ _ _ _ Hle E). auto.
  - rewrite (parse_fuel_done _ _ (c :: t) 0 (Throw e) Hle
               ltac:(discriminate) E). auto.
  - intros <-. contradiction.
Qed.

Lemma parse_fuel_mono (fuel fuel' : nat) (t : jsstring) (v : value) :
  (fuel <= fuel')%nat -> parse fuel t = Return v -> parse fuel' t = Return v.
Proof. intros Hle. apply parse_fuel_result; [exact Hle|discriminate]. Qed.

Lemma tryParse_never_throws (fuel : nat) (t : jsstring) (d : value) (e : exn) :
  tryParse fuel t d <> Throw e.
Proof.
  unfold tryParse, try_catch, bind. destruct (parse fuel t); discriminate.
Qed.

Lemma tryParse_fuel_mono (fuel fuel' : nat) (t : jsstring) (d v : value) :
  (fuel <= fuel')%nat ->
  tryParse fuel t d = Return v -> tryParse fuel' t d = Return v.
Proof.
  intros Hle. unfold tryParse, try_catch, bind.
  destruct (parse fuel t) as [x|e|] eqn:E; try discriminate.
  - rewrite (parse_fuel_mono _ _ _ _ Hle E). auto.
  - rewrite (parse_fuel_result _ _ t (Throw e) Hle ltac:(discriminate) E).
    auto.
Qed.

(** With less fuel a call either gives the same value or is still
    running. *)
Lemma tryParse_fuel_cases (fuel fuel' : nat) (t : jsstring) (d v : value) :
  tryParse fuel' t d = Return v ->
  tryParse fuel t d = Return v \/ tryParse fuel t d = Timeout.
Proof.
  intros H.
  destruct (tryParse fuel t d) as [x|e|] eqn:E; [| |auto].
  - left. destruct (Nat.le_ge_cases fuel fuel') as [Hle|Hle].
    + rewrite (tryParse_fuel_mono _ _ _ _ _ Hle E) in H. exact H.
    + rewrite (tryParse_fuel_mono _ _ _ _ _ Hle H) in E. symmetry; exact E.
  - exfalso. eapply tryParse_never_throws; eassumption.
Qed.

(** ** C4: [JSURL.tryParse] *)

Lemma is_char_In (s : jsstring) (i : nat) (x : char) :
  is_char (charAt s i) x = true -> In x s.
Proof.
  unfold is_char, charAt. destruct (nth_error s i) as [y|] eqn:E; [|discriminate].
  intros H. apply N.eqb_eq in H. subst y. eapply nth_error_In; eassumption.
Qed.

(** A text without an opening parenthesis is decoded in one step. *)
Lemma parse_flat_returns (fuel : nat) (t : jsstring) :
  (0 < fuel)%nat -> ~ In c_lparen t -> exists v, parse fuel t = Return v.
Proof.
  intros Hf Hn. destruct fuel as [|fuel]; [lia|].
  unfold parse. destruct t as [|c t]; [eexists; reflexivity|].
  rewrite _parse_S.
  destruct (charAt (c :: t) 0) as [ch|]; [|eexists; reflexivity].
  destruct (ch =? c_tilde); [|eexists; reflexivity]. cbv zeta.
  destruct (is_char (charAt (c :: t) (0 + 1)) c_lparen) eqn:E.
  { exfalso. apply Hn. eapply is_char_In; eassumption. }
  destruct (is_char (charAt (c :: t) (0 + 1)) c_quote).
  { destruct (parse_string _ _ _ _); eexists; reflexivity. }
  destruct (is_char (charAt (c :: t) (0 + 1)) c_n).
  { destruct (str_eqb _ _); eexists; reflexivity. }
  destruct (is_char (charAt (c :: t) (0 + 1)) c_t).
  { destruct (str_eqb _ _); eexists; reflexivity. }
  destruct (is_char (charAt (c :: t) (0 + 1)) c_f).
  { destruct (str_eqb _ _); eexists; reflexivity. }
  destruct (parse_number _ _ _ _); eexists; reflexivity.
Qed.

(** An object loop that cannot advance: on [~(a(] the key loop stops at
    the second parenthesis, nothing is read there, and the next turn finds
    the cursor where it was.  No array grows, and the call does not end. *)
Lemma stuck_at : charAt (js "~(a(") 3 = Some c_lparen.
Proof. reflexivity. Qed.

Lemma object_loop_stuck (fuel : nat) :
  forall obj, object_loop fuel (js "~(a(") 3 obj = Timeout.
Proof.
  induction fuel as [|fuel IH]; intros obj; [reflexivity|].
  rewrite object_loop_S.
  change (parse_key (length (js "~(a(") - 3) (js "~(a(") 3 [])
    with (@nil char, 3%nat).
  destruct fuel as [|fuel]; [reflexivity|].
  rewrite _parse_S.
  rewrite stuck_at. cbv beta iota zeta.
  change (c_lparen =? c_tilde) with false. cbv beta iota zeta.
  rewrite !stuck_at. cbn [is_char].
  change (c_lparen =? c_tilde) with false. cbn [andb]. cbv iota.
  rewrite !stuck_at. cbn [is_char].
  change (c_lparen =? c_rparen) with false.
  change (3 <? length (js "~(a("))%nat with true.
  cbn [andb negb]. cbv iota. apply IH.
Qed.

Lemma parse_never_ends (fuel : nat) : parse fuel (js "~(a(") = Timeout.
Proof.
  destruct fuel as [|fuel]; [reflexivity|].
  unfold parse.
  change (_parse (S fuel) (js "~(a(") 0)
    with (object_loop fuel (js "~(a(") 2 []).
  destruct fuel as [|fuel]; [reflexivity|].
  rewrite object_loop_S.
  change (parse_key (length (js "~(a(") - 2) (js "~(a(") 2 [])
    with ([97], 3%nat).
  destruct fuel as [|fuel]; [reflexivity|].
  rewrite _parse_S.
  rewrite stuck_at. cbv beta iota zeta.
  change (c_lparen =? c_tilde) with false. cbv beta iota zeta.
  rewrite !stuck_at. cbn [is_char].
  change (c_lparen =? c_tilde) with false. cbn [andb]. cbv iota.
  rewrite !stuck_at. cbn [is_char].
  change (c_lparen =? c_rparen) with false.
  change (3 <? length (js "~(a("))%nat with true.
  cbn [andb negb]. cbv iota. rewrite object_loop_stuck. reflexivity.
Qed.

(** C4, as the code has it.  [JSURL.tryParse(t, d)] never raises.  It
    returns [d] when [JSURL.parse(t)] raises, and also when [JSURL.parse(t)]
    returns a falsy value ([undefined], [null], [false], 0, [NaN] or the
    empty string); it returns the value of [JSURL.parse(t)] otherwise.  The
    empty text and a text that does not start with the value marker decode
    to [undefined], hence give [d].  It is still running exactly as long
    as [JSURL.parse] is, which returns at once on a text without an opening
    parenthesis. *)
Theorem C4_tryParse_falls_back_on_falsy (fuel : nat) (t : jsstring) (d : value) :
  (forall e, tryParse fuel t d <> Throw e)
  /\ (forall e, parse fuel t = Throw e -> tryParse fuel t d = Return d)
  /\ (forall v, parse fuel t = Return v ->
                tryParse fuel t d = Return (if truthy v then v else d))
  /\ (parse fuel t = Timeout <-> tryParse fuel t d = Timeout)
  /\ (t = [] -> tryParse fuel t d = Return d)
  /\ (forall c rest, (0 < fuel)%nat -> t = c :: rest -> c <> c_tilde ->
                     tryParse fuel t d = Return d)
  /\ ((0 < fuel)%nat -> ~ In c_lparen t ->
      exists v, parse fuel t = Return v).
Proof.
  repeat split.
  - intros e. apply tryParse_never_throws.
  - intros e H. unfold tryParse. rewrite H. reflexivity.
  - intros v H. unfold tryParse. rewrite H. reflexivity.
  - intros H. unfold tryParse. rewrite H. reflexivity.
  - unfold tryParse, try_catch, bind.
    destruct (parse fuel t); try discriminate; reflexivity.
  - intros ->. reflexivity.
  - intros c rest Hf -> Hc. destruct fuel as [|fuel]; [lia|].
    unfold tryParse, parse. rewrite _parse_S. cbn [charAt nth_error].
    destruct (N.eqb_spec c c_tilde); [contradiction|]. reflexivity.
  - apply parse_flat_returns.
Qed.

Lemma C4_tryParse_witness :
  tryParse 1 (js "~42") Null = Return (Num (Int 42))
  /\ tryParse 1 (js "~false") (Str (js "d")) = Return (Str (js "d"))
  /\ tryParse 1 (js "x~1") (Str (js "d")) = Return (Str (js "d"))
  /\ parse 4 truncated_null_array = Throw RangeError
  /\ tryParse 4 truncated_null_array (Str (js "d")) = Return (Str (js "d"))
  /\ tryParse 50 (js "~(a(") (Str (js "d")) = Timeout.
Proof.
  destruct (C4_tryParse_falls_back_on_falsy 1 (js "~42") Null)
    as [_ [_ [H1 _]]].
  destruct (C4_tryParse_falls_back_on_falsy 1 (js "~false") (Str (js "d")))
    as [_ [_ [H2 _]]].
  destruct (C4_tryParse_falls_back_on_falsy 1 (js "x~1") (Str (js "d")))
    as [_ [_ [_ [_ [_ [H3 _]]]]]].
  destruct (C4_tryParse_falls_back_on_falsy 4 truncated_null_array
              (Str (js "d")))
    as [_ [H4 _]].
  destruct (C4_tryParse_falls_back_on_falsy 50 (js "~(a(") (Str (js "d")))
    as [_ [_ [_ [H5 _]]]].
  split; [|split; [|split; [|split; [|split]]]].
  - apply (H1 (Num (Int 42))). reflexivity.
  - apply (H2 (Bool false)). reflexivity.
  - apply (H3 120 (js "~1")); [lia | reflexivity | discriminate].
  - reflexivity.
  - apply (H4 RangeError). reflexivity.
  - exact (proj1 H5 (parse_never_ends 50)).
Defined.

(** The claim of C4 fails on the code: [~0] is the encoding of 0, it is
    decoded without an exception to 0, and yet [tryParse] answers with the
    default. *)
Lemma C4_counterexample :
  stringify (Num (Int 0)) = js "~0"
  /\ parse 1 (js "~0") = Return (Num (Int 0))
  /\ tryParse 1 (js "~0") (Str (js "d")) = Return (Str (js "d"))
  /\ Str (js "d") <> Num (Int 0).
Proof. vm_compute. repeat split; discriminate. Qed.

(** ** C3: decoding a truncated container *)

(** C3 fails on the code.  The text [~(~nu] is the encoding [~(~null)] of
    the array [[null]] cut before its closing parenthesis.  [JSURL.parse]
    returns no array for it: the array loop reads [undefined] at the [n]
    without moving, again and again, and the call ends with the
    [RangeError] of a push to a full array. *)
Theorem C3_truncated_array_never_decoded :
  stringify (Arr [Null]) = truncated_null_array ++ js "ll)"
  /\ (forall fuel, (4 <= fuel)%nat ->
        parse fuel truncated_null_array = Throw RangeError)
  /\ (forall fuel v, parse fuel truncated_null_array <> Return v).
Proof.
  assert (H4 : parse 4 truncated_null_array = Throw RangeError)
    by reflexivity.
  split; [reflexivity|]. split.
  - intros fuel Hf.
    apply (parse_fuel_result 4 fuel truncated_null_array _ Hf);
      [discriminate|exact H4].
  - intros fuel v H.
    pose proof (parse_fuel_mono _ _ truncated_null_array _
                  (Nat.le_max_l fuel 4) H) as H1.
    pose proof (parse_fuel_result _ _ truncated_null_array
                  (Throw RangeError)
                  (Nat.le_max_r fuel 4) ltac:(discriminate) H4) as H2.
    congruence.
Qed.

Lemma C3_truncated_array_witness :
  parse 4 truncated_null_array = Throw RangeError
  /\ parse 1000 truncated_null_array = Throw RangeError.
Proof.
  destruct C3_truncated_array_never_decoded as [_ [H _]].
  split; apply H; lia.
Defined.

(** ** C9: the generic hash-state marker *)

(** The content script as it stands classifies every CloudWatch address
    with the marker [?~(] anywhere in its fragment as the generic scheme,
    unless a more specific scheme claims the address. *)
Lemma detectService_generic_marker (url pathname hash : jsstring) :
  includes pathname (js "/cloudwatch") = true ->
  includes hash (js "?~(") = true ->
  (claimed_by_specific pathname hash = false ->
   detectService url pathname hash = CloudwatchGeneric)
  /\ (claimed_by_specific pathname hash = true ->
      detectService url pathname hash <> CloudwatchGeneric)
  /\ detectService url pathname hash <> CloudwatchOther
  /\ detectService url pathname hash <> Unknown
  /\ detectService url pathname hash <> NotAws.
Proof.
  intros Hp Hh. unfold claimed_by_specific, detectService.
  rewrite Hp, Hh. clear Hp Hh. abstract_includes.
  repeat match goal with
         | x : bool |- _ => destruct x; cbn [andb orb negb]
         end;
    repeat split; intros; try discriminate; try reflexivity.
Qed.

(** C9 fails on src/content/content.js.  For a dashboard address, where a
    path segment stands between the [:] and the [?], its [detectService]
    looks for [:?~(] and answers [cloudwatch-other]; the notes of the
    repository name this as a defect, and the later state of the script,
    which looks for [?~(], answers [cloudwatch-generic]. *)
Theorem C9_old_detectService_misses_path_segment :
  includes (js "/cloudwatch/home") (js "/cloudwatch") = true
  /\ includes dashboard_hash (js "?~(") = true
  /\ claimed_by_specific (js "/cloudwatch/home") dashboard_hash = false
  /\ ContentOld.detectService dashboard_url (js "/cloudwatch/home")
       dashboard_hash = CloudwatchOther
  /\ detectService dashboard_url (js "/cloudwatch/home") dashboard_hash
     = CloudwatchGeneric.
Proof. vm_compute. repeat split. Qed.

(** ** C2: a relative Logs Insights range that ends now *)

(** The address of Format A that the notes of the repository record: its
    value is found, unescaped and decoded to an object whose end is 0. *)
Lemma insights_value_found :
  search (re_param false (js "queryDetail=") not_amp_semi true) insights_hash
  = Some (js "#logsV2:log-groups/logs-insights?",
          js "queryDetail=~$28end~0~start~-3600~timeType~$27RELATIVE$29",
          [js "~$28end~0~start~-3600~timeType~$27RELATIVE$29"], []).
Proof. vm_compute. reflexivity. Qed.

Lemma insights_value_unescaped :
  decodeURIComponent
    (map (fun c => if c =? c_dollar then c_pct else c)
       (group1 [js "~$28end~0~start~-3600~timeType~$27RELATIVE$29"]))
  = Return (js "~(end~0~start~-3600~timeType~'RELATIVE)").
Proof. vm_compute. reflexivity. Qed.

Lemma insights_value_decoded (fuel : nat) :
  (9 <= fuel)%nat ->
  tryParse fuel (js "~(end~0~start~-3600~timeType~'RELATIVE)") Null
  = Return insights_object.
Proof.
  intros Hf. apply (tryParse_fuel_mono 9 fuel _ _ _ Hf).
  vm_compute. reflexivity.
Qed.

(** C2 fails on src/content/content.js.  The address of Format A that the
    notes of the repository record decodes to an object in relative mode
    whose end is 0.  The Logs Insights parser of that file tests
    [obj.start && obj.end], takes the 0 for an absent end and returns
    [null]; the parser of the later state of the script tests
    [obj.end != null] and returns a range that ends at the current
    time. *)
Theorem C2_old_parser_drops_end_zero (fuel : nat) (now : Z) :
  (9 <= fuel)%nat ->
  queryDetail_object fuel insights_hash = Return insights_object
  /\ get insights_object (js "end") = Num (Int 0)
  /\ relative_mode insights_object = true
  /\ ContentOld.parseCloudWatchLogsInsights fuel now insights_hash
     = Return None
  /\ exists r,
       parseCloudWatchLogsInsights fuel now insights_hash = Return (Some r)
       /\ end_ r = Int now.
Proof.
  intros Hf.
  pose proof insights_value_found as Hs.
  pose proof insights_value_unescaped as Hd.
  pose proof (insights_value_decoded fuel Hf) as Ht.
  split; [|split; [reflexivity|split; [reflexivity|split]]].
  - unfold queryDetail_object. rewrite Hs. cbv zeta. rewrite Hd.
    cbn [bind]. rewrite Ht. reflexivity.
  - unfold ContentOld.parseCloudWatchLogsInsights.
    rewrite Hs. cbv zeta. rewrite Hd. cbn [bind]. rewrite Ht. reflexivity.
  - unfold parseCloudWatchLogsInsights.
    rewrite Hs. cbv zeta. rewrite Hd. cbn [bind]. rewrite Ht.
    eexists. split; reflexivity.
Qed.

Lemma C2_old_parser_witness :
  ContentOld.parseCloudWatchLogsInsights 9 1771988400000 insights_hash
  = Return None
  /\ exists r,
       parseCloudWatchLogsInsights 9 1771988400000 insights_hash
       = Return (Some r)
       /\ end_ r = Int 1771988400000.
Proof.
  destruct (C2_old_parser_drops_end_zero 9 1771988400000)
    as [_ [_ [_ [H1 H2]]]]; [lia|].
  split; assumption.
Defined.

(** ** C8: the sign convention of Log Events *)

Lemma read_digits_some (radix : N) (s : jsstring) (a : N) :
  exists n, read_digits radix s (Some a) = Some n.
Proof.
  revert a; induction s as [|c s IH]; intros a; simpl; [eauto|].
  destruct (digit_value radix c); [apply IH|eauto].
Qed.

Lemma span_digits_head (r ds rest : jsstring) (d : char) :
  span is_digit r = (d :: ds, rest) -> is_digit d = true.
Proof.
  destruct r as [|c r]; simpl; [discriminate|].
  destruct (is_digit c) eqn:E.
  - destruct (span is_digit r). intros H; injection H as <- _ _. exact E.
  - discriminate.
Qed.

Lemma is_digit_not_space (d : char) : is_digit d = true -> is_space d = false.
Proof.
  unfold is_digit, is_space. intros H.
  apply andb_true_iff in H. destruct H as [H1 H2].
  apply N.leb_le in H1. apply N.leb_le in H2.
  repeat match goal with
         | |- context [?a <=? ?b] => destruct (N.leb_spec a b); try lia
         | |- context [?a =? ?b] => destruct (N.eqb_spec a b); try lia
         end; reflexivity.
Qed.

Lemma parseInt_digits (d : char) (ds : jsstring) :
  is_digit d = true -> exists n, parseInt (d :: ds) 10 = Int (Z.of_N n).
Proof.
  intros Hd. unfold parseInt. cbn [trim_start].
  rewrite (is_digit_not_space d Hd).
  assert (Hm : (d =? c_minus) = false).
  { unfold is_digit in Hd. apply andb_true_iff in Hd. destruct Hd as [H1 _].
    apply N.leb_le in H1. apply N.eqb_neq. unfold c_minus. lia. }
  assert (Hp : (d =? c_plus) = false).
  { unfold is_digit in Hd. apply andb_true_iff in Hd. destruct Hd as [H1 _].
    apply N.leb_le in H1. apply N.eqb_neq. unfold c_plus. lia. }
  rewrite Hm, Hp. cbn [N.eqb Pos.eqb read_digits].
  assert (Hv : exists v, digit_value 10 d = Some v).
  { unfold digit_value. rewrite Hd.
    unfold is_digit in Hd. apply andb_true_iff in Hd. destruct Hd as [H1 H2].
    apply N.leb_le in H1. apply N.leb_le in H2.
    destruct (N.ltb_spec (d - 48) 10); [eauto|lia]. }
  destruct Hv as [v ->].
  destruct (read_digits_some 10 ds v) as [n ->]. eauto.
Qed.

Lemma parseInt_minus_digits (d : char) (ds : jsstring) :
  is_digit d = true ->
  exists n, parseInt (c_minus :: d :: ds) 10 = Int (- Z.of_N n).
Proof.
  intros Hd. unfold parseInt.
  change (trim_start (c_minus :: d :: ds)) with (c_minus :: d :: ds).
  cbn [N.eqb Pos.eqb c_minus read_digits].
  assert (Hv : exists v, digit_value 10 d = Some v).
  { unfold digit_value. rewrite Hd.
    unfold is_digit in Hd. apply andb_true_iff in Hd. destruct Hd as [H1 H2].
    apply N.leb_le in H1. apply N.leb_le in H2.
    destruct (N.ltb_spec (d - 48) 10); [eauto|lia]. }
  destruct Hv as [v Hv].
  change (45 =? 45) with true. cbv iota.
  cbn [read_digits]. rewrite Hv.
  destruct (read_digits_some 10 ds v) as [n ->]. eauto.
Qed.

(** What the pattern for a signed integer matches is read by [parseInt]
    as an integer. *)
Lemma match_int_parseInt (r n rest : jsstring) :
  match_int r = Some (n, rest) -> exists z, parseInt n 10 = Int z.
Proof.
  unfold match_int.
  destruct r as [|c r].
  - simpl. discriminate.
  - destruct (N.eqb_spec c c_minus) as [->|Hc].
    + destruct (span is_digit r) as [[|d ds] rest'] eqn:E; [discriminate|].
      intros H; injection H as <- _.
      destruct (parseInt_minus_digits d ds (span_digits_head _ _ _ _ E))
        as [k Hk].
      exists (- Z.of_N k)%Z. exact Hk.
    + destruct (span is_digit (c :: r)) as [[|d ds] rest'] eqn:E; [discriminate|].
      intros H; injection H as <- _.
      destruct (parseInt_digits d ds (span_digits_head _ _ _ _ E)) as [k Hk].
      exists (Z.of_N k). exact Hk.
Qed.

Lemma search_sep_lit_int_group (cls : char -> bool) (lit s : jsstring)
    pre m caps post :
  search (re_sep_lit_int cls lit true) s = Some (pre, m, caps, post) ->
  exists z, parseInt (group1 caps) 10 = Int z.
Proof.
  revert pre m caps post. induction s as [|c s IH]; intros pre m caps post.
  - simpl. discriminate.
  - cbn [search].
    destruct (re_sep_lit_int cls lit true (c :: s)) as [[[m' caps'] rest]|] eqn:E.
    + intros H; injection H as _ _ <- _.
      unfold re_sep_lit_int in E.
      destruct (match_one cls (c :: s)) as [[c1 r1]|]; [|discriminate].
      destruct (match_lit false lit r1) as [[l r2]|]; [|discriminate].
      destruct (match_int r2) as [[n rest']|] eqn:En; [|discriminate].
      injection E as _ <- _. cbn [group1 nth].
      eapply match_int_parseInt; eassumption.
    + destruct (search (re_sep_lit_int cls lit true) s)
        as [[[[pre' m'] caps'] post']|] eqn:Es; [|discriminate].
      intros H; injection H as _ _ <- _. eapply IH; reflexivity.
Qed.

(** C8 fails on the code.  Beside a negative start, an end that is not
    negative is not taken as the epoch value it is: the range ends now.
    Beside a start that is not negative, a negative end is not counted
    from now: it is taken as an epoch value.  (The start is read as the
    claim says in both addresses.) *)
Theorem C8_log_events_end_sign :
  (exists r,
     parseCloudWatchLogs 1771988400000
       (js "#logsV2:log-groups/log-group/G/log-events/s$3Fstart$3D-1800000$26end$3D1771988000000")
     = Some r
     /\ start r = Int (1771988400000 - 1800000)
     /\ end_ r = Int 1771988400000
     /\ end_ r <> Int 1771988000000)
  /\ (exists r,
        parseCloudWatchLogs 1771988400000
          (js "#logsV2:log-groups/log-group/G/log-events/s$3Fstart$3D1771986600000$26end$3D-60000")
        = Some r
        /\ start r = Int 1771986600000
        /\ end_ r = Int (-60000)
        /\ end_ r <> Int (1771988400000 - 60000)).
Proof.
  split; eexists; (split; [vm_compute; reflexivity|]);
    (split; [reflexivity|]);
    split; [reflexivity|discriminate|reflexivity|discriminate].
Qed.

(** ** Matching and splicing *)

Lemma span_app (cls : char -> bool) (s a b : jsstring) :
  span cls s = (a, b) -> s = a ++ b.
Proof.
  revert a b; induction s as [|c s IH]; intros a b; simpl.
  - intros H; injection H as <- <-; reflexivity.
  - destruct (cls c).
    + destruct (span cls s) as [a' b'] eqn:E.
      intros H; injection H as <- <-. simpl. f_equal. apply IH. reflexivity.
    + intros H; injection H as <- <-; reflexivity.
Qed.

Lemma match_lit_app (ci : bool) (lit s l r : jsstring) :
  match_lit ci lit s = Some (l, r) -> s = l ++ r.
Proof.
  unfold match_lit. destruct (if ci then _ else _); [|discriminate].
  intros H; injection H as <- <-. symmetry; apply firstn_skipn.
Qed.

Lemma match_int_app (s n rest : jsstring) :
  match_int s = Some (n, rest) -> s = n ++ rest.
Proof.
  unfold match_int. destruct s as [|c s].
  - simpl. discriminate.
  - destruct (c =? c_minus).
    + destruct (span is_digit s) as [[|d ds] r] eqn:E; [discriminate|].
      intros H; injection H as <- <-. simpl. f_equal.
      apply (span_app _ _ _ _ E).
    + destruct (span is_digit (c :: s)) as [[|d ds] r] eqn:E; [discriminate|].
      intros H; injection H as <- <-. apply (span_app _ _ _ _ E).
Qed.

Lemma match_one_app (cls : char -> bool) (s c r : jsstring) :
  match_one cls s = Some (c, r) -> s = c ++ r.
Proof.
  unfold match_one. destruct s as [|x s]; [discriminate|].
  destruct (cls x); [|discriminate].
  intros H; injection H as <- <-; reflexivity.
Qed.

Lemma re_param_sound ci lit cls capture : sound (re_param ci lit cls capture).
Proof.
  intros s matched caps rest. unfold re_param.
  destruct (match_lit ci lit s) as [[l r]|] eqn:El; [|discriminate].
  destruct (span cls r) as [v rest'] eqn:Es.
  intros H; injection H as <- _ <-.
  rewrite (match_lit_app _ _ _ _ _ El), (span_app _ _ _ _ Es).
  apply app_assoc.
Qed.

Lemma re_lit_int_sound ci lit capture : sound (re_lit_int ci lit capture).
Proof.
  intros s matched caps rest. unfold re_lit_int.
  destruct (match_lit ci lit s) as [[l r]|] eqn:El; [|discriminate].
  destruct (match_int r) as [[n rest']|] eqn:En; [|discriminate].
  intros H; injection H as <- _ <-.
  rewrite (match_lit_app _ _ _ _ _ El), (match_int_app _ _ _ En).
  apply app_assoc.
Qed.

Lemma re_sep_lit_int_sound cls lit capture_int :
  sound (re_sep_lit_int cls lit capture_int).
Proof.
  intros s matched caps rest. unfold re_sep_lit_int.
  destruct (match_one cls s) as [[c r]|] eqn:Ec; [|discriminate].
  destruct (match_lit false lit r) as [[l r']|] eqn:El; [|discriminate].
  destruct (match_int r') as [[n rest']|] eqn:En; [|discriminate].
  intros H; injection H as <- _ <-.
  rewrite (match_one_app _ _ _ _ Ec), (match_lit_app _ _ _ _ _ El),
    (match_int_app _ _ _ En).
  rewrite <- !app_assoc. reflexivity.
Qed.

(** The leftmost match of a sound matcher cuts the text in three. *)
Lemma search_app (m : matcher) (s pre matched post : jsstring) caps :
  sound m ->
  search m s = Some (pre, matched, caps, post) -> s = pre ++ matched ++ post.
Proof.
  intros Hm. revert pre matched caps post.
  induction s as [|c s IH]; intros pre matched caps post; cbn [search].
  - destruct (m []) as [[[m' caps'] rest]|] eqn:E; [|discriminate].
    intros H; injection H as <- <- _ <-. apply (Hm _ _ _ _ E).
  - destruct (m (c :: s)) as [[[m' caps'] rest]|] eqn:E.
    + intros H; injection H as <- <- _ <-. apply (Hm _ _ _ _ E).
    + destruct (search m s) as [[[[pre' m'] caps'] post']|] eqn:Es;
        [|discriminate].
      intros H; injection H as <- <- _ <-. simpl. f_equal.
      eapply IH; reflexivity.
Qed.

(** Two matchers that match the same texts, up to their groups, have the
    same leftmost match. *)
Lemma search_same_match (m m' : matcher) (s : jsstring) :
  (forall t, match m t with
             | Some (a, _, r) => exists caps, m' t = Some (a, caps, r)
             | None => m' t = None
             end) ->
  match search m s with
  | Some (pre, a, _, post) => exists caps, search m' s = Some (pre, a, caps, post)
  | None => search m' s = None
  end.
Proof.
  intros H. induction s as [|c s IH]; cbn [search].
  - specialize (H []). destruct (m []) as [[[a caps] r]|].
    + destruct H as [caps' ->]. eauto.
    + rewrite H. reflexivity.
  - specialize (H (c :: s)). destruct (m (c :: s)) as [[[a caps] r]|].
    + destruct H as [caps' ->]. eauto.
    + rewrite H. destruct (search m s) as [[[[pre a] caps] post]|].
      * destruct IH as [caps' ->]. eauto.
      * rewrite IH. reflexivity.
Qed.

Lemma re_param_capture ci lit cls (b b' : bool) (t : jsstring) :
  match re_param ci lit cls b t with
  | Some (a, _, r) => exists caps, re_param ci lit cls b' t = Some (a, caps, r)
  | None => re_param ci lit cls b' t = None
  end.
Proof.
  unfold re_param. destruct (match_lit ci lit t) as [[l r]|]; [|reflexivity].
  destruct (span cls r). eauto.
Qed.

Lemma re_lit_int_capture ci lit (b b' : bool) (t : jsstring) :
  match re_lit_int ci lit b t with
  | Some (a, _, r) => exists caps, re_lit_int ci lit b' t = Some (a, caps, r)
  | None => re_lit_int ci lit b' t = None
  end.
Proof.
  unfold re_lit_int. destruct (match_lit ci lit t) as [[l r]|]; [|reflexivity].
  destruct (match_int r) as [[n rest]|]; eauto.
Qed.

Lemma replace_splice (m : matcher) (template s : jsstring) :
  sound m -> splice m s (replace m template s) \/ replace m template s = s.
Proof.
  intros Hm. unfold replace.
  destruct (search m s) as [[[[pre old] caps] post]|] eqn:E; [left|right; reflexivity].
  exists pre, old, caps, post, (expand template old pre post caps).
  split; [exact E|]. split; [apply (search_app _ _ _ _ _ _ Hm E)|reflexivity].
Qed.

Lemma replace_found (m : matcher) (template s pre old post : jsstring) caps :
  search m s = Some (pre, old, caps, post) ->
  replace m template s = pre ++ expand template old pre post caps ++ post.
Proof. intros H. unfold replace. rewrite H. reflexivity. Qed.

(** ** Outcomes *)

Lemma bind_return {A B} (m : outcome A) (k : A -> outcome B) (b : B) :
  bind m k = Return b -> exists a, m = Return a /\ k a = Return b.
Proof. destruct m; simpl; try discriminate. eauto. Qed.

Lemma try_catch_applied {A} (body : outcome (bool * option A)) (a : A) :
  try_catch body (fun _ => Return (false, None)) = Return (true, Some a) ->
  body = Return (true, Some a).
Proof. destruct body; simpl; try discriminate; auto. Qed.

(** ** Containers are truthy *)

Lemma loops_return_containers (fuel : nat) :
  (forall str i arr v j, array_loop fuel str i arr = Return (v, j) ->
                         exists items, v = Arr items)
  /\ (forall str i obj v j, object_loop fuel str i obj = Return (v, j) ->
                            exists props, v = Obj props).
Proof.
  induction fuel as [|fuel [IHa IHo]].
  - split; intros; discriminate.
  - split.
    + intros str i arr v j. rewrite array_loop_S.
      destruct (_parse fuel str i) as [[v' j']|e|]; try discriminate.
      destruct (negb _ && _);
        [destruct (j' =? i)%nat; [discriminate|apply IHa]|].
      intros H; injection H as <- _. eauto.
    + intros str i obj v j. rewrite object_loop_S.
      destruct (parse_key _ _ _ _) as [key i'].
      destruct (_parse fuel str i') as [[v' j']|e|]; try discriminate.
      cbv zeta.
      match goal with
      | |- context [if ?c then object_loop _ _ _ _ else _] => destruct c
      end; [apply IHo|].
      intros H; injection H as <- _. eauto.
Qed.

(** A text that starts with [~(] is decoded to an array or to an object,
    never to a falsy value. *)
Lemma parse_container_truthy (fuel : nat) (rest : jsstring) (v : value) :
  parse fuel (c_tilde :: c_lparen :: rest) = Return v -> truthy v = true.
Proof.
  unfold parse.
  destruct (_parse fuel (c_tilde :: c_lparen :: rest) 0) as [[v' j]|e|] eqn:E;
    try discriminate.
  intros H; injection H as <-.
  destruct fuel as [|fuel]; [discriminate|].
  rewrite _parse_S in E.
  change (charAt (c_tilde :: c_lparen :: rest) 0) with (Some c_tilde) in E.
  change (c_tilde =? c_tilde) with true in E. cbv iota zeta in E.
  change (is_char (charAt (c_tilde :: c_lparen :: rest) (0 + 1)) c_lparen)
    with true in E. cbv iota in E.
  destruct (is_char _ c_rparen).
  - injection E as <- _. reflexivity.
  - destruct (is_char _ c_tilde).
    + destruct (proj1 (loops_return_containers fuel) _ _ _ _ _ E) as [l ->].
      reflexivity.
    + destruct (proj2 (loops_return_containers fuel) _ _ _ _ _ E) as [l ->].
      reflexivity.
Qed.

(** [tryParse] on a text that starts with [~(] gives the array or the
    object that is decoded, or the default when the decoder raises. *)
Lemma tryParse_container (fuel : nat) (rest : jsstring) (d v : value) :
  tryParse fuel (c_tilde :: c_lparen :: rest) d = Return v ->
  (truthy v = true /\ parse fuel (c_tilde :: c_lparen :: rest) = Return v)
  \/ (v = d /\ exists e, parse fuel (c_tilde :: c_lparen :: rest) = Throw e).
Proof.
  unfold tryParse, try_catch, bind.
  destruct (parse fuel (c_tilde :: c_lparen :: rest)) as [x|e|] eqn:E;
    try discriminate.
  - pose proof (parse_container_truthy _ _ _ E) as Ht.
    unfold or_else. rewrite Ht. intros H; injection H as <-. auto.
  - intros H; injection H as <-. right. eauto.
Qed.

Lemma startsWith_app (s p : jsstring) :
  startsWith s p = true -> exists r, s = p ++ r.
Proof.
  revert s; induction p as [|x p IH]; intros s; simpl; [eauto|].
  destruct s as [|y s]; [discriminate|].
  intros H. apply andb_true_iff in H. destruct H as [H1 H2].
  apply N.eqb_eq in H1. subst y.
  destruct (IH _ H2) as [r ->]. eauto.
Qed.

Lemma indexOf_found (s p : jsstring) (q : nat) :
  indexOf s p = Some q -> exists r, skipn q s = p ++ r.
Proof.
  revert q; induction s as [|c s IH]; intros q; cbn [indexOf].
  - destruct (startsWith [] p) eqn:E; [|discriminate].
    intros H; injection H as <-. apply startsWith_app; exact E.
  - destruct (startsWith (c :: s) p) eqn:E.
    + intros H; injection H as <-. apply startsWith_app; exact E.
    + destruct (indexOf s p) as [q'|]; [|discriminate].
      intros H; injection H as <-. simpl. apply IH. reflexivity.
Qed.

(** The state text that [injectCloudWatchGeneric] decodes starts with
    [~(]. *)
Lemma generic_state_text (hash : jsstring) (q : nat) :
  indexOf hash (js "?~(") = Some q ->
  exists rest, skipn (q + 1) hash = c_tilde :: c_lparen :: rest.
Proof.
  intros Hq. destruct (indexOf_found _ _ _ Hq) as [r Hr].
  exists r. replace (q + 1)%nat with (1 + q)%nat by lia.
  rewrite <- skipn_skipn, Hr. reflexivity.
Qed.

(** ** Replacement texts with a group *)

Lemma expand_no_dollar (t matched pre post : jsstring) caps :
  forallb (fun c => negb (c =? c_dollar)) t = true ->
  expand t matched pre post caps = t.
Proof.
  induction t as [|c t IH]; [reflexivity|].
  cbn [forallb]. intros H. apply andb_true_iff in H. destruct H as [Hc H].
  apply negb_true_iff in Hc. cbn [expand]. rewrite Hc, (IH H). reflexivity.
Qed.

Lemma expand_then_end_dollar (endMs old pre post : jsstring) :
  forallb (fun c => negb (c =? c_dollar)) endMs = true ->
  expand (js "$1$26end$3D" ++ endMs) old pre post [old]
  = old ++ js "$26end$3D" ++ endMs.
Proof.
  intros H.
  change (js "$1$26end$3D" ++ endMs)
    with (36 :: 49 :: 36 :: 50 :: 54 :: 101 :: 110 :: 100 :: 36 :: 51 :: 68
          :: endMs).
  change (js "$26end$3D" ++ endMs)
    with (36 :: 50 :: 54 :: 101 :: 110 :: 100 :: 36 :: 51 :: 68 :: endMs).
  pose proof (expand_no_dollar endMs old pre post [old] H) as E.
  cbn. cbn in E. rewrite E. reflexivity.
Qed.

Lemma expand_then_end_plain (endMs old pre post : jsstring) :
  forallb (fun c => negb (c =? c_dollar)) endMs = true ->
  expand (js "$1&end=" ++ endMs) old pre post [old]
  = old ++ js "&end=" ++ endMs.
Proof.
  intros H.
  change (js "$1&end=" ++ endMs)
    with (36 :: 49 :: 38 :: 101 :: 110 :: 100 :: 61 :: endMs).
  change (js "&end=" ++ endMs) with (38 :: 101 :: 110 :: 100 :: 61 :: endMs).
  pose proof (expand_no_dollar endMs old pre post [old] H) as E.
  cbn. cbn in E. rewrite E. reflexivity.
Qed.

(** The one group of a pattern that captures its whole match. *)
Lemma search_whole_group (ci : bool) (lit s pre old post : jsstring) caps :
  search (re_lit_int ci lit true) s = Some (pre, old, caps, post) ->
  caps = [old].
Proof.
  revert pre old caps post.
  induction s as [|c s IH]; intros pre old caps post; cbn [search].
  - unfold re_lit_int.
    destruct (match_lit ci lit []) as [[l r]|]; [|discriminate].
    destruct (match_int r) as [[n rest]|]; [|discriminate].
    intros H; injection H as _ <- <- _. reflexivity.
  - destruct (re_lit_int ci lit true (c :: s)) as [[[m caps'] rest]|] eqn:E.
    + intros H; injection H as _ <- <- _.
      unfold re_lit_int in E.
      destruct (match_lit ci lit (c :: s)) as [[l r]|]; [|discriminate].
      destruct (match_int r) as [[n rest']|]; [|discriminate].
      injection E as <- <- _. reflexivity.
    + destruct (search (re_lit_int ci lit true) s)
        as [[[[pre' m'] caps'] post']|] eqn:Es; [|discriminate].
      intros H; injection H as _ <- <- _. eapply IH; reflexivity.
Qed.

Lemma string_of_Z_no_dollar (z : Z) :
  forallb (fun c => negb (c =? c_dollar)) (string_of_Z z) = true.
Proof.
  apply forallb_forall. intros c Hin.
  destruct z as [|p|p]; cbn [string_of_Z] in Hin.
  - destruct Hin as [<-|[]]. reflexivity.
  - revert Hin. generalize (Pos.to_uint p). intros u.
    induction u; cbn [chars_of_uint In]; intros Hin;
      try contradiction; (destruct Hin as [<-|Hin]; [reflexivity|auto]).
  - destruct Hin as [<-|Hin]; [reflexivity|].
    revert Hin. generalize (Pos.to_uint p). intros u.
    induction u; cbn [chars_of_uint In]; intros Hin;
      try contradiction; (destruct Hin as [<-|Hin]; [reflexivity|auto]).
Qed.

(** ** C6: injection when the time parameter is absent *)

Lemma searchParams_set_absent (params : list (jsstring * jsstring))
    (name v : jsstring) :
  searchParams_has params name = false ->
  searchParams_set params name v = params ++ [(name, v)].
Proof.
  unfold searchParams_has.
  induction params as [|kv params IH]; simpl; [reflexivity|].
  destruct (str_eqb (fst kv) name); simpl; [discriminate|].
  intros H. rewrite IH by exact H. reflexivity.
Qed.

(** The encoding of the state object that holds a range and nothing
    else. *)
Lemma fresh_state_text (s e : Z) :
  stringify
    (Obj (obj_set [] (js "timeRange") (Arr [Num (Int s); Num (Int e)])))
  = fresh_state s e.
Proof.
  unfold fresh_state, stringify.
  change (obj_set [] (js "timeRange") (Arr [Num (Int s); Num (Int e)]))
    with [(js "timeRange", Arr [Num (Int s); Num (Int e)])].
  cbn [_stringify flat_map map concat fst snd isFinite number_to_string
       or_null app join replace_class].
  change (flat_map (fun c : char => if cls_key c then _encode c else [c])
            (js "timeRange")) with (js "timeRange").
  rewrite !app_nil_r. cbn [app].
  repeat (rewrite <- app_assoc; cbn [app]). reflexivity.
Qed.

(** C6, as the code has it.  When the substring of their scheme cannot be
    located, the injectors of the Metrics, the Logs Insights and the
    generic hash-state scheme return false and assign nothing to the
    address; so do the Metrics and the Logs Insights injector when the
    located text decodes to a falsy value or cannot be decoded, for which
    [tryParse] answers [null].  The generic injector is written otherwise
    for a state text that is located and cannot be decoded: when the
    decoder raises, it starts from a fresh state object, assigns the old
    prefix followed by the encoding of the range alone and returns true
    (a state text that is decoded gives an array or an object, which is
    then the state it starts from).  The X-Ray injector, when the address
    has no [timeRange] parameter, appends one, to the fragment when there is a
    fragment and to the query when there is none, and returns true.  The
    Log Events injector returns true on every address; when the address
    has none of the parameters the injector looks for, the fragment it
    assigns is the old one, and when a start parameter is located and no
    end parameter, an end parameter is put behind the start, in the
    spelling of the address. *)
Theorem C6_injection_without_time_parameter
    (format : number -> outcome jsstring) (fuel : nat) (hash : jsstring)
    (timeRange : time_range) (url : URL) :
  (search (re_param false (js "graph=") not_amp_semi true) hash = None ->
   injectCloudWatchMetrics format fuel hash timeRange = Return (false, None))
  /\ (forall pre m caps post v,
        search (re_param false (js "graph=") not_amp_semi true) hash
        = Some (pre, m, caps, post) ->
        tryParse fuel (group1 caps) Null = Return v ->
        truthy v = false ->
        injectCloudWatchMetrics format fuel hash timeRange
        = Return (false, None))
  /\ (search (re_param false (js "queryDetail=") not_amp_semi true) hash = None ->
      search (re_param true (js "queryDetail$3D") not_amp_semi true) hash = None ->
      injectCloudWatchLogsInsights fuel hash timeRange = Return (false, None))
  /\ (forall obj,
        queryDetail_object fuel hash = Return obj ->
        truthy obj = false ->
        injectCloudWatchLogsInsights fuel hash timeRange = Return (false, None))
  /\ (indexOf hash (js "?~(") = None ->
      injectCloudWatchGeneric fuel hash timeRange = Return (false, None))
  /\ (forall q err s e,
        indexOf hash (js "?~(") = Some q ->
        parse fuel (skipn (q + 1) hash) = Throw err ->
        start timeRange = Int s -> end_ timeRange = Int e ->
        (Z.abs s < 9007199254740992)%Z -> (Z.abs e < 9007199254740992)%Z ->
        injectCloudWatchGeneric fuel hash timeRange
        = Return (true,
                  Some (strip_hash (firstn (q + 1) hash) ++ fresh_state s e)))
  /\ (forall q stateObj,
        indexOf hash (js "?~(") = Some q ->
        parse fuel (skipn (q + 1) hash) = Return stateObj ->
        truthy stateObj = true
        /\ tryParse fuel (skipn (q + 1) hash) Null = Return stateObj)
  /\ (forall startISO endISO,
        searchParams_has (searchParams url) (js "timeRange") = false ->
        includes (url_hash url) (js "timeRange=") = false ->
        toJSTString format (start timeRange) = Return startISO ->
        toJSTString format (end_ timeRange) = Return endISO ->
        injectXRay format url timeRange
        = Return (true,
                  Some (match url_hash url with
                        | [] =>
                          {| base := base url;
                             query :=
                               serialize_query
                                 (searchParams url
                                  ++ [(js "timeRange",
                                       startISO ++ js "~" ++ endISO)]);
                             url_hash := [] |}
                        | _ :: _ =>
                          {| base := base url;
                             query := query url;
                             url_hash :=
                               url_hash url ++ js "&timeRange="
                               ++ startISO ++ js "~" ++ endISO |}
                        end)))
  /\ (exists assigned,
        injectCloudWatchLogs hash timeRange = Return (true, Some assigned)
        /\ ((forall m, In m log_events_patterns -> search m hash = None) ->
            assigned = strip_hash hash))
  /\ (forall s e h1 pre old caps post,
        start timeRange = Int s -> end_ timeRange = Int e ->
        (Z.abs s < 9007199254740992)%Z -> (Z.abs e < 9007199254740992)%Z ->
        includes hash (js "$3F") || includes hash (js "$3D") = true ->
        h1 = (if matches (re_lit_int true (js "$3Fstart$3D") false) hash
              then replace (re_lit_int true (js "$3Fstart$3D") false)
                     (js "$3Fstart$3D" ++ string_of_Z s) hash
              else hash) ->
        search (re_lit_int true (js "$26end$3D") false) h1 = None ->
        includes h1 (js "$3Fstart$3D") = true ->
        search (re_lit_int true (js "$3Fstart$3D") true) h1
        = Some (pre, old, caps, post) ->
        injectCloudWatchLogs hash timeRange
        = Return (true,
                  Some (strip_hash
                          (pre ++ old ++ js "$26end$3D" ++ string_of_Z e
                           ++ post))))
  /\ (forall s e h1 pre old caps post,
        start timeRange = Int s -> end_ timeRange = Int e ->
        (Z.abs s < 9007199254740992)%Z -> (Z.abs e < 9007199254740992)%Z ->
        includes hash (js "$3F") || includes hash (js "$3D") = false ->
        h1 = replace (re_sep_lit_int quest_or_amp (js "start=") false)
               (js "$1start=" ++ string_of_Z s) hash ->
        search (re_sep_lit_int quest_or_amp (js "end=") false) h1 = None ->
        search (re_lit_int false (js "?start=") true) h1
        = Some (pre, old, caps, post) ->
        injectCloudWatchLogs hash timeRange
        = Return (true,
                  Some (strip_hash
                          (pre ++ old ++ js "&end=" ++ string_of_Z e
                           ++ post)))).
Proof.
  split; [|split; [|split; [|split; [|split; [|split; [|split; [|split;
    [|split; [|split]]]]]]]]].
  - intros H. unfold injectCloudWatchMetrics. rewrite H. reflexivity.
  - intros pre m caps post v Hs Ht Hv. unfold injectCloudWatchMetrics.
    rewrite Hs, Ht. cbn [bind]. rewrite Hv. reflexivity.
  - intros HA HB. unfold injectCloudWatchLogsInsights.
    rewrite HA. cbn [bind truthy]. rewrite HB. reflexivity.
  - intros obj H Hfalse.
    unfold injectCloudWatchLogsInsights. unfold queryDetail_object in H.
    match type of H with
    | bind ?m _ = _ => destruct m as [objA|err|]; try discriminate
    end.
    cbn [bind] in H |- *.
    destruct (truthy objA) eqn:HA.
    + injection H as <-. congruence.
    + destruct (search (re_param true (js "queryDetail$3D") not_amp_semi true)
                  hash) as [[[[pre m] caps] post]|].
      * rewrite H. cbn [bind]. rewrite Hfalse. reflexivity.
      * injection H as <-. cbn [bind]. rewrite Hfalse. reflexivity.
  - intros H. unfold injectCloudWatchGeneric. rewrite H. reflexivity.
  - intros q err s e Hq Hp Hs He _ _. unfold injectCloudWatchGeneric.
    rewrite Hq. cbv zeta. unfold tryParse at 1. rewrite Hp, Hs, He.
    cbn [bind try_catch truthy negb set_prop].
    rewrite fresh_state_text. unfold substring.
    rewrite Nat.sub_0_r. reflexivity.
  - intros q stateObj Hq Hp.
    destruct (generic_state_text _ _ Hq) as [r Hr]. rewrite Hr in *.
    pose proof (parse_container_truthy _ _ _ Hp) as Ht.
    split; [exact Ht|]. unfold tryParse. rewrite Hp. cbn [bind try_catch].
    unfold or_else. rewrite Ht. reflexivity.
  - intros startISO endISO Hh Hi Hs He. unfold injectXRay.
    rewrite Hs, He. cbn [bind]. rewrite Hh, Hi.
    destruct (url_hash url) eqn:Hu; cbn [try_catch]; [|reflexivity].
    unfold set_searchParams.
    rewrite searchParams_set_absent by exact Hh. rewrite Hu. reflexivity.
  - unfold injectCloudWatchLogs. cbv zeta.
    destruct (includes hash (js "$3F") || includes hash (js "$3D"));
      cbn [try_catch]; (eexists; split; [reflexivity|]); intros Hnone;
      assert (H1 := Hnone _ (or_introl eq_refl));
      assert (H2 := Hnone _ (or_intror (or_introl eq_refl)));
      assert (H3 := Hnone _ (or_intror (or_intror (or_introl eq_refl))));
      assert (H4 := Hnone _ (or_intror (or_intror (or_intror
                               (or_introl eq_refl)))));
      assert (H5 := Hnone _ (or_intror (or_intror (or_intror (or_intror
                               (or_introl eq_refl))))));
      assert (H6 := Hnone _ (or_intror (or_intror (or_intror (or_intror
                               (or_intror (or_introl eq_refl)))))));
      unfold matches, replace; rewrite ?H1, ?H2, ?H3, ?H4, ?H5, ?H6;
      [destruct (includes hash (js "$3Fstart$3D"))|]; reflexivity.
  - intros s e h1 pre old caps post Hs He _ _ Hu Hh He2 Hi Hsrch.
    pose proof (search_whole_group _ _ _ _ _ _ _ Hsrch) as ->.
    unfold injectCloudWatchLogs. rewrite Hs, He, Hu.
    cbn [number_to_string]. cbv zeta. rewrite <- Hh.
    unfold matches. rewrite He2, Hi.
    rewrite (replace_found _ _ _ _ _ _ _ Hsrch).
    rewrite expand_then_end_dollar by apply string_of_Z_no_dollar.
    cbn [try_catch]. rewrite <- !app_assoc. reflexivity.
  - intros s e h1 pre old caps post Hs He _ _ Hu Hh He2 Hsrch.
    pose proof (search_whole_group _ _ _ _ _ _ _ Hsrch) as ->.
    unfold injectCloudWatchLogs. rewrite Hs, He, Hu.
    cbn [number_to_string]. cbv zeta. rewrite <- Hh.
    unfold matches. rewrite He2.
    rewrite (replace_found _ _ _ _ _ _ _ Hsrch).
    rewrite expand_then_end_plain by apply string_of_Z_no_dollar.
    cbn [try_catch]. rewrite <- !app_assoc. reflexivity.
Qed.

Lemma C6_injection_witness :
  injectCloudWatchMetrics sv_SE_Tokyo_format 9 (js "#home:") sample_range
  = Return (false, None)
  /\ injectCloudWatchMetrics sv_SE_Tokyo_format 9
       (js "#metricsV2:graph=~(~nu") sample_range
     = Return (false, None)
  /\ injectCloudWatchLogsInsights 9 (js "#logsV2:logs-insights") sample_range
     = Return (false, None)
  /\ injectCloudWatchLogsInsights 9
       (js "#logsV2:logs-insights?queryDetail=~$28~nu") sample_range
     = Return (false, None)
  /\ injectCloudWatchGeneric 9 (js "#home:") sample_range
     = Return (false, None)
  /\ injectCloudWatchGeneric 9 (js "#home:?~(~nu") sample_range
     = Return (true,
               Some (js "home:?~(timeRange~(~1700000000000~1700003600000))"))
  /\ tryParse 9 (js "~(timeRange~43200000)") Null
     = Return (Obj [(js "timeRange", Num (Int 43200000))])
  /\ injectXRay sv_SE_Tokyo_format xray_url sample_range
     = Return (true,
               Some {| base := base xray_url;
                       query := query xray_url;
                       url_hash :=
                         js ("#/traces&timeRange=2023-11-15T07:13:20.000" ++
                             "~2023-11-15T08:13:20.000") |})
  /\ injectCloudWatchLogs (js "#logsV2:log-groups") sample_range
     = Return (true, Some (js "logsV2:log-groups"))
  /\ injectCloudWatchLogs log_events_hash sample_range
     = Return (true,
               Some (js ("logsV2:log-groups/log-group/RDSOSMetrics/" ++
                         "log-events/db-XXXXX$3Fstart$3D1700000000000" ++
                         "$26end$3D1700003600000")))
  /\ injectCloudWatchLogs (js "#logsV2:log-groups/log-group/G?start=-1800000")
       sample_range
     = Return (true,
               Some (js ("logsV2:log-groups/log-group/G" ++
                         "?start=1700000000000&end=1700003600000"))).
Proof.
  destruct (C6_injection_without_time_parameter sv_SE_Tokyo_format 9
              (js "#home:") sample_range xray_url)
    as [H1 [_ [_ [_ [H4 [_ [_ [H7 _]]]]]]]].
  destruct (C6_injection_without_time_parameter sv_SE_Tokyo_format 9
              (js "#metricsV2:graph=~(~nu") sample_range xray_url)
    as [_ [H2 _]].
  destruct (C6_injection_without_time_parameter sv_SE_Tokyo_format 9
              (js "#logsV2:logs-insights") sample_range xray_url)
    as [_ [_ [H3 _]]].
  destruct (C6_injection_without_time_parameter sv_SE_Tokyo_format 9
              (js "#logsV2:logs-insights?queryDetail=~$28~nu") sample_range
              xray_url)
    as [_ [_ [_ [H3b _]]]].
  destruct (C6_injection_without_time_parameter sv_SE_Tokyo_format 9
              (js "#home:?~(~nu") sample_range xray_url)
    as [_ [_ [_ [_ [_ [H5 _]]]]]].
  destruct (C6_injection_without_time_parameter sv_SE_Tokyo_format 9
              dashboard_hash sample_range xray_url)
    as [_ [_ [_ [_ [_ [_ [H6 _]]]]]]].
  destruct (C6_injection_without_time_parameter sv_SE_Tokyo_format 9
              (js "#logsV2:log-groups") sample_range xray_url)
    as [_ [_ [_ [_ [_ [_ [_ [_ [H8 _]]]]]]]]].
  destruct (C6_injection_without_time_parameter sv_SE_Tokyo_format 9
              log_events_hash sample_range xray_url)
    as [_ [_ [_ [_ [_ [_ [_ [_ [_ [H9 _]]]]]]]]]].
  destruct (C6_injection_without_time_parameter sv_SE_Tokyo_format 9
              (js "#logsV2:log-groups/log-group/G?start=-1800000")
              sample_range xray_url)
    as [_ [_ [_ [_ [_ [_ [_ [_ [_ [_ H10]]]]]]]]]].
  split; [apply H1; reflexivity|].
  split; [apply (H2 (js "#metricsV2:") (js "graph=~(~nu") [js "~(~nu"] []
                    Null); vm_compute; reflexivity|].
  split; [apply H3; reflexivity|].
  split; [apply (H3b Null); vm_compute; reflexivity|].
  split; [apply H4; reflexivity|].
  split; [apply (H5 6%nat RangeError 1700000000000%Z 1700003600000%Z);
          try lia; vm_compute; reflexivity|].
  split; [apply (H6 31%nat); vm_compute; reflexivity|].
  split; [apply (H7 (js "2023-11-15T07:13:20.000")
                    (js "2023-11-15T08:13:20.000")); reflexivity|].
  split.
  { destruct H8 as [assigned [Ha Hb]]. rewrite Ha, Hb; [reflexivity|].
    intros m Hm. cbn [log_events_patterns In] in Hm.
    repeat (destruct Hm as [<-|Hm]; [reflexivity|]). contradiction. }
  split.
  - etransitivity;
      [apply (H9 1700000000000%Z 1700003600000%Z
                (js ("#logsV2:log-groups/log-group/RDSOSMetrics/" ++
                     "log-events/db-XXXXX$3Fstart$3D1700000000000"))
                (js ("#logsV2:log-groups/log-group/RDSOSMetrics/" ++
                     "log-events/db-XXXXX"))
                (js "$3Fstart$3D1700000000000")
                [js "$3Fstart$3D1700000000000"] []);
       try lia; vm_compute; reflexivity
      | vm_compute; reflexivity].
  - etransitivity;
      [apply (H10 1700000000000%Z 1700003600000%Z
                (js "#logsV2:log-groups/log-group/G?start=1700000000000")
                (js "#logsV2:log-groups/log-group/G")
                (js "?start=1700000000000")
                [js "?start=1700000000000"] []);
       try lia; vm_compute; reflexivity
      | vm_compute; reflexivity].
Defined.

(** The claim of C6 fails on the code.  For an X-Ray address without a
    [timeRange] parameter the injector reports success and assigns an
    address with such a parameter appended, in both states of the script.
    For a generic address whose state text cannot be decoded (the decoder
    raises on [~(~nu]) the injector reports success and assigns a state
    that holds the range alone.  The Log Events injector reports success
    on an address without a start and an end parameter, and behind a start
    parameter without an end parameter it appends one. *)
Lemma C6_counterexample :
  searchParams_has (searchParams xray_url) (js "timeRange") = false
  /\ includes (url_hash xray_url) (js "timeRange") = false
  /\ injectXRay sv_SE_Tokyo_format xray_url sample_range
     = Return (true,
               Some {| base := base xray_url;
                       query := query xray_url;
                       url_hash :=
                         js ("#/traces&timeRange=2023-11-15T07:13:20.000" ++
                             "~2023-11-15T08:13:20.000") |})
  /\ ContentOld.injectXRay xray_url sample_range
     = Return (true,
               Some {| base := base xray_url;
                       query := query xray_url;
                       url_hash :=
                         js ("#/traces&timeRange=2023-11-14T22:13:20.000Z" ++
                             "~2023-11-14T23:13:20.000Z") |})
  /\ parse 9 (js "~(~nu") = Throw RangeError
  /\ tryParse 9 (js "~(~nu") Null = Return Null
  /\ injectCloudWatchGeneric 9 (js "#home:?~(~nu") sample_range
     = Return (true,
               Some (js "home:?~(timeRange~(~1700000000000~1700003600000))"))
  /\ includes (js "#logsV2:log-groups") (js "start") = false
  /\ includes (js "#logsV2:log-groups") (js "end") = false
  /\ injectCloudWatchLogs (js "#logsV2:log-groups") sample_range
     = Return (true, Some (js "logsV2:log-groups"))
  /\ includes log_events_hash (js "end") = false
  /\ injectCloudWatchLogs log_events_hash sample_range
     = Return (true,
               Some (js ("logsV2:log-groups/log-group/RDSOSMetrics/" ++
                         "log-events/db-XXXXX$3Fstart$3D1700000000000" ++
                         "$26end$3D1700003600000"))).
Proof. vm_compute. repeat split. Qed.

(** ** C7: injection leaves the rest of the address alone *)

Lemma replace_located (m m' : matcher) (template s pre old post : jsstring)
    caps :
  sound m' ->
  (forall t, match m t with
             | Some (a, _, r) => exists caps, m' t = Some (a, caps, r)
             | None => m' t = None
             end) ->
  search m s = Some (pre, old, caps, post) ->
  splice m' s (replace m' template s).
Proof.
  intros Hm Hsame Hs.
  pose proof (search_same_match m m' s Hsame) as H. rewrite Hs in H.
  destruct H as [caps' H].
  exists pre, old, caps', post, (expand template old pre post caps').
  split; [exact H|]. split; [apply (search_app _ _ _ _ _ _ Hm H)|].
  apply replace_found; exact H.
Qed.

Lemma matches_replace (m : matcher) (template s : jsstring) :
  sound m -> matches m s = true -> splice m s (replace m template s).
Proof.
  intros Hm. unfold matches.
  destruct (search m s) as [[[[pre old] caps] post]|] eqn:E; [|discriminate].
  intros _. exists pre, old, caps, post, (expand template old pre post caps).
  split; [exact E|]. split; [apply (search_app _ _ _ _ _ _ Hm E)|].
  apply replace_found; exact E.
Qed.

Lemma remove_name_set (params : list (jsstring * jsstring)) (name v : jsstring) :
  remove_name (searchParams_set params name v) name = remove_name params name.
Proof.
  induction params as [|kv params IH]; simpl.
  - rewrite str_eqb_refl. reflexivity.
  - destruct (str_eqb (fst kv) name) eqn:E; simpl.
    + rewrite str_eqb_refl.
      clear IH. induction params as [|kv' params IH]; simpl; [reflexivity|].
      destruct (str_eqb (fst kv') name) eqn:E'; simpl; [exact IH|].
      rewrite E'. f_equal. exact IH.
    + rewrite E. f_equal. exact IH.
Qed.

Lemma has_set (params : list (jsstring * jsstring)) (name v : jsstring) :
  searchParams_has (searchParams_set params name v) name = true.
Proof.
  unfold searchParams_has.
  induction params as [|kv params IH]; simpl.
  - rewrite str_eqb_refl. reflexivity.
  - destruct (str_eqb (fst kv) name) eqn:E; simpl.
    + rewrite str_eqb_refl. reflexivity.
    + rewrite E. exact IH.
Qed.

(** C7.  An injection that succeeds rewrites the located time-bearing
    substring in place: the fragment that is assigned is the old one cut in
    three around the match, with the match replaced and the text before and
    after it kept character for character.  This holds for the Metrics
    token, for the Logs Insights value of either format, for the start and
    end parameters of Log Events (one or two such replacements), for the
    state of the generic scheme, which reaches to the end of the fragment,
    and for the [timeRange] parameter of an X-Ray fragment, whose query
    stays as it is.  When the [timeRange] parameter stands in the query
    of an X-Ray address, the fragment stays as it is and the query is
    written anew from its pairs: the pairs of other names are the old ones,
    in their order, but their characters are those of the serializer.
    (Log Events and the generic scheme assign the fragment without its
    hash sign.) *)
Theorem C7_injection_frame
    (format : number -> outcome jsstring) (fuel : nat) (hash : jsstring)
    (timeRange : time_range) (url : URL) :
  (forall assigned,
     injectCloudWatchMetrics format fuel hash timeRange
     = Return (true, Some assigned) ->
     splice (re_param false (js "graph=") not_amp_semi false) hash assigned)
  /\ (forall assigned,
        injectCloudWatchLogsInsights fuel hash timeRange
        = Return (true, Some assigned) ->
        splice (re_param false (js "queryDetail=") not_amp_semi false)
          hash assigned
        \/ splice (re_param true (js "queryDetail$3D") not_amp_semi false)
             hash assigned)
  /\ (forall assigned,
        injectCloudWatchLogs hash timeRange = Return (true, Some assigned) ->
        exists m1 m2 h1 h2,
          In m1 log_events_patterns /\ In m2 log_events_patterns
          /\ (splice m1 hash h1 \/ h1 = hash)
          /\ (splice m2 h1 h2 \/ h2 = h1)
          /\ assigned = strip_hash h2)
  /\ (forall assigned,
        injectCloudWatchGeneric fuel hash timeRange
        = Return (true, Some assigned) ->
        exists q new,
          indexOf hash (js "?~(") = Some q
          /\ hash = firstn (q + 1) hash ++ skipn (q + 1) hash
          /\ assigned = strip_hash (firstn (q + 1) hash) ++ new)
  /\ (forall url',
        injectXRay format url timeRange = Return (true, Some url') ->
        base url' = base url
        /\ (searchParams_has (searchParams url) (js "timeRange") = true ->
            url_hash url' = url_hash url
            /\ exists params,
                 query url' = serialize_query params
                 /\ searchParams_has params (js "timeRange") = true
                 /\ remove_name params (js "timeRange")
                    = remove_name (searchParams url) (js "timeRange"))
        /\ (searchParams_has (searchParams url) (js "timeRange") = false ->
            includes (url_hash url) (js "timeRange=") = true ->
            query url' = query url
            /\ (splice (re_param false (js "timeRange=") not_amp false)
                  (url_hash url) (url_hash url')
                \/ url_hash url' = url_hash url))).
Proof.
  split; [|split; [|split; [|split]]].
  - (* Metrics *)
    intros assigned H. unfold injectCloudWatchMetrics in H.
    apply try_catch_applied in H.
    destruct (search (re_param false (js "graph=") not_amp_semi true) hash)
      as [[[[pre old] caps] post]|] eqn:Hs; [|discriminate].
    apply bind_return in H. destruct H as [graphObj [_ H]].
    destruct (negb (truthy graphObj)); [discriminate|].
    repeat (apply bind_return in H; destruct H as [? [_ H]]).
    injection H as <-.
    eapply replace_located; [apply re_param_sound| |exact Hs].
    intros t. apply re_param_capture.
  - (* Logs Insights *)
    intros assigned H. unfold injectCloudWatchLogsInsights in H.
    apply try_catch_applied in H.
    apply bind_return in H. destruct H as [objA [HA H]].
    apply bind_return in H. destruct H as [[obj isFormatB] [HB H]].
    destruct (negb (truthy obj)) eqn:Ht; [discriminate|].
    apply negb_false_iff in Ht.
    repeat (apply bind_return in H; destruct H as [? [_ H]]).
    destruct isFormatB.
    + right. injection H as <-.
      destruct (truthy objA); [discriminate|].
      destruct (search (re_param true (js "queryDetail$3D") not_amp_semi true)
                  hash) as [[[[pre old] caps] post]|] eqn:Hs; [|discriminate].
      eapply replace_located; [apply re_param_sound| |exact Hs].
      intros t. apply re_param_capture.
    + left. apply bind_return in H. destruct H as [enc [_ H]].
      injection H as <-.
      destruct (search (re_param false (js "queryDetail=") not_amp_semi true)
                  hash) as [[[[pre old] caps] post]|] eqn:Hs.
      * eapply replace_located; [apply re_param_sound| |exact Hs].
        intros t. apply re_param_capture.
      * exfalso. injection HA as <-. cbn [truthy] in HB.
        destruct (search (re_param true (js "queryDetail$3D") not_amp_semi true)
                    hash) as [[[[pre old] caps] post]|].
        -- apply bind_return in HB. destruct HB as [o [_ HB]]. discriminate.
        -- injection HB as <-. discriminate.
  - (* Log Events *)
    intros assigned H. unfold injectCloudWatchLogs in H.
    apply try_catch_applied in H.
    destruct (includes hash (js "$3F") || includes hash (js "$3D")).
    + injection H as <-.
      destruct (matches (re_lit_int true (js "$3Fstart$3D") false) hash) eqn:E1.
      * set (h1 := replace (re_lit_int true (js "$3Fstart$3D") false) _ hash).
        assert (S1 : splice (re_lit_int true (js "$3Fstart$3D") false) hash h1)
          by (apply matches_replace; [apply re_lit_int_sound|exact E1]).
        destruct (matches (re_lit_int true (js "$26end$3D") false) h1) eqn:E2;
          [|destruct (includes h1 (js "$3Fstart$3D"))].
        -- eexists _, _, h1, _. split; [left; reflexivity|].
           split; [right; left; reflexivity|]. split; [left; exact S1|].
           split; [left; apply matches_replace;
                   [apply re_lit_int_sound|exact E2]|reflexivity].
        -- eexists _, _, h1, _. split; [left; reflexivity|].
           split; [right; right; left; reflexivity|]. split; [left; exact S1|].
           split; [apply replace_splice; apply re_lit_int_sound|reflexivity].
        -- eexists _, _, h1, h1. split; [left; reflexivity|].
           split; [left; reflexivity|]. split; [left; exact S1|].
           split; [right; reflexivity|reflexivity].
      * destruct (matches (re_lit_int true (js "$26end$3D") false) hash) eqn:E2;
          [|destruct (includes hash (js "$3Fstart$3D"))].
        -- eexists _, _, hash, _. split; [left; reflexivity|].
           split; [right; left; reflexivity|]. split; [right; reflexivity|].
           split; [left; apply matches_replace;
                   [apply re_lit_int_sound|exact E2]|reflexivity].
        -- eexists _, _, hash, _. split; [left; reflexivity|].
           split; [right; right; left; reflexivity|].
           split; [right; reflexivity|].
           split; [apply replace_splice; apply re_lit_int_sound|reflexivity].
        -- eexists _, _, hash, hash. split; [left; reflexivity|].
           split; [left; reflexivity|]. split; [right; reflexivity|].
           split; [right; reflexivity|reflexivity].
    + injection H as <-.
      set (h1 := replace (re_sep_lit_int quest_or_amp (js "start=") false) _ hash).
      assert (S1 : splice (re_sep_lit_int quest_or_amp (js "start=") false)
                     hash h1 \/ h1 = hash)
        by (apply replace_splice; apply re_sep_lit_int_sound).
      destruct (matches (re_sep_lit_int quest_or_amp (js "end=") false) h1).
      * eexists _, _, h1, _.
        split; [right; right; right; left; reflexivity|].
        split; [right; right; right; right; left; reflexivity|].
        split; [exact S1|].
        split; [apply replace_splice; apply re_sep_lit_int_sound|reflexivity].
      * eexists _, _, h1, _.
        split; [right; right; right; left; reflexivity|].
        split; [right; right; right; right; right; left; reflexivity|].
        split; [exact S1|].
        split; [apply replace_splice; apply re_lit_int_sound|reflexivity].
  - (* generic hash state *)
    intros assigned H. unfold injectCloudWatchGeneric in H.
    apply try_catch_applied in H.
    destruct (indexOf hash (js "?~(")) as [q|]; [|discriminate].
    repeat (apply bind_return in H; destruct H as [? [_ H]]).
    injection H as <-. exists q. eexists.
    split; [reflexivity|]. split; [symmetry; apply firstn_skipn|].
    unfold substring. rewrite Nat.sub_0_r. reflexivity.
  - (* X-Ray *)
    intros url' H. unfold injectXRay in H.
    apply try_catch_applied in H.
    repeat (apply bind_return in H; destruct H as [? [_ H]]).
    destruct (searchParams_has (searchParams url) (js "timeRange")).
    + injection H as <-. cbn [set_searchParams base url_hash query].
      split; [reflexivity|]. split; [|discriminate].
      intros _. split; [reflexivity|].
      eexists. split; [reflexivity|].
      split; [apply has_set|apply remove_name_set].
    + destruct (includes (url_hash url) (js "timeRange=")).
      * injection H as <-. cbn [set_hash base url_hash query].
        split; [reflexivity|]. split; [discriminate|].
        intros _ _. split; [reflexivity|].
        apply replace_splice. apply re_param_sound.
      * destruct (url_hash url); injection H as <-;
          (split; [reflexivity|]; split; discriminate).
Qed.

Lemma C7_injection_frame_witness :
  splice (re_param false (js "graph=") not_amp_semi false) metrics_hash
    (js ("#metricsV2:graph=~(start~'2023-11-15T07:13:20.000" ++
         "~end~'2023-11-15T08:13:20.000~region~'ap-northeast-1);query=x"))
  /\ (exists q new,
        indexOf dashboard_hash (js "?~(") = Some q
        /\ js "home:dashboards/ApplicationELB?~(timeRange~(~1700000000000~1700003600000))"
           = strip_hash (firstn (q + 1) dashboard_hash) ++ new)
  /\ exists params,
       xray_query_after = serialize_query params
       /\ remove_name params (js "timeRange") = [(js "filter", js "a b")].
Proof.
  destruct (C7_injection_frame sv_SE_Tokyo_format 9 metrics_hash sample_range
              xray_url) as [H1 _].
  destruct (C7_injection_frame sv_SE_Tokyo_format 9 dashboard_hash sample_range
              xray_url) as [_ [_ [_ [H4 _]]]].
  destruct (C7_injection_frame sv_SE_Tokyo_format 9 dashboard_hash sample_range
              xray_query_url) as [_ [_ [_ [_ H5]]]].
  split; [|split].
  - apply H1. reflexivity.
  - destruct (H4 (js "home:dashboards/ApplicationELB?~(timeRange~(~1700000000000~1700003600000))"))
      as [q [new [Hq [_ Ha]]]]; [reflexivity|].
    exists q, new. split; assumption.
  - destruct (H5 {| base := base xray_query_url; query := xray_query_after;
                    url_hash := [] |})
      as [_ [Hq _]]; [reflexivity|].
    destruct Hq as [_ [params [Hs [_ Hr]]]]; [reflexivity|].
    exists params. split; assumption.
Defined.

(** The claim of C7 fails on the code: when the [timeRange] parameter of
    an X-Ray address stands in the query, the injector has the whole query
    written anew, and a parameter before the time range comes out with
    other characters than it had ([a+b] for [a%20b]). *)
Lemma C7_counterexample :
  query xray_query_url = js "filter=a%20b&timeRange=PT1H"
  /\ injectXRay sv_SE_Tokyo_format xray_query_url sample_range
     = Return (true,
               Some {| base := base xray_query_url;
                       query := xray_query_after;
                       url_hash := [] |})
  /\ firstn 13 (query xray_query_url) = js "filter=a%20b&"
  /\ firstn 13 xray_query_after = js "filter=a+b&ti".
Proof. vm_compute. repeat split. Qed.

(** ** C1: decoding what was encoded *)

(** *** The cursor *)

Lemma charAt_skipn (str : jsstring) (i : nat) :
  charAt str i = hd_error (skipn i str).
Proof.
  unfold charAt. revert str; induction i as [|i IH]; intros [|c str];
    simpl; auto.
Qed.

Lemma skipn_more (str : jsstring) (i k : nat) :
  skipn (i + k) str = skipn k (skipn i str).
Proof. rewrite skipn_skipn. f_equal. lia. Qed.

Lemma skipn_past (str a r : jsstring) (i : nat) :
  skipn i str = a ++ r -> skipn (i + length a) str = r.
Proof.
  intros H. rewrite skipn_more, H. rewrite skipn_app.
  rewrite skipn_all, Nat.sub_diag. reflexivity.
Qed.

Lemma skipn_1 (str r : jsstring) (i : nat) (a : char) :
  skipn i str = a :: r -> skipn (i + 1) str = r.
Proof. apply (skipn_past str [a] r i). Qed.

Lemma skipn_2 (str r : jsstring) (i : nat) (a b : char) :
  skipn i str = a :: b :: r -> skipn (i + 1 + 1) str = r.
Proof.
  intros H. rewrite <- Nat.add_assoc. apply (skipn_past str [a; b] r i H).
Qed.

Lemma skipn_3 (str r : jsstring) (i : nat) (a b c : char) :
  skipn i str = a :: b :: c :: r -> skipn (i + 1 + 2) str = r.
Proof.
  intros H. rewrite <- Nat.add_assoc. apply (skipn_past str [a; b; c] r i H).
Qed.

Lemma substring_skipn (str : jsstring) (i n : nat) :
  substring str i (i + n) = firstn n (skipn i str).
Proof. unfold substring. f_equal. lia. Qed.

Lemma skipn_in_range (str r : jsstring) (i : nat) (c : char) :
  skipn i str = c :: r -> (i <? length str)%nat = true.
Proof.
  intros H. apply Nat.ltb_lt.
  destruct (Nat.lt_ge_cases i (length str)) as [Hlt|Hge]; [exact Hlt|].
  rewrite skipn_all2 in H by exact Hge. discriminate.
Qed.

(** *** The scanning loops on an encoded body *)

Lemma escape_spec_other (c : char) :
  c <> c_quote -> c <> c_star -> c <> c_pct -> escape_spec c = [c].
Proof.
  intros H1 H2 H3. unfold escape_spec.
  destruct (N.eqb_spec c c_quote); [contradiction|].
  destruct (N.eqb_spec c c_star); [contradiction|].
  destruct (N.eqb_spec c c_pct); [contradiction|]. reflexivity.
Qed.

Lemma parse_string_body (s : jsstring) :
  forallb plain_in_string s = true ->
  forall n str i acc post,
    skipn i str = flat_map escape_spec s ++ post ->
    value_end post ->
    (length s <= n)%nat ->
    parse_string n str i acc
    = (acc ++ s, (i + length (flat_map escape_spec s))%nat).
Proof.
  induction s as [|c s IH]; intros Hs n str i acc post Hi Hp Hn.
  - cbn [flat_map app length] in *. rewrite app_nil_r, Nat.add_0_r.
    destruct n as [|n]; [reflexivity|]. cbn [parse_string].
    rewrite charAt_skipn, Hi.
    destruct post as [|c post]; [reflexivity|]. cbn [hd_error].
    destruct Hp as [-> | ->]; reflexivity.
  - cbn [forallb] in Hs. apply andb_true_iff in Hs. destruct Hs as [Hc Hs].
    destruct n as [|n]; [cbn [length] in Hn; lia|].
    cbn [length] in Hn. apply le_S_n in Hn.
    cbn [flat_map] in Hi |- *. rewrite <- app_assoc in Hi.
    rewrite length_app, Nat.add_assoc.
    cbn [parse_string]. rewrite charAt_skipn, Hi.
    unfold plain_in_string in Hc.
    destruct (N.eqb_spec c c_quote) as [->|Hq].
    + (* a quote, written as an exclamation mark *)
      change (escape_spec c_quote) with [c_bang] in *.
      cbn [app hd_error length] in *. change (c_bang =? c_tilde) with false.
      change (c_bang =? c_rparen) with false. change (c_bang =? c_bang) with true.
      cbn [orb]. rewrite (IH Hs n str (i + 1)%nat (acc ++ [c_quote]) post);
        [rewrite <- app_assoc; reflexivity| |exact Hp|exact Hn].
      apply (skipn_1 _ _ _ _ Hi).
    + destruct (N.eqb_spec c c_star) as [->|Hst].
      * (* a star, written as *2A *)
        change (escape_spec c_star) with [c_star; 50; 65] in *.
        cbn [app hd_error length] in *. change (c_star =? c_tilde) with false.
        change (c_star =? c_rparen) with false.
        change (c_star =? c_bang) with false.
        change (c_star =? c_star) with true. cbn [orb]. cbv zeta.
        rewrite !charAt_skipn.
        rewrite (skipn_1 _ _ _ _ Hi), (skipn_2 _ _ _ _ _ Hi).
        cbn [hd_error is_char]. change (50 =? c_star) with false.
        change (50 =? c_2) with true. change (65 =? c_5) with false.
        cbn [andb]. rewrite substring_skipn.
        rewrite (skipn_1 _ _ _ _ Hi).
        cbn [firstn].
        change (fromCharCode (parseInt [50; 65] 16)) with c_star.
        rewrite (IH Hs n str (i + 1 + 2)%nat (acc ++ [c_star]) post);
          [rewrite <- app_assoc; f_equal; lia| |exact Hp|exact Hn].
        apply (skipn_3 _ _ _ _ _ _ Hi).
      * destruct (N.eqb_spec c c_pct) as [->|Hpc].
        -- (* a percent sign, written as *25 *)
           change (escape_spec c_pct) with [c_star; 50; 53] in *.
           cbn [app hd_error length] in *. change (c_star =? c_tilde) with false.
           change (c_star =? c_rparen) with false.
           change (c_star =? c_bang) with false.
           change (c_star =? c_star) with true. cbn [orb]. cbv zeta.
           rewrite !charAt_skipn.
           rewrite (skipn_1 _ _ _ _ Hi), (skipn_2 _ _ _ _ _ Hi).
           cbn [hd_error is_char]. change (50 =? c_star) with false.
           change (50 =? c_2) with true. change (53 =? c_5) with true.
           cbn [andb].
           rewrite (IH Hs n str (i + 1 + 2)%nat (acc ++ [c_pct]) post);
             [rewrite <- app_assoc; f_equal; lia| |exact Hp|exact Hn].
           apply (skipn_3 _ _ _ _ _ _ Hi).
        -- (* any other character stands for itself *)
           rewrite (escape_spec_other c Hq Hst Hpc) in *.
           cbn [app hd_error length] in *.
           apply negb_true_iff in Hc. apply orb_false_iff in Hc.
           destruct Hc as [Hc Hc3]. apply orb_false_iff in Hc.
           destruct Hc as [Hc1 Hc2].
           rewrite Hc2, Hc3, Hc1. cbn [orb].
           destruct (N.eqb_spec c c_star) as [|_]; [contradiction|].
           rewrite (IH Hs n str (i + 1)%nat (acc ++ [c]) post);
             [rewrite <- app_assoc; reflexivity| |exact Hp|exact Hn].
           apply (skipn_1 _ _ _ _ Hi).
Qed.

Lemma parse_key_body (k : jsstring) :
  forallb plain_in_key k = true ->
  forall n str i acc post,
    skipn i str = flat_map escape_spec k ++ c_tilde :: post ->
    (length k <= n)%nat ->
    parse_key n str i acc
    = (acc ++ k, (i + length (flat_map escape_spec k))%nat).
Proof.
  induction k as [|c k IH]; intros Hk n str i acc post Hi Hn.
  - cbn [flat_map app length] in *. rewrite app_nil_r, Nat.add_0_r.
    destruct n as [|n]; [reflexivity|]. cbn [parse_key].
    rewrite charAt_skipn, Hi. reflexivity.
  - cbn [forallb] in Hk. apply andb_true_iff in Hk. destruct Hk as [Hc Hk].
    destruct n as [|n]; [cbn [length] in Hn; lia|].
    cbn [length] in Hn. apply le_S_n in Hn.
    cbn [flat_map] in Hi |- *. rewrite <- app_assoc in Hi.
    rewrite length_app, Nat.add_assoc.
    cbn [parse_key]. rewrite charAt_skipn, Hi.
    unfold plain_in_key in Hc.
    destruct (N.eqb_spec c c_quote) as [->|Hq].
    + change (escape_spec c_quote) with [c_bang] in *.
      cbn [app hd_error length] in *. change (c_bang =? c_tilde) with false.
      change (c_bang =? c_rparen) with false.
      change (c_bang =? c_lparen) with false.
      change (c_bang =? c_bang) with true.
      cbn [orb]. rewrite (IH Hk n str (i + 1)%nat (acc ++ [c_quote]) post);
        [rewrite <- app_assoc; reflexivity| |exact Hn].
      apply (skipn_1 _ _ _ _ Hi).
    + destruct (N.eqb_spec c c_star) as [->|Hst];
        [|destruct (N.eqb_spec c c_pct) as [->|Hpc]].
      * change (escape_spec c_star) with [c_star; 50; 65] in *.
        cbn [app hd_error length] in *. change (c_star =? c_tilde) with false.
        change (c_star =? c_rparen) with false.
        change (c_star =? c_lparen) with false.
        change (c_star =? c_bang) with false.
        change (c_star =? c_star) with true. cbn [orb]. cbv zeta.
        rewrite !charAt_skipn. rewrite (skipn_1 _ _ _ _ Hi).
        cbn [hd_error is_char]. change (50 =? c_star) with false. cbv iota.
        rewrite substring_skipn, (skipn_1 _ _ _ _ Hi). cbn [firstn].
        change (fromCharCode (parseInt [50; 65] 16)) with c_star.
        rewrite (IH Hk n str (i + 1 + 2)%nat (acc ++ [c_star]) post);
          [rewrite <- app_assoc; f_equal; lia| |exact Hn].
        apply (skipn_3 _ _ _ _ _ _ Hi).
      * change (escape_spec c_pct) with [c_star; 50; 53] in *.
        cbn [app hd_error length] in *. change (c_star =? c_tilde) with false.
        change (c_star =? c_rparen) with false.
        change (c_star =? c_lparen) with false.
        change (c_star =? c_bang) with false.
        change (c_star =? c_star) with true. cbn [orb]. cbv zeta.
        rewrite !charAt_skipn. rewrite (skipn_1 _ _ _ _ Hi).
        cbn [hd_error is_char]. change (50 =? c_star) with false. cbv iota.
        rewrite substring_skipn, (skipn_1 _ _ _ _ Hi). cbn [firstn].
        change (fromCharCode (parseInt [50; 53] 16)) with c_pct.
        rewrite (IH Hk n str (i + 1 + 2)%nat (acc ++ [c_pct]) post);
          [rewrite <- app_assoc; f_equal; lia| |exact Hn].
        apply (skipn_3 _ _ _ _ _ _ Hi).
      * rewrite (escape_spec_other c Hq Hst Hpc) in *.
        cbn [app hd_error length] in *.
        apply negb_true_iff in Hc. apply orb_false_iff in Hc.
        destruct Hc as [Hc Hc4]. apply orb_false_iff in Hc.
        destruct Hc as [Hc Hc3]. apply orb_false_iff in Hc.
        destruct Hc as [Hc1 Hc2].
        rewrite Hc2, Hc3, Hc4, Hc1. cbn [orb].
        destruct (N.eqb_spec c c_star) as [|_]; [contradiction|].
        rewrite (IH Hk n str (i + 1)%nat (acc ++ [c]) post);
          [rewrite <- app_assoc; reflexivity| |exact Hn].
        apply (skipn_1 _ _ _ _ Hi).
Qed.

Lemma parse_number_body (ds : jsstring) :
  forallb in_number ds = true ->
  forall n str i acc post,
    skipn i str = ds ++ post ->
    value_end post ->
    (length ds <= n)%nat ->
    parse_number n str i acc = (acc ++ ds, (i + length ds)%nat).
Proof.
  induction ds as [|c ds IH]; intros Hd n str i acc post Hi Hp Hn.
  - cbn [app length] in *. rewrite app_nil_r, Nat.add_0_r.
    destruct n as [|n]; [reflexivity|]. cbn [parse_number].
    rewrite charAt_skipn, Hi.
    destruct post as [|c post]; [reflexivity|]. cbn [hd_error].
    destruct Hp as [-> | ->]; reflexivity.
  - cbn [forallb] in Hd. apply andb_true_iff in Hd. destruct Hd as [Hc Hd].
    destruct n as [|n]; [cbn [length] in Hn; lia|].
    cbn [length] in Hn. apply le_S_n in Hn.
    cbn [parse_number]. rewrite charAt_skipn, Hi. cbn [app hd_error].
    unfold in_number in Hc. apply negb_true_iff in Hc. rewrite Hc.
    rewrite (IH Hd n str (i + 1)%nat (acc ++ [c]) post);
      [rewrite <- app_assoc; cbn [length app]; f_equal; lia| |exact Hp|exact Hn].
    apply (skipn_1 _ _ _ _ Hi).
Qed.

(** *** Numbers *)

Lemma chars_of_uint_digits (u : Decimal.uint) :
  forallb is_digit (chars_of_uint u) = true.
Proof. induction u; simpl; auto. Qed.

Lemma read_digits_uint (u : Decimal.uint) (a : N) :
  read_digits 10 (chars_of_uint u) (Some a)
  = Some (match a with
          | N0 => Pos.of_uint u
          | Npos p => Npos (Pos.of_uint_acc u p)
          end).
Proof.
  revert a; induction u; intros a; cbn [chars_of_uint read_digits];
    [destruct a; reflexivity|..];
    match goal with
    | |- context [digit_value 10 ?c] =>
      let v := eval vm_compute in (digit_value 10 c) in
      change (digit_value 10 c) with v
    end;
    cbv iota beta; rewrite IHu; destruct a as [|p];
    cbn [Pos.of_uint Pos.of_uint_acc N.mul N.add]; try reflexivity;
    f_equal; f_equal; f_equal; lia.
Qed.

Lemma to_uint_head (p : positive) :
  exists d ds, chars_of_uint (Pos.to_uint p) = d :: ds /\ is_digit d = true.
Proof.
  pose proof (chars_of_uint_digits (Pos.to_uint p)) as Hd.
  pose proof (Unsigned.of_to p) as Hp.
  destruct (Pos.to_uint p) eqn:E; cbn [chars_of_uint] in *;
    try (apply andb_true_iff in Hd; destruct Hd as [Hd _]; eauto).
  discriminate.
Qed.

Lemma not_space_trim_start (s : jsstring) :
  forallb (fun c => negb (is_space c)) s = true -> trim_start s = s.
Proof.
  destruct s as [|c s]; [reflexivity|]. cbn [forallb trim_start].
  intros H. apply andb_true_iff in H. destruct H as [H _].
  apply negb_true_iff in H. rewrite H. reflexivity.
Qed.

Lemma not_space_trim (s : jsstring) :
  forallb (fun c => negb (is_space c)) s = true -> trim s = s.
Proof.
  intros H. unfold trim. rewrite (not_space_trim_start s H).
  rewrite not_space_trim_start; [apply rev_involutive|].
  apply forallb_forall. intros x Hx. apply in_rev in Hx.
  apply (proj1 (forallb_forall _ _) H x Hx).
Qed.

Lemma digits_not_space (s : jsstring) :
  forallb is_digit s = true -> forallb (fun c => negb (is_space c)) s = true.
Proof.
  intros H. apply forallb_forall. intros x Hx.
  apply negb_true_iff. apply is_digit_not_space.
  apply (proj1 (forallb_forall _ _) H x Hx).
Qed.

Lemma Number_of_pos (p : positive) :
  Number (chars_of_uint (Pos.to_uint p)) = Int (Zpos p)
  /\ Number (c_minus :: chars_of_uint (Pos.to_uint p)) = Int (Zneg p).
Proof.
  pose proof (chars_of_uint_digits (Pos.to_uint p)) as Hd.
  destruct (to_uint_head p) as [d [ds [E Hdig]]].
  assert (Hr : read_digits 10 (chars_of_uint (Pos.to_uint p)) None
               = Some (Npos p)).
  { rewrite <- (Unsigned.of_to p).
    pose proof (read_digits_uint (Pos.to_uint p) 0) as H.
    cbv iota in H. rewrite <- H. rewrite E. cbn [read_digits].
    assert (Hv : exists v, digit_value 10 d = Some v).
    { unfold digit_value. rewrite Hdig.
      unfold is_digit in Hdig. apply andb_true_iff in Hdig.
      destruct Hdig as [H1 H2]. apply N.leb_le in H1. apply N.leb_le in H2.
      destruct (N.ltb_spec (d - 48) 10); [eauto|lia]. }
    destruct Hv as [v ->]. reflexivity. }
  assert (Hm : (d =? c_minus) = false).
  { unfold is_digit in Hdig. apply andb_true_iff in Hdig. destruct Hdig as [H1 _].
    apply N.leb_le in H1. apply N.eqb_neq. unfold c_minus. lia. }
  assert (Hp : (d =? c_plus) = false).
  { unfold is_digit in Hdig. apply andb_true_iff in Hdig. destruct Hdig as [H1 _].
    apply N.leb_le in H1. apply N.eqb_neq. unfold c_plus. lia. }
  split.
  - unfold Number. rewrite (not_space_trim _ (digits_not_space _ Hd)).
    rewrite E in *. rewrite Hm, Hp, Hd, Hr. reflexivity.
  - unfold Number.
    rewrite (not_space_trim (c_minus :: chars_of_uint (Pos.to_uint p)));
      [|cbn [forallb]; rewrite (digits_not_space _ Hd); reflexivity].
    change (c_minus =? c_minus) with true. cbv iota.
    rewrite Hd, Hr. reflexivity.
Qed.

(** [Number(String(z))] is [z]. *)
Lemma Number_string_of_Z (z : Z) : Number (string_of_Z z) = Int z.
Proof.
  destruct z as [|p|p]; [reflexivity|apply Number_of_pos..].
Qed.

Lemma string_of_Z_in_number (z : Z) : forallb in_number (string_of_Z z) = true.
Proof.
  assert (H : forall u, forallb in_number (chars_of_uint u) = true)
    by (induction u; simpl; auto).
  destruct z as [|p|p]; [reflexivity|apply H|].
  cbn [string_of_Z forallb]. rewrite H. reflexivity.
Qed.

Lemma string_of_Z_head (z : Z) :
  exists c r, string_of_Z z = c :: r
              /\ (is_digit c = true \/ c = c_minus).
Proof.
  destruct z as [|p|p]; cbn [string_of_Z].
  - exists 48, []. split; [reflexivity|left; reflexivity].
  - destruct (to_uint_head p) as [d [ds [E Hd]]]. exists d, ds. auto.
  - eexists _, _. split; [reflexivity|right; reflexivity].
Qed.

(** *** The values that are decoded as they were encoded *)

Lemma value_ind' (P : value -> Prop) :
  P Undefined -> P Null -> (forall b, P (Bool b)) -> (forall n, P (Num n)) ->
  (forall s, P (Str s)) ->
  (forall items, Forall P items -> P (Arr items)) ->
  (forall props, Forall (fun kv => P (snd kv)) props -> P (Obj props)) ->
  forall v, P v.
Proof.
  intros HU HN HB HM HS HA HO.
  fix IH 1. intros [| |b|n|s|items|props].
  - exact HU.
  - exact HN.
  - apply HB.
  - apply HM.
  - apply HS.
  - apply HA. induction items as [|x items IHi]; constructor;
      [apply IH|exact IHi].
  - apply HO. induction props as [|[k x] props IHp]; constructor;
      [apply IH|exact IHp].
Qed.

(** *** Building the object *)

Lemma has_key_app (a b : list (jsstring * value)) (k : jsstring) :
  has_key (a ++ b) k = has_key a k || has_key b k.
Proof.
  induction a as [|[k' v'] a IH]; simpl; [reflexivity|].
  rewrite IH. apply orb_assoc.
Qed.

Lemma later_key_not_index (k : jsstring) :
  later_key_ok k = true -> array_index k = None.
Proof.
  destruct k as [|c k]; [reflexivity|]. cbn [later_key_ok array_index forallb].
  intros H. apply negb_true_iff in H.
  apply orb_false_iff in H. destruct H as [H _].
  apply orb_false_iff in H. destruct H as [_ H]. rewrite H. reflexivity.
Qed.

Lemma obj_set_first (k : jsstring) (v : value) :
  str_eqb k proto_key = false -> obj_set [] k v = [(k, v)].
Proof.
  intros H. unfold obj_set. rewrite H. cbn [has_key].
  destruct (array_index k); reflexivity.
Qed.

Lemma obj_set_later (obj : list (jsstring * value)) (k : jsstring) (v : value) :
  str_eqb k proto_key = false -> has_key obj k = false ->
  later_key_ok k = true -> obj_set obj k v = obj ++ [(k, v)].
Proof.
  intros H1 H2 H3. unfold obj_set.
  rewrite H1, H2, (later_key_not_index k H3). reflexivity.
Qed.

Lemma str_eqb_sym (a b : jsstring) : str_eqb a b = str_eqb b a.
Proof.
  destruct (str_eqb a b) eqn:E.
  - apply str_eqb_eq in E. subst. symmetry. apply str_eqb_refl.
  - destruct (str_eqb b a) eqn:E'; [|reflexivity].
    apply str_eqb_eq in E'. subst. rewrite str_eqb_refl in E. discriminate.
Qed.

Lemma has_key_existsb (obj : list (jsstring * value)) (k : jsstring) :
  has_key obj k = existsb (str_eqb k) (map fst obj).
Proof.
  induction obj as [|[k' v'] obj IH]; simpl; [reflexivity|].
  rewrite IH, str_eqb_sym. reflexivity.
Qed.

Lemma set_all_later (props obj : list (jsstring * value)) :
  forallb (fun kv => key_ok (fst kv)) props = true ->
  forallb (fun kv => later_key_ok (fst kv)) props = true ->
  distinct (map fst props) = true ->
  (forall kv, In kv props -> has_key obj (fst kv) = false) ->
  set_all obj props = obj ++ props.
Proof.
  revert obj. induction props as [|[k v] props IH]; intros obj Hk Hl Hd Hn.
  - cbn. symmetry; apply app_nil_r.
  - cbn [forallb fst map distinct] in *.
    apply andb_true_iff in Hk. destruct Hk as [Hk1 Hk].
    apply andb_true_iff in Hl. destruct Hl as [Hl1 Hl].
    apply andb_true_iff in Hd. destruct Hd as [Hd1 Hd].
    unfold key_ok in Hk1. apply andb_true_iff in Hk1. destruct Hk1 as [_ Hp].
    apply negb_true_iff in Hp. apply negb_true_iff in Hd1.
    unfold set_all. cbn [fold_left fst snd].
    rewrite (obj_set_later obj k v Hp (Hn (k, v) (or_introl eq_refl)) Hl1).
    fold (set_all (obj ++ [(k, v)]) props).
    rewrite (IH (obj ++ [(k, v)]) Hk Hl Hd).
    + rewrite <- app_assoc. reflexivity.
    + intros kv Hin. rewrite has_key_app.
      rewrite (Hn kv (or_intror Hin)). cbn [has_key orb].
      rewrite orb_false_r.
      destruct (str_eqb k (fst kv)) eqn:E; [|reflexivity].
      exfalso.
      assert (Hex : existsb (str_eqb k) (map fst props) = true).
      { apply existsb_exists. exists (fst kv). split; [|exact E].
        apply in_map. exact Hin. }
      rewrite Hex in Hd1. discriminate.
Qed.

(** The object that the decoder builds key by key is the map that was
    encoded. *)
Lemma set_all_props (props : list (jsstring * value)) :
  round_trip_safe (Obj props) = true -> set_all [] props = props.
Proof.
  cbn [round_trip_safe]. intros H.
  apply andb_true_iff in H. destruct H as [H _].
  apply andb_true_iff in H. destruct H as [H Hd].
  apply andb_true_iff in H. destruct H as [Hf Hk].
  destruct props as [|[k v] props]; [discriminate|].
  apply andb_true_iff in Hf. destruct Hf as [_ Hl].
  cbn [forallb fst map distinct] in *.
  apply andb_true_iff in Hk. destruct Hk as [Hk1 Hk].
  apply andb_true_iff in Hd. destruct Hd as [Hd1 Hd].
  unfold key_ok in Hk1. apply andb_true_iff in Hk1. destruct Hk1 as [_ Hp].
  apply negb_true_iff in Hp. apply negb_true_iff in Hd1.
  unfold set_all. cbn [fold_left fst snd].
  rewrite (obj_set_first k v Hp).
  fold (set_all [(k, v)] props).
  rewrite (set_all_later props [(k, v)] Hk Hl Hd); [reflexivity|].
  intros kv Hin. cbn [has_key]. rewrite orb_false_r.
  destruct (str_eqb k (fst kv)) eqn:E; [|reflexivity].
  exfalso.
  assert (Hex : existsb (str_eqb k) (map fst props) = true).
  { apply existsb_exists. exists (fst kv). split; [|exact E].
    apply in_map. exact Hin. }
  rewrite Hex in Hd1. discriminate.
Qed.

(** *** The shape of an encoding *)

Lemma stringify_head (v : value) :
  round_trip_safe v = true -> exists r, _stringify v = c_tilde :: r.
Proof.
  destruct v as [| |b|[z|]|s|items|props]; cbn [round_trip_safe];
    try discriminate; intros _; eexists; reflexivity.
Qed.

Lemma plain_key_no_bang (k : jsstring) :
  forallb plain_in_key k = true -> ~ In c_bang k.
Proof.
  intros H Hin. apply (proj1 (forallb_forall _ _) H) in Hin.
  unfold plain_in_key in Hin. rewrite N.eqb_refl in Hin. discriminate.
Qed.

Lemma plain_string_no_bang (s : jsstring) :
  forallb plain_in_string s = true -> ~ In c_bang s.
Proof.
  intros H Hin. apply (proj1 (forallb_forall _ _) H) in Hin.
  unfold plain_in_string in Hin. rewrite N.eqb_refl in Hin. discriminate.
Qed.

Lemma stringify_pairs (props : list (jsstring * value)) :
  forallb (fun kv => key_ok (fst kv)) props = true ->
  forallb (fun kv => round_trip_safe (snd kv)) props = true ->
  flat_map (fun kv =>
              match _stringify (snd kv) with
              | [] => []
              | _ :: _ =>
                [replace_class cls_key _encode (fst kv) ++ _stringify (snd kv)]
              end) props
  = map pair_text props.
Proof.
  induction props as [|[k v] props IH]; intros Hk Hv; [reflexivity|].
  cbn [forallb fst snd] in Hk, Hv.
  apply andb_true_iff in Hk. destruct Hk as [Hk1 Hk].
  apply andb_true_iff in Hv. destruct Hv as [Hv1 Hv].
  cbn [flat_map map fst snd]. rewrite (IH Hk Hv).
  destruct (stringify_head v Hv1) as [r Hr]. rewrite Hr. cbn [app].
  unfold pair_text. cbn [fst snd]. rewrite Hr.
  unfold key_ok in Hk1. apply andb_true_iff in Hk1. destruct Hk1 as [Hp _].
  rewrite (escape_key k (plain_key_no_bang k Hp)). reflexivity.
Qed.

Lemma stringify_items (items : list value) :
  forallb round_trip_safe items = true ->
  map (fun item => or_null (_stringify item)) items = map _stringify items.
Proof.
  induction items as [|v items IH]; intros H; [reflexivity|].
  cbn [forallb] in H. apply andb_true_iff in H. destruct H as [H1 H].
  cbn [map]. rewrite (IH H).
  destruct (stringify_head v H1) as [r ->]. reflexivity.
Qed.

Lemma escape_spec_length (k : jsstring) :
  (length k <= length (flat_map escape_spec k))%nat.
Proof.
  induction k as [|c k IH]; [apply le_n|].
  cbn [flat_map length]. rewrite length_app.
  assert (1 <= length (escape_spec c))%nat.
  { unfold escape_spec. destruct (c =? c_quote); [cbn; lia|].
    destruct (c =? c_star); [cbn; lia|].
    destruct (c =? c_pct); cbn; lia. }
  lia.
Qed.

Lemma escape_spec_head (k post : jsstring) :
  forallb plain_in_key k = true ->
  exists c r, flat_map escape_spec k ++ c_tilde :: post = c :: r
              /\ (k = [] -> c = c_tilde)
              /\ c <> c_rparen
              /\ (k <> [] -> c <> c_tilde)
              /\ (later_key_ok k = true -> starts_value (Some c) = false).
Proof.
  destruct k as [|c k]; intros H.
  - exists c_tilde, post. repeat split; try reflexivity; try discriminate.
    intros Hk. contradiction.
  - cbn [forallb] in H. apply andb_true_iff in H. destruct H as [H _].
    unfold plain_in_key in H. apply negb_true_iff in H.
    apply orb_false_iff in H. destruct H as [H H4].
    apply orb_false_iff in H. destruct H as [H H3].
    apply orb_false_iff in H. destruct H as [H1 H2].
    apply N.eqb_neq in H1, H2, H3, H4.
    cbn [flat_map]. unfold escape_spec at 1.
    destruct (N.eqb_spec c c_quote) as [->|Hq];
      [|destruct (N.eqb_spec c c_star) as [->|Hs];
        [|destruct (N.eqb_spec c c_pct) as [->|Hp]]].
    + eexists _, _. split; [reflexivity|].
      repeat split; try discriminate; reflexivity.
    + eexists _, _. split; [reflexivity|].
      repeat split; try discriminate; reflexivity.
    + eexists _, _. split; [reflexivity|].
      repeat split; try discriminate; reflexivity.
    + exists c. eexists. split; [reflexivity|].
      split; [discriminate|]. split; [exact H3|]. split; [intros _; exact H2|].
      cbn [later_key_ok starts_value]. intros Hl.
      apply negb_true_iff in Hl.
      apply orb_false_iff in Hl. destruct Hl as [Hl L5].
      apply orb_false_iff in Hl. destruct Hl as [Hl L4].
      apply orb_false_iff in Hl. destruct Hl as [Hl L3].
      apply orb_false_iff in Hl. destruct Hl as [L1 L2].
      rewrite L1, L2, L3, L4, L5.
      apply N.eqb_neq in H4, Hq. rewrite H4, Hq. reflexivity.
Qed.

(** *** The two loops on an encoded container *)

Lemma next_item_end (items : list value) (post : jsstring) :
  forallb round_trip_safe items = true ->
  value_end (concat (map _stringify items) ++ c_rparen :: post).
Proof.
  destruct items as [|v items]; intros H.
  - right; reflexivity.
  - cbn [forallb] in H. apply andb_true_iff in H. destruct H as [H _].
    destruct (stringify_head v H) as [r Hr].
    cbn [map concat]. rewrite Hr. left; reflexivity.
Qed.

(** A turn of the array loop that has read an encoding has moved the
    cursor. *)
Lemma cursor_moved (i : nat) (t : jsstring) (c : char) (r : jsstring) :
  t = c :: r -> (i + length t =? i)%nat = false.
Proof. intros ->. apply Nat.eqb_neq. cbn [length]. lia. Qed.

Lemma array_loop_items (items : list value) :
  Forall decodes items ->
  forallb round_trip_safe items = true ->
  items <> [] ->
  forall fuel str i acc post,
    (weights items <= fuel)%nat ->
    skipn i str = concat (map _stringify items) ++ c_rparen :: post ->
    array_loop fuel str i acc
    = Return (Arr (acc ++ items),
            (i + length (concat (map _stringify items)) + 1)%nat).
Proof.
  induction 1 as [|v items Hv Hitems IH]; intros Hs Hne fuel str i acc post Hf Hi;
    [contradiction|].
  cbn [forallb] in Hs. apply andb_true_iff in Hs. destruct Hs as [Hs1 Hs].
  cbn [weights fold_right] in Hf. fold (weights items) in Hf.
  destruct fuel as [|fuel]; [lia|].
  rewrite array_loop_S.
  cbn [map concat] in Hi |- *. rewrite <- app_assoc in Hi.
  rewrite (Hv Hs1 fuel str i _ ltac:(lia) Hi (next_item_end items post Hs)).
  pose proof (skipn_past _ _ _ _ Hi) as Hj.
  rewrite charAt_skipn, Hj. rewrite length_app.
  destruct items as [|v' items].
  - cbn [map concat app hd_error is_char length]. rewrite N.eqb_refl.
    cbn [negb andb]. rewrite Nat.add_0_r. reflexivity.
  - cbn [forallb] in Hs. pose proof Hs as Hs'.
    apply andb_true_iff in Hs'. destruct Hs' as [Hs2 _].
    destruct (stringify_head v' Hs2) as [r Hr].
    cbn [map concat] in Hj |- *. rewrite Hr in Hj |- *.
    cbn [app hd_error is_char]. change (c_tilde =? c_rparen) with false.
    cbn [negb andb]. rewrite (skipn_in_range _ _ _ _ Hj).
    rewrite <- Hr in Hj.
    destruct (stringify_head v Hs1) as [rv Hrv].
    rewrite (cursor_moved i _ _ _ Hrv).
    rewrite (IH Hs ltac:(discriminate) fuel str _ (acc ++ [v]) post
               ltac:(lia));
      [|cbn [map concat]; exact Hj].
    rewrite <- app_assoc. cbn [map concat]. rewrite Hr.
    cbn [app length]. rewrite <- !Nat.add_assoc. reflexivity.
Qed.

Lemma join_cons (sep x : jsstring) (l : list jsstring) :
  l <> [] -> join sep (x :: l) = x ++ sep ++ join sep l.
Proof. destruct l; [contradiction|reflexivity]. Qed.

Lemma object_loop_props (props : list (jsstring * value)) :
  Forall (fun kv => decodes (snd kv)) props ->
  forallb (fun kv => key_ok (fst kv)) props = true ->
  forallb (fun kv => later_key_ok (fst kv)) (tl props) = true ->
  forallb (fun kv => round_trip_safe (snd kv)) props = true ->
  props <> [] ->
  forall fuel str i obj post,
    (pair_weights props <= fuel)%nat ->
    skipn i str = join [c_tilde] (map pair_text props) ++ c_rparen :: post ->
    object_loop fuel str i obj
    = Return (Obj (set_all obj props),
            (i + length (join [c_tilde] (map pair_text props)) + 1)%nat).
Proof.
  induction 1 as [|[k v] props Hv Hprops IH];
    intros Hk Hl Hs Hne fuel str i obj post Hf Hi; [contradiction|].
  cbn [forallb fst snd tl] in Hk, Hl, Hs, Hv.
  apply andb_true_iff in Hk. destruct Hk as [Hk1 Hk].
  apply andb_true_iff in Hs. destruct Hs as [Hs1 Hs].
  pose proof Hk1 as Hplain. unfold key_ok in Hplain.
  apply andb_true_iff in Hplain. destruct Hplain as [Hplain _].
  cbn [pair_weights fold_right snd] in Hf. fold (pair_weights props) in Hf.
  destruct fuel as [|fuel]; [lia|].
  rewrite object_loop_S.
  destruct (stringify_head v Hs1) as [r Hr].
  (* the text after the key *)
  set (tail := match props with
               | [] => c_rparen :: post
               | _ :: _ =>
                 c_tilde :: join [c_tilde] (map pair_text props)
                 ++ c_rparen :: post
               end).
  assert (Hi' : skipn i str = flat_map escape_spec k ++ _stringify v ++ tail).
  { rewrite Hi. subst tail. destruct props as [|kv props].
    - cbn [map join]. unfold pair_text. cbn [fst snd].
      rewrite <- app_assoc. reflexivity.
    - change (map pair_text ((k, v) :: kv :: props))
        with (pair_text (k, v) :: map pair_text (kv :: props)).
      rewrite (join_cons [c_tilde] (pair_text (k, v)) (map pair_text (kv :: props)))
        by discriminate.
      unfold pair_text at 1. cbn [fst snd].
      rewrite <- !app_assoc. reflexivity. }
  assert (Hlen : (length k <= length str - i)%nat).
  { rewrite <- length_skipn, Hi', length_app.
    pose proof (escape_spec_length k). lia. }
  rewrite Hr in Hi'.
  rewrite (parse_key_body k Hplain (length str - i) str i [] _ Hi' Hlen).
  cbn [app]. rewrite <- Hr in Hi'.
  pose proof (skipn_past _ _ _ _ Hi') as Hv'.
  assert (Hend : value_end tail).
  { subst tail. destruct props; [right|left]; reflexivity. }
  rewrite (Hv Hs1 fuel str _ tail ltac:(lia) Hv' Hend).
  pose proof (skipn_past _ _ _ _ Hv') as Hj.
  cbv zeta. rewrite !charAt_skipn, Hj.
  subst tail. destruct props as [|[k' v'] props].
  - (* the last entry *)
    cbn [hd_error is_char]. change (c_rparen =? c_tilde) with false.
    cbn [andb]. cbv iota. rewrite Hj. cbn [hd_error is_char].
    rewrite N.eqb_refl. cbn [negb andb].
    unfold set_all. cbn [fold_left fst snd map join].
    unfold pair_text. cbn [fst snd]. rewrite length_app.
    f_equal. f_equal. lia.
  - (* a separator and a further entry *)
    cbn [forallb fst] in Hl, Hk.
    pose proof Hl as Hl'. apply andb_true_iff in Hl'. destruct Hl' as [Hl1 Hl2].
    pose proof Hk as Hk'. apply andb_true_iff in Hk'. destruct Hk' as [Hk2 _].
    unfold key_ok in Hk2. apply andb_true_iff in Hk2. destruct Hk2 as [Hp2 _].
    pose proof Hs as Hs'. cbn [forallb snd] in Hs'.
    apply andb_true_iff in Hs'. destruct Hs' as [Hs2 _].
    destruct (stringify_head v' Hs2) as [r' Hr'].
    pose proof (skipn_1 _ _ _ _ Hj) as Hj1.
    assert (Hnext : exists c rest,
               skipn (i + length (flat_map escape_spec k)
                      + length (_stringify v) + 1) str = c :: rest
               /\ c <> c_rparen /\ starts_value (Some c) = false).
    { destruct (escape_spec_head k' (r' ++ match props with
                                          | [] => c_rparen :: post
                                          | _ :: _ =>
                                            c_tilde :: join [c_tilde] (map pair_text props)
                                            ++ c_rparen :: post
                                          end) Hp2)
        as [c [rest [E [_ [E1 [_ E2]]]]]].
      exists c, rest. split; [|split; [exact E1|exact (E2 Hl1)]].
      rewrite Hj1, <- E.
      destruct props as [|kv2 props].
      - cbn [map join]. unfold pair_text. cbn [fst snd]. rewrite Hr'.
        rewrite <- !app_assoc. reflexivity.
      - change (map pair_text ((k', v') :: kv2 :: props))
          with (pair_text (k', v') :: map pair_text (kv2 :: props)).
        rewrite (join_cons [c_tilde] (pair_text (k', v'))
                   (map pair_text (kv2 :: props))) by discriminate.
        unfold pair_text at 1. cbn [fst snd]. rewrite Hr'.
        rewrite <- !app_assoc. reflexivity. }
    destruct Hnext as [c [rest [Hn [Hc1 Hc2]]]].
    cbn [hd_error is_char]. rewrite N.eqb_refl.
    rewrite Hn. cbn [hd_error]. rewrite Hc2. cbn [negb andb]. cbv iota.
    rewrite Hn. cbn [hd_error is_char].
    apply N.eqb_neq in Hc1. rewrite Hc1. cbn [negb andb].
    rewrite (skipn_in_range _ _ _ _ Hn).
    rewrite (IH Hk Hl2 Hs ltac:(discriminate) fuel str _ (obj_set obj k v) post
               ltac:(lia) Hj1).
    unfold set_all. cbn [fold_left fst snd].
    change (map pair_text ((k, v) :: (k', v') :: props))
      with (pair_text (k, v) :: map pair_text ((k', v') :: props)).
    rewrite (join_cons [c_tilde] (pair_text (k, v))
               (map pair_text ((k', v') :: props))) by discriminate.
    change (pair_text (k, v)) with (flat_map escape_spec k ++ _stringify v).
    rewrite !length_app. cbn [length]. f_equal. f_equal. lia.
Qed.

(** *** The round trip *)

Lemma digit_or_minus_dispatch (c : char) :
  is_digit c = true \/ c = c_minus ->
  (c =? c_lparen) = false /\ (c =? c_quote) = false /\ (c =? c_n) = false
  /\ (c =? c_t) = false /\ (c =? c_f) = false.
Proof.
  intros [H| ->]; [|repeat split; reflexivity].
  unfold is_digit in H. apply andb_true_iff in H. destruct H as [H1 H2].
  apply N.leb_le in H1. apply N.leb_le in H2.
  repeat split; apply N.eqb_neq;
    unfold c_lparen, c_quote, c_n, c_t, c_f; lia.
Qed.

Lemma decodes_scalar_null : decodes Null.
Proof.
  intros _ fuel str i post Hf Hi _. destruct fuel as [|fuel]; [cbn in Hf; lia|].
  rewrite _parse_S. cbv zeta. rewrite !charAt_skipn, !substring_skipn.
  rewrite (skipn_1 str (js "null" ++ post) i c_tilde Hi), Hi.
  simpl. f_equal. f_equal. lia.
Qed.

Lemma decodes_scalar_bool (b : bool) : decodes (Bool b).
Proof.
  intros _ fuel str i post Hf Hi _. destruct fuel as [|fuel]; [cbn in Hf; lia|].
  rewrite _parse_S. cbv zeta. rewrite !charAt_skipn, !substring_skipn.
  destruct b.
  - rewrite (skipn_1 str (js "true" ++ post) i c_tilde Hi), Hi.
    simpl. f_equal. f_equal. lia.
  - rewrite (skipn_1 str (js "false" ++ post) i c_tilde Hi), Hi.
    simpl. f_equal. f_equal. lia.
Qed.

Lemma decodes_scalar_num (n : number) : decodes (Num n).
Proof.
  intros Hs fuel str i post Hf Hi Hp.
  destruct n as [z|]; [|discriminate].
  destruct fuel as [|fuel]; [cbn in Hf; lia|].
  cbn [_stringify isFinite number_to_string] in Hi |- *.
  cbn [app] in Hi.
  destruct (string_of_Z_head z) as [c [r [Hz Hc]]].
  destruct (digit_or_minus_dispatch c Hc) as [D1 [D2 [D3 [D4 D5]]]].
  rewrite _parse_S. cbv zeta. rewrite !charAt_skipn.
  rewrite (skipn_1 _ _ _ _ Hi), Hi.
  cbn [hd_error]. change (c_tilde =? c_tilde) with true. cbv iota.
  rewrite Hz. cbn [app hd_error is_char].
  rewrite D1, D2, D3, D4, D5. rewrite <- Hz.
  rewrite (parse_number_body (string_of_Z z) (string_of_Z_in_number z)
             (length str - (i + 1)) str (i + 1) [] post
             (skipn_1 _ _ _ _ Hi) Hp).
  - cbn [app length]. rewrite Number_string_of_Z.
    f_equal. f_equal. lia.
  - rewrite <- length_skipn, (skipn_1 _ _ _ _ Hi), length_app. lia.
Qed.

Lemma decodes_scalar_str (s : jsstring) : decodes (Str s).
Proof.
  intros Hs fuel str i post Hf Hi Hp.
  cbn [round_trip_safe] in Hs.
  destruct fuel as [|fuel]; [cbn in Hf; lia|].
  cbn [_stringify] in Hi |- *.
  rewrite (escape_value s (plain_string_no_bang s Hs)) in Hi |- *.
  cbn [app] in Hi.
  rewrite _parse_S. cbv zeta. rewrite !charAt_skipn.
  rewrite (skipn_1 _ _ _ _ Hi), Hi.
  cbn [hd_error]. change (c_tilde =? c_tilde) with true. cbv iota.
  cbn [hd_error is_char].
  change (c_quote =? c_lparen) with false.
  change (c_quote =? c_quote) with true. cbv iota.
  rewrite (parse_string_body s Hs (length str - (i + 1 + 1)) str (i + 1 + 1)
             [] post (skipn_2 _ _ _ _ _ Hi) Hp).
  - cbn [app length]. f_equal. f_equal. lia.
  - rewrite <- length_skipn, (skipn_2 _ _ _ _ _ Hi), length_app.
    pose proof (escape_spec_length s). lia.
Qed.

Lemma decodes_array (items : list value) :
  Forall decodes items -> decodes (Arr items).
Proof.
  intros Hitems Hs fuel str i post Hf Hi Hp.
  cbn [round_trip_safe] in Hs.
  destruct fuel as [|fuel]; [cbn in Hf; lia|].
  cbn [weight] in Hf. fold (weights items) in Hf.
  cbn [_stringify] in Hi |- *. rewrite (stringify_items items Hs) in Hi |- *.
  cbn [app] in Hi. rewrite <- app_assoc in Hi. cbn [app] in Hi.
  rewrite _parse_S. cbv zeta. rewrite !charAt_skipn.
  rewrite (skipn_2 _ _ _ _ _ Hi), (skipn_1 _ _ _ _ Hi), Hi.
  cbn [hd_error]. change (c_tilde =? c_tilde) with true. cbv iota.
  cbn [hd_error is_char].
  change (c_lparen =? c_lparen) with true. cbv iota.
  destruct items as [|v items].
  - cbn [map concat app hd_error is_char length].
    change (c_rparen =? c_rparen) with true. cbv iota.
    f_equal. f_equal. lia.
  - pose proof Hs as Hs'. cbn [forallb] in Hs'.
    apply andb_true_iff in Hs'. destruct Hs' as [Hs1 _].
    destruct (stringify_head v Hs1) as [r Hr].
    cbn [map concat]. rewrite Hr. cbn [app hd_error is_char].
    change (c_tilde =? c_rparen) with false.
    change (c_tilde =? c_tilde) with true. cbv iota.
    rewrite (array_loop_items (v :: items) Hitems Hs ltac:(discriminate)
               fuel str (i + 1 + 1) [] post ltac:(lia)
               (skipn_2 _ _ _ _ _ Hi)).
    cbn [map concat app length]. rewrite Hr. rewrite !length_app.
    cbn [length]. f_equal. f_equal. lia.
Qed.

Lemma decodes_object (props : list (jsstring * value)) :
  Forall (fun kv => decodes (snd kv)) props -> decodes (Obj props).
Proof.
  intros Hprops Hs fuel str i post Hf Hi Hp.
  pose proof (set_all_props props Hs) as Hset.
  cbn [round_trip_safe] in Hs.
  apply andb_true_iff in Hs. destruct Hs as [Hs Hv].
  apply andb_true_iff in Hs. destruct Hs as [Hs Hd].
  apply andb_true_iff in Hs. destruct Hs as [Hfirst Hk].
  destruct props as [|[k v] props]; [discriminate|].
  apply andb_true_iff in Hfirst. destruct Hfirst as [Hne Hl].
  destruct fuel as [|fuel]; [cbn in Hf; lia|].
  cbn [weight] in Hf. fold (pair_weights ((k, v) :: props)) in Hf.
  cbn [_stringify] in Hi |- *.
  rewrite (stringify_pairs ((k, v) :: props) Hk Hv) in Hi |- *.
  cbn [app] in Hi. rewrite <- app_assoc in Hi. cbn [app] in Hi.
  (* the first character of the first key *)
  pose proof Hk as Hk'. cbn [forallb fst] in Hk'.
  apply andb_true_iff in Hk'. destruct Hk' as [Hk1 _].
  unfold key_ok in Hk1. apply andb_true_iff in Hk1. destruct Hk1 as [Hplain _].
  pose proof Hv as Hv'. cbn [forallb snd] in Hv'.
  apply andb_true_iff in Hv'. destruct Hv' as [Hv1 _].
  destruct (stringify_head v Hv1) as [r Hr].
  assert (Hhead : exists c rest,
             join [c_tilde] (map pair_text ((k, v) :: props))
             ++ c_rparen :: post = c :: rest
             /\ c <> c_rparen /\ c <> c_tilde).
  { destruct (escape_spec_head k (r ++ match props with
                                      | [] => c_rparen :: post
                                      | _ :: _ =>
                                        c_tilde :: join [c_tilde] (map pair_text props)
                                        ++ c_rparen :: post
                                      end) Hplain)
      as [c [rest [E [_ [E1 [E2 _]]]]]].
    exists c, rest. split; [|split; [exact E1|]].
    - rewrite <- E. destruct props as [|kv2 props].
      + cbn [map join]. unfold pair_text. cbn [fst snd]. rewrite Hr.
        rewrite <- !app_assoc. reflexivity.
      + change (map pair_text ((k, v) :: kv2 :: props))
          with (pair_text (k, v) :: map pair_text (kv2 :: props)).
        rewrite (join_cons [c_tilde] (pair_text (k, v))
                   (map pair_text (kv2 :: props))) by discriminate.
        unfold pair_text at 1. cbn [fst snd]. rewrite Hr.
        rewrite <- !app_assoc. reflexivity.
    - apply E2. destruct k; [discriminate|discriminate]. }
  destruct Hhead as [c [rest [Hc [Hc1 Hc2]]]].
  rewrite _parse_S. cbv zeta. rewrite !charAt_skipn.
  rewrite (skipn_2 _ _ _ _ _ Hi), (skipn_1 _ _ _ _ Hi), Hi.
  cbn [hd_error]. change (c_tilde =? c_tilde) with true. cbv iota.
  cbn [hd_error is_char].
  change (c_lparen =? c_lparen) with true. cbv iota.
  rewrite Hc. cbn [hd_error is_char].
  apply N.eqb_neq in Hc1, Hc2. rewrite Hc1, Hc2.
  rewrite (object_loop_props ((k, v) :: props) Hprops Hk Hl Hv
             ltac:(discriminate) fuel str (i + 1 + 1) [] post ltac:(lia)
             (skipn_2 _ _ _ _ _ Hi)).
  rewrite Hset. cbn [length]. rewrite !length_app. cbn [length].
  f_equal. f_equal. lia.
Qed.

(** Every value of the round trip is decoded from its encoding. *)
Lemma decodes_all (v : value) : decodes v.
Proof.
  induction v using value_ind'.
  - intros H; discriminate.
  - apply decodes_scalar_null.
  - apply decodes_scalar_bool.
  - apply decodes_scalar_num.
  - apply decodes_scalar_str.
  - apply decodes_array; assumption.
  - apply decodes_object; assumption.
Qed.

(** C1, as the code has it.  [JSURL.parse(JSURL.stringify(v))] is [v] for
    every value built from [null], the booleans, the integers a double
    holds exactly, the strings without [!], [~] and [)], arrays, and
    non-empty maps whose keys are distinct, differ from [__proto__], have
    none of [!], [~], [(], [)], and of which the first is not empty and the
    later ones do not begin with [n], [t], [f], a digit or a minus sign.
    The fuel that suffices is the weight of the value. *)
Theorem C1_round_trip (v : value) (fuel : nat) :
  round_trip_safe v = true ->
  (weight v <= fuel)%nat ->
  parse fuel (stringify v) = Return v.
Proof.
  intros Hs Hf.
  pose proof (decodes_all v Hs fuel (stringify v) O [] Hf) as H.
  destruct (stringify_head v Hs) as [r Hr].
  unfold parse, stringify in *. rewrite Hr in *.
  rewrite H; [reflexivity| |exact I].
  cbn [skipn]. symmetry. apply app_nil_r.
Qed.

Lemma C1_round_trip_witness :
  parse (weight sample_value) (stringify sample_value) = Return sample_value.
Proof.
  apply (C1_round_trip sample_value (weight sample_value)).
  - vm_compute. reflexivity.
  - apply le_n.
Defined.

(** The claim of C1 fails on the code: the empty map is decoded as the
    empty array, an exclamation mark comes back as a quote, a string is cut
    at a tilde, and a later key that begins like a value leaves an entry
    with the empty key behind. *)
Lemma C1_counterexample :
  parse 9 (stringify (Obj [])) = Return (Arr [])
  /\ parse 9 (stringify (Str (js "!"))) = Return (Str (js "'"))
  /\ parse 9 (stringify (Str (js "a~b"))) = Return (Str (js "a"))
  /\ parse 9 (stringify (Obj [(js "a", Num (Int 1)); (js "name", Num (Int 2))]))
     = Return (Obj [(js "a", Num (Int 1)); ([], Undefined);
                    (js "name", Num (Int 2))]).
Proof. vm_compute. repeat split. Qed.

(** * Further properties of the code *)

(** ** Service detection *)

Lemma startsWith_prefix (s p q : jsstring) :
  startsWith s (p ++ q) = true -> startsWith s p = true.
Proof.
  revert s; induction p as [|x p IH]; intros s; [destruct s; reflexivity|].
  destruct s as [|y s]; simpl; [discriminate|].
  destruct (x =? y); simpl; [apply IH|discriminate].
Qed.

Lemma startsWith_suffix (s p q : jsstring) :
  startsWith s (p ++ q) = true -> startsWith (skipn (length p) s) q = true.
Proof.
  revert s; induction p as [|x p IH]; intros s; [intros H; exact H|].
  destruct s as [|y s]; simpl; [discriminate|].
  destruct (x =? y); simpl; [apply IH|discriminate].
Qed.

Lemma includes_skipn (s q : jsstring) (n : nat) :
  includes (skipn n s) q = true -> includes s q = true.
Proof.
  revert s; induction n as [|n IH]; intros s; [intros H; exact H|].
  destruct s as [|c s]; [intros H; exact H|].
  cbn [skipn]. intros H. apply IH in H.
  cbn [includes]. rewrite H. apply orb_true_r.
Qed.

(** A text that includes a word includes every part of the word. *)
Lemma includes_part (s p q r : jsstring) :
  includes s (p ++ q ++ r) = true -> includes s q = true.
Proof.
  induction s as [|c s IH]; cbn [includes]; intros H.
  - rewrite orb_false_r in H |- *.
    apply startsWith_suffix in H. apply startsWith_prefix in H.
    destruct p; [exact H|]. destruct q; [reflexivity|discriminate].
  - apply orb_true_iff in H. destruct H as [H|H].
    + apply startsWith_suffix in H. apply startsWith_prefix in H.
      assert (Hi : includes (skipn (length p) (c :: s)) q = true).
      { destruct (skipn (length p) (c :: s)); cbn [includes];
          rewrite H; reflexivity. }
      apply includes_skipn in Hi. exact Hi.
    + rewrite (IH H). apply orb_true_r.
Qed.

Lemma includes_queryDetail (hash : jsstring) :
  includes hash (js "queryDetail$3D") = true ->
  includes hash (js "queryDetail") = true.
Proof. apply (includes_part hash [] (js "queryDetail") (js "$3D")). Qed.

Lemma includes_logsV2 (hash : jsstring) :
  includes hash (js "logsV2:log-groups") = true ->
  includes hash (js "logsV2") = true.
Proof. apply (includes_part hash [] (js "logsV2") (js ":log-groups")). Qed.

Lemma includes_state_marker (hash : jsstring) :
  includes hash (js ":?~(") = true -> includes hash (js "?~(") = true.
Proof. apply (includes_part hash (js ":") (js "?~(") []). Qed.

(** Case analysis on the tests of [detectService], closing each case as
    soon as [fin] can. *)
Ltac bool_cases fin :=
  first [ solve [fin]
        | match goal with
          | x : bool |- _ =>
            destruct x; cbn [andb orb negb] in *; bool_cases fin
          end ].

Ltac absurd_premise :=
  match goal with
  | H : true = true -> _ |- _ => specialize (H eq_refl); discriminate H
  | H : _ = _ |- _ => discriminate H
  | H : _ /\ _ |- _ => destruct H; absurd_premise
  | H : _ \/ _ |- _ => destruct H; absurd_premise
  end.

Ltac decide_tag :=
  intros;
  first [ absurd_premise
        | reflexivity
        | split; decide_tag
        | left; decide_tag
        | right; decide_tag ].

(** The Logs Insights tag is given to exactly the CloudWatch addresses
    whose fragment does not name [metricsV2] and names [logs-insights], or
    [logsV2] together with [queryDetail]; the two other tests of the
    function, for [logsV2:log-groups] with [logs-insights] and for
    [queryDetail$3D], add nothing to this. *)
Theorem detectService_logs_insights (url pathname hash : jsstring) :
  detectService url pathname hash = CloudwatchLogsInsights <->
  includes pathname (js "/cloudwatch") = true
  /\ includes hash (js "metricsV2") = false
  /\ (includes hash (js "logs-insights") = true
      \/ includes hash (js "logsV2") = true
         /\ includes hash (js "queryDetail") = true).
Proof.
  pose proof (includes_queryDetail hash) as HQ.
  unfold detectService. revert HQ. abstract_includes. intros HQ.
  bool_cases decide_tag.
Qed.

(** The Log Events tag is given to exactly the CloudWatch addresses whose
    fragment names [logsV2:log-groups] and a start parameter, in either
    spelling, and names none of [metricsV2], [logs-insights] and
    [queryDetail]. *)
Theorem detectService_log_events (url pathname hash : jsstring) :
  detectService url pathname hash = CloudwatchLogs <->
  includes pathname (js "/cloudwatch") = true
  /\ includes hash (js "logsV2:log-groups") = true
  /\ (includes hash (js "$3Fstart$3D") = true
      \/ includes hash (js "?start=") = true)
  /\ includes hash (js "metricsV2") = false
  /\ includes hash (js "logs-insights") = false
  /\ includes hash (js "queryDetail") = false.
Proof.
  pose proof (includes_queryDetail hash) as HQ.
  pose proof (includes_logsV2 hash) as HL.
  unfold detectService. revert HQ HL. abstract_includes. intros HQ HL.
  bool_cases decide_tag.
Qed.

(** The two states of the content script classify an address alike, except
    where the later one answers with the Log Events tag, which the earlier
    one does not have, or with the generic tag, for which the earlier one
    asks for a colon before the marker. *)
Theorem detectService_revisions (url pathname hash : jsstring) :
  (detectService url pathname hash <> CloudwatchLogs ->
   detectService url pathname hash <> CloudwatchGeneric ->
   ContentOld.detectService url pathname hash
   = detectService url pathname hash)
  /\ (ContentOld.detectService url pathname hash = CloudwatchGeneric ->
      detectService url pathname hash = CloudwatchGeneric
      \/ detectService url pathname hash = CloudwatchLogs).
Proof.
  pose proof (includes_queryDetail hash) as HQ.
  pose proof (includes_state_marker hash) as HM.
  unfold detectService, ContentOld.detectService.
  revert HQ HM. abstract_includes. intros HQ HM.
  bool_cases ltac:(first [ decide_tag
                         | split; intros;
                           first [ reflexivity | congruence
                                 | left; reflexivity | right; reflexivity
                                 | absurd_premise ] ]).
Qed.

Lemma detectService_revisions_witness :
  ContentOld.detectService dashboard_url (js "/xray/home") (js "#/traces")
  = Xray.
Proof.
  destruct (detectService_revisions dashboard_url (js "/xray/home")
              (js "#/traces")) as [H _].
  rewrite H; [reflexivity|discriminate|discriminate].
Defined.

(** ** Durations *)

Lemma read_digits_of_pos (p : positive) :
  read_digits 10 (chars_of_uint (Pos.to_uint p)) None = Some (Npos p).
Proof.
  destruct (to_uint_head p) as [d [ds [E Hdig]]].
  rewrite <- (Unsigned.of_to p).
  pose proof (read_digits_uint (Pos.to_uint p) 0) as H.
  cbv iota in H. rewrite <- H. rewrite E. cbn [read_digits].
  assert (Hv : exists v, digit_value 10 d = Some v).
  { unfold digit_value. rewrite Hdig.
    unfold is_digit in Hdig. apply andb_true_iff in Hdig.
    destruct Hdig as [H1 H2]. apply N.leb_le in H1. apply N.leb_le in H2.
    destruct (N.ltb_spec (d - 48) 10); [eauto|lia]. }
  destruct Hv as [v ->]. reflexivity.
Qed.

Lemma digit_not_sign (d : char) :
  is_digit d = true -> (d =? c_minus) = false /\ (d =? c_plus) = false.
Proof.
  unfold is_digit. intros H. apply andb_true_iff in H. destruct H as [H1 _].
  apply N.leb_le in H1. split; apply N.eqb_neq; [unfold c_minus|unfold c_plus];
    lia.
Qed.

(** [parseInt(String(z), 10)] is [z]. *)
Lemma parseInt_string_of_Z (z : Z) : parseInt (string_of_Z z) 10 = Int z.
Proof.
  destruct z as [|p|p]; [reflexivity| |].
  - cbn [string_of_Z]. unfold parseInt.
    pose proof (chars_of_uint_digits (Pos.to_uint p)) as Hd.
    rewrite (not_space_trim_start _ (digits_not_space _ Hd)).
    destruct (to_uint_head p) as [d [ds [E Hdig]]].
    pose proof (read_digits_of_pos p) as Hr. rewrite E in Hr |- *.
    destruct (digit_not_sign d Hdig) as [-> ->].
    cbn [N.eqb Pos.eqb]. rewrite Hr. reflexivity.
  - cbn [string_of_Z]. unfold parseInt.
    change (trim_start (c_minus :: chars_of_uint (Pos.to_uint p)))
      with (c_minus :: chars_of_uint (Pos.to_uint p)).
    cbv iota beta. rewrite N.eqb_refl. change (10 =? 16) with false.
    cbv iota beta. rewrite read_digits_of_pos. reflexivity.
Qed.

Lemma decimal_of_N (k : N) :
  exists d ds, string_of_Z (Z.of_N k) = d :: ds
               /\ forallb is_digit (d :: ds) = true.
Proof.
  destruct k as [|p]; cbn [Z.of_N string_of_Z].
  - exists 48, []. split; reflexivity.
  - destruct (to_uint_head p) as [d [ds [E _]]]. exists d, ds.
    split; [exact E|]. rewrite <- E. apply chars_of_uint_digits.
Qed.

Lemma span_run (cls : char -> bool) (a : jsstring) (c : char)
    (rest : jsstring) :
  forallb cls a = true -> cls c = false ->
  span cls (a ++ c :: rest) = (a, c :: rest).
Proof.
  intros Ha Hc. induction a as [|x a IH]; cbn [app span].
  - rewrite Hc. reflexivity.
  - cbn [forallb] in Ha. apply andb_true_iff in Ha. destruct Ha as [Hx Ha].
    rewrite Hx, (IH Ha). reflexivity.
Qed.

Lemma span_all (cls : char -> bool) (a : jsstring) :
  forallb cls a = true -> span cls a = (a, []).
Proof.
  intros Ha. induction a as [|x a IH]; [reflexivity|].
  cbn [forallb] in Ha. apply andb_true_iff in Ha. destruct Ha as [Hx Ha].
  cbn [span]. rewrite Hx, (IH Ha). reflexivity.
Qed.

(** A group of the pattern on a number that is followed by its letter,
    and on one that is followed by another letter. *)
Lemma duration_group_taken (letter c : char) (k : N) (rest : jsstring) :
  is_digit c = false -> (upper c =? letter) = true ->
  Parsers.duration_group letter (string_of_Z (Z.of_N k) ++ c :: rest)
  = (Some (string_of_Z (Z.of_N k)), rest).
Proof.
  intros Hc Hl. destruct (decimal_of_N k) as [d [ds [E Hd]]].
  unfold Parsers.duration_group. rewrite E.
  rewrite (span_run _ _ _ _ Hd Hc), Hl. reflexivity.
Qed.

Lemma duration_group_left (letter c : char) (k : N) (rest : jsstring) :
  is_digit c = false -> (upper c =? letter) = false ->
  Parsers.duration_group letter (string_of_Z (Z.of_N k) ++ c :: rest)
  = (None, string_of_Z (Z.of_N k) ++ c :: rest).
Proof.
  intros Hc Hl. destruct (decimal_of_N k) as [d [ds [E Hd]]].
  unfold Parsers.duration_group. rewrite E.
  rewrite (span_run _ _ _ _ Hd Hc), Hl. reflexivity.
Qed.

Ltac duration_groups :=
  repeat first
    [ rewrite duration_group_taken by reflexivity
    | rewrite duration_group_left by reflexivity
    | progress cbn [app Parsers.duration_group span Parsers.group_or_zero] ].

Lemma parseDuration_text (h m s : option N) :
  Parsers.parseDuration (duration_text h m s) = Some (Int (duration_ms h m s)).
Proof.
  unfold Parsers.parseDuration, duration_text.
  change (js "PT") with [80; 84]. cbn [app].
  unfold Parsers.match_duration.
  change (Parsers.strip_minus (80 :: 84 :: ?x)) with (80 :: 84 :: x).
  cbn [Parsers.strip_minus N.eqb Pos.eqb c_minus].
  change (upper 80 =? 80) with true. change (upper 84 =? 84) with true.
  cbv iota.
  destruct h as [h|], m as [m|], s as [s|];
    unfold duration_part, duration_ms, or_zero; rewrite <- ?app_assoc;
    duration_groups;
    rewrite ?app_nil_r, ?parseInt_string_of_Z;
    change (parseInt (js "0") 10) with (Int 0); cbn [mul add];
    try reflexivity; do 2 f_equal; lia.
Qed.

(** [parseDuration] reads the hours, minutes and seconds of a duration
    text, whichever of them are given, and answers with their sum in
    milliseconds (as long as a double holds the sum exactly). *)
Theorem parseDuration_value (h m s : option N) :
  (duration_ms h m s < 9007199254740992)%Z ->
  Parsers.parseDuration (duration_text h m s) = Some (Int (duration_ms h m s)).
Proof. intros _. apply parseDuration_text. Qed.

Lemma parseDuration_value_witness :
  Parsers.parseDuration (js "PT1H30M") = Some (Int 5400000).
Proof.
  apply (parseDuration_value (Some 1) (Some 30) None). reflexivity.
Defined.

Lemma duration_group_digits (letter : char) (s : jsstring) g rest :
  Parsers.duration_group letter s = (g, rest) ->
  exists n, parseInt (Parsers.group_or_zero g) 10 = Int (Z.of_N n).
Proof.
  unfold Parsers.duration_group.
  destruct (span is_digit s) as [[|d ds] [|c r]] eqn:E;
    try (intros H; injection H as <- _; exists 0; reflexivity).
  destruct (upper c =? letter);
    [|intros H; injection H as <- _; exists 0; reflexivity].
  intros H; injection H as <- _. cbn [Parsers.group_or_zero].
  apply parseInt_digits. eapply span_digits_head. exact E.
Qed.

(** [parseDuration] never answers with a negative number or with [NaN]. *)
Lemma parseDuration_not_negative (dur : jsstring) (ms : number) :
  Parsers.parseDuration dur = Some ms -> exists k, ms = Int (Z.of_N k).
Proof.
  unfold Parsers.parseDuration. destruct dur as [|c0 dur0]; [discriminate|].
  unfold Parsers.match_duration.
  destruct (Parsers.strip_minus (c0 :: dur0)) as [|p s]; [discriminate|].
  destruct (upper p =? 80); [|discriminate].
  match goal with
  | |- context [Parsers.duration_group 72 ?x] =>
    destruct (Parsers.duration_group 72 x) as [h s1] eqn:Eh
  end.
  destruct (Parsers.duration_group 77 s1) as [m s2] eqn:Em.
  destruct (Parsers.duration_group 83 s2) as [sec s3] eqn:Es.
  destruct s3; [|discriminate].
  destruct (duration_group_digits _ _ _ _ Eh) as [a ->].
  destruct (duration_group_digits _ _ _ _ Em) as [b ->].
  destruct (duration_group_digits _ _ _ _ Es) as [c ->].
  intros H; injection H as <-. cbn [mul add].
  exists ((a * 3600 + b * 60 + c) * 1000). f_equal. lia.
Qed.

Lemma relativeToAbsolute_some (now : Z) (durationStr : value)
    (a b : number) :
  Parsers.relativeToAbsolute now durationStr = Return (Some (a, b)) ->
  b = Int now /\ exists ms, (0 < ms)%Z /\ a = Int (now - ms).
Proof.
  unfold Parsers.relativeToAbsolute.
  destruct durationStr as [| |x|n|s|items|props]; try discriminate.
  destruct (Parsers.parseDuration (Parsers.strip_minus s)) as [ms|] eqn:E;
    [|discriminate].
  destruct (parseDuration_not_negative _ _ E) as [k ->].
  cbn [truthy sub]. destruct (Z.eqb_spec (Z.of_N k) 0) as [H0|H0];
    cbn [negb]; [discriminate|].
  intros H; injection H as <- <-. split; [reflexivity|].
  exists (Z.of_N k). split; [lia|reflexivity].
Qed.

(** [relativeToAbsolute] on a duration text, with or without a minus sign
    before it: the range from the duration before now to now, and [null]
    when the duration is zero, as for a text that [parseDuration] does not
    take for a duration. *)
Theorem relativeToAbsolute_range (now : Z) (h m s : option N)
    (minus : bool) :
  (0 <= now < 9007199254740992)%Z ->
  (duration_ms h m s < 9007199254740992)%Z ->
  Parsers.relativeToAbsolute now
    (Str ((if minus then [c_minus] else []) ++ duration_text h m s))
  = Return (if (duration_ms h m s =? 0)%Z then None
            else Some (Int (now - duration_ms h m s), Int now))
  /\ (forall text,
        Parsers.parseDuration (Parsers.strip_minus text) = None ->
        Parsers.relativeToAbsolute now (Str text) = Return None).
Proof.
  intros _ _. split.
  - unfold Parsers.relativeToAbsolute.
    assert (E : Parsers.strip_minus
                  ((if minus then [c_minus] else []) ++ duration_text h m s)
                = duration_text h m s) by (destruct minus; reflexivity).
    rewrite E, parseDuration_text. cbn [truthy].
    destruct (duration_ms h m s =? 0)%Z; reflexivity.
  - intros text H. unfold Parsers.relativeToAbsolute. rewrite H.
    reflexivity.
Qed.

Lemma relativeToAbsolute_range_witness :
  Parsers.relativeToAbsolute 1700000000000 (Str (js "-PT3H"))
  = Return (Some (Int 1699989200000, Int 1700000000000))
  /\ Parsers.relativeToAbsolute 1700000000000 (Str (js "PT0S"))
     = Return None
  /\ Parsers.relativeToAbsolute 1700000000000 (Str (js "3 hours"))
     = Return None.
Proof.
  destruct (relativeToAbsolute_range 1700000000000 (Some 3) None None true)
    as [H1 _]; [lia|cbn; lia|].
  destruct (relativeToAbsolute_range 1700000000000 None None (Some 0) false)
    as [H2 H3]; [lia|cbn; lia|].
  split; [exact H1|]. split; [exact H2|].
  apply H3. reflexivity.
Defined.

(** ** The injector of Log Events *)

(** [injectCloudWatchLogs] always reports success.  When the fragment has
    none of the parameters the injector looks for, the fragment it assigns
    is the old one. *)
Theorem injectCloudWatchLogs_always_applies (hash : jsstring)
    (timeRange : time_range) :
  exists assigned,
    injectCloudWatchLogs hash timeRange = Return (true, Some assigned)
    /\ ((forall m, In m log_events_patterns -> search m hash = None) ->
        assigned = strip_hash hash).
Proof.
  unfold injectCloudWatchLogs. cbv zeta.
  destruct (includes hash (js "$3F") || includes hash (js "$3D"));
    cbn [try_catch]; (eexists; split; [reflexivity|]); intros Hnone;
    assert (H1 := Hnone _ (or_introl eq_refl));
    assert (H2 := Hnone _ (or_intror (or_introl eq_refl)));
    assert (H3 := Hnone _ (or_intror (or_intror (or_introl eq_refl))));
    assert (H4 := Hnone _ (or_intror (or_intror (or_intror
                             (or_introl eq_refl)))));
    assert (H5 := Hnone _ (or_intror (or_intror (or_intror (or_intror
                             (or_introl eq_refl))))));
    assert (H6 := Hnone _ (or_intror (or_intror (or_intror (or_intror
                             (or_intror (or_introl eq_refl)))))));
    unfold matches, replace; rewrite ?H1, ?H2, ?H3, ?H4, ?H5, ?H6;
    [destruct (includes hash (js "$3Fstart$3D"))|]; reflexivity.
Qed.

Lemma injectCloudWatchLogs_always_applies_witness :
  injectCloudWatchLogs (js "#logsV2:log-groups") sample_range
  = Return (true, Some (js "logsV2:log-groups")).
Proof.
  destruct (injectCloudWatchLogs_always_applies (js "#logsV2:log-groups")
              sample_range) as [assigned [H1 H2]].
  rewrite H1, H2; [reflexivity|].
  intros m Hm. cbn [log_events_patterns In] in Hm.
  repeat (destruct Hm as [<-|Hm]; [reflexivity|]). contradiction.
Defined.

(** ** The characters of an encoding *)

Lemma no_percent_app (a b : jsstring) :
  forallb no_percent (a ++ b) = forallb no_percent a && forallb no_percent b.
Proof. apply forallb_app. Qed.

Lemma no_percent_flat_map {A} (f : A -> jsstring) (l : list A) :
  (forall x, In x l -> forallb no_percent (f x) = true) ->
  forallb no_percent (flat_map f l) = true.
Proof.
  induction l as [|x l IH]; intros H; [reflexivity|].
  cbn [flat_map]. rewrite no_percent_app, (H x (or_introl eq_refl)).
  apply IH. intros y Hy. apply H. right; exact Hy.
Qed.

Lemma no_percent_join (sep : jsstring) (l : list jsstring) :
  forallb no_percent sep = true ->
  (forall x, In x l -> forallb no_percent x = true) ->
  forallb no_percent (join sep l) = true.
Proof.
  intros Hs. induction l as [|x l IH]; intros H; [reflexivity|].
  destruct l as [|y l]; [apply H; left; reflexivity|].
  change (join sep (x :: y :: l)) with (x ++ sep ++ join sep (y :: l)).
  rewrite !no_percent_app, Hs, (H x (or_introl eq_refl)).
  apply IH. intros z Hz. apply H. right; exact Hz.
Qed.

Lemma no_percent_digits (s : jsstring) :
  forallb is_digit s = true -> forallb no_percent s = true.
Proof.
  intros H. apply forallb_forall. intros c Hc.
  apply (proj1 (forallb_forall _ _) H) in Hc.
  unfold is_digit in Hc. apply andb_true_iff in Hc. destruct Hc as [H1 H2].
  apply N.leb_le in H1. apply N.leb_le in H2.
  unfold no_percent. apply negb_true_iff. apply N.eqb_neq. unfold c_pct. lia.
Qed.

Lemma no_percent_number (z : Z) : forallb no_percent (string_of_Z z) = true.
Proof.
  destruct z as [|p|p]; [reflexivity| |]; cbn [string_of_Z forallb];
    rewrite ?(no_percent_digits _ (chars_of_uint_digits _)); reflexivity.
Qed.

Lemma no_percent_string (s : jsstring) :
  forallb no_percent
    (replace_class (fun c => c =? c_pct) (fun _ => lit_pct)
       (replace_class cls_value _encode s)) = true.
Proof.
  unfold replace_class at 1. apply no_percent_flat_map. intros c _.
  destruct (N.eqb_spec c c_pct) as [->|Hc]; [reflexivity|].
  cbn [forallb]. unfold no_percent. apply N.eqb_neq in Hc. rewrite Hc.
  reflexivity.
Qed.

Lemma no_percent_key (k : jsstring) :
  forallb no_percent (replace_class cls_key _encode k) = true.
Proof.
  unfold replace_class. apply no_percent_flat_map. intros c _.
  unfold cls_key.
  destruct (N.eqb_spec c c_bang) as [->|H1]; [reflexivity|].
  destruct (N.eqb_spec c c_quote) as [->|H2]; [reflexivity|].
  destruct (N.eqb_spec c c_star) as [->|H3]; [reflexivity|].
  destruct (N.eqb_spec c c_pct) as [->|H4]; [reflexivity|].
  cbn [orb forallb]. unfold no_percent. apply N.eqb_neq in H4. rewrite H4.
  reflexivity.
Qed.

(** No encoding holds a percent sign, whatever the strings and the keys of
    the value hold. *)
Theorem stringify_no_percent (v : value) :
  forallb no_percent (stringify v) = true.
Proof.
  assert (H : forallb no_percent (_stringify v) = true).
  { induction v as [| |b|n|s|items IH|props IH] using value_ind'.
    - reflexivity.
    - reflexivity.
    - destruct b; reflexivity.
    - destruct n as [z|]; [|reflexivity].
      cbn [_stringify isFinite number_to_string forallb].
      rewrite no_percent_number. reflexivity.
    - cbn [_stringify forallb]. rewrite no_percent_string. reflexivity.
    - cbn [_stringify forallb]. rewrite no_percent_app.
      cbn [forallb]. rewrite andb_true_r. cbn [andb].
      rewrite <- flat_map_concat_map. apply no_percent_flat_map.
      intros item Hin. rewrite Forall_forall in IH. specialize (IH item Hin).
      destruct (_stringify item); [reflexivity|exact IH].
    - cbn [_stringify forallb]. rewrite no_percent_app.
      cbn [forallb]. rewrite andb_true_r. cbn [andb].
      apply no_percent_join; [reflexivity|].
      intros x Hin. apply in_flat_map in Hin. destruct Hin as [kv [Hkv Hx]].
      rewrite Forall_forall in IH. specialize (IH kv Hkv).
      destruct (_stringify (snd kv)) eqn:E; [contradiction|].
      destruct Hx as [<-|[]]. rewrite no_percent_app, no_percent_key.
      exact IH. }
  exact H.
Qed.

(** ** What stands after an encoded container, and a missing parenthesis *)

Lemma decodes_forall (items : list value) : Forall decodes items.
Proof. apply Forall_forall. intros v _. apply decodes_all. Qed.

Lemma decodes_forall_snd (props : list (jsstring * value)) :
  Forall (fun kv => decodes (snd kv)) props.
Proof. apply Forall_forall. intros kv _. apply decodes_all. Qed.

(** A container is decoded from its encoding whatever follows it. *)
Lemma decodes_container (v : value) :
  round_trip_safe v = true -> is_container v = true ->
  forall fuel str i post,
    (weight v <= fuel)%nat ->
    skipn i str = _stringify v ++ post ->
    _parse fuel str i = Return (v, (i + length (_stringify v))%nat).
Proof.
  destruct v as [| |b|n|s|items|props]; try discriminate;
    intros Hs _ fuel str i post Hf Hi.
  - (* an array *)
    pose proof (decodes_forall items) as Hitems.
    cbn [round_trip_safe] in Hs.
    destruct fuel as [|fuel]; [cbn in Hf; lia|].
    cbn [weight] in Hf. fold (weights items) in Hf.
    cbn [_stringify] in Hi |- *. rewrite (stringify_items items Hs) in Hi |- *.
    cbn [app] in Hi. rewrite <- app_assoc in Hi. cbn [app] in Hi.
    rewrite _parse_S. cbv zeta. rewrite !charAt_skipn.
    rewrite (skipn_2 _ _ _ _ _ Hi), (skipn_1 _ _ _ _ Hi), Hi.
    cbn [hd_error]. change (c_tilde =? c_tilde) with true. cbv iota.
    cbn [hd_error is_char].
    change (c_lparen =? c_lparen) with true. cbv iota.
    destruct items as [|v items].
    + cbn [map concat app hd_error is_char length].
      change (c_rparen =? c_rparen) with true. cbv iota.
      f_equal. f_equal. lia.
    + pose proof Hs as Hs'. cbn [forallb] in Hs'.
      apply andb_true_iff in Hs'. destruct Hs' as [Hs1 _].
      destruct (stringify_head v Hs1) as [r Hr].
      cbn [map concat]. rewrite Hr. cbn [app hd_error is_char].
      change (c_tilde =? c_rparen) with false.
      change (c_tilde =? c_tilde) with true. cbv iota.
      rewrite (array_loop_items (v :: items) Hitems Hs ltac:(discriminate)
                 fuel str (i + 1 + 1) [] post ltac:(lia)
                 (skipn_2 _ _ _ _ _ Hi)).
      cbn [map concat app length]. rewrite Hr. rewrite !length_app.
      cbn [length]. f_equal. f_equal. lia.
  - (* an object *)
    pose proof (decodes_forall_snd props) as Hprops.
    pose proof (set_all_props props Hs) as Hset.
    cbn [round_trip_safe] in Hs.
    apply andb_true_iff in Hs. destruct Hs as [Hs Hv].
    apply andb_true_iff in Hs. destruct Hs as [Hs Hd].
    apply andb_true_iff in Hs. destruct Hs as [Hfirst Hk].
    destruct props as [|[k v] props]; [discriminate|].
    apply andb_true_iff in Hfirst. destruct Hfirst as [Hne Hl].
    destruct fuel as [|fuel]; [cbn in Hf; lia|].
    cbn [weight] in Hf. fold (pair_weights ((k, v) :: props)) in Hf.
    cbn [_stringify] in Hi |- *.
    rewrite (stringify_pairs ((k, v) :: props) Hk Hv) in Hi |- *.
    cbn [app] in Hi. rewrite <- app_assoc in Hi. cbn [app] in Hi.
    pose proof Hk as Hk'. cbn [forallb fst] in Hk'.
    apply andb_true_iff in Hk'. destruct Hk' as [Hk1 _].
    unfold key_ok in Hk1. apply andb_true_iff in Hk1.
    destruct Hk1 as [Hplain _].
    pose proof Hv as Hv'. cbn [forallb snd] in Hv'.
    apply andb_true_iff in Hv'. destruct Hv' as [Hv1 _].
    destruct (stringify_head v Hv1) as [r Hr].
    assert (Hhead : exists c rest,
               join [c_tilde] (map pair_text ((k, v) :: props))
               ++ c_rparen :: post = c :: rest
               /\ c <> c_rparen /\ c <> c_tilde).
    { destruct (escape_spec_head k
                  (r ++ match props with
                        | [] => c_rparen :: post
                        | _ :: _ =>
                          c_tilde :: join [c_tilde] (map pair_text props)
                          ++ c_rparen :: post
                        end) Hplain)
        as [c [rest [E [_ [E1 [E2 _]]]]]].
      exists c, rest. split; [|split; [exact E1|]].
      - rewrite <- E. destruct props as [|kv2 props].
        + cbn [map join]. unfold pair_text. cbn [fst snd]. rewrite Hr.
          rewrite <- !app_assoc. reflexivity.
        + change (map pair_text ((k, v) :: kv2 :: props))
            with (pair_text (k, v) :: map pair_text (kv2 :: props)).
          rewrite (join_cons [c_tilde] (pair_text (k, v))
                     (map pair_text (kv2 :: props))) by discriminate.
          unfold pair_text at 1. cbn [fst snd]. rewrite Hr.
          rewrite <- !app_assoc. reflexivity.
      - apply E2. destruct k; [discriminate|discriminate]. }
    destruct Hhead as [c [rest [Hc [Hc1 Hc2]]]].
    rewrite _parse_S. cbv zeta. rewrite !charAt_skipn.
    rewrite (skipn_2 _ _ _ _ _ Hi), (skipn_1 _ _ _ _ Hi), Hi.
    cbn [hd_error]. change (c_tilde =? c_tilde) with true. cbv iota.
    cbn [hd_error is_char].
    change (c_lparen =? c_lparen) with true. cbv iota.
    rewrite Hc. cbn [hd_error is_char].
    apply N.eqb_neq in Hc1, Hc2. rewrite Hc1, Hc2.
    rewrite (object_loop_props ((k, v) :: props) Hprops Hk Hl Hv
               ltac:(discriminate) fuel str (i + 1 + 1) [] post ltac:(lia)
               (skipn_2 _ _ _ _ _ Hi)).
    rewrite Hset. cbn [length]. rewrite !length_app. cbn [length].
    f_equal. f_equal. lia.
Qed.

Lemma parse_container_tail (v : value) (tail : jsstring) (fuel : nat) :
  round_trip_safe v = true ->
  (weight v <= fuel)%nat ->
  is_container v = true ->
  parse fuel (stringify v ++ tail) = Return v.
Proof.
  intros Hs Hf Hc.
  destruct (stringify_head v Hs) as [r Hr].
  pose proof (decodes_container v Hs Hc fuel (stringify v ++ tail) O tail Hf
                eq_refl) as H.
  unfold parse, stringify in *. rewrite Hr in *. cbn [app] in *.
  rewrite H. reflexivity.
Qed.

(** The decoder stops at the end of the first value: what follows the
    closing parenthesis of an array or of a map is not read, and a text
    that follows another value is not read when it begins with a tilde or
    a closing parenthesis. *)
Theorem parse_ignores_tail (v : value) (tail : jsstring) (fuel : nat) :
  round_trip_safe v = true ->
  (weight v <= fuel)%nat ->
  is_container v = true \/ value_end tail ->
  parse fuel (stringify v ++ tail) = Return v.
Proof.
  intros Hs Hf [Hc|He]; [apply parse_container_tail; assumption|].
  destruct (stringify_head v Hs) as [r Hr].
  pose proof (decodes_all v Hs fuel (stringify v ++ tail) O tail Hf
                eq_refl He) as H.
  unfold parse, stringify in *. rewrite Hr in *. cbn [app] in *.
  rewrite H. reflexivity.
Qed.

Lemma parse_ignores_tail_witness :
  parse 9 (js "~(timeRange~43200000)&tab=alarms")
  = Return (Obj [(js "timeRange", Num (Int 43200000))]).
Proof.
  apply (parse_ignores_tail (Obj [(js "timeRange", Num (Int 43200000))])
           (js "&tab=alarms") 9).
  - reflexivity.
  - cbn. lia.
  - left; reflexivity.
Defined.

Lemma skipn_nil_out (str : jsstring) (j : nat) :
  skipn j str = [] -> (j <? length str)%nat = false.
Proof.
  intros H. apply Nat.ltb_ge. rewrite <- (firstn_skipn j str) at 1.
  rewrite H, app_nil_r. apply firstn_le_length.
Qed.

(** The loop of the array branch on the items of an array that the text
    ends after. *)
Lemma array_loop_items_open (items : list value) :
  Forall decodes items ->
  forallb round_trip_safe items = true ->
  items <> [] ->
  forall fuel str i acc,
    (weights items <= fuel)%nat ->
    skipn i str = concat (map _stringify items) ->
    array_loop fuel str i acc
    = Return (Arr (acc ++ items),
            (i + length (concat (map _stringify items)) + 1)%nat).
Proof.
  induction 1 as [|v items Hv Hitems IH]; intros Hs Hne fuel str i acc Hf Hi;
    [contradiction|].
  cbn [forallb] in Hs. apply andb_true_iff in Hs. destruct Hs as [Hs1 Hs].
  cbn [weights fold_right] in Hf. fold (weights items) in Hf.
  destruct fuel as [|fuel]; [lia|].
  rewrite array_loop_S.
  cbn [map concat] in Hi |- *.
  assert (Hend : value_end (concat (map _stringify items))).
  { destruct items as [|v' items]; [exact I|].
    cbn [forallb] in Hs. apply andb_true_iff in Hs. destruct Hs as [Hs2 _].
    destruct (stringify_head v' Hs2) as [r Hr].
    cbn [map concat]. rewrite Hr. left; reflexivity. }
  rewrite (Hv Hs1 fuel str i _ ltac:(lia) Hi Hend).
  pose proof (skipn_past _ _ _ _ Hi) as Hj.
  rewrite charAt_skipn, Hj. rewrite length_app.
  destruct items as [|v' items].
  - cbn [map concat hd_error is_char length negb andb] in Hj |- *.
    rewrite (skipn_nil_out _ _ Hj). rewrite Nat.add_0_r. reflexivity.
  - cbn [forallb] in Hs. pose proof Hs as Hs'.
    apply andb_true_iff in Hs'. destruct Hs' as [Hs2 _].
    destruct (stringify_head v' Hs2) as [r Hr].
    cbn [map concat] in Hj |- *. rewrite Hr in Hj |- *.
    cbn [app hd_error is_char]. change (c_tilde =? c_rparen) with false.
    cbn [negb andb]. rewrite (skipn_in_range _ _ _ _ Hj).
    rewrite <- Hr in Hj.
    destruct (stringify_head v Hs1) as [rv Hrv].
    rewrite (cursor_moved i _ _ _ Hrv).
    rewrite (IH Hs ltac:(discriminate) fuel str _ (acc ++ [v])
               ltac:(lia));
      [|cbn [map concat]; exact Hj].
    rewrite <- app_assoc. cbn [map concat]. rewrite Hr.
    cbn [app length]. rewrite <- !Nat.add_assoc. reflexivity.
Qed.

(** The loop of the object branch on the entries of a map that the text
    ends after. *)
Lemma object_loop_props_open (props : list (jsstring * value)) :
  Forall (fun kv => decodes (snd kv)) props ->
  forallb (fun kv => key_ok (fst kv)) props = true ->
  forallb (fun kv => later_key_ok (fst kv)) (tl props) = true ->
  forallb (fun kv => round_trip_safe (snd kv)) props = true ->
  props <> [] ->
  forall fuel str i obj,
    (pair_weights props <= fuel)%nat ->
    skipn i str = join [c_tilde] (map pair_text props) ->
    object_loop fuel str i obj
    = Return (Obj (set_all obj props),
            (i + length (join [c_tilde] (map pair_text props)) + 1)%nat).
Proof.
  induction 1 as [|[k v] props Hv Hprops IH];
    intros Hk Hl Hs Hne fuel str i obj Hf Hi; [contradiction|].
  cbn [forallb fst snd tl] in Hk, Hl, Hs, Hv.
  apply andb_true_iff in Hk. destruct Hk as [Hk1 Hk].
  apply andb_true_iff in Hs. destruct Hs as [Hs1 Hs].
  pose proof Hk1 as Hplain. unfold key_ok in Hplain.
  apply andb_true_iff in Hplain. destruct Hplain as [Hplain _].
  cbn [pair_weights fold_right snd] in Hf. fold (pair_weights props) in Hf.
  destruct fuel as [|fuel]; [lia|].
  rewrite object_loop_S.
  destruct (stringify_head v Hs1) as [r Hr].
  set (tail := match props with
               | [] => []
               | _ :: _ => c_tilde :: join [c_tilde] (map pair_text props)
               end).
  assert (Hi' : skipn i str = flat_map escape_spec k ++ _stringify v ++ tail).
  { rewrite Hi. subst tail. destruct props as [|kv props].
    - cbn [map join]. unfold pair_text. cbn [fst snd].
      rewrite app_nil_r. reflexivity.
    - change (map pair_text ((k, v) :: kv :: props))
        with (pair_text (k, v) :: map pair_text (kv :: props)).
      rewrite (join_cons [c_tilde] (pair_text (k, v))
                 (map pair_text (kv :: props))) by discriminate.
      unfold pair_text at 1. cbn [fst snd].
      rewrite <- !app_assoc. reflexivity. }
  assert (Hlen : (length k <= length str - i)%nat).
  { rewrite <- length_skipn, Hi', length_app.
    pose proof (escape_spec_length k). lia. }
  rewrite Hr in Hi'.
  rewrite (parse_key_body k Hplain (length str - i) str i [] _ Hi' Hlen).
  cbn [app]. rewrite <- Hr in Hi'.
  pose proof (skipn_past _ _ _ _ Hi') as Hv'.
  assert (Hend : value_end tail).
  { subst tail. destruct props; [exact I|left; reflexivity]. }
  rewrite (Hv Hs1 fuel str _ tail ltac:(lia) Hv' Hend).
  pose proof (skipn_past _ _ _ _ Hv') as Hj.
  cbv zeta. rewrite !charAt_skipn, Hj.
  subst tail. destruct props as [|[k' v'] props].
  - (* the last entry *)
    cbn [hd_error is_char andb]. cbv iota. rewrite Hj.
    cbn [hd_error is_char negb andb].
    rewrite (skipn_nil_out _ _ Hj).
    unfold set_all. cbn [fold_left fst snd map join].
    unfold pair_text. cbn [fst snd]. rewrite length_app.
    f_equal. f_equal. lia.
  - (* a separator and a further entry *)
    cbn [forallb fst] in Hl, Hk.
    pose proof Hl as Hl'. apply andb_true_iff in Hl'. destruct Hl' as [Hl1 Hl2].
    pose proof Hk as Hk'. apply andb_true_iff in Hk'. destruct Hk' as [Hk2 _].
    unfold key_ok in Hk2. apply andb_true_iff in Hk2. destruct Hk2 as [Hp2 _].
    pose proof Hs as Hs'. cbn [forallb snd] in Hs'.
    apply andb_true_iff in Hs'. destruct Hs' as [Hs2 _].
    destruct (stringify_head v' Hs2) as [r' Hr'].
    pose proof (skipn_1 _ _ _ _ Hj) as Hj1.
    assert (Hnext : exists c rest,
               skipn (i + length (flat_map escape_spec k)
                      + length (_stringify v) + 1) str = c :: rest
               /\ c <> c_rparen /\ starts_value (Some c) = false).
    { destruct (escape_spec_head k'
                  (r' ++ match props with
                         | [] => []
                         | _ :: _ =>
                           c_tilde :: join [c_tilde] (map pair_text props)
                         end) Hp2)
        as [c [rest [E [_ [E1 [_ E2]]]]]].
      destruct props as [|kv2 props].
      - destruct (escape_spec_head k' (r' ++ [c_tilde]) Hp2)
          as [c0 [rest0 [E0 [_ [F1 [_ F2]]]]]].
        rewrite Hj1. cbn [map join]. unfold pair_text. cbn [fst snd].
        rewrite Hr'.
        destruct k' as [|a k'].
        + cbn [flat_map app]. exists c_tilde, r'.
          split; [reflexivity|]. split; [discriminate|].
          cbn [flat_map app] in E0. injection E0 as <- _. exact (F2 Hl1).
        + exists c0. cbn [flat_map] in E0 |- *.
          destruct (escape_spec a) as [|x xs] eqn:Ea.
          * unfold escape_spec in Ea.
            destruct (a =? c_quote); [discriminate|].
            destruct (a =? c_star); [discriminate|].
            destruct (a =? c_pct); discriminate.
          * cbn [app] in E0 |- *. injection E0 as <- _.
            eexists. split; [reflexivity|].
            split; [exact F1|exact (F2 Hl1)].
      - exists c, rest. split; [|split; [exact E1|exact (E2 Hl1)]].
        rewrite Hj1, <- E.
        change (map pair_text ((k', v') :: kv2 :: props))
          with (pair_text (k', v') :: map pair_text (kv2 :: props)).
        rewrite (join_cons [c_tilde] (pair_text (k', v'))
                   (map pair_text (kv2 :: props))) by discriminate.
        unfold pair_text at 1. cbn [fst snd]. rewrite Hr'.
        rewrite <- !app_assoc. reflexivity. }
    destruct Hnext as [c [rest [Hn [Hc1 Hc2]]]].
    cbn [hd_error is_char]. rewrite N.eqb_refl.
    rewrite Hn. cbn [hd_error]. rewrite Hc2. cbn [negb andb]. cbv iota.
    rewrite Hn. cbn [hd_error is_char].
    apply N.eqb_neq in Hc1. rewrite Hc1. cbn [negb andb].
    rewrite (skipn_in_range _ _ _ _ Hn).
    rewrite (IH Hk Hl2 Hs ltac:(discriminate) fuel str _ (obj_set obj k v)
               ltac:(lia) Hj1).
    unfold set_all. cbn [fold_left fst snd].
    change (map pair_text ((k, v) :: (k', v') :: props))
      with (pair_text (k, v) :: map pair_text ((k', v') :: props)).
    rewrite (join_cons [c_tilde] (pair_text (k, v))
               (map pair_text ((k', v') :: props))) by discriminate.
    change (pair_text (k, v)) with (flat_map escape_spec k ++ _stringify v).
    rewrite !length_app. cbn [length]. f_equal. f_equal. lia.
Qed.

(** A container whose last character, the closing parenthesis, is missing
    is decoded like the whole. *)
Lemma decodes_open (v : value) :
  round_trip_safe v = true -> is_container v = true -> v <> Arr [] ->
  forall fuel str i,
    (weight v <= fuel)%nat ->
    skipn i str = removelast (_stringify v) ->
    _parse fuel str i = Return (v, (i + length (_stringify v))%nat).
Proof.
  destruct v as [| |b|n|s|items|props]; try discriminate;
    intros Hs _ Hne fuel str i Hf Hi.
  - (* an array *)
    pose proof (decodes_forall items) as Hitems.
    cbn [round_trip_safe] in Hs.
    destruct fuel as [|fuel]; [cbn in Hf; lia|].
    cbn [weight] in Hf. fold (weights items) in Hf.
    cbn [_stringify] in Hi |- *. rewrite (stringify_items items Hs) in Hi |- *.
    change (c_tilde :: c_lparen :: concat (map _stringify items) ++ [c_rparen])
      with ((c_tilde :: c_lparen :: concat (map _stringify items))
            ++ [c_rparen]) in Hi.
    rewrite removelast_last in Hi.
    rewrite _parse_S. cbv zeta. rewrite !charAt_skipn.
    rewrite (skipn_2 _ _ _ _ _ Hi), (skipn_1 _ _ _ _ Hi), Hi.
    cbn [hd_error]. change (c_tilde =? c_tilde) with true. cbv iota.
    cbn [hd_error is_char].
    change (c_lparen =? c_lparen) with true. cbv iota.
    destruct items as [|v items]; [contradiction Hne; reflexivity|].
    pose proof Hs as Hs'. cbn [forallb] in Hs'.
    apply andb_true_iff in Hs'. destruct Hs' as [Hs1 _].
    destruct (stringify_head v Hs1) as [r Hr].
    cbn [map concat]. rewrite Hr. cbn [app hd_error is_char].
    change (c_tilde =? c_rparen) with false.
    change (c_tilde =? c_tilde) with true. cbv iota.
    rewrite (array_loop_items_open (v :: items) Hitems Hs ltac:(discriminate)
               fuel str (i + 1 + 1) [] ltac:(lia)
               (skipn_2 _ _ _ _ _ Hi)).
    cbn [map concat app length]. rewrite Hr. rewrite !length_app.
    cbn [length]. f_equal. f_equal. lia.
  - (* an object *)
    pose proof (decodes_forall_snd props) as Hprops.
    pose proof (set_all_props props Hs) as Hset.
    cbn [round_trip_safe] in Hs.
    apply andb_true_iff in Hs. destruct Hs as [Hs Hv].
    apply andb_true_iff in Hs. destruct Hs as [Hs Hd].
    apply andb_true_iff in Hs. destruct Hs as [Hfirst Hk].
    destruct props as [|[k v] props]; [discriminate|].
    apply andb_true_iff in Hfirst. destruct Hfirst as [Hne' Hl].
    destruct fuel as [|fuel]; [cbn in Hf; lia|].
    cbn [weight] in Hf. fold (pair_weights ((k, v) :: props)) in Hf.
    cbn [_stringify] in Hi |- *.
    rewrite (stringify_pairs ((k, v) :: props) Hk Hv) in Hi |- *.
    change (c_tilde :: c_lparen
            :: join [c_tilde] (map pair_text ((k, v) :: props)) ++ [c_rparen])
      with ((c_tilde :: c_lparen
             :: join [c_tilde] (map pair_text ((k, v) :: props)))
            ++ [c_rparen]) in Hi.
    rewrite removelast_last in Hi.
    pose proof Hk as Hk'. cbn [forallb fst] in Hk'.
    apply andb_true_iff in Hk'. destruct Hk' as [Hk1 _].
    unfold key_ok in Hk1. apply andb_true_iff in Hk1.
    destruct Hk1 as [Hplain _].
    pose proof Hv as Hv'. cbn [forallb snd] in Hv'.
    apply andb_true_iff in Hv'. destruct Hv' as [Hv1 _].
    destruct (stringify_head v Hv1) as [r Hr].
    assert (Hhead : exists c rest,
               join [c_tilde] (map pair_text ((k, v) :: props)) = c :: rest
               /\ c <> c_rparen /\ c <> c_tilde).
    { destruct k as [|a k]; [discriminate|].
      destruct (escape_spec_head (a :: k) [] Hplain)
        as [c [rest [E [_ [E1 [E2 _]]]]]].
      exists c.
      assert (Hj : exists more,
                 join [c_tilde] (map pair_text ((a :: k, v) :: props))
                 = flat_map escape_spec (a :: k) ++ c_tilde :: more).
      { destruct props as [|kv2 props].
        - cbn [map join]. unfold pair_text. cbn [fst snd]. rewrite Hr.
          eexists; reflexivity.
        - change (map pair_text ((a :: k, v) :: kv2 :: props))
            with (pair_text (a :: k, v) :: map pair_text (kv2 :: props)).
          rewrite (join_cons [c_tilde] (pair_text (a :: k, v))
                     (map pair_text (kv2 :: props))) by discriminate.
          unfold pair_text at 1. cbn [fst snd]. rewrite Hr.
          rewrite <- !app_assoc. eexists; reflexivity. }
      destruct Hj as [more Hm].
      cbn [flat_map] in E, Hm.
      destruct (escape_spec a) as [|x xs] eqn:Ea.
      - unfold escape_spec in Ea.
        destruct (a =? c_quote); [discriminate|].
        destruct (a =? c_star); [discriminate|].
        destruct (a =? c_pct); discriminate.
      - cbn [app] in E, Hm. injection E as <- _.
        eexists. split; [exact Hm|].
        split; [exact E1|apply E2; discriminate]. }
    destruct Hhead as [c [rest [Hc [Hc1 Hc2]]]].
    rewrite _parse_S. cbv zeta. rewrite !charAt_skipn.
    rewrite (skipn_2 _ _ _ _ _ Hi), (skipn_1 _ _ _ _ Hi), Hi.
    cbn [hd_error]. change (c_tilde =? c_tilde) with true. cbv iota.
    cbn [hd_error is_char].
    change (c_lparen =? c_lparen) with true. cbv iota.
    rewrite Hc. cbn [hd_error is_char].
    apply N.eqb_neq in Hc1, Hc2. rewrite Hc1, Hc2.
    rewrite <- Hc.
    rewrite (object_loop_props_open ((k, v) :: props) Hprops Hk Hl Hv
               ltac:(discriminate) fuel str (i + 1 + 1) [] ltac:(lia)
               (skipn_2 _ _ _ _ _ Hi)).
    rewrite Hset. cbn [length]. rewrite !length_app. cbn [length].
    f_equal. f_equal. lia.
Qed.

Lemma parse_open (v : value) (fuel : nat) :
  round_trip_safe v = true ->
  (weight v <= fuel)%nat ->
  is_container v = true ->
  v <> Arr [] ->
  parse fuel (removelast (stringify v)) = Return v.
Proof.
  intros Hs Hf Hc Hne.
  pose proof (decodes_open v Hs Hc Hne fuel (removelast (stringify v)) O Hf
                eq_refl) as H.
  unfold parse.
  destruct (removelast (stringify v)) as [|c r] eqn:E.
  - exfalso. destruct v as [| |b|n|s|items|props]; discriminate.
  - rewrite H. reflexivity.
Qed.

(** The decoder does not ask for the closing parenthesis at the end of
    the text: without it, an array that is not empty and a map are decoded
    like the whole encoding. *)
Theorem parse_without_last_parenthesis (v : value) (fuel : nat) :
  round_trip_safe v = true ->
  (weight v <= fuel)%nat ->
  is_container v = true ->
  v <> Arr [] ->
  parse fuel (removelast (stringify v)) = Return v.
Proof. apply parse_open. Qed.

Lemma parse_without_last_parenthesis_witness :
  parse 9 (js "~(timeRange~181440000")
  = Return (Obj [(js "timeRange", Num (Int 181440000))]).
Proof.
  apply (parse_without_last_parenthesis
           (Obj [(js "timeRange", Num (Int 181440000))]) 9).
  - reflexivity.
  - cbn. lia.
  - reflexivity.
  - discriminate.
Defined.

(** ** Maps: assignments, and decoding with keys that begin like a word *)

Lemma forallb_weaken {A} (P Q : A -> bool) (l : list A) :
  (forall x, P x = true -> Q x = true) ->
  forallb P l = true -> forallb Q l = true.
Proof.
  intros H Hl. apply forallb_forall. intros x Hx. apply H.
  apply (proj1 (forallb_forall _ _) Hl), Hx.
Qed.

Lemma tryParse_returned (fuel : nat) (t : jsstring) (v : value) :
  parse fuel t = Return v -> truthy v = true ->
  tryParse fuel t Null = Return v.
Proof.
  intros H Ht. unfold tryParse. rewrite H. cbn [bind try_catch].
  unfold or_else. rewrite Ht. reflexivity.
Qed.

(** *** Assignments to a map *)

Lemma obj_set_cases (props : list (jsstring * value)) (k : jsstring)
    (v : value) :
  str_eqb k proto_key = false -> array_index k = None ->
  obj_set props k v
  = if has_key props k then update props k v else props ++ [(k, v)].
Proof. intros Hp Hi. unfold obj_set. rewrite Hp, Hi. reflexivity. Qed.

Lemma update_keys (props : list (jsstring * value)) (k : jsstring)
    (v : value) :
  map fst (update props k v) = map fst props.
Proof.
  induction props as [|[k' v'] props IH]; [reflexivity|].
  cbn [update]. destruct (str_eqb k' k); cbn [map fst]; [reflexivity|].
  rewrite IH. reflexivity.
Qed.

Lemma update_values (P : value -> bool) (props : list (jsstring * value))
    (k : jsstring) (v : value) :
  forallb (fun kv => P (snd kv)) props = true -> P v = true ->
  forallb (fun kv => P (snd kv)) (update props k v) = true.
Proof.
  intros H Hv. induction props as [|[k' v'] props IH]; [reflexivity|].
  cbn [forallb snd] in H. apply andb_true_iff in H. destruct H as [H1 H2].
  cbn [update]. destruct (str_eqb k' k); cbn [forallb snd].
  - rewrite Hv, H2. reflexivity.
  - rewrite H1, (IH H2). reflexivity.
Qed.

Lemma lookup_update (props : list (jsstring * value)) (k k' : jsstring)
    (v : value) :
  lookup (update props k v) k'
  = if str_eqb k k' && has_key props k then v else lookup props k'.
Proof.
  induction props as [|[k0 v0] props IH].
  - rewrite andb_false_r. reflexivity.
  - cbn [update has_key]. destruct (str_eqb k0 k) eqn:E.
    + apply str_eqb_eq in E. subst k0. cbn [lookup orb].
      rewrite andb_true_r. destruct (str_eqb k k'); reflexivity.
    + cbn [lookup orb]. rewrite IH.
      destruct (str_eqb k k') eqn:E'; [|reflexivity].
      apply str_eqb_eq in E'. subst k'. rewrite E. reflexivity.
Qed.

Lemma lookup_app (a b : list (jsstring * value)) (k : jsstring) :
  lookup (a ++ b) k = if has_key a k then lookup a k else lookup b k.
Proof.
  induction a as [|[k0 v0] a IH]; [reflexivity|].
  cbn [app lookup has_key]. destruct (str_eqb k0 k); [reflexivity|].
  exact IH.
Qed.

Lemma lookup_obj_set (props : list (jsstring * value)) (k k' : jsstring)
    (v : value) :
  str_eqb k proto_key = false -> array_index k = None ->
  lookup (obj_set props k v) k'
  = if str_eqb k k' then v else lookup props k'.
Proof.
  intros Hp Hi. rewrite (obj_set_cases props k v Hp Hi).
  destruct (has_key props k) eqn:Hk.
  - rewrite lookup_update, Hk, andb_true_r. reflexivity.
  - rewrite lookup_app. cbn [lookup].
    destruct (str_eqb k k') eqn:E.
    + apply str_eqb_eq in E. subst k'. rewrite Hk. reflexivity.
    + destruct (has_key props k') eqn:Hk'; [reflexivity|].
      clear -Hk'. induction props as [|[k0 v0] props IH]; [reflexivity|].
      cbn [has_key] in Hk'. apply orb_false_iff in Hk'.
      destruct Hk' as [H1 H2]. cbn [lookup]. rewrite H1. apply IH, H2.
Qed.


Lemma distinct_snoc (ks : list jsstring) (k : jsstring) :
  distinct ks = true -> existsb (str_eqb k) ks = false ->
  distinct (ks ++ [k]) = true.
Proof.
  induction ks as [|k0 ks IH]; [reflexivity|].
  cbn [distinct existsb app]. intros H Hk.
  apply andb_true_iff in H. destruct H as [H1 H2].
  apply orb_false_iff in Hk. destruct Hk as [Hk1 Hk2].
  rewrite (IH H2 Hk2), andb_true_r.
  rewrite existsb_app. cbn [existsb]. rewrite orb_false_r.
  apply negb_true_iff in H1. rewrite H1, str_eqb_sym, Hk1. reflexivity.
Qed.



Lemma weight_positive (v : value) : (1 <= weight v)%nat.
Proof. destruct v; cbn [weight]; lia. Qed.

Lemma weight_update (props : list (jsstring * value)) (k : jsstring)
    (v : value) :
  (fold_right (fun kv n => S (weight (snd kv) + n)) O (update props k v) + 1
   <= fold_right (fun kv n => S (weight (snd kv) + n)) O props + weight v)%nat.
Proof.
  induction props as [|[k0 v0] props IH].
  - pose proof (weight_positive v). cbn [update fold_right]. lia.
  - cbn [update]. destruct (str_eqb k0 k); cbn [fold_right snd].
    + pose proof (weight_positive v0). lia.
    + lia.
Qed.

Lemma weight_snoc (props : list (jsstring * value)) (k : jsstring)
    (v : value) :
  fold_right (fun kv n => S (weight (snd kv) + n)) O (props ++ [(k, v)])
  = (fold_right (fun kv n => S (weight (snd kv) + n)) O props
     + S (weight v))%nat.
Proof.
  induction props as [|[k0 v0] props IH].
  - cbn [app fold_right snd]. lia.
  - cbn [app fold_right snd]. rewrite IH. lia.
Qed.

(** An assignment adds at most the weight of the value and one to the
    weight of a map. *)
Lemma weight_obj_set (props : list (jsstring * value)) (k : jsstring)
    (v : value) :
  str_eqb k proto_key = false -> array_index k = None ->
  (weight (Obj (obj_set props k v)) <= weight (Obj props) + weight v + 1)%nat.
Proof.
  intros Hp Hi. rewrite (obj_set_cases props k v Hp Hi).
  cbn [weight].
  destruct (has_key props k).
  - pose proof (weight_update props k v). lia.
  - rewrite (weight_snoc props k v). lia.
Qed.

(** *** Keys that begin like a word *)

Lemma encoded_second (rest more : jsstring) (x : char) :
  x <> c_tilde -> x <> c_bang -> x <> c_star ->
  match rest with d :: _ => negb (d =? x) | [] => true end = true ->
  exists h t,
    flat_map escape_spec rest ++ c_tilde :: more = h :: t
    /\ (h =? x) = false.
Proof.
  intros H1 H2 H3 H. destruct rest as [|d rest].
  - exists c_tilde, more. split; [reflexivity|].
    apply N.eqb_neq. intros E. apply H1. symmetry. exact E.
  - cbn [flat_map]. unfold escape_spec.
    destruct (d =? c_quote).
    + eexists. eexists. split; [reflexivity|]. apply N.eqb_neq.
      intros E. apply H2. symmetry. exact E.
    + destruct (d =? c_star).
      * eexists. eexists. split; [reflexivity|]. apply N.eqb_neq.
        intros E. apply H3. symmetry. exact E.
      * destruct (d =? c_pct).
        -- eexists. eexists. split; [reflexivity|]. apply N.eqb_neq.
           intros E. apply H3. symmetry. exact E.
        -- eexists. eexists. split; [reflexivity|].
           apply negb_true_iff. exact H.
Qed.

Lemma str_eqb_second (a h x y : char) (s w : jsstring) :
  (h =? y) = false -> str_eqb (a :: h :: s) (x :: y :: w) = false.
Proof. intros H. cbn [str_eqb]. rewrite H. apply andb_false_r. Qed.

Lemma parse_word (k more str : jsstring) (i fuel : nat) :
  word_like k = true ->
  skipn i str = c_tilde :: flat_map escape_spec k ++ c_tilde :: more ->
  _parse (S fuel) str i = Return (Undefined, (i + 1)%nat).
Proof.
  intros Hw Hi. destruct k as [|c rest]; [discriminate|].
  cbn [word_like] in Hw. cbv zeta in Hw.
  rewrite _parse_S, charAt_skipn, Hi. cbn [hd_error].
  change (c_tilde =? c_tilde) with true. cbv iota zeta.
  rewrite charAt_skipn, !substring_skipn, (skipn_1 _ _ _ _ Hi).
  cbn [flat_map].
  apply orb_true_iff in Hw. destruct Hw as [Hw|Hw];
    [apply orb_true_iff in Hw; destruct Hw as [Hw|Hw]|];
    apply andb_true_iff in Hw; destruct Hw as [Hc Hd];
    apply N.eqb_eq in Hc; subst c.
  - destruct (encoded_second rest more 117 ltac:(discriminate)
                ltac:(discriminate) ltac:(discriminate) Hd)
      as [h [t [E Hh]]].
    change (escape_spec c_n) with [c_n]. cbn [app]. rewrite E.
    change (firstn 4 (c_n :: h :: t)) with (c_n :: h :: firstn 2 t).
    change word_null with (110 :: 117 :: [108; 108]).
    rewrite (str_eqb_second c_n h 110 117 _ _ Hh). reflexivity.
  - destruct (encoded_second rest more 114 ltac:(discriminate)
                ltac:(discriminate) ltac:(discriminate) Hd)
      as [h [t [E Hh]]].
    change (escape_spec c_t) with [c_t]. cbn [app]. rewrite E.
    change (firstn 4 (c_t :: h :: t)) with (c_t :: h :: firstn 2 t).
    change lit_true with (116 :: 114 :: [117; 101]).
    rewrite (str_eqb_second c_t h 116 114 _ _ Hh). reflexivity.
  - destruct (encoded_second rest more 97 ltac:(discriminate)
                ltac:(discriminate) ltac:(discriminate) Hd)
      as [h [t [E Hh]]].
    change (escape_spec c_f) with [c_f]. cbn [app]. rewrite E.
    change (firstn 5 (c_f :: h :: t)) with (c_f :: h :: firstn 3 t).
    change lit_false with (102 :: 97 :: [108; 115; 101]).
    rewrite (str_eqb_second c_f h 102 97 _ _ Hh). reflexivity.
Qed.

Lemma parse_key_stop (n : nat) (str r : jsstring) (i : nat) :
  skipn i str = c_tilde :: r -> parse_key n str i [] = ([], i).
Proof.
  intros H. destruct n; [reflexivity|].
  cbn [parse_key]. rewrite charAt_skipn, H. reflexivity.
Qed.

Lemma word_like_head (k post : jsstring) :
  word_like k = true ->
  exists c r,
    flat_map escape_spec k ++ post = c :: r
    /\ starts_value (Some c) = true
    /\ (c =? c_tilde) = false /\ (c =? c_rparen) = false.
Proof.
  destruct k as [|c rest]; [discriminate|]. cbn [word_like]. cbv zeta.
  intros Hw.
  assert (Hc : c = c_n \/ c = c_t \/ c = c_f).
  { apply orb_true_iff in Hw. destruct Hw as [Hw|Hw];
      [apply orb_true_iff in Hw; destruct Hw as [Hw|Hw]|];
      apply andb_true_iff in Hw; destruct Hw as [Hc _];
      apply N.eqb_eq in Hc; auto. }
  exists c, (flat_map escape_spec rest ++ post).
  destruct Hc as [->|[->| ->]]; repeat split; reflexivity.
Qed.

(** *** The object loop on such keys *)

Lemma pair_texts_cons (kv kv' : jsstring * value)
    (props : list (jsstring * value)) (post : jsstring) :
  join [c_tilde] (map pair_text (kv :: kv' :: props)) ++ post
  = flat_map escape_spec (fst kv) ++ _stringify (snd kv)
    ++ c_tilde :: join [c_tilde] (map pair_text (kv' :: props)) ++ post.
Proof.
  change (map pair_text (kv :: kv' :: props))
    with (pair_text kv :: map pair_text (kv' :: props)).
  rewrite (join_cons [c_tilde] (pair_text kv) (map pair_text (kv' :: props)))
    by discriminate.
  unfold pair_text at 1. rewrite <- !app_assoc. reflexivity.
Qed.

Lemma pair_texts_head (kv : jsstring * value)
    (props : list (jsstring * value)) (post : jsstring) :
  exists more,
    join [c_tilde] (map pair_text (kv :: props)) ++ post
    = flat_map escape_spec (fst kv) ++ _stringify (snd kv) ++ more.
Proof.
  destruct props as [|kv' props].
  - exists post. cbn [map join]. unfold pair_text. rewrite <- app_assoc.
    reflexivity.
  - eexists. apply pair_texts_cons.
Qed.

Lemma object_loop_loose (props : list (jsstring * value)) :
  Forall (fun kv => decodes (snd kv)) props ->
  forallb (fun kv => key_ok (fst kv)) props = true ->
  forallb (fun kv => later_key_ok (fst kv) || word_like (fst kv)) (tl props)
  = true ->
  forallb (fun kv => round_trip_safe (snd kv)) props = true ->
  props <> [] ->
  forall fuel str i obj post,
    (2 * pair_weights props <= fuel)%nat ->
    skipn i str = join [c_tilde] (map pair_text props) ++ c_rparen :: post ->
    object_loop fuel str i obj
    = Return (Obj (loose_from obj props),
            (i + length (join [c_tilde] (map pair_text props)) + 1)%nat).
Proof.
  induction 1 as [|[k v] props Hv Hprops IH];
    intros Hk Hl Hs Hne fuel str i obj post Hf Hi; [contradiction|].
  cbn [forallb fst snd tl] in Hk, Hl, Hs, Hv.
  apply andb_true_iff in Hk. destruct Hk as [Hk1 Hk].
  apply andb_true_iff in Hs. destruct Hs as [Hs1 Hs].
  pose proof Hk1 as Hplain. unfold key_ok in Hplain.
  apply andb_true_iff in Hplain. destruct Hplain as [Hplain _].
  cbn [pair_weights fold_right snd] in Hf. fold (pair_weights props) in Hf.
  destruct fuel as [|fuel]; [lia|].
  rewrite object_loop_S.
  destruct (stringify_head v Hs1) as [r Hr].
  set (tail := match props with
               | [] => c_rparen :: post
               | _ :: _ =>
                 c_tilde :: join [c_tilde] (map pair_text props)
                 ++ c_rparen :: post
               end).
  assert (Hi' : skipn i str = flat_map escape_spec k ++ _stringify v ++ tail).
  { rewrite Hi. subst tail. destruct props as [|kv props].
    - cbn [map join]. unfold pair_text. cbn [fst snd].
      rewrite <- app_assoc. reflexivity.
    - apply (pair_texts_cons (k, v) kv props). }
  assert (Hlen : (length k <= length str - i)%nat).
  { rewrite <- length_skipn, Hi', length_app.
    pose proof (escape_spec_length k). lia. }
  rewrite Hr in Hi'.
  rewrite (parse_key_body k Hplain (length str - i) str i [] _ Hi' Hlen).
  cbn [app]. rewrite <- Hr in Hi'.
  pose proof (skipn_past _ _ _ _ Hi') as Hv'.
  assert (Hend : value_end tail).
  { subst tail. destruct props; [right|left]; reflexivity. }
  rewrite (Hv Hs1 fuel str _ tail ltac:(lia) Hv' Hend).
  pose proof (skipn_past _ _ _ _ Hv') as Hj.
  cbv zeta. rewrite !charAt_skipn, Hj.
  subst tail. destruct props as [|[k' v'] props].
  - (* the last entry *)
    cbn [hd_error is_char]. change (c_rparen =? c_tilde) with false.
    cbn [andb]. cbv iota. rewrite Hj. cbn [hd_error is_char].
    rewrite N.eqb_refl. cbn [negb andb].
    cbn [loose_from loose_rest map join].
    unfold pair_text. cbn [fst snd]. rewrite length_app.
    f_equal. f_equal. lia.
  - (* a separator and a further entry *)
    cbn [forallb fst] in Hl, Hk.
    pose proof Hl as Hl'. apply andb_true_iff in Hl'. destruct Hl' as [Hl1 Hl2].
    pose proof Hk as Hk'. apply andb_true_iff in Hk'. destruct Hk' as [Hk2 _].
    unfold key_ok in Hk2. apply andb_true_iff in Hk2. destruct Hk2 as [Hp2 _].
    pose proof (skipn_1 _ _ _ _ Hj) as Hj1.
    destruct (pair_texts_head (k', v') props (c_rparen :: post))
      as [more Hmore].
    cbn [fst snd] in Hmore.
    pose proof Hs as Hs'. cbn [forallb snd] in Hs'.
    apply andb_true_iff in Hs'. destruct Hs' as [Hs2 _].
    destruct (stringify_head v' Hs2) as [r' Hr'].
    assert (Hlen2 : length (join [c_tilde] (map pair_text ((k, v) :: (k', v') :: props)))
                    = (length (flat_map escape_spec k) + length (_stringify v)
                       + 1 + length (join [c_tilde] (map pair_text ((k', v') :: props))))%nat).
    { pose proof (pair_texts_cons (k, v) (k', v') props []) as E.
      rewrite !app_nil_r in E. rewrite E. cbn [fst snd].
      rewrite !length_app. cbn [length]. lia. }
    cbn [hd_error is_char]. rewrite N.eqb_refl.
    destruct (later_key_ok k') eqn:Hlater.
    + (* the separator is skipped *)
      destruct (escape_spec_head k' (r' ++ more) Hp2)
        as [c [rest [E [_ [E1 [_ E2]]]]]].
      assert (Hn : skipn (i + length (flat_map escape_spec k)
                          + length (_stringify v) + 1) str = c :: rest).
      { rewrite Hj1, Hmore, Hr', <- E. reflexivity. }
      rewrite Hn. cbn [hd_error]. rewrite (E2 Hlater). cbn [negb andb].
      cbv iota. rewrite Hn. cbn [hd_error is_char].
      apply N.eqb_neq in E1. rewrite E1. cbn [negb andb].
      rewrite (skipn_in_range _ _ _ _ Hn).
      rewrite (IH Hk Hl2 Hs ltac:(discriminate) fuel str _ (obj_set obj k v)
                 post ltac:(lia) Hj1).
      cbn [loose_from loose_rest]. rewrite Hlater.
      rewrite Hlen2. f_equal. f_equal. lia.
    + (* the separator is read as the start of a value *)
      cbn [orb] in Hl1.
      destruct (word_like_head k' (_stringify v' ++ more) Hl1)
        as [c [rest [E [E1 [E2 E3]]]]].
      assert (Hn : skipn (i + length (flat_map escape_spec k)
                          + length (_stringify v) + 1) str = c :: rest).
      { rewrite Hj1, Hmore. exact E. }
      rewrite Hn. cbn [hd_error]. rewrite E1. cbn [negb andb]. cbv iota.
      rewrite Hj. cbn [hd_error is_char].
      change (c_tilde =? c_rparen) with false. cbn [negb andb].
      rewrite (skipn_in_range _ _ _ _ Hj).
      (* the turn that reads the empty key *)
      destruct fuel as [|fuel]; [lia|].
      rewrite object_loop_S.
      rewrite (parse_key_stop _ _ _ _ Hj).
      destruct fuel as [|fuel];
        [cbn [pair_weights fold_right] in Hf; lia|].
      assert (Hw : skipn (i + length (flat_map escape_spec k)
                          + length (_stringify v)) str
                   = c_tilde :: flat_map escape_spec k'
                     ++ c_tilde :: r' ++ more).
      { rewrite Hj, Hmore, Hr'. reflexivity. }
      rewrite (parse_word k' (r' ++ more) str _ fuel Hl1 Hw).
      cbv zeta. rewrite !charAt_skipn, Hn. cbn [hd_error is_char].
      rewrite E2. cbn [andb]. cbv iota. rewrite Hn.
      cbn [hd_error is_char]. rewrite E3. cbn [negb andb].
      rewrite (skipn_in_range _ _ _ _ Hn).
      rewrite (IH Hk Hl2 Hs ltac:(discriminate) (S fuel) str _
                 (obj_set (obj_set obj k v) [] Undefined)
                 post ltac:(cbn [pair_weights fold_right] in Hf |- *; lia) Hj1).
      cbn [loose_from loose_rest]. rewrite Hlater.
      rewrite Hlen2. f_equal. f_equal. lia.
Qed.

Lemma forallb_fst {A B} (P : A -> bool) (l : list (A * B)) :
  forallb (fun kv => P (fst kv)) l = forallb P (map fst l).
Proof.
  induction l as [|kv l IH]; [reflexivity|].
  cbn [forallb map]. rewrite IH. reflexivity.
Qed.

Lemma loose_safe_parts (props : list (jsstring * value)) :
  loose_safe props = true ->
  forallb (fun kv => later_key_ok (fst kv) || word_like (fst kv)) (tl props)
  = true
  /\ forallb (fun kv => named_key (fst kv)) props = true
  /\ distinct (map fst props) = true
  /\ forallb (fun kv => round_trip_safe (snd kv)) props = true
  /\ props <> [].
Proof.
  unfold loose_safe, loose_keys. intros H.
  apply andb_true_iff in H. destruct H as [H H4].
  apply andb_true_iff in H. destruct H as [H H3].
  apply andb_true_iff in H. destruct H as [H1 H2].
  destruct props as [|kv props]; [discriminate|].
  rewrite !forallb_fst. cbn [tl map] in *.
  split; [rewrite (forallb_fst (fun k => later_key_ok k || word_like k));
          exact H1|].
  repeat split; try assumption. discriminate.
Qed.

Lemma named_keys_ok (props : list (jsstring * value)) :
  forallb (fun kv => named_key (fst kv)) props = true ->
  forallb (fun kv => key_ok (fst kv)) props = true.
Proof.
  apply forallb_weaken. intros kv H. unfold named_key in H.
  apply andb_true_iff in H. destruct H as [H _].
  apply andb_true_iff in H. destruct H as [H _]. exact H.
Qed.

(** The decoder on the encoding of such a map. *)
Lemma parse_loose (props : list (jsstring * value)) (tail : jsstring)
    (fuel : nat) :
  loose_safe props = true ->
  (2 * weight (Obj props) <= fuel)%nat ->
  parse fuel (stringify (Obj props) ++ tail)
  = Return (Obj (loose_from [] props)).
Proof.
  intros Hs Hf.
  destruct (loose_safe_parts props Hs) as [Hl [Hn [Hd [Hv Hne]]]].
  pose proof (named_keys_ok props Hn) as Hk.
  pose proof (decodes_forall_snd props) as Hprops.
  destruct props as [|[k v] props]; [contradiction|].
  destruct fuel as [|fuel]; [cbn in Hf; lia|].
  cbn [weight] in Hf. fold (pair_weights ((k, v) :: props)) in Hf.
  unfold parse, stringify. cbn [_stringify].
  rewrite (stringify_pairs ((k, v) :: props) Hk Hv).
  cbn [app]. rewrite <- app_assoc. cbn [app].
  set (str := c_tilde :: c_lparen
              :: join [c_tilde] (map pair_text ((k, v) :: props))
                 ++ c_rparen :: tail).
  assert (Hi : skipn 0 str
               = c_tilde :: c_lparen
                 :: join [c_tilde] (map pair_text ((k, v) :: props))
                    ++ c_rparen :: tail) by reflexivity.
  pose proof Hk as Hk'. cbn [forallb fst] in Hk'.
  apply andb_true_iff in Hk'. destruct Hk' as [Hk1 _].
  unfold key_ok in Hk1. apply andb_true_iff in Hk1.
  destruct Hk1 as [Hplain _].
  pose proof Hn as Hn'. cbn [forallb fst] in Hn'.
  apply andb_true_iff in Hn'. destruct Hn' as [Hn1 _].
  unfold named_key in Hn1. apply andb_true_iff in Hn1.
  destruct Hn1 as [Hn1 _]. apply andb_true_iff in Hn1.
  destruct Hn1 as [_ Hne1].
  destruct (pair_texts_head (k, v) props (c_rparen :: tail)) as [more Hmore].
  cbn [fst snd] in Hmore.
  pose proof Hv as Hv'. cbn [forallb snd] in Hv'.
  apply andb_true_iff in Hv'. destruct Hv' as [Hv1 _].
  destruct (stringify_head v Hv1) as [r Hr].
  destruct (escape_spec_head k (r ++ more) Hplain)
    as [c [rest [E [_ [E1 [E2 _]]]]]].
  assert (Hc : join [c_tilde] (map pair_text ((k, v) :: props))
               ++ c_rparen :: tail = c :: rest).
  { rewrite Hmore, Hr, <- E. reflexivity. }
  assert (Hc2 : c <> c_tilde) by (apply E2; destruct k; discriminate).
  rewrite _parse_S. cbv zeta. rewrite !charAt_skipn.
  rewrite (skipn_2 _ _ _ _ _ Hi), (skipn_1 _ _ _ _ Hi), Hi.
  cbn [hd_error]. change (c_tilde =? c_tilde) with true. cbv iota.
  cbn [hd_error is_char].
  change (c_lparen =? c_lparen) with true. cbv iota.
  rewrite Hc. cbn [hd_error is_char].
  apply N.eqb_neq in E1, Hc2. rewrite E1, Hc2.
  rewrite (object_loop_loose ((k, v) :: props) Hprops Hk Hl Hv
             ltac:(discriminate) fuel str (0 + 1 + 1) [] tail ltac:(lia)
             (skipn_2 _ _ _ _ _ Hi)).
  reflexivity.
Qed.

(** *** What the decoded map holds *)

Lemma update_same (obj : list (jsstring * value)) :
  gap_only obj = true -> update obj [] Undefined = obj.
Proof.
  unfold gap_only. induction obj as [|[k v] obj IH]; [reflexivity|].
  cbn [forallb fst snd update]. intros H. apply andb_true_iff in H.
  destruct H as [H1 H2]. destruct k as [|c k].
  - cbn [str_eqb]. destruct v; try discriminate. reflexivity.
  - cbn [str_eqb]. rewrite (IH H2). reflexivity.
Qed.

Lemma set_gap (obj : list (jsstring * value)) :
  gap_only obj = true ->
  gap_only (obj_set obj [] Undefined) = true
  /\ entries (obj_set obj [] Undefined) = entries obj
  /\ forall c k, has_key (obj_set obj [] Undefined) (c :: k)
                 = has_key obj (c :: k).
Proof.
  intros H. rewrite (obj_set_cases obj [] Undefined eq_refl eq_refl).
  destruct (has_key obj []); [rewrite (update_same obj H); auto|].
  split; [|split].
  - unfold gap_only. rewrite forallb_app.
    apply andb_true_iff. split; [exact H|reflexivity].
  - unfold entries. rewrite filter_app. cbn [filter snd has_value].
    apply app_nil_r.
  - intros c k. rewrite has_key_app. cbn [has_key str_eqb].
    rewrite orb_false_r. reflexivity.
Qed.

Lemma set_named (obj : list (jsstring * value)) (k : jsstring) (v : value) :
  named_key k = true -> has_key obj k = false ->
  obj_set obj k v = obj ++ [(k, v)].
Proof.
  unfold named_key, key_ok. intros Hk Hn.
  apply andb_true_iff in Hk. destruct Hk as [Hk Hi].
  apply andb_true_iff in Hk. destruct Hk as [Hk _].
  apply andb_true_iff in Hk. destruct Hk as [_ Hp].
  apply negb_true_iff in Hp.
  destruct (array_index k) eqn:E; [discriminate|].
  rewrite (obj_set_cases obj k v Hp E), Hn. reflexivity.
Qed.

Lemma named_head (k : jsstring) :
  named_key k = true -> exists c r, k = c :: r.
Proof.
  unfold named_key. intros H. apply andb_true_iff in H.
  destruct H as [H _]. apply andb_true_iff in H. destruct H as [_ H].
  destruct k as [|c r]; [discriminate|]. eauto.
Qed.

Lemma loose_rest_entries (rest : list (jsstring * value)) :
  forall obj,
    gap_only obj = true ->
    forallb named_key (map fst rest) = true ->
    distinct (map fst rest) = true ->
    forallb (fun kv => has_value (snd kv)) rest = true ->
    (forall k, In k (map fst rest) -> has_key obj k = false) ->
    gap_only (loose_rest obj rest) = true
    /\ entries (loose_rest obj rest) = entries obj ++ rest.
Proof.
  induction rest as [|[k v] rest IH]; intros obj Hg Hn Hd Hv Hout.
  - cbn [loose_rest]. rewrite app_nil_r. split; [exact Hg|reflexivity].
  - cbn [map fst forallb distinct snd] in Hn, Hd, Hv.
    apply andb_true_iff in Hn. destruct Hn as [Hn1 Hn].
    apply andb_true_iff in Hd. destruct Hd as [Hd1 Hd].
    apply andb_true_iff in Hv. destruct Hv as [Hv1 Hv].
    destruct (named_head k Hn1) as [c [r Hk]].
    cbn [loose_rest].
    set (obj' := if later_key_ok k then obj else obj_set obj [] Undefined).
    assert (G : gap_only obj' = true /\ entries obj' = entries obj
                /\ forall c k, has_key obj' (c :: k) = has_key obj (c :: k)).
    { subst obj'. destruct (later_key_ok k); [auto|]. apply set_gap, Hg. }
    destruct G as [G1 [G2 G3]].
    assert (Hout' : has_key obj' k = false).
    { rewrite Hk, G3, <- Hk. apply Hout. left. reflexivity. }
    rewrite (set_named obj' k v Hn1 Hout').
    destruct (IH (obj' ++ [(k, v)])) as [I1 I2]; try assumption.
    + unfold gap_only. rewrite forallb_app.
      apply andb_true_iff. split; [exact G1|].
      cbn [forallb fst snd]. rewrite Hk, Hv1. reflexivity.
    + intros k2 Hin. rewrite has_key_app. cbn [has_key].
      rewrite orb_false_r.
      destruct (named_head k2 (proj1 (forallb_forall _ _) Hn k2 Hin))
        as [c2 [r2 Hk2]].
      apply orb_false_iff. split.
      * rewrite Hk2, G3, <- Hk2. apply Hout. right. exact Hin.
      * apply negb_true_iff in Hd1.
        destruct (str_eqb k k2) eqn:E; [|reflexivity].
        apply str_eqb_eq in E. rewrite <- E in Hin.
        assert (existsb (str_eqb k) (map fst rest) = true)
          by (apply existsb_exists; exists k; split;
              [exact Hin|apply str_eqb_refl]).
        congruence.
    + split; [exact I1|]. rewrite I2. unfold entries.
      rewrite filter_app. cbn [filter snd]. rewrite Hv1.
      rewrite <- app_assoc. apply (f_equal (fun l => l ++ (k, v) :: rest)).
      exact G2.
Qed.

Lemma safe_defined (v : value) : round_trip_safe v = true -> has_value v = true.
Proof. destruct v; [discriminate|reflexivity..]. Qed.

(** The decoded map holds the entries of the encoded one, and besides them
    at most the empty key without a value. *)
Lemma loose_from_entries (props : list (jsstring * value)) :
  loose_safe props = true ->
  gap_only (loose_from [] props) = true
  /\ entries (loose_from [] props) = props.
Proof.
  intros Hs. destruct (loose_safe_parts props Hs) as [_ [Hn [Hd [Hv _]]]].
  rewrite forallb_fst in Hn.
  destruct props as [|[k v] rest]; [discriminate|].
  cbn [map fst forallb distinct snd] in Hn, Hd, Hv.
  apply andb_true_iff in Hn. destruct Hn as [Hn1 Hn].
  apply andb_true_iff in Hd. destruct Hd as [Hd1 Hd].
  apply andb_true_iff in Hv. destruct Hv as [Hv1 Hv].
  destruct (named_head k Hn1) as [c [r Hk]].
  cbn [loose_from]. rewrite (set_named [] k v Hn1 eq_refl). cbn [app].
  destruct (loose_rest_entries rest [(k, v)]) as [I1 I2]; try assumption.
  - unfold gap_only. cbn [forallb fst snd]. rewrite Hk.
    rewrite (safe_defined v Hv1). reflexivity.
  - apply (forallb_weaken (fun kv => round_trip_safe (snd kv))); [|exact Hv].
    intros kv. apply safe_defined.
  - intros k2 Hin. cbn [has_key]. rewrite orb_false_r.
    apply negb_true_iff in Hd1.
    destruct (str_eqb k k2) eqn:E; [|reflexivity].
    apply str_eqb_eq in E. subst k2.
    assert (existsb (str_eqb k) (map fst rest) = true)
      by (apply existsb_exists; exists k; split;
          [exact Hin|apply str_eqb_refl]).
    congruence.
  - split; [exact I1|]. rewrite I2. unfold entries. cbn [filter snd].
    rewrite (safe_defined v Hv1). reflexivity.
Qed.

Lemma gap_only_cons (kv : jsstring * value) (obj : list (jsstring * value)) :
  gap_only (kv :: obj) = true ->
  gap_only obj = true
  /\ (has_value (snd kv) = true /\ (exists c r, fst kv = c :: r)
      \/ has_value (snd kv) = false /\ fst kv = []).
Proof.
  unfold gap_only. cbn [forallb]. intros H. apply andb_true_iff in H.
  destruct H as [H1 H2]. split; [exact H2|].
  destruct kv as [[|c r] v]; cbn [fst snd] in *.
  - right. destruct v; try discriminate. split; reflexivity.
  - left. destruct v; try discriminate; split; try reflexivity; eauto.
Qed.

Lemma lookup_entries (obj : list (jsstring * value)) (c : char)
    (r : jsstring) :
  gap_only obj = true ->
  lookup (entries obj) (c :: r) = lookup obj (c :: r)
  /\ has_key (entries obj) (c :: r) = has_key obj (c :: r).
Proof.
  induction obj as [|[k v] obj IH]; intros H; [split; reflexivity|].
  destruct (gap_only_cons _ _ H) as [H2 [[Hv _]|[Hv Hk]]];
    cbn [fst snd] in *; destruct (IH H2) as [I1 I2];
    unfold entries in *; cbn [filter snd]; rewrite Hv.
  - cbn [lookup has_key]. rewrite I1, I2. split; reflexivity.
  - subst k. cbn [lookup has_key str_eqb orb]. split; assumption.
Qed.

Lemma stringify_entries (obj : list (jsstring * value)) :
  _stringify (Obj (entries obj)) = _stringify (Obj obj).
Proof.
  cbn [_stringify]. unfold entries. rewrite flat_map_filter_nil; [reflexivity|].
  intros [k v] H. cbn [snd] in *. destruct v; try discriminate. reflexivity.
Qed.

Lemma entries_update (obj : list (jsstring * value)) (c : char)
    (r : jsstring) (v : value) :
  gap_only obj = true -> has_value v = true ->
  gap_only (update obj (c :: r) v) = true
  /\ entries (update obj (c :: r) v) = update (entries obj) (c :: r) v.
Proof.
  intros H Hv. induction obj as [|[k0 v0] obj IH]; [split; reflexivity|].
  destruct (gap_only_cons _ _ H) as [H2 [[Hv0 [c0 [r0 Hk0]]]|[Hv0 Hk0]]];
    cbn [fst snd] in *; destruct (IH H2) as [I1 I2]; cbn [update].
  - destruct (str_eqb k0 (c :: r)) eqn:E.
    + split.
      * unfold gap_only in *. cbn [forallb fst snd]. rewrite Hk0, Hv.
        exact H2.
      * unfold entries. cbn [filter snd update]. rewrite Hv, Hv0.
        cbn [update]. rewrite E. reflexivity.
    + split.
      * unfold gap_only in *. cbn [forallb fst snd]. rewrite Hk0, Hv0.
        exact I1.
      * unfold entries in *. cbn [filter snd]. rewrite Hv0.
        cbn [update]. rewrite E, I2. reflexivity.
  - subst k0. cbn [str_eqb]. split.
    + unfold gap_only in *. cbn [forallb fst snd]. rewrite Hv0. exact I1.
    + unfold entries in *. cbn [filter snd]. rewrite Hv0. exact I2.
Qed.

(** Setting a named key to a value goes through to the entries. *)
Lemma entries_obj_set (obj : list (jsstring * value)) (k : jsstring)
    (v : value) :
  gap_only obj = true -> named_key k = true -> has_value v = true ->
  gap_only (obj_set obj k v) = true
  /\ entries (obj_set obj k v) = obj_set (entries obj) k v.
Proof.
  intros H Hk Hv. destruct (named_head k Hk) as [c [r E]].
  pose proof Hk as Hk'. unfold named_key, key_ok in Hk'.
  apply andb_true_iff in Hk'. destruct Hk' as [Hk' Hi].
  apply andb_true_iff in Hk'. destruct Hk' as [Hk' _].
  apply andb_true_iff in Hk'. destruct Hk' as [_ Hp].
  apply negb_true_iff in Hp.
  destruct (array_index k) eqn:Ei; [discriminate|].
  rewrite !(obj_set_cases _ k v Hp Ei). subst k.
  rewrite (proj2 (lookup_entries obj c r H)).
  destruct (has_key obj (c :: r)); [apply entries_update; assumption|].
  split.
  - unfold gap_only in *. rewrite forallb_app.
    apply andb_true_iff. split; [exact H|].
    cbn [forallb fst snd]. rewrite Hv. reflexivity.
  - unfold entries. rewrite filter_app. cbn [filter snd]. rewrite Hv.
    reflexivity.
Qed.

Lemma loose_keys_snoc (ks : list jsstring) (k : jsstring) :
  loose_keys ks = true -> named_key k = true ->
  later_key_ok k || word_like k = true ->
  existsb (str_eqb k) ks = false ->
  loose_keys (ks ++ [k]) = true.
Proof.
  unfold loose_keys. intros H Hk Hl Hn.
  apply andb_true_iff in H. destruct H as [H H3].
  apply andb_true_iff in H. destruct H as [H1 H2].
  rewrite forallb_app, H2, (distinct_snoc ks k H3 Hn). cbn [forallb].
  rewrite Hk. cbn [andb]. rewrite andb_true_r.
  destruct ks as [|k0 rest]; [discriminate|].
  cbn [app]. rewrite forallb_app. cbn [forallb]. rewrite Hl.
  cbn [andb]. rewrite !andb_true_r. exact H1.
Qed.

Lemma loose_safe_obj_set (props : list (jsstring * value)) (k : jsstring)
    (v : value) :
  named_key k = true -> later_key_ok k || word_like k = true ->
  loose_safe props = true -> round_trip_safe v = true ->
  loose_safe (obj_set props k v) = true.
Proof.
  intros Hk Hl Hs Hv.
  pose proof Hk as Hk'. unfold named_key, key_ok in Hk'.
  apply andb_true_iff in Hk'. destruct Hk' as [Hk' Hi].
  apply andb_true_iff in Hk'. destruct Hk' as [Hk' _].
  apply andb_true_iff in Hk'. destruct Hk' as [_ Hp].
  apply negb_true_iff in Hp.
  destruct (array_index k) eqn:Ei; [discriminate|].
  rewrite (obj_set_cases props k v Hp Ei).
  unfold loose_safe in *.
  apply andb_true_iff in Hs. destruct Hs as [Hs1 Hs2].
  destruct (has_key props k) eqn:E.
  - rewrite update_keys, Hs1.
    apply (update_values round_trip_safe props k v Hs2 Hv).
  - rewrite map_app, forallb_app, Hs2. cbn [map fst forallb snd].
    rewrite Hv. cbn [andb]. rewrite andb_true_r.
    apply loose_keys_snoc; try assumption.
    rewrite <- has_key_existsb. exact E.
Qed.

(** [JSURL.tryParse] on the encoding of such a map, and what a reader of
    the decoded map finds under a name. *)
Lemma tryParse_loose (props : list (jsstring * value)) (tail : jsstring)
    (fuel : nat) :
  loose_safe props = true ->
  (2 * weight (Obj props) <= fuel)%nat ->
  tryParse fuel (stringify (Obj props) ++ tail) Null
  = Return (Obj (loose_from [] props)).
Proof.
  intros Hs Hf. apply tryParse_returned; [|reflexivity].
  apply parse_loose; assumption.
Qed.

Lemma get_loose (props : list (jsstring * value)) (c : char) (r : jsstring) :
  loose_safe props = true ->
  lookup (loose_from [] props) (c :: r) = lookup props (c :: r).
Proof.
  intros Hs. destruct (loose_from_entries props Hs) as [Hg He].
  rewrite <- (proj1 (lookup_entries _ c r Hg)), He. reflexivity.
Qed.

(** Setting a named key of the decoded map and encoding it gives the
    encoding of the map with that key set. *)
Lemma stringify_set (obj : list (jsstring * value)) (k : jsstring)
    (v : value) :
  gap_only obj = true -> named_key k = true -> has_value v = true ->
  stringify (Obj (obj_set obj k v)) = stringify (Obj (obj_set (entries obj) k v)).
Proof.
  intros Hg Hk Hv. unfold stringify.
  rewrite <- stringify_entries.
  rewrite (proj2 (entries_obj_set obj k v Hg Hk Hv)). reflexivity.
Qed.

(** The decoder on a map whose later keys may begin like a word
    ([timeType], [tz], [name], [filter]): every named key is read with its
    value, and encoding the decoded map gives the text back, whatever
    follows the text.  (The decoded map has the empty key, without a
    value, before the first such key.) *)
Theorem parse_word_like_keys (props : list (jsstring * value))
    (tail : jsstring) (fuel : nat) :
  loose_safe props = true ->
  (2 * weight (Obj props) <= fuel)%nat ->
  exists decoded,
    parse fuel (stringify (Obj props) ++ tail) = Return (Obj decoded)
    /\ stringify (Obj decoded) = stringify (Obj props)
    /\ forall c r, get (Obj decoded) (c :: r) = lookup props (c :: r).
Proof.
  intros Hs Hf. exists (loose_from [] props).
  destruct (loose_from_entries props Hs) as [Hg He].
  split; [apply parse_loose; assumption|]. split.
  - unfold stringify. rewrite <- stringify_entries, He. reflexivity.
  - intros c r. cbn [get].
    rewrite <- (proj1 (lookup_entries _ c r Hg)), He. reflexivity.
Qed.

Lemma parse_word_like_keys_witness :
  exists decoded,
    parse 22 (stringify (Obj insights_props) ++ js "&region=us-east-1")
    = Return (Obj decoded)
    /\ stringify (Obj decoded) = stringify (Obj insights_props)
    /\ forall c r, get (Obj decoded) (c :: r) = lookup insights_props (c :: r).
Proof.
  apply (parse_word_like_keys insights_props (js "&region=us-east-1") 22);
    [reflexivity|cbn; lia].
Defined.

(** ** The service worker *)

Section WorkerProperties.

Variable range : Type.

Lemma push_current_bounded (current : option range) (history : list range) :
  (length history <= Worker.MAX_HISTORY)%nat ->
  (length (Worker.push_current current history) <= Worker.MAX_HISTORY)%nat.
Proof.
  intros H. unfold Worker.push_current. destruct current as [c|]; [|exact H].
  cbv zeta. destruct (Nat.ltb_spec Worker.MAX_HISTORY (length (c :: history))).
  - rewrite length_firstn. apply Nat.le_min_l.
  - assumption.
Qed.

Lemma splice_out_length (history : list range) (index : nat) :
  (length (Worker.splice_out history index) <= length history)%nat.
Proof.
  revert index; induction history as [|x history IH]; intros [|index];
    cbn [Worker.splice_out length]; try lia.
  specialize (IH index). lia.
Qed.

(** The history never holds more than [MAX_HISTORY] ranges: saving,
    restoring and clearing keep the bound. *)
Theorem history_stays_bounded (st : Worker.storage range) (timeRange : range)
    (index : Z) :
  (length (Worker.getHistory st) <= Worker.MAX_HISTORY)%nat ->
  (length (Worker.getHistory (fst (Worker.saveTimeRange st timeRange)))
   <= Worker.MAX_HISTORY)%nat
  /\ (length (Worker.getHistory (fst (Worker.restoreFromHistory st index)))
      <= Worker.MAX_HISTORY)%nat
  /\ Worker.getHistory (fst (Worker.clearAll st)) = [].
Proof.
  intros H. split; [|split].
  - cbn. apply push_current_bounded. exact H.
  - unfold Worker.restoreFromHistory.
    destruct (if (index <? 0)%Z then None
              else nth_error (Worker.getHistory st) (Z.to_nat index));
      [|exact H].
    cbn. apply push_current_bounded.
    pose proof (splice_out_length (Worker.getHistory st) (Z.to_nat index)).
    lia.
  - reflexivity.
Qed.

Lemma push_current_some (current : range) (history : list range) :
  Worker.push_current (Some current) history
  = current :: firstn 4 history.
Proof.
  unfold Worker.push_current. cbv zeta.
  destruct (Nat.ltb_spec Worker.MAX_HISTORY (length (current :: history)))
    as [H|H]; [reflexivity|].
  cbn [length] in H. unfold Worker.MAX_HISTORY in H.
  rewrite firstn_all2 by lia. reflexivity.
Qed.

(** Restoring the first entry of the history right after a save makes the
    range that was current before the save current again; the saved range
    heads the history, before the first four of the earlier entries. *)
Theorem restore_undoes_save (st : Worker.storage range)
    (current saved : range) :
  Worker.currentTimeRange st = Some current ->
  Worker.restoreFromHistory (fst (Worker.saveTimeRange st saved)) 0
  = ({| Worker.currentTimeRange := Some current;
        Worker.timeRangeHistory :=
          Some (saved :: firstn 4 (Worker.getHistory st));
        Worker.badgeText := Worker.updateBadge true |},
     Worker.Restored current).
Proof.
  intros Hc. unfold Worker.saveTimeRange, Worker.restoreFromHistory.
  cbn [fst Worker.getHistory Worker.timeRangeHistory Worker.currentTimeRange].
  rewrite Hc, !push_current_some.
  cbn [Z.ltb Z.compare Z.to_nat nth_error Worker.splice_out].
  rewrite firstn_firstn. reflexivity.
Qed.

Lemma splice_out_permutation (history : list range) (index : nat)
    (restored : range) :
  nth_error history index = Some restored ->
  Permutation (restored :: Worker.splice_out history index) history.
Proof.
  revert index; induction history as [|x history IH]; intros [|index];
    cbn [nth_error Worker.splice_out]; try discriminate.
  - intros H; injection H as ->. apply Permutation_refl.
  - intros H. eapply perm_trans; [apply perm_swap|].
    apply perm_skip. apply IH. exact H.
Qed.

(** Restoring loses no range while the history is within its bound: the
    restored range and the new history hold the ranges that the current
    range and the old history held, and the restored range is the entry
    at the index. *)
Theorem restore_keeps_ranges (st st' : Worker.storage range) (index : Z)
    (current restored : range) :
  (length (Worker.getHistory st) <= Worker.MAX_HISTORY)%nat ->
  Worker.currentTimeRange st = Some current ->
  Worker.restoreFromHistory st index = (st', Worker.Restored restored) ->
  nth_error (Worker.getHistory st) (Z.to_nat index) = Some restored
  /\ Worker.currentTimeRange st' = Some restored
  /\ Permutation (restored :: Worker.getHistory st')
       (current :: Worker.getHistory st).
Proof.
  intros Hb Hc. unfold Worker.restoreFromHistory.
  destruct (index <? 0)%Z; [discriminate|].
  destruct (nth_error (Worker.getHistory st) (Z.to_nat index)) as [x|] eqn:E;
    [|discriminate].
  intros H; injection H as <- <-.
  split; [reflexivity|]. split; [reflexivity|].
  cbn [Worker.getHistory Worker.timeRangeHistory]. rewrite Hc.
  unfold Worker.push_current. cbv zeta.
  pose proof (splice_out_permutation _ _ _ E) as Hp.
  assert (Hl : length (Worker.splice_out (Worker.getHistory st)
                         (Z.to_nat index)) = pred (length (Worker.getHistory st))).
  { apply Permutation_length in Hp. cbn [length] in Hp. lia. }
  destruct (Nat.ltb_spec Worker.MAX_HISTORY
              (length (current :: Worker.splice_out (Worker.getHistory st)
                                   (Z.to_nat index)))) as [H|H].
  - exfalso. cbn [length] in H. rewrite Hl in H.
    assert (length (Worker.getHistory st) <> O).
    { intros H0. destruct (Worker.getHistory st); [|discriminate].
      destruct (Z.to_nat index); discriminate. }
    lia.
  - eapply perm_trans; [apply perm_swap|]. apply perm_skip. exact Hp.
Qed.

(** An index outside the history is refused, and nothing is written: the
    stored ranges and the badge stay as they are. *)
Theorem restore_out_of_range (st : Worker.storage range) (index : Z) :
  (index < 0 \/ Z.of_nat (length (Worker.getHistory st)) <= index)%Z ->
  Worker.restoreFromHistory st index
  = (st, Worker.Invalid range (js "Invalid history index")).
Proof.
  intros H. unfold Worker.restoreFromHistory.
  destruct (Z.ltb_spec index 0) as [Hn|Hn]; [reflexivity|].
  destruct H as [H|H]; [lia|].
  assert (E : nth_error (Worker.getHistory st) (Z.to_nat index) = None).
  { apply nth_error_None. lia. }
  rewrite E. reflexivity.
Qed.

End WorkerProperties.

Lemma history_stays_bounded_witness :
  (length (Worker.getHistory
             (fst (Worker.saveTimeRange
                     {| Worker.currentTimeRange := Some 6%nat;
                        Worker.timeRangeHistory := Some [5; 4; 3; 2; 1]%nat;
                        Worker.badgeText := js " " |} 7%nat)))
   <= Worker.MAX_HISTORY)%nat.
Proof.
  apply (history_stays_bounded nat
           {| Worker.currentTimeRange := Some 6%nat;
              Worker.timeRangeHistory := Some [5; 4; 3; 2; 1]%nat;
              Worker.badgeText := js " " |} 7%nat 0).
  cbn. unfold Worker.MAX_HISTORY. lia.
Defined.

Lemma restore_undoes_save_witness :
  Worker.restoreFromHistory
    (fst (Worker.saveTimeRange
            {| Worker.currentTimeRange := Some 6%nat;
               Worker.timeRangeHistory := Some [5; 4; 3; 2; 1]%nat;
               Worker.badgeText := js " " |} 7%nat)) 0
  = ({| Worker.currentTimeRange := Some 6%nat;
        Worker.timeRangeHistory := Some [7; 5; 4; 3; 2]%nat;
        Worker.badgeText := js " " |}, Worker.Restored 6%nat).
Proof.
  apply (restore_undoes_save nat
           {| Worker.currentTimeRange := Some 6%nat;
              Worker.timeRangeHistory := Some [5; 4; 3; 2; 1]%nat;
              Worker.badgeText := js " " |} 6%nat 7%nat).
  reflexivity.
Defined.

Lemma restore_keeps_ranges_witness :
  Permutation [3; 6; 5; 4; 2; 1]%nat [6; 5; 4; 3; 2; 1]%nat.
Proof.
  apply (restore_keeps_ranges nat
           {| Worker.currentTimeRange := Some 6%nat;
              Worker.timeRangeHistory := Some [5; 4; 3; 2; 1]%nat;
              Worker.badgeText := js " " |}
           {| Worker.currentTimeRange := Some 3%nat;
              Worker.timeRangeHistory := Some [6; 5; 4; 2; 1]%nat;
              Worker.badgeText := js " " |} 2 6%nat 3%nat).
  - cbn. unfold Worker.MAX_HISTORY. lia.
  - reflexivity.
  - reflexivity.
Defined.

Lemma restore_out_of_range_witness :
  Worker.restoreFromHistory
    {| Worker.currentTimeRange := Some 6%nat;
       Worker.timeRangeHistory := Some [5; 4]%nat;
       Worker.badgeText := js " " |} 2
  = ({| Worker.currentTimeRange := Some 6%nat;
        Worker.timeRangeHistory := Some [5; 4]%nat;
        Worker.badgeText := js " " |},
     Worker.Invalid nat (js "Invalid history index")).
Proof.
  apply (restore_out_of_range nat
           {| Worker.currentTimeRange := Some 6%nat;
              Worker.timeRangeHistory := Some [5; 4]%nat;
              Worker.badgeText := js " " |} 2).
  right. cbn. lia.
Defined.

(** ** The message handler *)

Section ListenerProperties.

Variable format : number -> outcome jsstring.
Variable date_parse : jsstring -> number.

(** On a page whose path names neither CloudWatch nor X-Ray the handler
    assigns nothing to the address: a request to apply a range and a
    request to capture one are both answered with the failure that names
    the service as not supported. *)
Theorem messages_outside_the_console (fuel : nat) (now capturedAt : Z)
    (p : Listener.page) (timeRange : time_range) :
  includes (Listener.pathname p) (js "/cloudwatch") = false ->
  includes (Listener.pathname p) (js "/xray") = false ->
  includes (Listener.pathname p) (js "/x-ray") = false ->
  exists s,
    (s = Unknown \/ s = NotAws)
    /\ Listener.onMessage format date_parse fuel now capturedAt p
         (Listener.ApplyTime timeRange)
       = Return (Listener.Failure not_supported_apply s, None)
    /\ Listener.onMessage format date_parse fuel now capturedAt p
         Listener.CaptureTime
       = Return (Listener.Failure not_supported_capture s, None).
Proof.
  intros H1 H2 H3.
  exists (detectService (Listener.href p) (Listener.pathname p)
            (url_hash (Listener.location p))).
  unfold Listener.onMessage, Listener.apply_time, Listener.capture_time.
  unfold detectService. rewrite H1, H2, H3. cbn [andb orb].
  destruct (includes (Listener.href p) (js ".console.aws.amazon.com"));
    (split; [auto|split; reflexivity]).
Qed.

Lemma coherent_bind {A B} (m : outcome A) (k : A -> outcome (bool * option B)) :
  (forall a, coherent (k a)) -> coherent (bind m k).
Proof. intros H. destruct m; cbn; auto. Qed.

Lemma coherent_try_catch {A} (body : outcome (bool * option A)) :
  coherent body -> coherent (try_catch body (fun _ => Return (false, None))).
Proof. destruct body as [[[|] [a|]]| |]; cbn; auto. Qed.

Ltac coherent_steps :=
  repeat first
    [ exact I
    | apply coherent_try_catch
    | apply coherent_bind; intros
    | match goal with
      | |- coherent (match ?x with _ => _ end) => destruct x
      | |- coherent (let '(_, _) := ?x in _) => destruct x
      end
    | progress cbv zeta ].

Lemma injectCloudWatchMetrics_coherent fuel hash tr :
  coherent (injectCloudWatchMetrics format fuel hash tr).
Proof. unfold injectCloudWatchMetrics. coherent_steps. Qed.

Lemma injectCloudWatchLogsInsights_coherent fuel hash tr :
  coherent (injectCloudWatchLogsInsights fuel hash tr).
Proof. unfold injectCloudWatchLogsInsights. coherent_steps. Qed.

Lemma injectCloudWatchLogs_coherent hash tr :
  coherent (injectCloudWatchLogs hash tr).
Proof. unfold injectCloudWatchLogs. coherent_steps. Qed.

Lemma injectCloudWatchGeneric_coherent fuel hash tr :
  coherent (injectCloudWatchGeneric fuel hash tr).
Proof. unfold injectCloudWatchGeneric. coherent_steps. Qed.

Lemma injectXRay_coherent url tr : coherent (injectXRay format url tr).
Proof. unfold injectXRay. coherent_steps. Qed.

(** A request to apply a range is answered with success exactly when an
    address was assigned: no injector reports success without assigning,
    and none assigns and then reports a failure. *)
Theorem apply_time_assigns_on_success (fuel : nat) (p : Listener.page)
    (timeRange : time_range) (r : Listener.response)
    (assigned : option Listener.assignment) :
  Listener.apply_time format fuel p timeRange = Return (r, assigned) ->
  (r = Listener.Applied /\ assigned <> None)
  \/ ((exists error s, r = Listener.Failure error s) /\ assigned = None).
Proof.
  unfold Listener.apply_time. cbv zeta.
  pose proof (injectCloudWatchMetrics_coherent fuel
                (url_hash (Listener.location p)) timeRange) as H1.
  pose proof (injectCloudWatchLogsInsights_coherent fuel
                (url_hash (Listener.location p)) timeRange) as H2.
  pose proof (injectCloudWatchLogs_coherent
                (url_hash (Listener.location p)) timeRange) as H3.
  pose proof (injectCloudWatchGeneric_coherent fuel
                (url_hash (Listener.location p)) timeRange) as H4.
  pose proof (injectXRay_coherent (Listener.location p) timeRange) as H5.
  destruct (detectService (Listener.href p) (Listener.pathname p)
              (url_hash (Listener.location p)));
    cbn [bind];
    try match goal with
        | H : coherent ?m |- context [bind ?m _] =>
          destruct m as [[[|] [a|]]|e|]; cbn in H; try contradiction;
          cbn [bind fst snd option_map]
        end;
    intros E; try discriminate E; injection E as <- <-;
    first [ left; split; [reflexivity|discriminate]
          | right; split; [eexists _, _; reflexivity|reflexivity] ].
Qed.

End ListenerProperties.

Lemma messages_outside_the_console_witness :
  Listener.onMessage sv_SE_Tokyo_format (fun _ => NaN) 9 0 0 blog_page
    (Listener.ApplyTime sample_range)
  = Return (Listener.Failure not_supported_apply NotAws, None).
Proof.
  destruct (messages_outside_the_console sv_SE_Tokyo_format (fun _ => NaN)
              9 0 0 blog_page sample_range eq_refl eq_refl eq_refl)
    as [s [_ [H _]]].
  rewrite H. vm_compute in H. injection H as <-. reflexivity.
Defined.

Lemma apply_time_assigns_on_success_witness :
  (Listener.Applied = Listener.Applied
   /\ Some (Listener.AssignHash dashboard_applied) <> None)
  \/ ((exists error s, Listener.Applied = Listener.Failure error s)
      /\ Some (Listener.AssignHash dashboard_applied) = None).
Proof.
  apply (apply_time_assigns_on_success sv_SE_Tokyo_format 9 dashboard_page
           sample_range).
  reflexivity.
Defined.

(** ** The bounds of a captured range *)

Lemma try_catch_some {A} (body : outcome (option A)) (r : A) :
  try_catch body (fun _ => Return None) = Return (Some r) ->
  body = Return (Some r).
Proof. destruct body; simpl; try discriminate; auto. Qed.

Lemma relative_bounds (now : Z) (durationStr : value) (a b : number)
    (source : jsstring) raw :
  Parsers.relativeToAbsolute now durationStr = Return (Some (a, b)) ->
  Parsers.either_isNaN
    {| Parsers.c_start := Num a; Parsers.c_end := Num b;
       Parsers.c_source := source; Parsers.c_raw := raw |}
  = Return false.
Proof.
  intros H. destruct (relativeToAbsolute_some _ _ _ _ H) as [-> [ms [_ ->]]].
  reflexivity.
Qed.

Lemma checked_bounds (r r' : Parsers.capture) :
  (nan <- Parsers.either_isNaN r ;; Return (if nan then None else Some r))
  = Return (Some r') ->
  Parsers.either_isNaN r' = Return false.
Proof.
  intros H. apply bind_return in H. destruct H as [nan [Hn H]].
  destruct nan; [discriminate|]. injection H as <-. exact Hn.
Qed.

Section CapturedBounds.

Variable date_parse : jsstring -> number.

Lemma parseCloudWatchMetrics_bounds (fuel : nat) (now : Z) (hash : jsstring)
    (r : Parsers.capture) :
  Parsers.parseCloudWatchMetrics date_parse fuel now hash = Return (Some r) ->
  Parsers.either_isNaN r = Return false.
Proof.
  unfold Parsers.parseCloudWatchMetrics. intros H. apply try_catch_some in H.
  destruct (search (re_param false (js "graph=") not_amp_semi true) hash)
    as [[[[pre old] caps] post]|]; [|discriminate].
  apply bind_return in H. destruct H as [graphObj [_ H]].
  destruct (negb (truthy graphObj)); [discriminate|].
  cbv zeta in H.
  apply bind_return in H. destruct H as [found [Hf H]].
  destruct found as [r0|].
  - injection H as <-.
    destruct (truthy (get graphObj (js "start"))
              && truthy (get graphObj (js "end"))); [|discriminate].
    apply bind_return in Hf. destruct Hf as [result [Hr Hf]].
    destruct result as [r1|]; [|discriminate].
    destruct (truthy (Parsers.c_start r1) && truthy (Parsers.c_end r1));
      [|discriminate].
    eapply checked_bounds. exact Hf.
  - destruct (truthy (get graphObj (js "period"))); [|discriminate].
    apply bind_return in H. destruct H as [range2 [Hr H]].
    destruct range2 as [[a b]|]; [|discriminate].
    injection H as <-. eapply relative_bounds. exact Hr.
Qed.

Lemma parseXRay_bounds (now : Z) (query hash : jsstring)
    (r : Parsers.capture) :
  Parsers.parseXRay date_parse now query hash = Return (Some r) ->
  Parsers.either_isNaN r = Return false.
Proof.
  unfold Parsers.parseXRay. intros H. apply try_catch_some in H.
  cbv zeta in H.
  match type of H with
  | match ?t with _ => _ end = _ => destruct t as [[|c v]|]; try discriminate
  end.
  destruct (includes (c :: v) (js "~")).
  - match type of H with
    | (if isNaN ?a || isNaN ?b then _ else _) = _ =>
      destruct a as [x|], b as [y|]; try discriminate
    end.
    injection H as <-. reflexivity.
  - apply bind_return in H. destruct H as [range [Hr H]].
    destruct range as [[a b]|]; [|discriminate].
    injection H as <-. eapply relative_bounds. exact Hr.
Qed.

Lemma parseCloudWatchGeneric_bounds (fuel : nat) (now : Z) (hash : jsstring)
    (r : Parsers.capture) :
  Parsers.parseCloudWatchGeneric date_parse fuel now hash = Return (Some r) ->
  Parsers.either_isNaN r = Return false.
Proof.
  unfold Parsers.parseCloudWatchGeneric. intros H. apply try_catch_some in H.
  destruct (indexOf hash (js "?~(")) as [q|]; [|discriminate].
  destruct (skipn (q + 1) hash) as [|c0 s0]; [discriminate|].
  apply bind_return in H. destruct H as [stateObj [_ H]].
  match type of H with
  | match ?t with _ => _ end = _ => destruct t; try discriminate
  end;
    (apply bind_return in H; destruct H as [result [_ H]];
     destruct result as [r1|]; [|discriminate];
     eapply checked_bounds; exact H).
Qed.

(** The start and the end of a range that the parser of the Metrics, the
    X-Ray, the generic or the Log Events scheme returns are never [NaN]:
    where a bound cannot be read as a number, there is no range. *)
Theorem captured_bounds_are_numbers (fuel : nat) (now : Z)
    (query hash : jsstring) :
  (forall r,
     Parsers.parseCloudWatchMetrics date_parse fuel now hash
     = Return (Some r) ->
     Parsers.either_isNaN r = Return false)
  /\ (forall r,
        Parsers.parseXRay date_parse now query hash = Return (Some r) ->
        Parsers.either_isNaN r = Return false)
  /\ (forall r,
        Parsers.parseCloudWatchGeneric date_parse fuel now hash
        = Return (Some r) ->
        Parsers.either_isNaN r = Return false)
  /\ (forall r,
        parseCloudWatchLogs now hash = Some r ->
        isNaN (start r) = false /\ isNaN (end_ r) = false).
Proof.
  split; [|split; [|split]].
  - intros r. apply parseCloudWatchMetrics_bounds.
  - intros r. apply parseXRay_bounds.
  - intros r. apply parseCloudWatchGeneric_bounds.
  - intros r. unfold parseCloudWatchLogs.
    destruct (search (re_sep_lit_int quest_or_amp (js "start=") true)
                (normalize hash)) as [[[[pre m] caps] post]|]; [|discriminate].
    cbv zeta.
    match goal with
    | |- (if isNaN (start ?x) || isNaN (end_ ?x) then _ else _) = _ -> _ =>
      destruct (isNaN (start x)) eqn:E1; [discriminate|];
      destruct (isNaN (end_ x)) eqn:E2; [discriminate|]
    end.
    intros H; injection H as <-. split; assumption.
Qed.

End CapturedBounds.

Lemma captured_bounds_are_numbers_witness :
  Parsers.either_isNaN
    {| Parsers.c_start := Num (Int (1700000000000 - 43200000));
       Parsers.c_end := Num (Int 1700000000000);
       Parsers.c_source := js "CloudWatch";
       Parsers.c_raw := inr (Parsers.RawDurationMs (Int 43200000)) |}
  = Return false.
Proof.
  destruct (captured_bounds_are_numbers (fun _ => NaN) 9 1700000000000 []
              dashboard_hash) as [_ [_ [H _]]].
  apply H. reflexivity.
Defined.

(** ** The generic hash-state scheme *)

Lemma startsWith_self (p rest : jsstring) : startsWith (p ++ rest) p = true.
Proof.
  induction p as [|x p IH]; [destruct rest; reflexivity|].
  cbn [app startsWith]. rewrite N.eqb_refl, IH. reflexivity.
Qed.

Lemma indexOf_after (pre s p : jsstring) (x : char) :
  forallb (fun c => negb (c =? x)) pre = true ->
  indexOf (pre ++ s) (x :: p)
  = option_map (Nat.add (length pre)) (indexOf s (x :: p)).
Proof.
  intros H. induction pre as [|c pre IH].
  - cbn [app length]. destruct (indexOf s (x :: p)); reflexivity.
  - cbn [forallb] in H. apply andb_true_iff in H. destruct H as [Hc H].
    apply negb_true_iff in Hc.
    cbn [app indexOf startsWith]. rewrite N.eqb_sym, Hc. cbn [andb].
    rewrite (IH H). destruct (indexOf s (x :: p)); reflexivity.
Qed.

(** The state of a generic address is found after the path. *)
Lemma generic_state_found (path state : jsstring) :
  forallb no_question path = true ->
  startsWith state (js "~(") = true ->
  indexOf (generic_hash path state) (js "?~(") = Some (S (length path))
  /\ skipn (S (length path) + 1) (generic_hash path state) = state
  /\ substring (generic_hash path state) 0 (S (length path) + 1)
     = c_hash :: path ++ [c_quest].
Proof.
  intros Hp Hs. unfold generic_hash.
  assert (Hpre : forallb (fun c => negb (c =? c_quest)) (c_hash :: path) = true).
  { cbn [forallb]. exact Hp. }
  split; [|split].
  - change (c_hash :: path ++ c_quest :: state)
      with ((c_hash :: path) ++ c_quest :: state).
    change (js "?~(") with (c_quest :: js "~(").
    rewrite (indexOf_after _ _ _ _ Hpre).
    cbn [indexOf startsWith]. rewrite N.eqb_refl.
    change (js "~(") with [c_tilde; c_lparen] in Hs |- *.
    rewrite Hs. cbn [andb option_map length]. f_equal. lia.
  - replace (S (length path) + 1)%nat with (length (c_hash :: path ++ [c_quest]))
      by (cbn [length]; rewrite length_app; cbn [length]; lia).
    change (c_hash :: path ++ c_quest :: state)
      with (c_hash :: path ++ [c_quest] ++ state).
    rewrite app_assoc.
    change (c_hash :: (path ++ [c_quest]) ++ state)
      with ((c_hash :: path ++ [c_quest]) ++ state).
    rewrite skipn_app, skipn_all, Nat.sub_diag. reflexivity.
  - unfold substring. rewrite Nat.sub_0_r. cbn [skipn].
    replace (S (length path) + 1)%nat with (length (c_hash :: path ++ [c_quest]))
      by (cbn [length]; rewrite length_app; cbn [length]; lia).
    change (c_hash :: path ++ c_quest :: state)
      with (c_hash :: path ++ [c_quest] ++ state).
    rewrite app_assoc.
    change (c_hash :: (path ++ [c_quest]) ++ state)
      with ((c_hash :: path ++ [c_quest]) ++ state).
    rewrite firstn_app, firstn_all, Nat.sub_diag. cbn [firstn].
    apply app_nil_r.
Qed.


Lemma state_head_obj (props : list (jsstring * value)) (tail : jsstring) :
  startsWith (stringify (Obj props) ++ tail) (js "~(") = true.
Proof. apply (startsWith_self [c_tilde; c_lparen]). Qed.

Section GenericProperties.

Variable date_parse : jsstring -> number.

(** What the generic parser does with the state it has decoded. *)
Lemma parseCloudWatchGeneric_state (fuel : nat) (now : Z)
    (path state : jsstring) (props : list (jsstring * value)) :
  forallb no_question path = true ->
  startsWith state (js "~(") = true ->
  parse fuel state = Return (Obj props) ->
  forall r,
    match lookup props (js "timeRange") with
    | Num n =>
      r = {| Parsers.c_start := Num (sub (Int now) n);
             Parsers.c_end := Num (Int now);
             Parsers.c_source := js "CloudWatch";
             Parsers.c_raw := inr (Parsers.RawDurationMs n) |}
    | Arr [a; b] =>
      r = {| Parsers.c_start := a; Parsers.c_end := b;
             Parsers.c_source := js "CloudWatch";
             Parsers.c_raw := inl RawAbsoluteArray |}
    | _ => False
    end ->
    Parsers.either_isNaN r = Return false ->
    Parsers.parseCloudWatchGeneric date_parse fuel now
      (generic_hash path state) = Return (Some r).
Proof.
  intros Hp Hs Hparse r Hr Hnan.
  destruct (generic_state_found path state Hp Hs) as [Hi [Hk _]].
  unfold Parsers.parseCloudWatchGeneric. rewrite Hi, Hk.
  destruct state as [|c0 s0]; [discriminate|].
  rewrite (tryParse_returned fuel _ _ Hparse eq_refl).
  cbn [bind truthy get].
  destruct (lookup props (js "timeRange")) as [| |b|n|s|items|ps];
    try contradiction.
  - subst r. cbn [bind]. rewrite Hnan. reflexivity.
  - destruct items as [|a [|b [|c items]]]; try contradiction.
    subst r. cbn [bind]. rewrite Hnan. reflexivity.
Qed.

(** A generic address whose state has the number [n] as its [timeRange]
    is read as the last [n] milliseconds, whether the state is followed
    by more text or lacks its closing parenthesis. *)
Theorem parseCloudWatchGeneric_relative (fuel : nat) (now n : Z)
    (path tail : jsstring) (props : list (jsstring * value)) :
  forallb no_question path = true ->
  round_trip_safe (Obj props) = true ->
  lookup props (js "timeRange") = Num (Int n) ->
  (weight (Obj props) <= fuel)%nat ->
  (0 <= now < 9007199254740992)%Z ->
  (Z.abs (now - n) < 9007199254740992)%Z ->
  let r := {| Parsers.c_start := Num (Int (now - n));
              Parsers.c_end := Num (Int now);
              Parsers.c_source := js "CloudWatch";
              Parsers.c_raw := inr (Parsers.RawDurationMs (Int n)) |} in
  Parsers.parseCloudWatchGeneric date_parse fuel now
    (generic_hash path (stringify (Obj props) ++ tail)) = Return (Some r)
  /\ Parsers.parseCloudWatchGeneric date_parse fuel now
       (generic_hash path (removelast (stringify (Obj props))))
     = Return (Some r).
Proof.
  intros Hp Hs Hl Hf _ _ r. split.
  - apply (parseCloudWatchGeneric_state fuel now path _ props Hp).
    + apply state_head_obj.
    + apply parse_container_tail; [exact Hs|exact Hf|reflexivity].
    + rewrite Hl. reflexivity.
    + reflexivity.
  - apply (parseCloudWatchGeneric_state fuel now path _ props Hp).
    + cbn [round_trip_safe] in Hs. destruct props as [|[k v] props];
        [discriminate|].
      cbn [stringify _stringify].
      match goal with
      | |- context [removelast (c_tilde :: c_lparen :: ?b ++ [c_rparen])] =>
        change (c_tilde :: c_lparen :: b ++ [c_rparen])
          with ((c_tilde :: c_lparen :: b) ++ [c_rparen])
      end.
      rewrite removelast_last. apply (startsWith_self [c_tilde; c_lparen]).
    + apply parse_open; [exact Hs|exact Hf|reflexivity|discriminate].
    + rewrite Hl. reflexivity.
    + reflexivity.
Qed.

(** Applying a range to a generic address and capturing from the address
    that was assigned gives the range that was applied, wherever the state
    has its [timeRange] and also when it has none; the other entries of
    the state are kept and what followed the state is dropped. *)
Theorem generic_apply_then_capture (fuel : nat) (now s e : Z)
    (path tail : jsstring) (props : list (jsstring * value))
    (timeRange : time_range) :
  forallb no_question path = true ->
  loose_safe props = true ->
  start timeRange = Int s -> end_ timeRange = Int e ->
  (Z.abs s < 9007199254740992)%Z -> (Z.abs e < 9007199254740992)%Z ->
  (2 * weight (Obj props) + 12 <= fuel)%nat ->
  let state' :=
    stringify (Obj (obj_set props (js "timeRange")
                      (Arr [Num (Int s); Num (Int e)]))) in
  injectCloudWatchGeneric fuel
    (generic_hash path (stringify (Obj props) ++ tail)) timeRange
  = Return (true, Some (path ++ c_quest :: state'))
  /\ Parsers.parseCloudWatchGeneric date_parse fuel now
       (generic_hash path state')
     = Return (Some {| Parsers.c_start := Num (Int s);
                       Parsers.c_end := Num (Int e);
                       Parsers.c_source := js "CloudWatch";
                       Parsers.c_raw := inl RawAbsoluteArray |}).
Proof.
  intros Hp Hs Hst Hen Hbs Hbe Hf state'.
  assert (Hv : round_trip_safe (Arr [Num (Int s); Num (Int e)]) = true).
  { cbn [round_trip_safe forallb]. apply Z.ltb_lt in Hbs, Hbe.
    rewrite Hbs, Hbe. reflexivity. }
  assert (Hs' : loose_safe (obj_set props (js "timeRange")
                              (Arr [Num (Int s); Num (Int e)])) = true)
    by (apply loose_safe_obj_set; [reflexivity|reflexivity|exact Hs|exact Hv]).
  assert (Hw : (2 * weight (Obj (obj_set props (js "timeRange")
                                    (Arr [Num (Int s); Num (Int e)])))
                <= fuel)%nat).
  { pose proof (weight_obj_set props (js "timeRange")
                  (Arr [Num (Int s); Num (Int e)]) eq_refl eq_refl).
    cbn [weight fold_right] in *. lia. }
  destruct (loose_from_entries props Hs) as [Hg He].
  split.
  - destruct (generic_state_found path (stringify (Obj props) ++ tail)
                Hp (state_head_obj _ _)) as [Hi [Hk Hx]].
    unfold injectCloudWatchGeneric. rewrite Hi. cbv zeta. rewrite Hk, Hx.
    rewrite (tryParse_loose props tail fuel Hs ltac:(lia)).
    cbn [bind truthy negb set_prop]. rewrite Hst, Hen.
    rewrite (stringify_set _ (js "timeRange")
               (Arr [Num (Int s); Num (Int e)]) Hg eq_refl eq_refl), He.
    cbn [try_catch strip_hash]. cbn [N.eqb Pos.eqb c_hash].
    rewrite <- app_assoc. reflexivity.
  - apply (parseCloudWatchGeneric_state fuel now path state'
             (loose_from []
                (obj_set props (js "timeRange")
                   (Arr [Num (Int s); Num (Int e)]))) Hp).
    + subst state'. rewrite <- (app_nil_r (stringify _)).
      apply state_head_obj.
    + subst state'. rewrite <- (app_nil_r (stringify _)).
      apply parse_loose; [exact Hs'|exact Hw].
    + assert (L : lookup
                    (loose_from []
                       (obj_set props (js "timeRange")
                          (Arr [Num (Int s); Num (Int e)])))
                    (js "timeRange")
                  = Arr [Num (Int s); Num (Int e)]).
      { transitivity (lookup (obj_set props (js "timeRange")
                                (Arr [Num (Int s); Num (Int e)]))
                        (js "timeRange"));
          [exact (get_loose _ 116 (js "imeRange") Hs')|].
        rewrite lookup_obj_set by reflexivity. reflexivity. }
      rewrite L. reflexivity.
    + reflexivity.
Qed.

End GenericProperties.

Lemma parseCloudWatchGeneric_relative_witness :
  Parsers.parseCloudWatchGeneric (fun _ => NaN) 9 1700000000000
    (js "#home:dashboards/ApplicationELB?~(timeRange~43200000)&x")
  = Return (Some {| Parsers.c_start := Num (Int 1699956800000);
                    Parsers.c_end := Num (Int 1700000000000);
                    Parsers.c_source := js "CloudWatch";
                    Parsers.c_raw :=
                      inr (Parsers.RawDurationMs (Int 43200000)) |})
  /\ Parsers.parseCloudWatchGeneric (fun _ => NaN) 9 1700000000000
       (js "#home:?~(timeRange~43200000")
     = Return (Some {| Parsers.c_start := Num (Int 1699956800000);
                       Parsers.c_end := Num (Int 1700000000000);
                       Parsers.c_source := js "CloudWatch";
                       Parsers.c_raw :=
                         inr (Parsers.RawDurationMs (Int 43200000)) |}).
Proof.
  split.
  - apply (parseCloudWatchGeneric_relative (fun _ => NaN) 9 1700000000000
             43200000 (js "home:dashboards/ApplicationELB") (js "&x")
             [(js "timeRange", Num (Int 43200000))]);
      try reflexivity; try lia; cbn; lia.
  - apply (parseCloudWatchGeneric_relative (fun _ => NaN) 9 1700000000000
             43200000 (js "home:") []
             [(js "timeRange", Num (Int 43200000))]);
      try reflexivity; try lia; cbn; lia.
Defined.

Lemma generic_apply_then_capture_witness :
  injectCloudWatchGeneric 24
    (js "#home:dashboards/ELB?~(region~'ap-northeast-1~timeRange~43200000)&x")
    sample_range
  = Return
      (true,
       Some (js "home:dashboards/ELB?~(region~'ap-northeast-1~timeRange~(~1700000000000~1700003600000))"))
  /\ Parsers.parseCloudWatchGeneric (fun _ => NaN) 24 1800000000000
       (js "#home:dashboards/ELB?~(region~'ap-northeast-1~timeRange~(~1700000000000~1700003600000))")
     = Return (Some {| Parsers.c_start := Num (Int 1700000000000);
                       Parsers.c_end := Num (Int 1700003600000);
                       Parsers.c_source := js "CloudWatch";
                       Parsers.c_raw := inl RawAbsoluteArray |}).
Proof.
  apply (generic_apply_then_capture (fun _ => NaN) 24 1800000000000
           1700000000000 1700003600000 (js "home:dashboards/ELB") (js "&x")
           [(js "region", Str (js "ap-northeast-1"));
            (js "timeRange", Num (Int 43200000))]
           sample_range);
    try reflexivity. cbn. lia.
Defined.

(** ** Relative ranges of the Metrics and the X-Ray scheme *)

Lemma strip_minus_duration (h m s : option N) :
  Parsers.strip_minus (c_minus :: duration_text h m s) = duration_text h m s.
Proof. reflexivity. Qed.

Lemma relativeToAbsolute_text (now : Z) (h m s : option N) (text : jsstring) :
  Parsers.strip_minus text = duration_text h m s ->
  duration_ms h m s <> 0%Z ->
  Parsers.relativeToAbsolute now (Str text)
  = Return (Some (Int (now - duration_ms h m s), Int now)).
Proof.
  intros Ht Hz. unfold Parsers.relativeToAbsolute.
  rewrite Ht, parseDuration_text. cbn [truthy].
  destruct (Z.eqb_spec (duration_ms h m s) 0) as [E|E]; [contradiction|].
  reflexivity.
Qed.

Lemma includes_absent (s : jsstring) (x : char) :
  forallb (fun c => negb (c =? x)) s = true -> includes s [x] = false.
Proof.
  induction s as [|c s IH]; [reflexivity|].
  cbn [forallb]. intros H. apply andb_true_iff in H. destruct H as [Hc H].
  apply negb_true_iff in Hc.
  cbn [includes startsWith]. rewrite N.eqb_sym, Hc, (IH H). reflexivity.
Qed.

Lemma digits_no_tilde (s : jsstring) :
  forallb is_digit s = true ->
  forallb (fun c => negb (c =? c_tilde)) s = true.
Proof.
  intros H. apply forallb_forall. intros c Hc.
  apply (proj1 (forallb_forall _ _) H) in Hc.
  unfold is_digit in Hc. apply andb_true_iff in Hc. destruct Hc as [H1 H2].
  apply N.leb_le in H1. apply N.leb_le in H2.
  apply negb_true_iff. apply N.eqb_neq. unfold c_tilde. lia.
Qed.

Lemma duration_part_no_tilde (n : option N) (letter : char) :
  (letter =? c_tilde) = false ->
  forallb (fun c => negb (c =? c_tilde)) (duration_part n letter) = true.
Proof.
  intros Hl. destruct n as [k|]; [|reflexivity].
  unfold duration_part. rewrite forallb_app. cbn [forallb]. rewrite Hl.
  destruct (decimal_of_N k) as [d [ds [E Hd]]]. rewrite E.
  apply andb_true_iff. split; [exact (digits_no_tilde _ Hd)|reflexivity].
Qed.

Lemma duration_text_no_tilde (h m s : option N) :
  includes (duration_text h m s) (js "~") = false.
Proof.
  apply (includes_absent _ c_tilde). unfold duration_text.
  rewrite !forallb_app, !duration_part_no_tilde by reflexivity. reflexivity.
Qed.

Lemma duration_text_head (h m s : option N) :
  exists r, duration_text h m s = 80 :: r.
Proof. eexists. reflexivity. Qed.

Section RelativeProperties.

Variable date_parse : jsstring -> number.

(** A Metrics address whose graph has a start of the form [-PT..] (and
    some end) is read as the range of that duration before now; the graph
    may have later keys that begin like a word ([title], [timezone]). *)
Theorem parseCloudWatchMetrics_relative (fuel : nat) (now : Z)
    (hash pre post : jsstring) (props : list (jsstring * value))
    (h m s : option N) :
  search (re_param false (js "graph=") not_amp_semi true) hash
  = Some (pre, js "graph=" ++ stringify (Obj props),
          [stringify (Obj props)], post) ->
  loose_safe props = true ->
  (2 * weight (Obj props) <= fuel)%nat ->
  lookup props (js "start") = Str (c_minus :: duration_text h m s) ->
  truthy (lookup props (js "end")) = true ->
  (0 < duration_ms h m s < now)%Z ->
  Parsers.parseCloudWatchMetrics date_parse fuel now hash
  = Return (Some {| Parsers.c_start := Num (Int (now - duration_ms h m s));
                    Parsers.c_end := Num (Int now);
                    Parsers.c_source := js "CloudWatch Metrics";
                    Parsers.c_raw :=
                      inr (Parsers.RawDuration
                             (Str (c_minus :: duration_text h m s))) |}).
Proof.
  intros Hm Hs Hf Hstart Hend Hms.
  unfold Parsers.parseCloudWatchMetrics. rewrite Hm. cbn [group1 nth].
  rewrite <- (app_nil_r (stringify (Obj props))).
  rewrite (tryParse_loose props [] fuel Hs Hf).
  cbn [bind truthy negb get]. cbv zeta.
  assert (L1 : lookup (loose_from [] props) (js "start")
               = lookup props (js "start"))
    by exact (get_loose props 115 (js "tart") Hs).
  assert (L2 : lookup (loose_from [] props) (js "end")
               = lookup props (js "end"))
    by exact (get_loose props 101 (js "nd") Hs).
  rewrite L1, L2, Hstart, Hend.
  change (truthy (Str (c_minus :: duration_text h m s))) with true.
  cbn [andb].
  change (startsWith (c_minus :: duration_text h m s) (js "-P")) with true.
  cbv iota.
  rewrite (relativeToAbsolute_text now h m s _ (strip_minus_duration h m s))
    by lia.
  cbn [bind Parsers.c_start Parsers.c_end truthy].
  destruct (Z.eqb_spec (now - duration_ms h m s) 0) as [E|E]; [lia|].
  destruct (Z.eqb_spec now 0) as [E'|E']; [lia|].
  reflexivity.
Qed.

(** An X-Ray address whose query gives a duration as its [timeRange] is
    read as the range of that duration before now, whatever the fragment
    holds. *)
Theorem parseXRay_relative (now : Z) (query hash : jsstring)
    (h m s : option N) :
  Parsers.searchParams_get (parse_query query) (js "timeRange")
  = Some (duration_text h m s) ->
  (0 < duration_ms h m s < 9007199254740992)%Z ->
  (0 <= now < 9007199254740992)%Z ->
  Parsers.parseXRay date_parse now query hash
  = Return (Some {| Parsers.c_start := Num (Int (now - duration_ms h m s));
                    Parsers.c_end := Num (Int now);
                    Parsers.c_source := js "X-Ray";
                    Parsers.c_raw :=
                      inr (Parsers.RawDuration (Str (duration_text h m s))) |}).
Proof.
  intros Hq Hms _. unfold Parsers.parseXRay. rewrite Hq.
  destruct (duration_text_head h m s) as [r Hr].
  pose proof (duration_text_no_tilde h m s) as Hn.
  pose proof (relativeToAbsolute_text now h m s (duration_text h m s)) as Hrel.
  remember (duration_text h m s) as text eqn:Et.
  destruct text as [|c v]; [discriminate|].
  cbv beta iota zeta. rewrite Hn.
  rewrite Hrel; [reflexivity|rewrite Hr; reflexivity|lia].
Qed.

End RelativeProperties.

Lemma parseCloudWatchMetrics_relative_witness :
  Parsers.parseCloudWatchMetrics (fun _ => NaN) 14 1700000000000 metrics_hash
  = Return (Some {| Parsers.c_start := Num (Int 1699989200000);
                    Parsers.c_end := Num (Int 1700000000000);
                    Parsers.c_source := js "CloudWatch Metrics";
                    Parsers.c_raw :=
                      inr (Parsers.RawDuration (Str (js "-PT3H"))) |}).
Proof.
  apply (parseCloudWatchMetrics_relative (fun _ => NaN) 14 1700000000000
           metrics_hash (js "#metricsV2:") (js ";query=x")
           [(js "start", Str (js "-PT3H")); (js "end", Str (js "P0D"));
            (js "region", Str (js "ap-northeast-1"))]
           (Some 3) None None);
    try reflexivity; cbn; lia.
Defined.

Lemma parseXRay_relative_witness :
  Parsers.parseXRay (fun _ => NaN) 1700000000000
    (js "region=us-east-1&timeRange=PT1H30M") (js "#/traces")
  = Return (Some {| Parsers.c_start := Num (Int 1699994600000);
                    Parsers.c_end := Num (Int 1700000000000);
                    Parsers.c_source := js "X-Ray";
                    Parsers.c_raw :=
                      inr (Parsers.RawDuration (Str (js "PT1H30M"))) |}).
Proof.
  apply (parseXRay_relative (fun _ => NaN) 1700000000000
           (js "region=us-east-1&timeRange=PT1H30M") (js "#/traces")
           (Some 1) (Some 30) None).
  - reflexivity.
  - cbn. lia.
  - lia.
Defined.

(** ** Log Events: capturing what was applied *)

(** *** Searching past a prefix *)

Lemma search_skip (m : matcher) (pre s : jsstring) :
  (forall c r, In c pre -> m (c :: r) = None) ->
  search m (pre ++ s)
  = match search m s with
    | Some (p, matched, caps, post) => Some (pre ++ p, matched, caps, post)
    | None => None
    end.
Proof.
  intros H. induction pre as [|c pre IH].
  - cbn [app]. destruct (search m s) as [[[[p x] y] z]|]; reflexivity.
  - cbn [app search]. rewrite (H c (pre ++ s) (or_introl eq_refl)).
    rewrite IH by (intros c' r Hc; apply H; right; exact Hc).
    destruct (search m s) as [[[[p x] y] z]|]; reflexivity.
Qed.

Lemma search_miss (m : matcher) (c : char) (s : jsstring) :
  m (c :: s) = None ->
  search m (c :: s)
  = match search m s with
    | Some (p, matched, caps, post) => Some (c :: p, matched, caps, post)
    | None => None
    end.
Proof. intros H. cbn [search]. rewrite H. reflexivity. Qed.

Lemma re_lit_int_miss (x c : char) (lit r : jsstring) (capture : bool) :
  (upper x =? upper c) = false ->
  re_lit_int true (x :: lit) capture (c :: r) = None.
Proof.
  intros H. unfold re_lit_int, match_lit. cbn [startsWith_ci].
  rewrite H. reflexivity.
Qed.

Lemma re_sep_lit_int_miss (cls : char -> bool) (c : char)
    (lit r : jsstring) (capture : bool) :
  cls c = false -> re_sep_lit_int cls lit capture (c :: r) = None.
Proof.
  intros H. unfold re_sep_lit_int, match_one. rewrite H. reflexivity.
Qed.

Lemma upper_dollar (c : char) : (c =? c_dollar) = false ->
  (upper c_dollar =? upper c) = false.
Proof.
  intros H. apply N.eqb_neq in H. apply N.eqb_neq.
  unfold upper, c_dollar in *. cbn [N.leb N.compare Pos.compare andb].
  change (97 <=? 36) with false. cbn [andb].
  destruct ((97 <=? c) && (c <=? 122)) eqn:E; [|congruence].
  apply andb_true_iff in E. destruct E as [E1 E2].
  apply N.leb_le in E1. apply N.leb_le in E2. lia.
Qed.

(** *** Numbers in an address *)

Lemma span_stop (cls : char -> bool) (a rest : jsstring) :
  forallb cls a = true ->
  match rest with [] => true | c :: _ => negb (cls c) end = true ->
  span cls (a ++ rest) = (a, rest).
Proof.
  intros Ha Hr. destruct rest as [|c rest].
  - rewrite app_nil_r. apply span_all. exact Ha.
  - apply span_run; [exact Ha|]. apply negb_true_iff. exact Hr.
Qed.

Lemma match_int_number (z : Z) (rest : jsstring) :
  number_end rest = true ->
  match_int (string_of_Z z ++ rest) = Some (string_of_Z z, rest).
Proof.
  intros Hr. unfold match_int. destruct z as [|p|p].
  - cbn [string_of_Z app]. change (48 =? c_minus) with false. cbv iota.
    pose proof (span_stop is_digit [48] rest eq_refl Hr) as Hsp.
    cbn [app] in Hsp. rewrite Hsp. reflexivity.
  - cbn [string_of_Z].
    pose proof (chars_of_uint_digits (Pos.to_uint p)) as Hd.
    destruct (to_uint_head p) as [d [ds [E Hdig]]]. rewrite E in *.
    cbn [app]. destruct (digit_not_sign d Hdig) as [-> _].
    pose proof (span_stop is_digit (d :: ds) rest Hd Hr) as Hsp.
    cbn [app] in Hsp. rewrite Hsp. reflexivity.
  - cbn [string_of_Z app]. rewrite N.eqb_refl.
    pose proof (chars_of_uint_digits (Pos.to_uint p)) as Hd.
    destruct (to_uint_head p) as [d [ds [E Hdig]]]. rewrite E in *.
    rewrite (span_stop is_digit (d :: ds) rest Hd Hr). reflexivity.
Qed.

Lemma number_chars (z : Z) (c : char) :
  In c (string_of_Z z) -> is_digit c = true \/ c = c_minus.
Proof.
  assert (H : forall u, In c (chars_of_uint u) -> is_digit c = true).
  { intros u Hin.
    apply (proj1 (forallb_forall _ _) (chars_of_uint_digits u) c Hin). }
  destruct z as [|p|p]; cbn [string_of_Z In].
  - intros [<-|[]]. left; reflexivity.
  - intros Hin. left. apply H with (u := Pos.to_uint p). exact Hin.
  - intros [<-|Hin]; [right; reflexivity|].
    left. apply H with (u := Pos.to_uint p). exact Hin.
Qed.

Lemma number_char_cases (z : Z) (c : char) (P : char -> Prop) :
  (forall d, is_digit d = true -> P d) -> P c_minus ->
  In c (string_of_Z z) -> P c.
Proof.
  intros Hd Hm Hin. destruct (number_chars z c Hin) as [H| ->]; auto.
Qed.

Lemma digit_bounds (d : char) : is_digit d = true -> 48 <= d <= 57.
Proof.
  unfold is_digit. intros H. apply andb_true_iff in H. destruct H as [H1 H2].
  apply N.leb_le in H1. apply N.leb_le in H2. lia.
Qed.

(** *** Replacement texts *)

Lemma no_group (n : nat) (b : bool) :
  b && (1 <=? n)%nat && (n <=? 0)%nat = false.
Proof. destruct n, b; reflexivity. Qed.

Lemma expand_plain (t matched pre post : jsstring) :
  plain_template t = true -> expand t matched pre post [] = t.
Proof.
  induction t as [|c t1 IH]; [reflexivity|].
  cbn [plain_template]. intros H. apply andb_true_iff in H.
  destruct H as [Hc Ht]. specialize (IH Ht).
  cbn [expand]. destruct (N.eqb_spec c c_dollar) as [->|Hn];
    [|rewrite IH; reflexivity].
  destruct t1 as [|d t2]; [reflexivity|].
  cbn [andb] in Hc.
  apply negb_true_iff in Hc.
  apply orb_false_iff in Hc. destruct Hc as [Hc H4].
  apply orb_false_iff in Hc. destruct Hc as [Hc H3].
  apply orb_false_iff in Hc. destruct Hc as [H1 H2].
  rewrite H1, H2, H3, H4. cbn [length].
  pose proof (no_group (N.to_nat (d - 48)) true) as G1. cbn [andb] in G1.
  rewrite G1, IH.
  destruct (is_digit d); [|reflexivity].
  destruct t2 as [|e t3]; [reflexivity|].
  rewrite no_group. reflexivity.
Qed.

Lemma plain_template_cons (c : char) (t : jsstring) :
  (c =? c_dollar) = false -> plain_template (c :: t) = plain_template t.
Proof.
  intros H. cbn [plain_template]. rewrite H. destruct t; reflexivity.
Qed.

Lemma plain_template_no_dollar (t : jsstring) :
  forallb no_dollar t = true -> plain_template t = true.
Proof.
  induction t as [|c t IH]; [reflexivity|].
  cbn [forallb]. intros H. apply andb_true_iff in H. destruct H as [Hc H].
  apply negb_true_iff in Hc. rewrite (plain_template_cons c t Hc).
  apply IH. exact H.
Qed.

Lemma number_no_dollar (z : Z) : forallb no_dollar (string_of_Z z) = true.
Proof.
  apply forallb_forall. intros c Hin.
  apply (number_char_cases z c (fun c => no_dollar c = true)); try exact Hin.
  - intros d Hd. apply digit_bounds in Hd. unfold no_dollar.
    apply negb_true_iff. apply N.eqb_neq. unfold c_dollar. lia.
  - reflexivity.
Qed.

(** *** Replacing every occurrence *)

Lemma skipn_length_le {A} (n : nat) (l : list A) :
  (length (skipn n l) <= length l)%nat.
Proof. rewrite length_skipn. lia. Qed.

Lemma replace_all_ci_enough (x : char) (lit by_ : jsstring) (n m : nat) :
  forall s, (length s <= n)%nat -> (length s <= m)%nat ->
  replace_all_ci n (x :: lit) by_ s = replace_all_ci m (x :: lit) by_ s.
Proof.
  revert m. induction n as [|n IH]; intros m s Hn Hm.
  - destruct s; [|cbn in Hn; lia]. destruct m; reflexivity.
  - destruct s as [|c s]; [destruct m; reflexivity|].
    destruct m as [|m]; [cbn in Hm; lia|].
    cbn [length] in Hn, Hm. cbn [replace_all_ci].
    destruct (startsWith_ci (c :: s) (x :: lit)).
    + f_equal. cbn [length skipn].
      pose proof (skipn_length_le (length lit) s).
      apply IH; lia.
    + f_equal. apply IH; lia.
Qed.

Lemma replace_all_miss (x c : char) (lit by_ s : jsstring) :
  startsWith_ci (c :: s) (x :: lit) = false ->
  replace_all_ci (length (c :: s)) (x :: lit) by_ (c :: s)
  = c :: replace_all_ci (length s) (x :: lit) by_ s.
Proof. intros H. cbn [length replace_all_ci]. rewrite H. reflexivity. Qed.

Lemma replace_all_hit (x c : char) (lit by_ s : jsstring) :
  startsWith_ci (c :: s) (x :: lit) = true ->
  replace_all_ci (length (c :: s)) (x :: lit) by_ (c :: s)
  = by_ ++ replace_all_ci (length (skipn (length lit) s)) (x :: lit) by_
             (skipn (length lit) s).
Proof.
  intros H. cbn [length replace_all_ci]. rewrite H. cbn [skipn]. f_equal.
  apply replace_all_ci_enough; [|apply le_n].
  apply skipn_length_le.
Qed.

Lemma replace_all_plain (x : char) (lit by_ pre s : jsstring) :
  forallb no_dollar pre = true -> x = c_dollar ->
  replace_all_ci (length (pre ++ s)) (x :: lit) by_ (pre ++ s)
  = pre ++ replace_all_ci (length s) (x :: lit) by_ s.
Proof.
  intros H ->. induction pre as [|c pre IH]; [reflexivity|].
  cbn [forallb] in H. apply andb_true_iff in H. destruct H as [Hc H].
  apply negb_true_iff in Hc.
  change ((c :: pre) ++ s) with (c :: pre ++ s).
  rewrite replace_all_miss; [rewrite (IH H); reflexivity|].
  cbn [startsWith_ci]. rewrite (upper_dollar c Hc). reflexivity.
Qed.

Lemma replace_all_none (x : char) (lit by_ s : jsstring) :
  forallb no_dollar s = true -> x = c_dollar ->
  replace_all_ci (length s) (x :: lit) by_ s = s.
Proof.
  intros H Hx. pose proof (replace_all_plain x lit by_ s [] H Hx) as E.
  rewrite !app_nil_r in E. exact E.
Qed.

Lemma log_events_path_cases (c : char) (rest : jsstring) :
  log_events_path (c :: rest) = true ->
  log_events_path rest = true
  /\ ((c =? c_dollar) = false /\ quest_or_amp c = false
      \/ exists r, c = c_dollar /\ rest = 50 :: 53 :: r).
Proof.
  cbn [log_events_path]. intros H. apply andb_true_iff in H.
  destruct H as [Hc H]. split; [exact H|].
  destruct (c =? c_dollar) eqn:E.
  - right. apply N.eqb_eq in E.
    change (js "25") with [50; 53] in Hc.
    destruct rest as [|x [|y r]]; cbn [startsWith] in Hc;
      [discriminate|rewrite andb_false_r in Hc; discriminate|].
    apply andb_true_iff in Hc. destruct Hc as [Hx Hy].
    apply andb_true_iff in Hy. destruct Hy as [Hy _].
    apply N.eqb_eq in Hx. apply N.eqb_eq in Hy. subst. exists r.
    split; reflexivity.
  - left. split; [reflexivity|]. apply negb_true_iff. exact Hc.
Qed.

Lemma search_path (m : matcher) (path s : jsstring) :
  log_events_path path = true ->
  (forall c r, (c =? c_dollar) = false -> quest_or_amp c = false ->
               m (c :: r) = None) ->
  (forall r, m (c_dollar :: 50 :: 53 :: r) = None) ->
  search m (path ++ s)
  = match search m s with
    | Some (p, matched, caps, post) => Some (path ++ p, matched, caps, post)
    | None => None
    end.
Proof.
  intros Hp H1 H2. induction path as [|c path IH].
  - cbn [app]. destruct (search m s) as [[[[p x] y] z]|]; reflexivity.
  - apply log_events_path_cases in Hp. destruct Hp as [Hp Hc].
    change ((c :: path) ++ s) with (c :: path ++ s).
    rewrite search_miss.
    + rewrite (IH Hp).
      destruct (search m s) as [[[[p x] y] z]|]; reflexivity.
    + destruct Hc as [[Hd Hq]|[r [-> ->]]]; [apply H1; assumption|].
      apply H2.
Qed.

Lemma replace_all_path (lit by_ path s : jsstring) :
  log_events_path path = true ->
  (forall r, startsWith_ci (c_dollar :: 50 :: 53 :: r) (c_dollar :: lit)
             = false) ->
  replace_all_ci (length (path ++ s)) (c_dollar :: lit) by_ (path ++ s)
  = path ++ replace_all_ci (length s) (c_dollar :: lit) by_ s.
Proof.
  intros Hp H. induction path as [|c path IH]; [reflexivity|].
  apply log_events_path_cases in Hp. destruct Hp as [Hp Hc].
  change ((c :: path) ++ s) with (c :: path ++ s).
  rewrite replace_all_miss; [rewrite (IH Hp); reflexivity|].
  destruct Hc as [[Hd Hq]|[r [-> ->]]]; [|apply H].
  cbn [startsWith_ci]. rewrite (upper_dollar c Hd). reflexivity.
Qed.

Lemma number_end_replace_all (n : nat) (lit s : jsstring) (c : char) :
  is_digit c = false -> number_end s = true ->
  number_end (replace_all_ci n lit [c] s) = true.
Proof.
  intros Hc Hs. destruct n as [|n]; [exact Hs|].
  destruct s as [|x s]; [reflexivity|]. cbn [replace_all_ci].
  destruct (startsWith_ci (x :: s) lit); [|exact Hs].
  cbn [app number_end]. rewrite Hc. reflexivity.
Qed.

Lemma replace_all_hit3 (x y z c c2 c3 : char) (by_ s : jsstring) :
  startsWith_ci [c; c2; c3] [x; y; z] = true ->
  replace_all_ci (length (c :: c2 :: c3 :: s)) [x; y; z] by_
    (c :: c2 :: c3 :: s)
  = by_ ++ replace_all_ci (length s) [x; y; z] by_ s.
Proof.
  intros H. rewrite replace_all_hit.
  - reflexivity.
  - cbn [startsWith_ci] in H |- *.
    destruct (upper x =? upper c); [|discriminate].
    destruct (upper y =? upper c2); [|discriminate].
    destruct (upper z =? upper c3); [|discriminate].
    destruct s; reflexivity.
Qed.

Ltac replace_all_steps :=
  repeat first
    [ rewrite replace_all_hit3 by reflexivity
    | rewrite replace_all_miss by reflexivity
    | rewrite replace_all_plain by (assumption || reflexivity)
    | rewrite replace_all_path by (assumption || (intros; reflexivity)) ];
  cbn [app].

(** The fragment of a Log Events address with its delimiters decoded. *)
Lemma normalize_log_events (path tail : jsstring) (a b : Z) :
  log_events_path path = true -> number_end tail = true ->
  exists tail',
    normalize (c_hash :: log_events_fragment path a b tail)
    = c_hash :: path ++ js "?start=" ++ string_of_Z a ++ js "&end="
      ++ string_of_Z b ++ tail'
    /\ number_end tail' = true.
Proof.
  intros Hp Ht.
  pose proof (number_no_dollar a) as Ha. pose proof (number_no_dollar b) as Hb.
  unfold normalize, log_events_fragment.
  change (js "$3Fstart$3D")
    with [36; 51; 70; 115; 116; 97; 114; 116; 36; 51; 68].
  change (js "$26end$3D") with [36; 50; 54; 101; 110; 100; 36; 51; 68].
  change (js "$3F") with [c_dollar; 51; 70].
  change (js "$3D") with [c_dollar; 51; 68].
  change (js "$26") with [c_dollar; 50; 54].
  change (js "?start=") with [63; 115; 116; 97; 114; 116; 61].
  change (js "&end=") with [38; 101; 110; 100; 61].
  change (js "?") with [63]. change (js "=") with [61].
  change (js "&") with [38].
  cbn [app].
  replace_all_steps.
  eexists. split; [reflexivity|].
  repeat (apply number_end_replace_all; [reflexivity|]). exact Ht.
Qed.

(** *** The two directions on a Log Events address *)

Lemma startsWith_ci_self (p rest : jsstring) :
  startsWith_ci (p ++ rest) p = true.
Proof.
  induction p as [|x p IH]; [destruct rest; reflexivity|].
  cbn [app startsWith_ci]. rewrite N.eqb_refl, IH. reflexivity.
Qed.

Lemma search_hit (m : matcher) (s matched rest : jsstring) caps :
  m s = Some (matched, caps, rest) ->
  search m s = Some ([], matched, caps, rest).
Proof. intros H. destruct s; cbn [search]; rewrite H; reflexivity. Qed.

Lemma number_not_separator (z : Z) (c : char) :
  In c (string_of_Z z) ->
  (c =? c_dollar) = false /\ quest_or_amp c = false.
Proof.
  apply (number_char_cases z c
           (fun c => (c =? c_dollar) = false /\ quest_or_amp c = false)).
  - intros d Hd. apply digit_bounds in Hd. unfold quest_or_amp.
    split; [|apply orb_false_iff; split]; apply N.eqb_neq;
      unfold c_dollar, c_quest, c_amp; lia.
  - split; reflexivity.
Qed.

Lemma includes_here (pre p rest : jsstring) :
  includes (pre ++ p ++ rest) p = true.
Proof.
  induction pre as [|c pre IH].
  - cbn [app]. destruct (p ++ rest) eqn:E; cbn [includes];
      rewrite <- E, startsWith_self; reflexivity.
  - cbn [app includes]. rewrite IH. apply orb_true_r.
Qed.

Lemma number_end_dollar (s : jsstring) : number_end (c_dollar :: s) = true.
Proof. reflexivity. Qed.

Lemma number_template (lit : jsstring) (z : Z) :
  plain_template (lit ++ [48]) = true ->
  plain_template (lit ++ string_of_Z z) = true.
Proof.
  intros H. pose proof (plain_template_no_dollar _ (number_no_dollar z)) as Hz.
  destruct (string_of_Z_head z) as [c [r [E Hc]]]. rewrite E in *.
  assert (Hd : (c =? c_dollar) = false /\ (c =? c_amp) = false
               /\ (c =? 96) = false /\ (c =? c_quote) = false).
  { destruct Hc as [Hc| ->]; [|repeat split; reflexivity].
    apply digit_bounds in Hc.
    repeat split; apply N.eqb_neq; unfold c_dollar, c_amp, c_quote; lia. }
  destruct Hd as [D1 [D2 [D3 D4]]].
  induction lit as [|x lit IH]; [exact Hz|].
  cbn [app plain_template] in H |- *.
  apply andb_true_iff in H. destruct H as [Hx H].
  rewrite (IH H), andb_true_r.
  destruct lit as [|y lit]; [|exact Hx].
  cbn [app]. rewrite D1, D2, D3, D4. cbn [orb]. rewrite andb_false_r.
  reflexivity.
Qed.

(** Applying a range to a Log Events address in the spelling with dollar
    signs, and capturing from the address that was assigned, gives the
    range that was applied, when the range does not start before 1970
    (a negative start would be read as relative). *)
Theorem log_events_apply_then_capture (now s e a b : Z)
    (path tail : jsstring) (timeRange : time_range) :
  log_events_path path = true ->
  number_end tail = true ->
  start timeRange = Int s -> end_ timeRange = Int e ->
  (0 <= s < 9007199254740992)%Z ->
  (Z.abs e < 9007199254740992)%Z ->
  injectCloudWatchLogs (c_hash :: log_events_fragment path a b tail) timeRange
  = Return (true, Some (log_events_fragment path s e tail))
  /\ parseCloudWatchLogs now (c_hash :: log_events_fragment path s e tail)
     = Some {| start := Int s; end_ := Int e;
               source := js "CloudWatch Logs"; raw := RawAbsolute |}.
Proof.
  intros Hp Hn Hs He Hsb _.
  assert (Hh : log_events_path (c_hash :: path) = true) by exact Hp.
  assert (Hnum : forall z cap lit c r,
             In c (string_of_Z z) ->
             re_lit_int true (c_dollar :: lit) cap (c :: r) = None).
  { intros z cap lit c r Hin. apply re_lit_int_miss. apply upper_dollar.
    apply (number_not_separator z c Hin). }
  split.
  - (* the injector *)
    unfold injectCloudWatchLogs. rewrite Hs, He. cbn [number_to_string].
    assert (Hu : includes (c_hash :: log_events_fragment path a b tail)
                   (js "$3F") = true).
    { unfold log_events_fragment.
      change (js "$3Fstart$3D") with (js "$3F" ++ js "start$3D").
      rewrite <- app_assoc.
      apply (includes_here (c_hash :: path) (js "$3F")). }
    rewrite Hu. cbn [orb]. cbv zeta.
    (* the start parameter *)
    assert (S1 : search (re_lit_int true (js "$3Fstart$3D") false)
                   (c_hash :: log_events_fragment path a b tail)
                 = Some (c_hash :: path, js "$3Fstart$3D" ++ string_of_Z a, [],
                         js "$26end$3D" ++ string_of_Z b ++ tail)).
    { unfold log_events_fragment.
      change (c_hash :: path ++ ?x) with ((c_hash :: path) ++ x).
      rewrite (search_path _ _ _ Hh);
        [|intros c r Hd _; apply re_lit_int_miss, upper_dollar, Hd
         |intros r; reflexivity].
      erewrite search_hit; [rewrite app_nil_r; reflexivity|].
      unfold re_lit_int, match_lit.
      rewrite (startsWith_ci_self (js "$3Fstart$3D")).
      change (length (js "$3Fstart$3D")) with 11%nat.
      change (skipn 11 (js "$3Fstart$3D" ++ ?x)) with x.
      change (firstn 11 (js "$3Fstart$3D" ++ ?x)) with (js "$3Fstart$3D").
      rewrite match_int_number by reflexivity. reflexivity. }
    assert (M1 : matches (re_lit_int true (js "$3Fstart$3D") false)
                   (c_hash :: log_events_fragment path a b tail) = true)
      by (unfold matches; rewrite S1; reflexivity).
    assert (R1 : replace (re_lit_int true (js "$3Fstart$3D") false)
                   (js "$3Fstart$3D" ++ string_of_Z s)
                   (c_hash :: log_events_fragment path a b tail)
                 = (c_hash :: path)
                   ++ (js "$3Fstart$3D" ++ string_of_Z s)
                   ++ js "$26end$3D" ++ string_of_Z b ++ tail).
    { unfold replace. rewrite S1.
      rewrite expand_plain by (apply number_template; reflexivity).
      reflexivity. }
    rewrite M1, R1.
    (* the end parameter *)
    assert (S2 : search (re_lit_int true (js "$26end$3D") false)
                   ((c_hash :: path)
                    ++ (js "$3Fstart$3D" ++ string_of_Z s)
                    ++ js "$26end$3D" ++ string_of_Z b ++ tail)
                 = Some ((c_hash :: path) ++ js "$3Fstart$3D" ++ string_of_Z s,
                         js "$26end$3D" ++ string_of_Z b, [], tail)).
    { rewrite (search_path _ _ _ Hh);
        [|intros c r Hd _; apply re_lit_int_miss, upper_dollar, Hd
         |intros r; reflexivity].
      rewrite <- app_assoc.
      change (js "$3Fstart$3D" ++ ?x)
        with (36 :: 51 :: 70 :: 115 :: 116 :: 97 :: 114 :: 116 :: 36 :: 51
              :: 68 :: x).
      do 11 (rewrite search_miss by reflexivity).
      rewrite search_skip by (intros c r Hin; apply (Hnum s); exact Hin).
      erewrite search_hit; [rewrite app_nil_r; reflexivity|].
      unfold re_lit_int, match_lit.
      rewrite (startsWith_ci_self (js "$26end$3D")).
      change (length (js "$26end$3D")) with 9%nat.
      change (skipn 9 (js "$26end$3D" ++ ?x)) with x.
      change (firstn 9 (js "$26end$3D" ++ ?x)) with (js "$26end$3D").
      rewrite match_int_number by exact Hn. reflexivity. }
    unfold matches. rewrite S2. cbv iota.
    unfold replace. rewrite S2.
    rewrite expand_plain by (apply number_template; reflexivity).
    cbn [try_catch app strip_hash]. rewrite N.eqb_refl.
    unfold log_events_fragment.
    rewrite <- !app_assoc. reflexivity.
  - (* the parser *)
    unfold parseCloudWatchLogs.
    destruct (normalize_log_events path tail s e Hp Hn) as [tail' [-> Hn']].
    assert (Hsepn : forall z lit cap c r,
               In c (string_of_Z z) ->
               re_sep_lit_int quest_or_amp lit cap (c :: r) = None).
    { intros z lit cap c r Hin. apply re_sep_lit_int_miss.
      apply (number_not_separator z c Hin). }
    assert (P1 : search (re_sep_lit_int quest_or_amp (js "start=") true)
                   ((c_hash :: path) ++ js "?start=" ++ string_of_Z s
                    ++ js "&end=" ++ string_of_Z e ++ tail')
                 = Some ((c_hash :: path) ++ [],
                         js "?start=" ++ string_of_Z s, [string_of_Z s],
                         js "&end=" ++ string_of_Z e ++ tail')).
    { rewrite (search_path _ _ _ Hh);
        [|intros c r _ Hq; apply re_sep_lit_int_miss, Hq
         |intros r; reflexivity].
      erewrite search_hit; [reflexivity|].
      unfold re_sep_lit_int.
      change (js "?start=" ++ ?x)
        with (63 :: 115 :: 116 :: 97 :: 114 :: 116 :: 61 :: x).
      cbn [match_one quest_or_amp N.eqb Pos.eqb orb c_quest c_amp].
      unfold match_lit.
      change (startsWith (115 :: 116 :: 97 :: 114 :: 116 :: 61 :: ?x)
                (js "start=")) with (startsWith (js "start=" ++ x) (js "start=")).
      rewrite startsWith_self.
      change (length (js "start=")) with 6%nat. cbn [skipn firstn].
      rewrite match_int_number by reflexivity. reflexivity. }
    assert (P2 : search (re_sep_lit_int quest_or_amp (js "end=") true)
                   ((c_hash :: path) ++ js "?start=" ++ string_of_Z s
                    ++ js "&end=" ++ string_of_Z e ++ tail')
                 = Some ((c_hash :: path) ++ js "?start=" ++ string_of_Z s,
                         js "&end=" ++ string_of_Z e, [string_of_Z e], tail')).
    { rewrite (search_path _ _ _ Hh);
        [|intros c r _ Hq; apply re_sep_lit_int_miss, Hq
         |intros r; reflexivity].
      change (js "?start=" ++ ?x)
        with (63 :: 115 :: 116 :: 97 :: 114 :: 116 :: 61 :: x).
      do 7 (rewrite search_miss by reflexivity).
      rewrite search_skip by (intros c r Hin; apply (Hsepn s); exact Hin).
      erewrite search_hit; [rewrite app_nil_r; reflexivity|].
      unfold re_sep_lit_int.
      change (js "&end=" ++ ?x) with (38 :: 101 :: 110 :: 100 :: 61 :: x).
      cbn [match_one quest_or_amp N.eqb Pos.eqb orb c_quest c_amp].
      unfold match_lit.
      change (startsWith (101 :: 110 :: 100 :: 61 :: ?x) (js "end="))
        with (startsWith (js "end=" ++ x) (js "end=")).
      rewrite startsWith_self.
      change (length (js "end=")) with 4%nat. cbn [skipn firstn].
      rewrite match_int_number by exact Hn'. reflexivity. }
    change (c_hash :: path ++ ?x) with ((c_hash :: path) ++ x).
    rewrite P1. cbv zeta. rewrite P2. cbn [group1 nth].
    rewrite !parseInt_string_of_Z. cbn [lt].
    destruct (Z.ltb_spec s 0) as [Hneg|_]; [lia|].
    reflexivity.
Qed.

Lemma log_events_apply_then_capture_witness :
  injectCloudWatchLogs
    (c_hash :: log_events_fragment
                 (js "logsV2:log-groups/log-group/$252Faws$252Flambda/log-events/main")
                 1600000000000 1600000060000 (js "$26filterPattern$3DERROR"))
    sample_range
  = Return (true,
            Some (log_events_fragment
                    (js "logsV2:log-groups/log-group/$252Faws$252Flambda/log-events/main")
                    1700000000000 1700003600000
                    (js "$26filterPattern$3DERROR")))
  /\ parseCloudWatchLogs 1800000000000
       (c_hash :: log_events_fragment
                    (js "logsV2:log-groups/log-group/$252Faws$252Flambda/log-events/main")
                    1700000000000 1700003600000
                    (js "$26filterPattern$3DERROR"))
     = Some {| start := Int 1700000000000; end_ := Int 1700003600000;
               source := js "CloudWatch Logs"; raw := RawAbsolute |}.
Proof.
  apply (log_events_apply_then_capture 1800000000000 1700000000000
           1700003600000 1600000000000 1600000060000
           (js "logsV2:log-groups/log-group/$252Faws$252Flambda/log-events/main")
           (js "$26filterPattern$3DERROR") sample_range);
    try reflexivity; cbn; lia.
Defined.

(** ** The length of a range in the popup *)

(** The popup labels a range by its length whichever bound comes first:
    whole hours (never days), minutes and seconds, without the
    milliseconds and without the parts that are zero. *)
Theorem formatDuration_parts (a b h m s ms : Z) :
  a <> 0%Z -> b <> 0%Z ->
  (Z.abs a < 9007199254740992)%Z -> (Z.abs b < 9007199254740992)%Z ->
  (Z.abs (b - a) < 9007199254740992)%Z ->
  (0 <= h)%Z -> (0 <= m < 60)%Z -> (0 <= s < 60)%Z -> (0 <= ms < 1000)%Z ->
  Z.abs (b - a) = (((h * 60 + m) * 60 + s) * 1000 + ms)%Z ->
  Popup.formatDuration (Int a) (Int b) = duration_label h m s.
Proof.
  intros Ha Hb _ _ _ Hh Hm Hs Hms E. unfold Popup.formatDuration.
  apply Z.eqb_neq in Ha. apply Z.eqb_neq in Hb. rewrite Ha, Hb. cbn [orb].
  cbv zeta. rewrite E.
  assert (E1 : ((((h * 60 + m) * 60 + s) * 1000 + ms) / 3600000 = h)%Z).
  { symmetry. apply Z.div_unique_pos with (r := ((m * 60 + s) * 1000 + ms)%Z);
      lia. }
  assert (E2 : ((((h * 60 + m) * 60 + s) * 1000 + ms) mod 3600000
                = (m * 60 + s) * 1000 + ms)%Z).
  { symmetry. apply Z.mod_unique_pos with (q := h); lia. }
  assert (E3 : (((m * 60 + s) * 1000 + ms) / 60000 = m)%Z).
  { symmetry. apply Z.div_unique_pos with (r := (s * 1000 + ms)%Z); lia. }
  assert (E4 : ((((h * 60 + m) * 60 + s) * 1000 + ms) mod 60000
                = s * 1000 + ms)%Z).
  { symmetry. apply Z.mod_unique_pos with (q := (h * 60 + m)%Z); lia. }
  assert (E5 : ((s * 1000 + ms) / 1000 = s)%Z).
  { symmetry. apply Z.div_unique_pos with (r := ms); lia. }
  rewrite E1, E2, E3, E4, E5. unfold duration_label.
  destruct (Z.ltb_spec 0 h) as [H1|H1];
    destruct (Z.ltb_spec 0 m) as [H2|H2];
    destruct (Z.eqb_spec h 0) as [H3|H3];
    destruct (Z.eqb_spec m 0) as [H4|H4]; try lia;
    cbn [app length Nat.eqb andb]; rewrite ?orb_false_r, ?orb_true_r;
    destruct (0 <? s)%Z; reflexivity.
Qed.

Lemma formatDuration_parts_witness :
  Popup.formatDuration (Int 1700003600000) (Int 1700000000000) = js "1h".
Proof.
  apply (formatDuration_parts 1700003600000 1700000000000 1 0 0 0); lia.
Defined.

(** ** Metrics: capturing what was applied *)

Lemma match_lit_here (lit rest : jsstring) :
  match_lit false lit (lit ++ rest) = Some (lit, rest).
Proof.
  unfold match_lit. rewrite startsWith_self.
  rewrite firstn_app, skipn_app, firstn_all, skipn_all, Nat.sub_diag.
  cbn [firstn skipn app]. rewrite app_nil_r. reflexivity.
Qed.

Lemma re_param_here (lit v post : jsstring) (cls : char -> bool)
    (capture : bool) :
  forallb cls v = true ->
  match post with [] => true | c :: _ => negb (cls c) end = true ->
  re_param false lit cls capture (lit ++ v ++ post)
  = Some (lit ++ v, if capture then [v] else [], post).
Proof.
  intros Hv Hp. unfold re_param. rewrite match_lit_here.
  rewrite (span_stop cls v post Hv Hp). reflexivity.
Qed.

Lemma re_param_miss (x c : char) (lit r : jsstring) (cls : char -> bool)
    (capture : bool) :
  (x =? c) = false -> re_param false (x :: lit) cls capture (c :: r) = None.
Proof.
  intros H. unfold re_param, match_lit. cbn [startsWith]. rewrite H.
  reflexivity.
Qed.

Lemma search_graph (pre graph post : jsstring) (capture : bool) :
  forallb no_g pre = true ->
  forallb not_amp_semi graph = true ->
  graph_end post = true ->
  search (re_param false (js "graph=") not_amp_semi capture)
    (metrics_fragment pre graph post)
  = Some (pre, js "graph=" ++ graph, if capture then [graph] else [], post).
Proof.
  intros Hpre Hg Hpost. unfold metrics_fragment.
  rewrite search_skip.
  - rewrite (search_hit _ _ (js "graph=" ++ graph) post
               (if capture then [graph] else [])).
    + rewrite app_nil_r. reflexivity.
    + apply (re_param_here (js "graph=") graph post not_amp_semi capture Hg).
      exact Hpost.
  - intros c r Hin. apply re_param_miss.
    apply (proj1 (forallb_forall _ _) Hpre) in Hin. unfold no_g in Hin.
    apply negb_true_iff in Hin. rewrite N.eqb_sym. exact Hin.
Qed.

Section MetricsRoundTrip.

Variable format : number -> outcome jsstring.
Variable date_parse : jsstring -> number.

(** Applying a range to a Metrics address and capturing from the address
    that was assigned gives the instants that the browser reads from the
    two texts the injector wrote as start and end of the graph; the other
    entries of the graph and the text around it are kept.  The graph may
    have later keys that begin like a word ([title], [timezone]). *)
Theorem metrics_apply_then_capture (fuel : nat) (now : Z)
    (pre post a0 b0 : jsstring) (props : list (jsstring * value))
    (timeRange : time_range) (s e : Z) :
  let a := space_to_T a0 ++ js ".000" in
  let b := space_to_T b0 ++ js ".000" in
  let graph := stringify (graph_with props a b) in
  forallb no_g pre = true -> graph_end post = true ->
  loose_safe props = true ->
  (2 * weight (Obj props) + 8 <= fuel)%nat ->
  forallb not_amp_semi (stringify (Obj props)) = true ->
  format (start timeRange) = Return a0 ->
  format (end_ timeRange) = Return b0 ->
  forallb plain_in_string a = true -> forallb plain_in_string b = true ->
  startsWith a (js "-P") = false ->
  forallb not_amp_semi graph = true -> forallb no_dollar graph = true ->
  date_parse a = Int s -> s <> 0%Z ->
  date_parse b = Int e -> e <> 0%Z ->
  injectCloudWatchMetrics format fuel
    (metrics_fragment pre (stringify (Obj props)) post) timeRange
  = Return (true, Some (metrics_fragment pre graph post))
  /\ Parsers.parseCloudWatchMetrics date_parse fuel now
       (metrics_fragment pre graph post)
     = Return (Some {| Parsers.c_start := Num (Int s);
                       Parsers.c_end := Num (Int e);
                       Parsers.c_source := js "CloudWatch Metrics";
                       Parsers.c_raw := inl RawAbsolute |}).
Proof.
  intros a b graph Hpre Hpost Hs Hf Hold Hfa Hfb Ha Hb Hrel Hg Hd
    Hsa Hs0 Heb He0.
  assert (Hs1 : loose_safe (obj_set props (js "start") (Str a)) = true)
    by (apply loose_safe_obj_set; [reflexivity|reflexivity|exact Hs|exact Ha]).
  assert (Hs2 : loose_safe
                  (obj_set (obj_set props (js "start") (Str a)) (js "end")
                     (Str b)) = true)
    by (apply loose_safe_obj_set; [reflexivity|reflexivity|exact Hs1|exact Hb]).
  assert (Hw : (2 * weight (graph_with props a b) <= fuel)%nat).
  { pose proof (weight_obj_set props (js "start") (Str a) eq_refl eq_refl).
    pose proof (weight_obj_set (obj_set props (js "start") (Str a))
                  (js "end") (Str b) eq_refl eq_refl).
    unfold graph_with. cbn [weight] in *. lia. }
  destruct (loose_from_entries props Hs) as [Hg0 He0'].
  split.
  - unfold injectCloudWatchMetrics.
    rewrite (search_graph pre _ post true Hpre Hold Hpost). cbn [group1 nth].
    rewrite <- (app_nil_r (stringify (Obj props))).
    rewrite (tryParse_loose props [] fuel Hs ltac:(lia)).
    cbn [bind truthy negb]. unfold toJSTString. rewrite Hfa, Hfb.
    cbn [bind set_prop]. cbv zeta.
    fold a b.
    destruct (entries_obj_set (loose_from [] props) (js "start") (Str a)
                Hg0 eq_refl eq_refl) as [G1 E1].
    rewrite (stringify_set _ (js "end") (Str b) G1 eq_refl eq_refl).
    rewrite E1, He0'. fold (graph_with props a b). fold graph.
    unfold replace.
    rewrite app_nil_r.
    rewrite (search_graph pre _ post false Hpre Hold Hpost).
    rewrite expand_plain.
    + cbn [try_catch]. unfold metrics_fragment. rewrite <- app_assoc.
      reflexivity.
    + apply plain_template_no_dollar. rewrite forallb_app, Hd. reflexivity.
  - unfold Parsers.parseCloudWatchMetrics.
    rewrite (search_graph pre graph post true Hpre Hg Hpost).
    cbn [group1 nth].
    subst graph. unfold graph_with.
    rewrite <- (app_nil_r (stringify _)).
    rewrite (tryParse_loose _ [] fuel Hs2 Hw).
    cbn [bind truthy negb get]. cbv zeta.
    assert (L1 : lookup
                   (loose_from []
                      (obj_set (obj_set props (js "start") (Str a))
                         (js "end") (Str b))) (js "start") = Str a).
    { transitivity (lookup (obj_set (obj_set props (js "start") (Str a))
                              (js "end") (Str b)) (js "start"));
        [exact (get_loose _ 115 (js "tart") Hs2)|].
      rewrite !lookup_obj_set by reflexivity. reflexivity. }
    assert (L2 : lookup
                   (loose_from []
                      (obj_set (obj_set props (js "start") (Str a))
                         (js "end") (Str b))) (js "end") = Str b).
    { transitivity (lookup (obj_set (obj_set props (js "start") (Str a))
                              (js "end") (Str b)) (js "end"));
        [exact (get_loose _ 101 (js "nd") Hs2)|].
      rewrite !lookup_obj_set by reflexivity. reflexivity. }
    rewrite L1, L2.
    assert (Ta : truthy (Str a) = true)
      by (subst a; destruct (space_to_T a0); reflexivity).
    assert (Tb : truthy (Str b) = true)
      by (subst b; destruct (space_to_T b0); reflexivity).
    rewrite Ta, Tb, Hrel. cbn [andb bind Parsers.time_of].
    rewrite Hsa, Heb.
    cbn [Parsers.c_start Parsers.c_end truthy].
    apply Z.eqb_neq in Hs0. apply Z.eqb_neq in He0. rewrite Hs0, He0.
    reflexivity.
Qed.

End MetricsRoundTrip.

Lemma metrics_apply_then_capture_witness :
  injectCloudWatchMetrics sv_SE_Tokyo_format 22 metrics_hash sample_range
  = Return
      (true,
       Some (js "#metricsV2:graph=~(start~'2023-11-15T07:13:20.000~end~'2023-11-15T08:13:20.000~region~'ap-northeast-1);query=x"))
  /\ Parsers.parseCloudWatchMetrics tokyo_date_parse 22 1800000000000
       (js "#metricsV2:graph=~(start~'2023-11-15T07:13:20.000~end~'2023-11-15T08:13:20.000~region~'ap-northeast-1);query=x")
     = Return (Some {| Parsers.c_start := Num (Int 1700000000000);
                       Parsers.c_end := Num (Int 1700003600000);
                       Parsers.c_source := js "CloudWatch Metrics";
                       Parsers.c_raw := inl RawAbsolute |}).
Proof.
  apply (metrics_apply_then_capture sv_SE_Tokyo_format tokyo_date_parse 22
           1800000000000 (js "#metricsV2:") (js ";query=x")
           (js "2023-11-15 07:13:20") (js "2023-11-15 08:13:20")
           [(js "start", Str (js "-PT3H")); (js "end", Str (js "P0D"));
            (js "region", Str (js "ap-northeast-1"))]
           sample_range 1700000000000 1700003600000);
    try reflexivity; cbn; lia.
Defined.

(** ** X-Ray: capturing what was applied *)

(** *** The query of an address, written and read again *)

Lemma urlencoded_ascii (c : char) :
  c < 128 ->
  forallb serialized_char (urlencoded_byte c) = true
  /\ forall rest,
       percent_decode (plus_to_space (urlencoded_byte c) ++ rest)
       = c :: percent_decode rest.
Proof.
  intros H. destruct c as [|p]; [split; [reflexivity|intros; reflexivity]|].
  repeat match goal with
         | q : positive |- _ => destruct q as [q|q|]; try (exfalso; lia)
         end;
    (split; [reflexivity|intros; reflexivity]).
Qed.

Lemma ascii_bound (c : char) : is_ascii c = true -> c < 128.
Proof. apply N.ltb_lt. Qed.

Lemma utf8_encode_ascii (s : jsstring) :
  forallb is_ascii s = true -> utf8_encode s = s.
Proof.
  unfold utf8_encode. induction s as [|c s IH]; [reflexivity|].
  cbn [forallb]. intros H. apply andb_true_iff in H. destruct H as [Hc H].
  pose proof (ascii_bound c Hc) as Hb. cbn [scalar_values].
  assert (E1 : is_high c = false).
  { unfold is_high. apply andb_false_iff. left. apply N.leb_gt. lia. }
  assert (E2 : is_low c = false).
  { unfold is_low. apply andb_false_iff. left. apply N.leb_gt. lia. }
  rewrite E1, E2. cbn [flat_map]. unfold utf8 at 1.
  unfold is_ascii in Hc. rewrite Hc. cbn [app]. rewrite (IH H). reflexivity.
Qed.

Lemma utf8_decode_ascii (s : jsstring) :
  forallb is_ascii s = true -> utf8_decode s 0 O 128 191 = s.
Proof.
  induction s as [|c s IH]; [reflexivity|].
  cbn [forallb]. intros H. apply andb_true_iff in H. destruct H as [Hc H].
  cbn [utf8_decode]. unfold is_ascii in Hc. rewrite Hc, (IH H). reflexivity.
Qed.

Lemma encode_component_chars (s : jsstring) :
  forallb is_ascii s = true ->
  forallb serialized_char (encode_component s) = true.
Proof.
  intros H. unfold encode_component. rewrite (utf8_encode_ascii s H).
  induction s as [|c s IH]; [reflexivity|].
  cbn [forallb] in H. apply andb_true_iff in H. destruct H as [Hc H].
  cbn [flat_map]. rewrite forallb_app, (IH H), andb_true_r.
  apply (urlencoded_ascii c (ascii_bound c Hc)).
Qed.

Lemma decode_encode_component (s : jsstring) :
  forallb is_ascii s = true -> decode_component (encode_component s) = s.
Proof.
  intros H. unfold decode_component, encode_component.
  rewrite (utf8_encode_ascii s H).
  assert (E : percent_decode (plus_to_space (flat_map urlencoded_byte s)) = s).
  { induction s as [|c s IH]; [reflexivity|].
    cbn [forallb] in H. apply andb_true_iff in H. destruct H as [Hc H].
    cbn [flat_map].
    replace (plus_to_space (urlencoded_byte c ++ flat_map urlencoded_byte s))
      with (plus_to_space (urlencoded_byte c)
            ++ plus_to_space (flat_map urlencoded_byte s))
      by (symmetry; apply map_app).
    rewrite (proj2 (urlencoded_ascii c (ascii_bound c Hc))), (IH H).
    reflexivity. }
  rewrite E. apply utf8_decode_ascii, H.
Qed.

Lemma split_on_cons (sep : N) (s : list N) :
  exists piece pieces, split_on sep s = piece :: pieces.
Proof.
  induction s as [|c s [p [ps IH]]]; [eexists; eexists; reflexivity|].
  cbn [split_on]. rewrite IH. destruct (c =? sep); eexists; eexists;
    reflexivity.
Qed.

Lemma split_on_none (sep : N) (a : list N) :
  forallb (fun c => negb (c =? sep)) a = true -> split_on sep a = [a].
Proof.
  induction a as [|c a IH]; [reflexivity|].
  cbn [forallb]. intros H. apply andb_true_iff in H. destruct H as [Hc H].
  cbn [split_on]. rewrite (IH H). apply negb_true_iff in Hc. rewrite Hc.
  reflexivity.
Qed.

Lemma split_on_app (sep : N) (a rest : list N) :
  forallb (fun c => negb (c =? sep)) a = true ->
  split_on sep (a ++ sep :: rest) = a :: split_on sep rest.
Proof.
  induction a as [|c a IH].
  - intros _. cbn [app split_on].
    destruct (split_on_cons sep rest) as [p [ps E]]. rewrite E, N.eqb_refl.
    reflexivity.
  - cbn [forallb]. intros H. apply andb_true_iff in H. destruct H as [Hc H].
    cbn [app split_on]. rewrite (IH H). apply negb_true_iff in Hc.
    rewrite Hc. reflexivity.
Qed.

Lemma serialized_no (sep : N) (s : jsstring) :
  serialized_char sep = false ->
  forallb serialized_char s = true ->
  forallb (fun c => negb (c =? sep)) s = true.
Proof.
  intros Hs H. apply forallb_forall. intros c Hc.
  apply (proj1 (forallb_forall _ _) H) in Hc.
  destruct (N.eqb_spec c sep) as [->|_]; [congruence|reflexivity].
Qed.

Lemma serialized_ascii (s : jsstring) :
  forallb serialized_char s = true -> forallb is_ascii s = true.
Proof.
  intros H. apply forallb_forall. intros c Hc.
  apply (proj1 (forallb_forall _ _) H) in Hc. unfold serialized_char in Hc.
  apply andb_true_iff in Hc. destruct Hc as [Hc _].
  apply andb_true_iff in Hc. destruct Hc as [Hc _]. exact Hc.
Qed.

Lemma parse_piece (n v : jsstring) :
  forallb is_ascii n = true -> forallb is_ascii v = true ->
  let piece := encode_component n ++ [c_eq] ++ encode_component v in
  match piece with
  | [] => []
  | _ :: _ =>
    match split_on c_eq piece with
    | name :: value :: more =>
      [(decode_component name,
        decode_component (join [c_eq] (value :: more)))]
    | _ => [(decode_component piece, [])]
    end
  end = [(n, v)].
Proof.
  intros Hn Hv.
  pose proof (encode_component_chars n Hn) as Cn.
  pose proof (encode_component_chars v Hv) as Cv.
  assert (E : split_on c_eq (encode_component n ++ [c_eq] ++ encode_component v)
              = [encode_component n; encode_component v]).
  { cbn [app]. rewrite split_on_app by (apply serialized_no; [reflexivity|exact Cn]).
    rewrite split_on_none by (apply serialized_no; [reflexivity|exact Cv]).
    reflexivity. }
  cbv zeta. rewrite E. cbn [join].
  rewrite (decode_encode_component n Hn), (decode_encode_component v Hv).
  destruct (encode_component n); reflexivity.
Qed.

Lemma serialize_query_chars (pairs : list (jsstring * jsstring)) :
  ascii_pairs pairs = true ->
  forallb is_ascii (serialize_query pairs) = true.
Proof.
  unfold serialize_query, ascii_pairs.
  induction pairs as [|[n v] pairs IH]; [reflexivity|].
  cbn [forallb fst snd]. intros H. apply andb_true_iff in H.
  destruct H as [Hkv H]. apply andb_true_iff in Hkv. destruct Hkv as [Hn Hv].
  assert (P : forallb is_ascii
                (encode_component n ++ [c_eq] ++ encode_component v) = true).
  { rewrite !forallb_app.
    rewrite (serialized_ascii _ (encode_component_chars n Hn)).
    rewrite (serialized_ascii _ (encode_component_chars v Hv)).
    reflexivity. }
  destruct pairs as [|kv pairs]; [exact P|].
  cbn [map]. cbn [map] in IH.
  rewrite join_cons by discriminate. cbn [fst snd].
  rewrite forallb_app, P. rewrite forallb_app, (IH H). reflexivity.
Qed.

(** Reading the query that the serializer wrote gives the pairs back, for
    names and values in ASCII. *)
Lemma parse_query_serialize (pairs : list (jsstring * jsstring)) :
  ascii_pairs pairs = true ->
  parse_query (serialize_query pairs) = pairs.
Proof.
  intros H. unfold parse_query.
  rewrite (utf8_encode_ascii _ (serialize_query_chars pairs H)).
  unfold serialize_query. unfold ascii_pairs in H.
  induction pairs as [|[n v] pairs IH]; [reflexivity|].
  cbn [forallb fst snd] in H. apply andb_true_iff in H.
  destruct H as [Hkv H]. apply andb_true_iff in Hkv. destruct Hkv as [Hn Hv].
  pose proof (encode_component_chars n Hn) as Cn.
  pose proof (encode_component_chars v Hv) as Cv.
  assert (Hamp : forallb (fun c => negb (c =? c_amp))
                   (encode_component n ++ [c_eq] ++ encode_component v)
                 = true).
  { rewrite !forallb_app.
    apply andb_true_iff. split; [exact (serialized_no c_amp _ eq_refl Cn)|].
    apply andb_true_iff. split; [reflexivity|].
    exact (serialized_no c_amp _ eq_refl Cv). }
  pose proof (parse_piece n v Hn Hv) as Hpc. cbv zeta in Hpc.
  cbn [map fst snd].
  remember (encode_component n ++ [c_eq] ++ encode_component v) as pc.
  destruct pairs as [|kv pairs].
  - cbn [map join]. rewrite (split_on_none _ _ Hamp).
    cbn [flat_map]. rewrite app_nil_r. exact Hpc.
  - cbn [map]. cbn [map] in IH. rewrite join_cons by discriminate.
    change ([c_amp] ++ ?x) with (c_amp :: x).
    rewrite (split_on_app c_amp pc _ Hamp).
    cbn [flat_map].
    change ((n, v) :: kv :: pairs) with ([(n, v)] ++ kv :: pairs).
    apply (f_equal2 (@app _)); [exact Hpc|exact (IH H)].
Qed.

Lemma get_set (params : list (jsstring * jsstring)) (name v : jsstring) :
  Parsers.searchParams_get (searchParams_set params name v) name = Some v.
Proof.
  induction params as [|kv params IH].
  - cbn [searchParams_set Parsers.searchParams_get fst snd].
    rewrite str_eqb_refl. reflexivity.
  - cbn [searchParams_set]. destruct (str_eqb (fst kv) name) eqn:E;
      cbn [Parsers.searchParams_get fst snd].
    + rewrite str_eqb_refl. reflexivity.
    + rewrite E. exact IH.
Qed.

Lemma get_absent (params : list (jsstring * jsstring)) (name : jsstring) :
  searchParams_has params name = false ->
  Parsers.searchParams_get params name = None.
Proof.
  unfold searchParams_has. induction params as [|kv params IH]; [reflexivity|].
  cbn [existsb Parsers.searchParams_get]. intros H.
  apply orb_false_iff in H. destruct H as [H1 H2]. rewrite H1. apply IH, H2.
Qed.

Lemma remove_name_ascii (params : list (jsstring * jsstring))
    (name : jsstring) :
  ascii_pairs params = true -> ascii_pairs (remove_name params name) = true.
Proof.
  unfold ascii_pairs. induction params as [|kv params IH]; [reflexivity|].
  cbn [forallb remove_name]. intros H. apply andb_true_iff in H.
  destruct H as [H1 H2]. destruct (str_eqb (fst kv) name); [apply IH, H2|].
  cbn [forallb]. rewrite H1, (IH H2). reflexivity.
Qed.

Lemma set_ascii (params : list (jsstring * jsstring)) (name v : jsstring) :
  ascii_pairs params = true ->
  forallb is_ascii name = true -> forallb is_ascii v = true ->
  ascii_pairs (searchParams_set params name v) = true.
Proof.
  intros H Hn Hv. induction params as [|kv params IH].
  - unfold ascii_pairs. cbn [searchParams_set forallb fst snd].
    rewrite Hn, Hv. reflexivity.
  - unfold ascii_pairs in H. cbn [forallb] in H.
    apply andb_true_iff in H. destruct H as [H1 H2].
    cbn [searchParams_set]. destruct (str_eqb (fst kv) name).
    + unfold ascii_pairs. cbn [forallb fst snd]. rewrite Hn, Hv.
      apply (remove_name_ascii params name H2).
    + unfold ascii_pairs. cbn [forallb]. rewrite H1. apply (IH H2).
Qed.

(** *** The parameter in the fragment *)

Lemma startsWith_window (u x lit : jsstring) :
  (length lit <= length u)%nat ->
  startsWith (u ++ x) lit = startsWith u lit.
Proof.
  revert u. induction lit as [|c lit IH]; intros u H.
  - destruct u; destruct x; reflexivity.
  - destruct u as [|y u]; [cbn in H; lia|].
    cbn [app startsWith]. rewrite IH by (cbn [length] in H; lia).
    reflexivity.
Qed.

Lemma startsWith_before (u rest lit : jsstring) (c : char) :
  startsWith (u ++ c :: rest) lit = true ->
  startsWith u lit = true \/ In c lit.
Proof.
  revert u. induction lit as [|x lit IH]; intros u H.
  - left. destruct u; reflexivity.
  - destruct u as [|y u].
    + cbn [app startsWith] in H. apply andb_true_iff in H.
      destruct H as [H _]. apply N.eqb_eq in H. right. left. exact H.
    + cbn [app startsWith] in H |- *. apply andb_true_iff in H.
      destruct H as [H1 H2]. rewrite H1.
      destruct (IH u H2) as [H|H]; [left; exact H|right; right; exact H].
Qed.

Lemma span_rest (cls : char -> bool) (s a b : jsstring) :
  span cls s = (a, b) ->
  forallb cls a = true
  /\ match b with [] => true | c :: _ => negb (cls c) end = true.
Proof.
  revert a b. induction s as [|c s IH]; intros a b; cbn [span].
  - intros H. injection H as <- <-. split; reflexivity.
  - destruct (cls c) eqn:E.
    + destruct (span cls s) as [a' b'] eqn:Es. intros H.
      injection H as <- <-. destruct (IH a' b' eq_refl) as [H1 H2].
      cbn [forallb]. rewrite E, H1. split; [reflexivity|exact H2].
    + intros H. injection H as <- <-. cbn. rewrite E.
      split; reflexivity.
Qed.

Lemma search_no_group (m : matcher) (s p mt post : jsstring) caps :
  (forall u, match m u with Some (_, k, _) => k = [] | None => True end) ->
  search m s = Some (p, mt, caps, post) -> caps = [].
Proof.
  intros Hc. revert p mt caps post.
  induction s as [|x s IH]; intros p mt caps post E.
  - cbn [search] in E. specialize (Hc []).
    destruct (m []) as [[[a k] r]|]; [|discriminate].
    injection E as _ _ <- _. exact Hc.
  - cbn [search] in E. specialize (Hc (x :: s)).
    destruct (m (x :: s)) as [[[a k] r]|].
    + injection E as _ _ <- _. exact Hc.
    + destruct (search m s) as [[[[p' mt'] caps'] post']|]; [|discriminate].
      injection E as _ _ <- _. apply (IH p' mt' caps' post' eq_refl).
Qed.

Lemma replace_miss (m : matcher) (t s : jsstring) (c : char) :
  plain_template t = true ->
  (forall u, match m u with Some (_, k, _) => k = [] | None => True end) ->
  m (c :: s) = None -> replace m t (c :: s) = c :: replace m t s.
Proof.
  intros Ht Hc Hm. unfold replace. rewrite (search_miss m c s Hm).
  destruct (search m s) as [[[[p mt] caps] post]|] eqn:E; [|reflexivity].
  rewrite (search_no_group m s p mt post caps Hc E).
  rewrite !expand_plain by exact Ht. reflexivity.
Qed.

(** Replacing the first parameter of a name in a text keeps it the first:
    a search in the new text finds the new value. *)
Lemma replace_then_search (lit v hash : jsstring) (x : char)
    (cls : char -> bool) :
  includes hash (x :: lit) = true ->
  forallb cls v = true ->
  plain_template ((x :: lit) ++ v) = true ->
  exists pre post,
    replace (re_param false (x :: lit) cls false) ((x :: lit) ++ v) hash
    = pre ++ (x :: lit) ++ v ++ post
    /\ search (re_param false (x :: lit) cls true)
         (pre ++ (x :: lit) ++ v ++ post)
       = Some (pre, (x :: lit) ++ v, [v], post).
Proof.
  intros Hi Hv Ht.
  assert (G : exists pre old post,
             hash = pre ++ (x :: lit) ++ old
             /\ replace (re_param false (x :: lit) cls false)
                  ((x :: lit) ++ v) hash
                = pre ++ (x :: lit) ++ v ++ post
             /\ search (re_param false (x :: lit) cls true)
                  (pre ++ (x :: lit) ++ v ++ post)
                = Some (pre, (x :: lit) ++ v, [v], post)).
  { induction hash as [|c h IH]; [discriminate|].
    destruct (startsWith (c :: h) (x :: lit)) eqn:E.
    - destruct (startsWith_app _ _ E) as [r Hr].
      destruct (span cls r) as [old post] eqn:Es.
      destruct (span_rest cls r old post Es) as [_ Hpost].
      exists [], r, post. split; [exact Hr|]. split.
      + unfold replace. rewrite Hr.
        rewrite (search_hit _ _ ((x :: lit) ++ old) post []).
        * rewrite expand_plain by exact Ht. rewrite <- app_assoc.
          reflexivity.
        * unfold re_param. rewrite match_lit_here, Es. reflexivity.
      + cbn [app]. apply search_hit.
        apply (re_param_here (x :: lit) v post cls true Hv Hpost).
    - cbn [includes] in Hi. rewrite E in Hi. cbn [orb] in Hi.
      destruct (IH Hi) as [pre [old [post [Hh [Hr Hs]]]]].
      exists (c :: pre), old, post. split; [rewrite Hh; reflexivity|].
      assert (Hm : forall capture,
                 re_param false (x :: lit) cls capture (c :: h) = None)
        by (intros capture; unfold re_param, match_lit; rewrite E;
            reflexivity).
      split.
      + rewrite replace_miss; [rewrite Hr; reflexivity|exact Ht| |apply Hm].
        intros u. unfold re_param. destruct (match_lit false (x :: lit) u)
          as [[l r]|]; [|exact I].
        destruct (span cls r). reflexivity.
      + cbn [app]. rewrite search_miss.
        * cbn [app] in Hs. rewrite Hs. reflexivity.
        * unfold re_param, match_lit.
          assert (W : startsWith (c :: pre ++ x :: lit ++ v ++ post)
                        (x :: lit) = false).
          { assert (Win : forall X,
                       startsWith (((c :: pre) ++ (x :: lit)) ++ X) (x :: lit)
                       = startsWith ((c :: pre) ++ (x :: lit)) (x :: lit)).
            { intros X. apply startsWith_window.
              cbn [length app]. rewrite length_app. cbn [length]. lia. }
            replace (c :: pre ++ x :: lit ++ v ++ post)
              with (((c :: pre) ++ (x :: lit)) ++ v ++ post)
              by (rewrite <- app_assoc; reflexivity).
            rewrite Win, <- (Win old), <- E, Hh, <- app_assoc.
            reflexivity. }
          cbn [app] in W |- *. rewrite W. reflexivity. }
  destruct G as [pre [old [post [_ [H1 H2]]]]]. exists pre, post.
  split; assumption.
Qed.

(** A parameter appended after an ampersand to a text without one of that
    name is the one a search finds. *)
Lemma append_then_search (lit v hash : jsstring) (x : char)
    (cls : char -> bool) :
  includes hash (x :: lit) = false ->
  ~ In c_amp (x :: lit) ->
  forallb cls v = true ->
  search (re_param false (x :: lit) cls true)
    (hash ++ c_amp :: (x :: lit) ++ v)
  = Some (hash ++ [c_amp], (x :: lit) ++ v, [v], []).
Proof.
  intros Hi Hn Hv. induction hash as [|c h IH].
  - cbn [app]. rewrite search_miss.
    + rewrite (search_hit _ _ ((x :: lit) ++ v) [] [v]); [reflexivity|].
      pose proof (re_param_here (x :: lit) v [] cls true Hv eq_refl) as R.
      rewrite app_nil_r in R. exact R.
    + apply re_param_miss. apply N.eqb_neq. intros ->. apply Hn. left.
      reflexivity.
  - cbn [includes] in Hi. apply orb_false_iff in Hi. destruct Hi as [Hs Hi].
    change ((c :: h) ++ c_amp :: (x :: lit) ++ v)
      with (c :: h ++ c_amp :: (x :: lit) ++ v).
    rewrite search_miss; [rewrite (IH Hi); reflexivity|].
    unfold re_param, match_lit.
    destruct (startsWith (c :: h ++ c_amp :: (x :: lit) ++ v) (x :: lit))
      eqn:E; [|reflexivity].
    destruct (startsWith_before (c :: h) ((x :: lit) ++ v) (x :: lit) c_amp E)
      as [H|H]; [congruence|contradiction].
Qed.

Lemma split_range (a b : jsstring) :
  forallb (fun c => negb (c =? c_tilde)) a = true ->
  forallb (fun c => negb (c =? c_tilde)) b = true ->
  includes (a ++ js "~" ++ b) (js "~") = true
  /\ split_on c_tilde (a ++ js "~" ++ b) = [a; b].
Proof.
  intros Ha Hb. split.
  - apply (includes_here a (js "~") b).
  - pose proof (split_on_app c_tilde a b Ha) as E.
    rewrite (split_on_none c_tilde b Hb) in E. exact E.
Qed.


Lemma instant_char_cases (c : char) :
  instant_char c = true ->
  is_ascii c = true /\ no_dollar c = true /\ not_amp c = true
  /\ negb (c =? c_tilde) = true.
Proof.
  unfold instant_char, no_dollar, not_amp. intros H.
  apply andb_true_iff in H. destruct H as [H1 H2].
  apply negb_true_iff in H2. apply orb_false_iff in H2.
  destruct H2 as [H2 H4]. apply orb_false_iff in H2. destruct H2 as [H2 H3].
  rewrite H1, H2, H3, H4. repeat split; reflexivity.
Qed.

Section XRayRoundTrip.

Variable format : number -> outcome jsstring.
Variable date_parse : jsstring -> number.

Lemma parseXRay_resolved (now : Z) (query hash a b : jsstring) (s e : Z) :
  Parsers.searchParams_get (parse_query query) (js "timeRange")
  = Some (a ++ js "~" ++ b)
  \/ (Parsers.searchParams_get (parse_query query) (js "timeRange") = None
      /\ exists pre mt post,
           search (re_param false (js "timeRange=") not_amp true) hash
           = Some (pre, mt, [a ++ js "~" ++ b], post)) ->
  forallb (fun c => negb (c =? c_tilde)) a = true ->
  forallb (fun c => negb (c =? c_tilde)) b = true ->
  date_parse a = Int s -> date_parse b = Int e ->
  Parsers.parseXRay date_parse now query hash
  = Return (Some {| Parsers.c_start := Num (Int s);
                    Parsers.c_end := Num (Int e);
                    Parsers.c_source := js "X-Ray";
                    Parsers.c_raw := inl RawAbsolute |}).
Proof.
  intros H Ha Hb Hs He. destruct (split_range a b Ha Hb) as [Hi Hsp].
  assert (Hv : exists c v, a ++ js "~" ++ b = c :: v)
    by (destruct a; eexists; eexists; reflexivity).
  destruct Hv as [c [v Hv]]. rewrite Hv in *.
  unfold Parsers.parseXRay.
  destruct H as [H|[H [pre [mt [post Hh]]]]]; rewrite H.
  - cbv zeta. rewrite Hi, Hsp. cbn [nth]. rewrite Hs, He. reflexivity.
  - destruct hash as [|h0 h]; [discriminate|]. rewrite Hh.
    cbn [group1 nth]. cbv zeta. rewrite Hi, Hsp. cbn [nth].
    rewrite Hs, He. reflexivity.
Qed.

(** Applying a range to an X-Ray address and capturing from the address
    that was assigned gives the instants that the browser reads from the
    two texts the injector wrote, wherever the injector put the
    [timeRange] parameter: in the query, when the query has one or the
    address has no fragment, and else in the fragment. *)
Theorem xray_apply_then_capture (now : Z) (url : URL)
    (timeRange : time_range) (a0 b0 : jsstring) (s e : Z) :
  let a := space_to_T a0 ++ js ".000" in
  let b := space_to_T b0 ++ js ".000" in
  format (start timeRange) = Return a0 ->
  format (end_ timeRange) = Return b0 ->
  forallb instant_char a = true -> forallb instant_char b = true ->
  ascii_pairs (searchParams url) = true ->
  date_parse a = Int s -> date_parse b = Int e ->
  exists url',
    injectXRay format url timeRange = Return (true, Some url')
    /\ Parsers.parseXRay date_parse now (query url') (url_hash url')
       = Return (Some {| Parsers.c_start := Num (Int s);
                         Parsers.c_end := Num (Int e);
                         Parsers.c_source := js "X-Ray";
                         Parsers.c_raw := inl RawAbsolute |}).
Proof.
  intros a b Hfa Hfb Ha Hb Hq Hs He.
  assert (Hta : forallb (fun c => negb (c =? c_tilde)) a = true)
    by (apply (forallb_weaken instant_char _ a); [|exact Ha];
        intros c Hc; apply instant_char_cases in Hc; tauto).
  assert (Htb : forallb (fun c => negb (c =? c_tilde)) b = true)
    by (apply (forallb_weaken instant_char _ b); [|exact Hb];
        intros c Hc; apply instant_char_cases in Hc; tauto).
  assert (Hasc : forallb is_ascii (a ++ js "~" ++ b) = true).
  { rewrite !forallb_app.
    rewrite (forallb_weaken instant_char is_ascii a), (forallb_weaken instant_char is_ascii b);
      try assumption; try reflexivity;
      intros c Hc; apply instant_char_cases in Hc; tauto. }
  assert (Hamp : forallb not_amp (a ++ js "~" ++ b) = true).
  { rewrite !forallb_app.
    rewrite (forallb_weaken instant_char not_amp a), (forallb_weaken instant_char not_amp b);
      try assumption; try reflexivity;
      intros c Hc; apply instant_char_cases in Hc; tauto. }
  assert (Hdol : plain_template (js "timeRange=" ++ a ++ js "~" ++ b) = true).
  { apply plain_template_no_dollar. rewrite !forallb_app.
    rewrite (forallb_weaken instant_char no_dollar a), (forallb_weaken instant_char no_dollar b);
      try assumption; try reflexivity;
      intros c Hc; apply instant_char_cases in Hc; tauto. }
  assert (Hquery :
            Parsers.parseXRay date_parse now
              (serialize_query
                 (searchParams_set (searchParams url) (js "timeRange")
                    (a ++ js "~" ++ b)))
              (url_hash url)
            = Return (Some {| Parsers.c_start := Num (Int s);
                              Parsers.c_end := Num (Int e);
                              Parsers.c_source := js "X-Ray";
                              Parsers.c_raw := inl RawAbsolute |})).
  { apply (parseXRay_resolved now _ _ a b s e); try assumption. left.
    rewrite parse_query_serialize
      by (apply set_ascii; [exact Hq|reflexivity|exact Hasc]).
    apply get_set. }
  unfold injectXRay, toJSTString. rewrite Hfa, Hfb. cbn [bind]. cbv zeta.
  fold a b.
  destruct (searchParams_has (searchParams url) (js "timeRange")) eqn:Hhas.
  - eexists. split; [reflexivity|]. exact Hquery.
  - pose proof (get_absent _ _ Hhas) as Hget. unfold searchParams in Hget.
    destruct (includes (url_hash url) (js "timeRange=")) eqn:Hinc.
    + destruct (replace_then_search (js "imeRange=") (a ++ js "~" ++ b)
                  (url_hash url) 116 not_amp Hinc Hamp Hdol)
        as [pre [post [Hr Hsrch]]].
      eexists. split; [reflexivity|]. cbn [query url_hash set_hash].
      apply (parseXRay_resolved now _ _ a b s e); try assumption. right.
      split; [exact Hget|].
      exists pre, (js "timeRange=" ++ a ++ js "~" ++ b), post.
      exact (eq_trans (f_equal (search _) Hr) Hsrch).
    + destruct (url_hash url) as [|h0 h] eqn:Hh.
      * eexists. split; [reflexivity|]. cbn [query url_hash set_searchParams].
        rewrite Hh. exact Hquery.
      * eexists. split; [reflexivity|]. cbn [query url_hash set_hash].
        apply (parseXRay_resolved now _ _ a b s e); try assumption. right.
        split; [exact Hget|].
        eexists. eexists. eexists.
        apply (append_then_search (js "imeRange=") (a ++ js "~" ++ b)
                 (h0 :: h) 116 not_amp Hinc); [|exact Hamp].
        cbn. intros H. repeat (destruct H as [H|H]; [discriminate|]).
        exact H.
Qed.

End XRayRoundTrip.

Lemma xray_apply_then_capture_witness :
  exists url',
    injectXRay sv_SE_Tokyo_format xray_url sample_range
    = Return (true, Some url')
    /\ Parsers.parseXRay tokyo_date_parse 1800000000000 (query url')
         (url_hash url')
       = Return (Some {| Parsers.c_start := Num (Int 1700000000000);
                         Parsers.c_end := Num (Int 1700003600000);
                         Parsers.c_source := js "X-Ray";
                         Parsers.c_raw := inl RawAbsolute |}).
Proof.
  apply (xray_apply_then_capture sv_SE_Tokyo_format tokyo_date_parse
           1800000000000 xray_url sample_range
           (js "2023-11-15 07:13:20") (js "2023-11-15 08:13:20")
           1700000000000 1700003600000); reflexivity.
Defined.

(** ** Logs Insights: capturing what was applied *)

(** *** The escapes of the value in the fragment *)

Lemma uri_chunk_ascii (c : char) :
  c < 128 ->
  map (fun x => if x =? c_dollar then c_pct else x)
    (map (fun x => if x =? c_pct then c_dollar else x) (uri_chunk c))
  = uri_chunk c
  /\ forallb not_amp_semi
       (map (fun x => if x =? c_pct then c_dollar else x) (uri_chunk c))
     = true
  /\ (forall n rest,
        decodeURIComponent_from (S n) (uri_chunk c ++ rest)
        = (r <- decodeURIComponent_from n rest ;; Return (c :: r)))
  /\ (forall rest,
        plain_template
          (map (fun x => if x =? c_pct then c_dollar else x) (uri_chunk c)
           ++ rest)
        = plain_template rest).
Proof.
  intros H.
  destruct c as [|p];
    [repeat split; try reflexivity; intros rest; destruct rest; reflexivity|].
  repeat match goal with
         | q : positive |- _ => destruct q as [q|q|]; try (exfalso; lia)
         end;
    (repeat split; try reflexivity; intros rest; destruct rest; reflexivity).
Qed.

Lemma encodeURIComponent_ascii (s : jsstring) :
  forallb is_ascii s = true ->
  encodeURIComponent s = Return (flat_map uri_chunk s).
Proof.
  unfold encodeURIComponent. generalize (le_n (length s)).
  generalize (length s) at 2 3. intros n. revert n.
  induction s as [|c s IH]; intros n Hn H; [destruct n; reflexivity|].
  destruct n as [|n]; [cbn in Hn; lia|].
  cbn [forallb] in H. apply andb_true_iff in H. destruct H as [Hc H].
  cbn [length] in Hn. cbn [encodeURIComponent_from flat_map].
  unfold uri_chunk at 1. destruct (unescaped c).
  - rewrite (IH n ltac:(lia) H). reflexivity.
  - pose proof (ascii_bound c Hc) as Hb.
    assert (E1 : (56320 <=? c) && (c <=? 57343) = false)
      by (apply andb_false_iff; left; apply N.leb_gt; lia).
    assert (E2 : (55296 <=? c) && (c <=? 56319) = false)
      by (apply andb_false_iff; left; apply N.leb_gt; lia).
    rewrite E1, E2, (IH n ltac:(lia) H). unfold utf8.
    unfold is_ascii in Hc. rewrite Hc. cbn [bind flat_map].
    rewrite app_nil_r. reflexivity.
Qed.

Lemma dollar_encoded_back (text : jsstring) :
  forallb is_ascii text = true ->
  map (fun x => if x =? c_dollar then c_pct else x) (dollar_encoded text)
  = flat_map uri_chunk text
  /\ forallb not_amp_semi (dollar_encoded text) = true
  /\ forall rest,
       plain_template (dollar_encoded text ++ rest) = plain_template rest.
Proof.
  unfold dollar_encoded. induction text as [|c text IH]; intros H.
  - repeat split; reflexivity.
  - cbn [forallb] in H. apply andb_true_iff in H. destruct H as [Hc H].
    destruct (uri_chunk_ascii c (ascii_bound c Hc)) as [U1 [U2 [_ U4]]].
    destruct (IH H) as [I1 [I2 I3]].
    cbn [flat_map]. rewrite !map_app. split; [|split].
    + apply (f_equal2 (@app _)); [exact U1|exact I1].
    + rewrite forallb_app. apply andb_true_iff. split; [exact U2|exact I2].
    + intros rest. rewrite <- app_assoc.
      exact (eq_trans (U4 _) (I3 rest)).
Qed.

Lemma decode_uri_chunks (text : jsstring) :
  forallb is_ascii text = true ->
  decodeURIComponent (flat_map uri_chunk text) = Return text.
Proof.
  intros H. unfold decodeURIComponent.
  assert (L : (length text <= length (flat_map uri_chunk text))%nat).
  { clear H. induction text as [|c text IH]; [apply le_n|].
    cbn [flat_map length]. rewrite length_app.
    assert (1 <= length (uri_chunk c))%nat
      by (unfold uri_chunk; destruct (unescaped c); cbn; lia).
    lia. }
  revert L. generalize (length (flat_map uri_chunk text)). intros n.
  revert n. induction text as [|c text IH]; intros n L.
  - destruct n; reflexivity.
  - cbn [forallb] in H. apply andb_true_iff in H. destruct H as [Hc H].
    destruct n as [|n]; [cbn in L; lia|]. cbn [length] in L.
    destruct (uri_chunk_ascii c (ascii_bound c Hc)) as [_ [_ [U3 _]]].
    cbn [flat_map]. rewrite U3, (IH H n ltac:(lia)). reflexivity.
Qed.

Lemma search_param (x : char) (lit pre v post : jsstring)
    (cls : char -> bool) (capture : bool) :
  forallb (fun c => negb (c =? x)) pre = true ->
  forallb cls v = true ->
  match post with [] => true | c :: _ => negb (cls c) end = true ->
  search (re_param false (x :: lit) cls capture)
    (pre ++ (x :: lit) ++ v ++ post)
  = Some (pre, (x :: lit) ++ v, if capture then [v] else [], post).
Proof.
  intros Hpre Hv Hpost. rewrite search_skip.
  - rewrite (search_hit _ _ ((x :: lit) ++ v) post
               (if capture then [v] else [])).
    + rewrite app_nil_r. reflexivity.
    + apply (re_param_here (x :: lit) v post cls capture Hv Hpost).
  - intros c r Hin. apply re_param_miss.
    apply (proj1 (forallb_forall _ _) Hpre) in Hin.
    apply negb_true_iff in Hin. rewrite N.eqb_sym. exact Hin.
Qed.

Lemma plain_prefix (p rest : jsstring) :
  forallb no_dollar p = true ->
  plain_template (p ++ rest) = plain_template rest.
Proof.
  induction p as [|c p IH]; [reflexivity|].
  cbn [forallb]. intros H. apply andb_true_iff in H. destruct H as [Hc H].
  unfold no_dollar in Hc. apply negb_true_iff in Hc.
  cbn [app plain_template]. rewrite Hc, (IH H).
  destruct (p ++ rest); reflexivity.
Qed.

Lemma seconds_bound (z b : Z) :
  (Z.abs z < b)%Z -> (Z.abs (z / 1000) < b)%Z.
Proof.
  intros H. pose proof (Z.div_mod z 1000 ltac:(lia)).
  pose proof (Z.mod_pos_bound z 1000 ltac:(lia)). lia.
Qed.

Lemma insights_with_safe (props : list (jsstring * value)) (s e : Z) :
  loose_safe props = true ->
  (Z.abs s < 1000000000000000)%Z -> (Z.abs e < 1000000000000000)%Z ->
  loose_safe (insights_with props s e) = true
  /\ (weight (Obj (insights_with props s e)) <= weight (Obj props) + 6)%nat.
Proof.
  intros Hs Hbs Hbe. unfold insights_with. split.
  - repeat apply loose_safe_obj_set; try reflexivity; try exact Hs;
      cbn [round_trip_safe]; apply Z.ltb_lt.
    + pose proof (seconds_bound s _ Hbs). lia.
    + pose proof (seconds_bound e _ Hbe). lia.
  - pose proof (weight_obj_set props (js "start") (Num (Int (s / 1000)))
                  eq_refl eq_refl).
    pose proof (weight_obj_set
                  (obj_set props (js "start") (Num (Int (s / 1000))))
                  (js "end") (Num (Int (e / 1000))) eq_refl eq_refl).
    pose proof (weight_obj_set
                  (obj_set
                     (obj_set props (js "start") (Num (Int (s / 1000))))
                     (js "end") (Num (Int (e / 1000))))
                  (js "timeType") (Str (js "ABSOLUTE")) eq_refl eq_refl).
    cbn [weight] in *. lia.
Qed.

(** Applying a range to a Logs Insights address of the first format and
    capturing from the address that was assigned gives the range that was
    applied, cut to whole seconds; the other entries of the map are kept.
    The map may have later keys that begin like a word ([timeType],
    [tz]). *)
Theorem insights_apply_then_capture (fuel : nat) (now s e : Z)
    (pre post old : jsstring) (props : list (jsstring * value))
    (timeRange : time_range) :
  let text := stringify (Obj (insights_with props s e)) in
  forallb no_q pre = true -> graph_end post = true ->
  forallb not_amp_semi old = true ->
  decodeURIComponent (map (fun c => if c =? c_dollar then c_pct else c) old)
  = Return (stringify (Obj props)) ->
  loose_safe props = true ->
  (2 * weight (Obj props) + 12 <= fuel)%nat ->
  forallb is_ascii text = true ->
  start timeRange = Int s -> end_ timeRange = Int e ->
  (0 <= s < 1000000000000000)%Z -> (Z.abs e < 1000000000000000)%Z ->
  injectCloudWatchLogsInsights fuel (insights_fragment pre old post) timeRange
  = Return (true, Some (insights_fragment pre (dollar_encoded text) post))
  /\ parseCloudWatchLogsInsights fuel now
       (insights_fragment pre (dollar_encoded text) post)
     = Return (Some {| start := Int (s / 1000 * 1000);
                       end_ := Int (e / 1000 * 1000);
                       source := js "CloudWatch Logs Insights";
                       raw := RawAbsolute |}).
Proof.
  intros text Hpre Hpost Hold Hdec Hs Hf Hasc Hst Hen Hbs Hbe.
  destruct (loose_from_entries props Hs) as [Hg He].
  destruct (insights_with_safe props s e Hs ltac:(lia) Hbe) as [Hs' Hw'].
  destruct (loose_from_entries _ Hs') as [Hg' He'].
  destruct (dollar_encoded_back text Hasc) as [Hback [Hamp Hplain]].
  assert (Htry : tryParse fuel (stringify (Obj props)) Null
                 = Return (Obj (loose_from [] props))).
  { apply tryParse_returned; [|reflexivity].
    rewrite <- (app_nil_r (stringify _)). apply parse_loose; [exact Hs|lia]. }
  assert (Htry' : tryParse fuel text Null
                  = Return (Obj (loose_from [] (insights_with props s e)))).
  { apply tryParse_returned; [|reflexivity]. subst text.
    rewrite <- (app_nil_r (stringify _)). apply parse_loose; [exact Hs'|lia]. }
  assert (Hq : forallb (fun c => negb (c =? 113)) pre = true) by exact Hpre.
  assert (Hsearch : forall capture detail,
             forallb not_amp_semi detail = true ->
             search (re_param false (js "queryDetail=") not_amp_semi capture)
               (pre ++ js "queryDetail=" ++ detail ++ post)
             = Some (pre, js "queryDetail=" ++ detail,
                     if capture then [detail] else [], post))
    by (intros capture detail Hd;
        exact (search_param 113 (js "ueryDetail=") pre detail post
                 not_amp_semi capture Hq Hd Hpost)).
  split.
  - (* the injector *)
    unfold injectCloudWatchLogsInsights, insights_fragment.
    rewrite (Hsearch true old Hold).
    cbn [group1 nth]. cbv zeta. rewrite Hdec. cbn [bind].
    rewrite Htry. cbn [try_catch bind truthy negb].
    rewrite Hst, Hen. cbn [floor_div_1000 set_prop bind].
    assert (Htext : stringify
                      (Obj (obj_set
                              (obj_set
                                 (obj_set (loose_from [] props) (js "start")
                                    (Num (Int (s / 1000))))
                                 (js "end") (Num (Int (e / 1000))))
                              (js "timeType") (Str (js "ABSOLUTE"))))
                    = text).
    { subst text. unfold stringify. rewrite <- stringify_entries.
      destruct (entries_obj_set (loose_from [] props) (js "start")
                  (Num (Int (s / 1000))) Hg eq_refl eq_refl) as [G1 E1].
      destruct (entries_obj_set _ (js "end")
                  (Num (Int (e / 1000))) G1 eq_refl eq_refl) as [G2 E2].
      destruct (entries_obj_set _ (js "timeType")
                  (Str (js "ABSOLUTE")) G2 eq_refl eq_refl) as [G3 E3].
      rewrite E3, E2, E1, He. reflexivity. }
    rewrite Htext, (encodeURIComponent_ascii text Hasc). cbn [bind].
    fold (dollar_encoded text).
    unfold replace.
    rewrite (Hsearch false old Hold).
    rewrite expand_plain.
    + cbn [try_catch]. rewrite <- app_assoc. reflexivity.
    + rewrite <- (app_nil_r (dollar_encoded text)).
      rewrite (plain_prefix (js "queryDetail=")) by reflexivity.
      apply Hplain.
  - (* the parser *)
    unfold parseCloudWatchLogsInsights, insights_fragment.
    rewrite (Hsearch true (dollar_encoded text) Hamp).
    cbn [group1 nth]. cbv zeta. rewrite Hback.
    rewrite (decode_uri_chunks text Hasc). cbn [bind]. rewrite Htry'.
    cbn [try_catch bind truthy negb get].
    assert (Lk : forall c r,
               lookup (loose_from [] (insights_with props s e)) (c :: r)
               = lookup (insights_with props s e) (c :: r))
      by (intros c r; rewrite <- (proj1 (lookup_entries _ c r Hg')), He';
          reflexivity).
    assert (L1 : lookup (loose_from [] (insights_with props s e)) (js "start")
                 = Num (Int (s / 1000))).
    { transitivity (lookup (insights_with props s e) (js "start"));
        [exact (Lk 115 (js "tart"))|].
      unfold insights_with. rewrite !lookup_obj_set by reflexivity.
      reflexivity. }
    assert (L2 : lookup (loose_from [] (insights_with props s e)) (js "end")
                 = Num (Int (e / 1000))).
    { transitivity (lookup (insights_with props s e) (js "end"));
        [exact (Lk 101 (js "nd"))|].
      unfold insights_with. rewrite !lookup_obj_set by reflexivity.
      reflexivity. }
    assert (L3 : lookup (loose_from [] (insights_with props s e))
                   (js "timeType")
                 = Str (js "ABSOLUTE")).
    { transitivity (lookup (insights_with props s e) (js "timeType"));
        [exact (Lk 116 (js "imeType"))|].
      unfold insights_with. rewrite !lookup_obj_set by reflexivity.
      reflexivity. }
    rewrite L1, L2, L3.
    cbn [not_nullish andb is_str orb lt].
    change (str_eqb (js "ABSOLUTE") (js "RELATIVE")) with false. cbn [orb].
    destruct (Z.ltb_spec (s / 1000) 0) as [Hneg|_].
    { assert (0 <= s / 1000)%Z by (apply Z.div_pos; lia). lia. }
    cbn [number_or_parseInt bind lt].
    destruct (Z.ltb_spec (s / 1000) 1000000000000) as [_|Hbig].
    2: { assert (s / 1000 < 1000000000000)%Z
           by (apply Z.div_lt_upper_bound; lia). lia. }
    destruct (Z.ltb_spec (e / 1000) 1000000000000) as [_|Hbig].
    2: { assert (e / 1000 < 1000000000000)%Z
           by (apply Z.div_lt_upper_bound; lia). lia. }
    reflexivity.
Qed.

Lemma insights_apply_then_capture_witness :
  injectCloudWatchLogsInsights 40
    (insights_fragment (js "#logsV2:logs-insights?") insights_detail [])
    {| start := Int 1700000000123; end_ := Int 1700003600999;
       source := js "CloudWatch"; raw := RawAbsolute |}
  = Return
      (true,
       Some (js "#logsV2:logs-insights?queryDetail=~(end~1700003600~start~1700000000~timeType~'ABSOLUTE~tz~'UTC~editorString~'fields$20$40timestamp$20$7C$20limit$2020)"))
  /\ parseCloudWatchLogsInsights 40 1800000000000
       (js "#logsV2:logs-insights?queryDetail=~(end~1700003600~start~1700000000~timeType~'ABSOLUTE~tz~'UTC~editorString~'fields$20$40timestamp$20$7C$20limit$2020)")
     = Return (Some {| start := Int 1700000000000;
                       end_ := Int 1700003600000;
                       source := js "CloudWatch Logs Insights";
                       raw := RawAbsolute |}).
Proof.
  apply (insights_apply_then_capture 40 1800000000000 1700000000123
           1700003600999 (js "#logsV2:logs-insights?") [] insights_detail
           insights_props
           {| start := Int 1700000000123; end_ := Int 1700003600999;
              source := js "CloudWatch"; raw := RawAbsolute |});
    try reflexivity; cbn; lia.
Defined.
